(* ===== verification/_CoqProject ===== *)
-Q . S2P
Prelude.v
RustStr.v
Random.v
Hash.v
Raw.v
PgpOptions.v
PgpText.v
Modern.v
Password.v
ArmorFormat.v
Armor.v
PgpMessage.v
PgpToy.v
PgpHelpers.v
PgpRoundtrip.v
