(* ===== verification/Prelude.v ===== *)
(** * pg_crypto: a verification development

    pg_crypto is a PostgreSQL extension in Rust: the SQL functions of pgcrypto and
    a set of modern authenticated ones, written on top of cryptographic crates
    (RustCrypto's hashes and block modes, Sequoia for OpenPGP, dryoc, pwhash,
    pgrx).  This library models the extension's own code, the files under [src/],
    as executable definitions and proves what makes it correct.

    ** The parts

    The program's parts are its modules; they share no state and call each other
    not at all, so each has a file of its own here (the OpenPGP module, by far the
    largest, has several).  A definition has the name of the Rust item it
    translates.

    - [Prelude]: bytes, results, the two ways a function stops without a value
      (an SQL error raised with [pgrx::error!], or a panic), computations that
      draw randomness, the notation scope, tactics and hint database.
    - [RustStr]: what the code uses of Rust's standard library on strings and
      slices, at byte level: case folding, trimming of Unicode white space,
      splitting, searching, replacing, slicing with its panics, parsing and
      printing of integers, UTF-8 validation.
    - [Random] ([src/random.rs]): [gen_random_bytes], [random_bytes],
      [gen_random_uuid].
    - [Hash] ([src/hash.rs]): [digest], [hmac] and the functions with a fixed
      algorithm.
    - [Raw] ([src/raw.rs]): [encrypt], [decrypt] and their [_iv] variants: the
      parser of cipher types, the key and vector preparation, the dispatch to
      algorithm, mode and padding.
    - [PgpOptions] ([src/pgp.rs], the option strings): [parse_options] and
      [parse_decrypt_options], the record [PgpOptions].
    - [PgpText] ([src/pgp.rs], text payloads): the CRLF conversions and
      [decrypted_text].
    - [PgpMessage] ([src/pgp.rs], messages and key ids): [make_s2k],
      [write_payload], [sym_encrypt], [pub_encrypt], the decryption helpers,
      [sym_decrypt], [pub_decrypt], [pgp_key_id] and their SQL functions.
      [PgpToy] is a crate that computes, [PgpHelpers] and [PgpRoundtrip] hold the
      theorems.
    - [Modern] ([src/modern.rs]): Argon2id, XChaCha20-Poly1305, secretbox, sealed
      boxes, Ed25519, X25519, HKDF.
    - [Password] ([src/password.rs]): [crypt] and [gen_salt].
    - [Armor] ([src/armor.rs]): [armor], [dearmor], [pgp_armor_headers], above the
      text format of RFC 4880 in [ArmorFormat].

    ** How the code is modelled

    A [&[u8]], [Vec<u8>], [&str] or [String] is the list of its bytes; a string
    the code slices at a byte index panics off a character boundary, as in Rust.
    An [i32], [u32] or [u8] is an integer with its bounds and wrap-around written
    where the code depends on them ([cast_unsigned], [u32_add], [usize_sub]).  A
    function that can fail returns an [outcome]; one that draws randomness is a
    [rand W] over the state [W] of the generators.  Slices and copies of slices
    are checked and panic as in Rust ([slice], [str_slice], [copy_from_slice]).
    Loops are recursion on the list they consume; the two that are not have fuel
    ([crlf_decode_loop]: one unit more than the bytes, [extend_while]: four tests
    of the condition, as a key of one byte reaches four bytes in three rounds).
    Out of fuel both are the failure [FuelExhausted], and the theorems show that it
    does not happen ([crlf_roundtrip], [blowfish_key_spec]).

    The crates are not translated: each is a type class of operations
    ([CipherCrates], [HashCrates], [Csprng], [Dryoc], [HkdfCrate], [Pwhash],
    [ArmorCrate], [OpenpgpTypes] with [Openpgp]), and what the code relies on is a
    second class of documented laws ([CipherLaws], [DryocLaws], [PwhashLaws],
    [ArmorLaws], [OpenpgpLaws], ...).  Every file proves its laws for a concrete
    instance, [Toy], at which the witnesses of the theorems evaluate.

    A law says no more than the crate promises.  Sealed boxes and signatures are
    opened and verified only with a key pair that belongs together, a relation
    that is a parameter of the laws ([box_keypair], [sign_keypair], [belongs]); the
    armor laws tie the writer and the reader each to the text format, for non-empty
    data and headers the format keeps; and session-key packets name a recipient by
    its key id, as the version 3 packets of RFC 4880 do.

    A decryptor of Sequoia calls back into the extension while it reads.  It is a
    [protocol]: a tree of calls to the helper (inspect a packet, give certificates,
    find a session key with the decryptor's closure, check the structure) that
    ends in a result; [run_protocol] runs it against one of the two helpers and
    the cell of the literal format that the helper shares with its caller.  The
    laws describe a written message by its layers, and a decryptor of it by the
    calls it makes ([delivers]).

    ** What the theorems show

    - Round trips: raw encryption ([raw_roundtrip]), OpenPGP texts and bytes with
      a password and with keys ([sym_text_roundtrip], [pub_text_roundtrip], ...),
      line ends ([crlf_roundtrip]), armor, secretbox, sealed boxes, signatures,
      printed options, and the verification idiom of crypt ([crypt_verifies]).
    - Refinement: [raw_refines_cipher] states that [encrypt_iv] and [decrypt_iv]
      are the two halves of one cipher with the key and vector of the
      specification.
    - Exact acceptance: the cipher types, digest names, option strings, salt
      counts, header arrays and output lengths that are accepted, and for every
      other input the message and the order in which errors are found.
    - Invariants: the option records the parser can produce are exactly the
      well-formed ones ([parse_options_range]), which makes the [unreachable!] of
      [make_s2k] unreachable; integrity protection cannot be turned off.
    - Safety: no slice out of range, no overflow, no failed [expect] in the
      functions the theorems cover; none of the OpenPGP functions panics
      ([pgp_functions_no_panic]), whatever the crate answers.
    - The behaviour of the decryption helpers: the order in which keys are tried,
      what is skipped, what is reported first.

    ** What is not modelled

    [src/lib.rs] only lists the modules.  The code pgrx generates from the
    attributes (argument decoding, volatility, defaults) is not in the source.
    Secrecy, timing and the strength of the primitives are outside the model: the
    laws say how the crates compute, not what an attacker can learn.  Argon2id,
    XChaCha20-Poly1305 and X25519 are translated, but the code around their crate
    calls is a size check, so they carry a lemma or none.  What the crates do with
    armor of empty data, with headers the format does not keep, or with a signing
    key whose halves do not belong together is left open.

    Worth adding: the catalogue of the SQL functions with their volatility and
    defaults, freedom from panics for the functions outside OpenPGP that no
    theorem here covers, and messages with several literal packets. *)
From stdpp Require Import base tactics list numbers option strings.
From Stdlib Require Import Strings.Byte.

(** ** Bytes, strings and results *)

Abbreviation byte := Byte.byte.

(** A Rust [&\[u8\]], [Vec<u8>], [&str] or [String]: its bytes. *)
Abbreviation bytes := (list Byte.byte).

(** A string literal of the source. *)
Definition lit (s : string) : bytes := String.list_byte_of_string s.

#[export] Instance byte_eq_dec : EqDecision Byte.byte := Byte.byte_eq_dec.

(** The value of a byte as an unsigned 8-bit integer. *)
Definition u8 (b : byte) : N := Byte.to_N b.

(** Rust's [Result<A, E>]. *)
Inductive result (E A : Type) : Type :=
| Ok (a : A)
| Err (e : E).
Arguments Ok {E A} a.
Arguments Err {E A} e.

(** How a Rust function of the extension stops without a value: through
    [pgrx::error!], which reports an SQL error with a message, or through a
    panic.  [FuelExhausted] is not Rust's: it marks a loop of the model that ran
    out of fuel, which the theorems exclude like the panics. *)
Inductive panic : Set :=
| SliceOutOfRange
| LengthMismatch
| UnreachableReached
| ExpectFailed
| ArithmeticOverflow
| CratePanicked
| FuelExhausted.

Inductive failure : Type :=
| PgError (message : bytes)
| Panic (why : panic).

(** What a function of the extension computes, and what a fallible function of
    a crate returns ([Err] carries the text the error's [Display] prints). *)
Abbreviation outcome := (result failure).
Abbreviation fallible := (result bytes).

#[export] Instance result_ret E : MRet (result E) := fun _ a => Ok a.
#[export] Instance result_bind E : MBind (result E) :=
  fun _ _ f m => match m with Ok a => f a | Err e => Err e end.
#[export] Instance result_fmap E : FMap (result E) :=
  fun _ _ f m => match m with Ok a => Ok (f a) | Err e => Err e end.

Definition pg_error {A} (message : bytes) : outcome A := Err (PgError message).
Definition panicked {A} (why : panic) : outcome A := Err (Panic why).

(** [r.unwrap_or_else(|e| f e)] with a diverging [f]. *)
Definition unwrap_or_else {E A} (r : result E A) (f : E -> outcome A) : outcome A :=
  match r with Ok a => Ok a | Err e => f e end.

(** [o.unwrap_or_else(|| diverge)] on an option. *)
Definition ok_or_else {A} (o : option A) (f : outcome A) : outcome A :=
  match o with Some a => Ok a | None => f end.

(** [assert!]-like guard: [if bad { diverge }]. *)
Definition reject_if (bad : bool) (why : failure) : outcome unit :=
  if bad then Err why else Ok tt.

Definition is_ok {E A} (r : result E A) : bool :=
  match r with Ok _ => true | Err _ => false end.

(** A computation is free of panics when it ends in a value or an SQL error. *)
Definition no_panic {A} (r : outcome A) : Prop :=
  forall why, r <> Err (Panic why).

(** ** Computations that draw randomness

    [W] is the state of the process's random generators. *)
Definition stateful (W E A : Type) : Type := W -> result E A * W.
Abbreviation rand W := (stateful W failure).
Abbreviation try W := (stateful W (list Byte.byte)).

#[export] Instance stateful_ret W E : MRet (stateful W E) := fun _ a w => (Ok a, w).
#[export] Instance stateful_bind W E : MBind (stateful W E) :=
  fun _ _ f m w =>
    match m w with
    | (Ok a, w') => f a w'
    | (Err e, w') => (Err e, w')
    end.

(** A computation that draws nothing. *)
Definition lift {W E A} (r : result E A) : stateful W E A := fun w => (r, w).

(** [unwrap_or_else] after a computation that may draw randomness. *)
Definition or_fail {W E A} (m : stateful W E A) (f : E -> outcome A) : rand W A :=
  fun w => let '(r, w') := m w in (unwrap_or_else r f, w').

(** ** Notations and automation *)

Declare Scope rust_scope.
Delimit Scope rust_scope with rust.
Notation "s =s t" := (bool_decide (s = t)) (at level 70, no associativity) : rust_scope.
Open Scope rust_scope.

Create HintDb rust.

(** Case analysis on the bind of a hypothesis or goal. *)
Ltac unfold_monads :=
  unfold mret, mbind, fmap, result_ret, result_bind, result_fmap,
    stateful_ret, stateful_bind, lift, or_fail, pg_error, panicked,
    unwrap_or_else, ok_or_else, reject_if in *.

(** Membership in a literal list, with the element still to be found. *)
Ltac find_elem := repeat first [apply list_elem_of_here | apply list_elem_of_further].

(** Splits a membership in a literal list into its cases. *)
Ltac elem_cases H :=
  repeat (apply elem_of_cons in H as [H | H]; [simplify_eq/= |]);
  try (by apply elem_of_nil in H).

(** ** Lemmas on results *)

Lemma bind_Ok {E A B} (m : result E A) (f : A -> result E B) b :
  (m ≫= f) = Ok b <-> exists a, m = Ok a /\ f a = Ok b.
Proof. destruct m; cbn; naive_solver. Qed.

Lemma stateful_bind_Ok {W E A B} (m : stateful W E A) (f : A -> stateful W E B) w b w' :
  (m ≫= f) w = (Ok b, w') <-> exists a w1, m w = (Ok a, w1) /\ f a w1 = (Ok b, w').
Proof.
  unfold mbind, stateful_bind. destruct (m w) as [[a | e] w1]; naive_solver.
Qed.

Lemma no_panic_Ok {A} (a : A) : no_panic (Ok a).
Proof. unfold no_panic. done. Qed.

Lemma no_panic_error {A} message : no_panic (@pg_error A message).
Proof. unfold no_panic. done. Qed.

Lemma no_panic_bind {A B} (m : outcome A) (f : A -> outcome B) :
  no_panic m -> (forall a, m = Ok a -> no_panic (f a)) -> no_panic (m ≫= f).
Proof.
  intros Hm Hf. destruct m as [a | e]; [by apply Hf |].
  intros why H. injection H as ->. by apply (Hm why).
Qed.

Lemma no_panic_unwrap {E A} (r : result E A) (f : E -> bytes) :
  no_panic (unwrap_or_else r (fun e => pg_error (f e))).
Proof. destruct r; [apply no_panic_Ok | apply no_panic_error]. Qed.

Lemma no_panic_ok_or_else {A} (o : option A) message :
  no_panic (ok_or_else o (pg_error message)).
Proof. destruct o; [apply no_panic_Ok | apply no_panic_error]. Qed.

Lemma no_panic_reject_if bad message : no_panic (reject_if bad (PgError message)).
Proof. destruct bad; [apply no_panic_error | apply no_panic_Ok]. Qed.

#[export] Hint Resolve no_panic_Ok no_panic_error no_panic_unwrap
  no_panic_ok_or_else no_panic_reject_if : rust.

(** Goes through binds and case distinctions down to the hints. *)
Ltac solve_no_panic :=
  repeat first
    [ solve [auto with rust]
    | apply no_panic_bind; [| intros ? _]
    | match goal with |- no_panic (match ?x with _ => _ end) => destruct x end ].

(** ** Lemmas on bytes *)

(** Every byte, for the facts that are checked by enumeration. *)
Definition all_bytes : bytes :=
  omap (fun n => Byte.of_N (N.of_nat n)) (seq 0 256).

Lemma elem_of_all_bytes (b : byte) : b ∈ all_bytes.
Proof. destruct b; vm_compute; repeat constructor. Qed.

(** A decidable property of bytes that holds on the enumeration holds. *)
Lemma byte_forall (P : byte -> bool) :
  forallb P all_bytes = true -> forall b, P b = true.
Proof.
  intros H b. rewrite forallb_forall in H. apply H.
  apply list_elem_of_In, elem_of_all_bytes.
Qed.

Lemma byte_forall_dec (P : byte -> Prop) `{forall b, Decision (P b)} :
  forallb (fun b => bool_decide (P b)) all_bytes = true -> forall b, P b.
Proof.
  intros Hall b. pose proof (byte_forall _ Hall b) as Hb. cbv beta in Hb.
  by apply bool_decide_eq_true_1 in Hb.
Qed.

Lemma u8_inj (a b : byte) : u8 a = u8 b -> a = b.
Proof.
  unfold u8. intros H. apply (f_equal Byte.of_N) in H.
  rewrite !Byte.of_to_N in H. by simplify_eq.
Qed.

#[export] Instance u8_inj' : Inj (=) (=) u8 := u8_inj.

(** ** Lemmas on lists *)

Lemma take_prefix_app {A} (l1 l2 : list A) n :
  length l1 = n -> take n (l1 ++ l2) = l1 /\ drop n (l1 ++ l2) = l2.
Proof. intros <-. by rewrite take_app_length, drop_app_length. Qed.
