(* ===== verification/RustStr.v ===== *)
(** * The parts of Rust's standard library the extension uses on strings

    A [&str] is the list of its UTF-8 bytes.  Every operation below is the
    byte-level behaviour of the standard library's: case folding, trimming of
    Unicode white space, splitting at an ASCII separator, searching, checked
    slicing (which panics off a character boundary), parsing and printing of
    unsigned integers and UTF-8 validation. *)
From stdpp Require Import base tactics list numbers option strings.
From Stdlib Require Import Strings.Byte ZifyBool.
From S2P Require Import Prelude.

Local Open Scope N_scope.

(** ** Characters *)

Definition in_range (lo hi : N) (b : byte) : bool := (lo <=? u8 b) && (u8 b <=? hi).

Definition byte_of (n : N) : byte := default "000"%byte (Byte.of_N n).

Definition is_ascii_byte (b : byte) : bool := u8 b <? 128.
Definition is_digit (b : byte) : bool := in_range 48 57 b.
Definition lower_byte (b : byte) : byte :=
  if in_range 65 90 b then byte_of (u8 b + 32) else b.

(** [str::to_ascii_lowercase] and [str::is_ascii]. *)
Definition to_ascii_lowercase (s : bytes) : bytes := lower_byte <$> s.
Definition is_ascii (s : bytes) : bool := forallb is_ascii_byte s.

(** [matches!(s, "a" | "b" | ..)]: the string is one of the literals. *)
Definition one_of (s : bytes) (literals : list string) : bool :=
  bool_decide (s ∈ (lit <$> literals)).

(** ** Trimming

    [char::is_whitespace] on the UTF-8 encodings of one, two and three bytes:
    U+0009..U+000D, U+0020; U+0085, U+00A0; U+1680, U+2000..U+200A, U+2028,
    U+2029, U+202F, U+205F, U+3000. *)
Definition ws1 (a : byte) : bool := in_range 9 13 a || (u8 a =? 32).
Definition ws2 (a b : byte) : bool := (u8 a =? 194) && ((u8 b =? 133) || (u8 b =? 160)).
Definition ws3 (a b c : byte) : bool :=
  ((u8 a =? 225) && (u8 b =? 154) && (u8 c =? 128))
  || ((u8 a =? 226) && (u8 b =? 128)
      && (in_range 128 138 c || in_range 168 169 c || (u8 c =? 175)))
  || ((u8 a =? 226) && (u8 b =? 129) && (u8 c =? 159))
  || ((u8 a =? 227) && (u8 b =? 128) && (u8 c =? 128)).

Section strip.
Variable p1 : byte -> bool.
Variable p2 : byte -> byte -> bool.
Variable p3 : byte -> byte -> byte -> bool.

(** Drops the leading white-space characters. *)
Fixpoint strip (s : bytes) : bytes :=
  match s with
  | [] => []
  | a :: s1 =>
      if p1 a then strip s1
      else match s1 with
           | [] => s
           | b :: s2 =>
               if p2 a b then strip s2
               else match s2 with
                    | [] => s
                    | c :: s3 => if p3 a b c then strip s3 else s
                    end
           end
  end.

End strip.

Definition trim_start (s : bytes) : bytes := strip ws1 ws2 ws3 s.
Definition trim_end (s : bytes) : bytes :=
  rev (strip ws1 (fun b a => ws2 a b) (fun c b a => ws3 a b c) (rev s)).
(** [str::trim]. *)
Definition trim (s : bytes) : bytes := trim_end (trim_start s).

(** ** Splitting and searching *)

(** [str::split(sep)] with an ASCII separator: never the empty list. *)
Fixpoint split_on (sep : byte) (s : bytes) : list bytes :=
  match s with
  | [] => [[]]
  | b :: r =>
      if bool_decide (b = sep) then [] :: split_on sep r
      else match split_on sep r with
           | field :: rest => (b :: field) :: rest
           | [] => [[b]]
           end
  end.

(** [str::split_once(sep)]: the two sides of the first separator. *)
Fixpoint split_once (sep : byte) (s : bytes) : option (bytes * bytes) :=
  match s with
  | [] => None
  | b :: r =>
      if bool_decide (b = sep) then Some ([], r)
      else match split_once sep r with
           | Some (before, after) => Some (b :: before, after)
           | None => None
           end
  end.

(** [str::match_indices(c)], indices only, from offset [i]. *)
Fixpoint indices_from (i : nat) (c : byte) (s : bytes) : list nat :=
  match s with
  | [] => []
  | b :: r => if bool_decide (b = c) then i :: indices_from (S i) c r
              else indices_from (S i) c r
  end.
Definition match_indices (c : byte) (s : bytes) : list nat := indices_from 0 c s.

(** [str::find(c)]. *)
Definition find_byte (c : byte) (s : bytes) : option nat := head (match_indices c s).

(** [str::contains] of a character and of a string. *)
Definition contains_byte (c : byte) (s : bytes) : bool := bool_decide (c ∈ s).

Definition is_prefix (p s : bytes) : bool := bool_decide (take (length p) s = p).

Fixpoint contains_str (p s : bytes) : bool :=
  is_prefix p s || match s with [] => false | _ :: r => contains_str p r end.

(** [str::replace(c, to_nothing)] for a character. *)
Definition remove_byte (c : byte) (s : bytes) : bytes := filter (fun b => b <> c) s.

(** [str::replace(from, to)] for a non-empty pattern: the non-overlapping
    matches from left to right; [skip] bytes of a match remain to be dropped. *)
Fixpoint replace_go (from to : bytes) (skip : nat) (s : bytes) : bytes :=
  match s with
  | [] => []
  | b :: r =>
      match skip with
      | S k => replace_go from to k r
      | O => if is_prefix from s then to ++ replace_go from to (Nat.pred (length from)) r
             else b :: replace_go from to 0 r
      end
  end.
Definition replace (from to s : bytes) : bytes := replace_go from to 0 s.

(** ** Slicing *)

Definition is_continuation (b : byte) : bool := in_range 128 191 b.

(** [str::is_char_boundary]. *)
Definition is_char_boundary (s : bytes) (i : nat) : bool :=
  match s !! i with
  | Some b => (i =? 0)%nat || negb (is_continuation b)
  | None => (i =? 0)%nat || (i =? length s)%nat
  end.

(** [&s[lo..hi]]: panics when out of range or off a character boundary. *)
Definition str_slice (s : bytes) (lo hi : nat) : outcome bytes :=
  if (lo <=? hi)%nat && (hi <=? length s)%nat
     && is_char_boundary s lo && is_char_boundary s hi
  then Ok (take (hi - lo) (drop lo s))
  else panicked SliceOutOfRange.

(** [s.get(lo..hi)]. *)
Definition str_get (s : bytes) (lo hi : nat) : option bytes :=
  match str_slice s lo hi with Ok t => Some t | Err _ => None end.

(** [&data[lo..hi]] of a byte slice. *)
Definition slice (data : bytes) (lo hi : nat) : outcome bytes :=
  if (lo <=? hi)%nat && (hi <=? length data)%nat
  then Ok (take (hi - lo) (drop lo data))
  else panicked SliceOutOfRange.

(** [dst.copy_from_slice(src)]: what [dst] holds afterwards; it panics when the
    lengths differ. *)
Definition copy_from_slice (dst src : bytes) : outcome bytes :=
  if (length dst =? length src)%nat then Ok src else panicked LengthMismatch.

(** [a - b] on [usize], with the overflow check that stops the program either at
    the subtraction or at the slice that uses the wrapped value. *)
Definition usize_sub (a b : nat) : outcome nat :=
  if (b <=? a)%nat then Ok (a - b)%nat else panicked ArithmeticOverflow.

(** ** Decimal integers *)

Definition digit_byte (d : N) : byte := byte_of (48 + d).

Fixpoint dec_go (fuel : nat) (n : N) (acc : bytes) : bytes :=
  match fuel with
  | O => acc
  | S f =>
      let acc' := digit_byte (n mod 10) :: acc in
      if n / 10 =? 0 then acc' else dec_go f (n / 10) acc'
  end.

(** [format!("{n}")] of an unsigned integer. *)
Definition dec (n : N) : bytes := dec_go (S (N.size_nat n)) n [].

(** One round of [from_str_radix(10)]: checked multiplication and addition. *)
Definition digit_step (max acc : N) (b : byte) : option N :=
  if is_digit b then
    let m := acc * 10 in
    if m <=? max then
      let r := m + (u8 b - 48) in
      if r <=? max then Some r else None
    else None
  else None.

Fixpoint parse_digits (max acc : N) (s : bytes) : option N :=
  match s with
  | [] => Some acc
  | b :: r => acc' ← digit_step max acc b; parse_digits max acc' r
  end.

(** [str::parse] for an unsigned type whose largest value is [max]. *)
Definition parse_uint (max : N) (s : bytes) : option N :=
  match s with
  | [] => None
  | b :: r =>
      if bool_decide (b = "+"%byte)
      then match r with [] => None | _ => parse_digits max 0 r end
      else parse_digits max 0 s
  end.
Definition parse_u8 : bytes -> option N := parse_uint 255.
Definition parse_u32 : bytes -> option N := parse_uint 4294967295.

(** ** UTF-8 *)

(** The second bytes a lead byte of a three- or four-byte character allows. *)
Definition second3 (a b : byte) : bool :=
  (u8 a =? 224) && in_range 160 191 b
  || (in_range 225 236 a || in_range 238 239 a) && is_continuation b
  || (u8 a =? 237) && in_range 128 159 b.
Definition second4 (a b : byte) : bool :=
  (u8 a =? 240) && in_range 144 191 b
  || in_range 241 243 a && is_continuation b
  || (u8 a =? 244) && in_range 128 143 b.

Definition utf8_2 (a b : byte) : bool := in_range 194 223 a && is_continuation b.
Definition utf8_3 (a b c : byte) : bool := second3 a b && is_continuation c.
Definition utf8_4 (a b c d : byte) : bool :=
  second4 a b && is_continuation c && is_continuation d.

(** Whether a byte sequence is well-formed UTF-8. *)
Fixpoint utf8_valid (s : bytes) : bool :=
  match s with
  | [] => true
  | a :: s1 =>
      if is_ascii_byte a then utf8_valid s1
      else match s1 with
           | [] => false
           | b :: s2 =>
               if utf8_2 a b then utf8_valid s2
               else match s2 with
                    | [] => false
                    | c :: s3 =>
                        if utf8_3 a b c then utf8_valid s3
                        else match s3 with
                             | [] => false
                             | d :: s4 => utf8_4 a b c d && utf8_valid s4
                             end
                    end
           end
  end.

(** The first character of a non-empty input: its width, or the error length of
    [Utf8Error] ([None] when the input ends inside the character). *)
Definition utf8_head (s : bytes) : result (option nat) nat :=
  match s with
  | [] => Ok 0%nat
  | a :: s1 =>
      if is_ascii_byte a then Ok 1%nat
      else if in_range 194 223 a then
        match s1 with
        | [] => Err None
        | b :: _ => if is_continuation b then Ok 2%nat else Err (Some 1%nat)
        end
      else if in_range 224 239 a then
        match s1 with
        | [] => Err None
        | b :: s2 =>
            if second3 a b then
              match s2 with
              | [] => Err None
              | c :: _ => if is_continuation c then Ok 3%nat else Err (Some 2%nat)
              end
            else Err (Some 1%nat)
        end
      else if in_range 240 244 a then
        match s1 with
        | [] => Err None
        | b :: s2 =>
            if second4 a b then
              match s2 with
              | [] => Err None
              | c :: s3 =>
                  if is_continuation c then
                    match s3 with
                    | [] => Err None
                    | d :: _ => if is_continuation d then Ok 4%nat else Err (Some 3%nat)
                    end
                  else Err (Some 2%nat)
              end
            else Err (Some 1%nat)
        end
      else Err (Some 1%nat)
  end.

(** The offset and error length of the first malformed character. *)
Fixpoint utf8_error (fuel i : nat) (s : bytes) : option (nat * option nat) :=
  match fuel, s with
  | O, _ | _, [] => None
  | S f, _ =>
      match utf8_head s with
      | Ok w => utf8_error f (i + w) (drop w s)
      | Err n => Some (i, n)
      end
  end.

(** [String::from_utf8], with the text its error prints. *)
Definition from_utf8 (s : bytes) : fallible bytes :=
  match utf8_error (length s) 0 s with
  | None => Ok s
  | Some (i, Some n) =>
      Err (lit "invalid utf-8 sequence of " ++ dec (N.of_nat n)
           ++ lit " bytes from index " ++ dec (N.of_nat i))
  | Some (i, None) =>
      Err (lit "incomplete utf-8 byte sequence from index " ++ dec (N.of_nat i))
  end.

(** ** Lemmas on characters and literals *)

Lemma one_of_true s l : one_of s l = true <-> s ∈ (lit <$> l).
Proof. unfold one_of. apply bool_decide_eq_true. Qed.

Lemma one_of_false s l : one_of s l = false <-> s ∉ (lit <$> l).
Proof. unfold one_of. apply bool_decide_eq_false. Qed.

Lemma one_of_elem s l : one_of s l = true -> exists n, n ∈ l /\ s = lit n.
Proof. rewrite one_of_true, list_elem_of_fmap. naive_solver. Qed.

Lemma one_of_intro s n l : s = lit n -> n ∈ l -> one_of s l = true.
Proof. intros -> Hn. apply one_of_true. by apply list_elem_of_fmap_2. Qed.

Lemma one_of_single s n : one_of s [n] = bool_decide (s = lit n).
Proof. unfold one_of. apply bool_decide_ext. cbn. by rewrite list_elem_of_singleton. Qed.

Lemma lower_byte_idemp b : lower_byte (lower_byte b) = lower_byte b.
Proof.
  revert b. apply (byte_forall_dec _). vm_compute. reflexivity.
Qed.

Lemma is_ascii_app s t : is_ascii (s ++ t) = is_ascii s && is_ascii t.
Proof. apply forallb_app. Qed.

(** ** Trimming *)

(** Visible ASCII characters. *)
Definition is_graphic (b : byte) : bool := in_range 33 126 b.
Definition graphic (s : bytes) : bool := forallb is_graphic s.

Lemma graphic_ws1 a : is_graphic a = true -> ws1 a = false.
Proof.
  unfold is_graphic, ws1, in_range.
  rewrite andb_true_iff, !N.leb_le, orb_false_iff, andb_false_iff, !N.leb_gt, N.eqb_neq. lia.
Qed.

Lemma graphic_ws2 a b : is_graphic a = true -> ws2 a b = false /\ ws2 b a = false.
Proof.
  unfold is_graphic, ws2, in_range. rewrite andb_true_iff, !N.leb_le.
  intros H.
  assert ((u8 a =? 194) = false) as -> by (apply N.eqb_neq; lia).
  assert ((u8 a =? 133) = false) as -> by (apply N.eqb_neq; lia).
  assert ((u8 a =? 160) = false) as -> by (apply N.eqb_neq; lia).
  cbn. by rewrite andb_false_r.
Qed.

Lemma graphic_ws3 a b c :
  is_graphic a = true -> ws3 a b c = false /\ ws3 c b a = false.
Proof.
  unfold is_graphic, ws3, in_range. rewrite andb_true_iff, !N.leb_le.
  intros H.
  assert ((u8 a =? 225) = false) as -> by (apply N.eqb_neq; lia).
  assert ((u8 a =? 226) = false) as -> by (apply N.eqb_neq; lia).
  assert ((u8 a =? 227) = false) as -> by (apply N.eqb_neq; lia).
  assert ((u8 a =? 128) = false) as -> by (apply N.eqb_neq; lia).
  assert ((u8 a =? 159) = false) as -> by (apply N.eqb_neq; lia).
  assert ((u8 a =? 175) = false) as -> by (apply N.eqb_neq; lia).
  assert ((128 <=? u8 a) = false) as -> by (apply N.leb_gt; lia).
  assert ((168 <=? u8 a) = false) as -> by (apply N.leb_gt; lia).
  by rewrite !andb_false_r.
Qed.

Lemma strip_stop p1 p2 p3 a s :
  p1 a = false -> (forall b, p2 a b = false) -> (forall b c, p3 a b c = false) ->
  strip p1 p2 p3 (a :: s) = a :: s.
Proof.
  intros H1 H2 H3. cbn. rewrite H1.
  destruct s as [| b s]; [done |]. rewrite H2.
  destruct s as [| c s]; [done |]. by rewrite H3.
Qed.

Lemma trim_start_graphic a s : is_graphic a = true -> trim_start (a :: s) = a :: s.
Proof.
  intros H. apply strip_stop.
  - by apply graphic_ws1.
  - intros b. by destruct (graphic_ws2 a b H).
  - intros b c. by destruct (graphic_ws3 a b c H).
Qed.

Lemma trim_end_graphic a s : is_graphic a = true -> trim_end (s ++ [a]) = s ++ [a].
Proof.
  intros H. unfold trim_end. rewrite rev_app_distr. cbn [rev app].
  rewrite strip_stop.
  - cbn. by rewrite rev_involutive.
  - by apply graphic_ws1.
  - intros b. by destruct (graphic_ws2 a b H).
  - intros b c. by destruct (graphic_ws3 a b c H).
Qed.

(** A string without spaces is its own trimming. *)
Lemma trim_graphic s : graphic s = true -> trim s = s.
Proof.
  unfold graphic. destruct s as [| a s]; [done |].
  intros H. pose proof H as Ha. cbn in Ha. apply andb_true_iff in Ha as [Ha _].
  unfold trim. rewrite trim_start_graphic by done.
  destruct (exists_last (l := a :: s)) as [s' [z Hz]]; [done |].
  rewrite Hz in *. apply trim_end_graphic.
  rewrite forallb_app in H. apply andb_true_iff in H as [_ H]. cbn in H.
  by rewrite andb_true_r in H.
Qed.

(** ** Splitting *)

Lemma split_on_not_nil sep s : split_on sep s <> [].
Proof. destruct s as [| b s]; cbn; [done |]. repeat case_match; done. Qed.

Lemma split_on_no_sep sep s : sep ∉ s -> split_on sep s = [s].
Proof.
  induction s as [| b s IH]; [done |]. intros H. cbn.
  apply not_elem_of_cons in H as [Hb Hs].
  rewrite bool_decide_false by congruence. by rewrite IH.
Qed.

Lemma split_on_app sep s t :
  split_on sep (s ++ sep :: t) = split_on sep s ++ split_on sep t.
Proof.
  induction s as [| b s IH]; cbn.
  - by rewrite bool_decide_true.
  - rewrite IH. case_bool_decide; [done |].
    pose proof (split_on_not_nil sep s). by destruct (split_on sep s).
Qed.

Lemma split_once_Some sep s l r :
  split_once sep s = Some (l, r) <-> s = l ++ sep :: r /\ sep ∉ l.
Proof.
  revert l r. induction s as [| b s IH]; intros l r; cbn.
  - split; [done |]. intros [H _]. by destruct l.
  - case_bool_decide as Hb; subst.
    + split; [intros [= <- <-]; split; [done | apply not_elem_of_nil] |].
      intros [H Hl]. destruct l as [| x l]; cbn in H; simplify_eq; [done |].
      by destruct Hl; left.
    + split.
      * destruct (split_once sep s) as [[l' r'] |] eqn:E; [| done].
        intros [= <- <-]. destruct (proj1 (IH l' r') eq_refl) as [-> Hl'].
        split; [done |]. by apply not_elem_of_cons.
      * intros [H Hl]. destruct l as [| x l]; cbn in H; simplify_eq.
        apply not_elem_of_cons in Hl as [_ Hl].
        by rewrite (proj2 (IH l r)).
Qed.

Lemma split_once_app sep l r : sep ∉ l -> split_once sep (l ++ sep :: r) = Some (l, r).
Proof. intros H. by apply split_once_Some. Qed.

Lemma split_once_None sep s : split_once sep s = None <-> sep ∉ s.
Proof.
  induction s as [| b s IH]; cbn; [by split; [intros _; apply not_elem_of_nil |] |].
  rewrite not_elem_of_cons. case_bool_decide; [naive_solver |].
  destruct (split_once sep s) as [[] |]; naive_solver.
Qed.

Lemma indices_from_app i c s t :
  indices_from i c (s ++ t) = indices_from i c s ++ indices_from (i + length s) c t.
Proof.
  revert i. induction s as [| b s IH]; intros i; cbn.
  - by rewrite Nat.add_0_r.
  - rewrite !IH, <- plus_n_Sm. by case_bool_decide.
Qed.

Lemma indices_from_none i c s : c ∉ s -> indices_from i c s = [].
Proof.
  revert i. induction s as [| b s IH]; intros i; [done |].
  rewrite not_elem_of_cons. intros [H Hs]. cbn.
  rewrite bool_decide_false by congruence. by apply IH.
Qed.

Lemma contains_byte_false c s : contains_byte c s = false <-> c ∉ s.
Proof. unfold contains_byte. apply bool_decide_eq_false. Qed.

Lemma is_prefix_true p s : is_prefix p s = true <-> exists t, s = p ++ t.
Proof.
  unfold is_prefix. rewrite bool_decide_eq_true. split.
  - intros H. exists (drop (length p) s). by rewrite <- H at 1; rewrite take_drop.
  - intros [t ->]. apply take_app_length.
Qed.

(** A pattern whose first byte does not occur is never found. *)
Lemma replace_absent a from to s : a ∉ s -> replace (a :: from) to s = s.
Proof.
  unfold replace. induction s as [| b s IH]; [done |].
  rewrite not_elem_of_cons. intros [Hb Hs]. cbn [replace_go].
  destruct (is_prefix (a :: from) (b :: s)) eqn:E.
  - apply is_prefix_true in E as [t E]. by simplify_eq/=.
  - by rewrite IH.
Qed.

(** A leading match is replaced and the search goes on after it. *)
Lemma replace_go_skip from to k s : replace_go from to k s = replace_go from to 0 (drop k s).
Proof.
  revert k. induction s as [| b s IH]; intros [| k]; try done. cbn. apply IH.
Qed.

Lemma replace_match a from to s :
  replace (a :: from) to ((a :: from) ++ s) = to ++ replace (a :: from) to s.
Proof.
  unfold replace. cbn [app replace_go].
  rewrite (proj2 (is_prefix_true (a :: from) (a :: from ++ s))) by by exists s.
  cbn [length Nat.pred]. by rewrite replace_go_skip, drop_app_length.
Qed.

(** ** Slicing *)

Lemma ascii_boundary s i : is_ascii s = true -> (i <= length s)%nat -> is_char_boundary s i = true.
Proof.
  unfold is_ascii, is_char_boundary. intros Hs Hi.
  destruct (s !! i) as [b |] eqn:E.
  - apply list_elem_of_lookup_2, list_elem_of_In in E.
    rewrite forallb_forall in Hs. apply Hs in E.
    unfold is_ascii_byte in E. apply N.ltb_lt in E.
    unfold is_continuation, in_range.
    assert ((128 <=? u8 b) = false) as -> by (apply N.leb_gt; lia).
    apply orb_true_r.
  - apply lookup_ge_None in E. assert (i = length s) as -> by lia.
    by rewrite Nat.eqb_refl, orb_true_r.
Qed.

(** Slicing an ASCII string within its length does not panic. *)
Lemma str_slice_ascii s lo hi :
  is_ascii s = true -> (lo <= hi)%nat -> (hi <= length s)%nat ->
  str_slice s lo hi = Ok (take (hi - lo) (drop lo s)).
Proof.
  intros Hs Hlo Hhi. unfold str_slice. rewrite !ascii_boundary by (done || lia).
  by rewrite (proj2 (Nat.leb_le lo hi)), (proj2 (Nat.leb_le hi _)).
Qed.

Lemma str_slice_Ok s lo hi t :
  str_slice s lo hi = Ok t ->
  t = take (hi - lo) (drop lo s) /\ (lo <= hi)%nat /\ (hi <= length s)%nat.
Proof.
  unfold str_slice. case_match eqn:E; [| done]. intros [= <-].
  rewrite !andb_true_iff, !Nat.leb_le in E. naive_solver.
Qed.

Lemma str_slice_app s1 s2 s3 lo hi :
  is_ascii (s1 ++ s2 ++ s3) = true -> length s1 = lo -> (lo + length s2)%nat = hi ->
  str_slice (s1 ++ s2 ++ s3) lo hi = Ok s2.
Proof.
  intros Ha <- <-. rewrite str_slice_ascii by (rewrite ?length_app; done || lia).
  f_equal. rewrite drop_app_length. replace (_ + _ - _)%nat with (length s2) by lia.
  apply take_app_length.
Qed.

Lemma slice_Ok data lo hi :
  (lo <= hi)%nat -> (hi <= length data)%nat ->
  slice data lo hi = Ok (take (hi - lo) (drop lo data)).
Proof.
  intros. unfold slice. by rewrite (proj2 (Nat.leb_le lo hi)), (proj2 (Nat.leb_le hi _)).
Qed.

Lemma slice_front data n : (n <= length data)%nat -> slice data 0 n = Ok (take n data).
Proof. intros Hn. rewrite slice_Ok by lia. by rewrite Nat.sub_0_r, drop_0. Qed.

Lemma copy_from_slice_Ok dst src : length dst = length src -> copy_from_slice dst src = Ok src.
Proof. intros E. unfold copy_from_slice. by rewrite E, Nat.eqb_refl. Qed.

(** The three slices that take a concatenation apart. *)
Lemma slice_app_l (a b : bytes) n : length a = n -> slice (a ++ b) 0 n = Ok a.
Proof.
  intros <-. rewrite slice_Ok by (rewrite ?length_app; lia).
  by rewrite Nat.sub_0_r, drop_0, take_app_length.
Qed.

Lemma slice_app_r (a b : bytes) n m :
  length a = n -> (n + length b)%nat = m -> slice (a ++ b) n m = Ok b.
Proof.
  intros <- <-. rewrite slice_Ok by (rewrite ?length_app; lia).
  rewrite drop_app_length. f_equal. apply take_ge. lia.
Qed.

Lemma slice_app_m (a b c : bytes) n m :
  length a = n -> (n + length b)%nat = m -> slice (a ++ b ++ c) n m = Ok b.
Proof.
  intros <- <-. rewrite slice_Ok by (rewrite ?length_app; lia).
  rewrite drop_app_length. f_equal.
  replace (_ + _ - _)%nat with (length b) by lia. apply take_app_length.
Qed.

(** ** Decimal integers *)

Lemma u8_byte_of n : n < 256 -> u8 (byte_of n) = n.
Proof.
  intros H. unfold byte_of, u8. destruct (Byte.of_N n) as [b |] eqn:E; cbn.
  - by apply Byte.to_of_N in E.
  - apply Byte.of_N_None_iff in E. lia.
Qed.

Lemma u8_digit d : d < 10 -> u8 (digit_byte d) = 48 + d.
Proof. intros H. apply u8_byte_of. lia. Qed.

Lemma is_digit_digit_byte d : d < 10 -> is_digit (digit_byte d) = true.
Proof.
  intros H. unfold is_digit, in_range. rewrite u8_digit by done.
  rewrite andb_true_iff, !N.leb_le. lia.
Qed.

Lemma dec_go_S f n acc :
  dec_go (S f) n acc =
  if n / 10 =? 0 then digit_byte (n mod 10) :: acc
  else dec_go f (n / 10) (digit_byte (n mod 10) :: acc).
Proof. done. Qed.

Lemma dec_go_acc f n acc :
  n < 2 ^ N.of_nat f -> dec_go (S f) n acc = dec_go (S f) n [] ++ acc.
Proof.
  revert n acc. induction f as [| f IH]; intros n acc Hn.
  - assert (n = 0) as -> by (cbn in Hn; lia). done.
  - rewrite !(dec_go_S (S f)). destruct (N.eqb_spec (n / 10) 0); [done |].
    assert (n / 10 < 2 ^ N.of_nat f) as Hd.
    { apply N.Div0.div_lt_upper_bound. rewrite Nat2N.inj_succ, N.pow_succ_r' in Hn. lia. }
    rewrite (IH _ (_ :: acc)), (IH _ [_]) by done. by rewrite <- app_assoc.
Qed.

Lemma dec_go_fuel f g n :
  n < 2 ^ N.of_nat f -> n < 2 ^ N.of_nat g -> dec_go (S f) n [] = dec_go (S g) n [].
Proof.
  revert g n. induction f as [| f IH]; intros g n Hf Hg.
  - assert (n = 0) as -> by (cbn in Hf; lia). done.
  - destruct g as [| g]; [assert (n = 0) as -> by (cbn in Hg; lia); done |].
    rewrite (dec_go_S (S f)), (dec_go_S (S g)).
    destruct (N.eqb_spec (n / 10) 0); [done |].
    rewrite Nat2N.inj_succ, N.pow_succ_r' in Hf, Hg.
    assert (n / 10 < 2 ^ N.of_nat f) by (apply N.Div0.div_lt_upper_bound; lia).
    assert (n / 10 < 2 ^ N.of_nat g) by (apply N.Div0.div_lt_upper_bound; lia).
    rewrite dec_go_acc, (dec_go_acc g) by done. by rewrite (IH g).
Qed.

Lemma size_nat_gt n : n < 2 ^ N.of_nat (N.size_nat n).
Proof.
  destruct n as [| p]; [done |]. cbn [N.size_nat].
  induction p as [p IH | p IH |]; cbn [Pos.size_nat];
    rewrite ?Nat2N.inj_succ, ?N.pow_succ_r'; lia.
Qed.

(** The printer's equation: the last digit follows the printed quotient. *)
Lemma dec_eq n :
  dec n = (if n <? 10 then [] else dec (n / 10)) ++ [digit_byte (n mod 10)].
Proof.
  unfold dec at 1. pose proof (size_nat_gt n) as Hn.
  destruct (N.size_nat n) as [| k] eqn:Ek.
  - assert (n = 0) as -> by (cbn in Hn; lia). done.
  - rewrite dec_go_S. destruct (N.ltb_spec n 10) as [H | H].
    + by rewrite (N.div_small n 10).
    + destruct (N.eqb_spec (n / 10) 0) as [H0 | _].
      { apply N.div_small_iff in H0; lia. }
      rewrite Nat2N.inj_succ, N.pow_succ_r' in Hn.
      assert (n / 10 < 2 ^ N.of_nat k) by (apply N.Div0.div_lt_upper_bound; lia).
      rewrite dec_go_acc by done. unfold dec.
      rewrite (dec_go_fuel k (N.size_nat (n / 10))); [done | done | apply size_nat_gt].
Qed.

Lemma dec_digits n : forallb is_digit (dec n) = true.
Proof.
  induction n as [n IH] using (well_founded_induction N.lt_wf_0).
  rewrite dec_eq, forallb_app. cbn [forallb].
  rewrite is_digit_digit_byte by (apply N.mod_lt; lia). rewrite andb_true_r.
  destruct (N.ltb_spec n 10); [done |]. apply IH. apply N.div_lt; lia.
Qed.

Lemma dec_not_nil n : dec n <> [].
Proof. rewrite dec_eq. by intros [_ ?]%app_eq_nil. Qed.

Lemma digit_graphic b : is_digit b = true -> is_graphic b = true.
Proof.
  unfold is_digit, is_graphic, in_range. rewrite !andb_true_iff, !N.leb_le. lia.
Qed.

Lemma dec_graphic n : graphic (dec n) = true.
Proof.
  unfold graphic. pose proof (dec_digits n) as H.
  rewrite forallb_forall in *. auto using digit_graphic.
Qed.

Lemma parse_digits_app max acc s t :
  parse_digits max acc (s ++ t) =
  (acc' ← parse_digits max acc s; parse_digits max acc' t).
Proof.
  revert acc. induction s as [| b s IH]; intros acc; [done |]. cbn.
  destruct (digit_step max acc b); [apply IH | done].
Qed.

Lemma parse_digits_dec max n : n <= max -> parse_digits max 0 (dec n) = Some n.
Proof.
  induction n as [n IH] using (well_founded_induction N.lt_wf_0). intros Hn.
  rewrite dec_eq, parse_digits_app.
  assert (parse_digits max 0 (if n <? 10 then [] else dec (n / 10)) = Some (n / 10)) as ->.
  { destruct (N.ltb_spec n 10); [by rewrite (N.div_small n 10) |].
    apply IH; [apply N.div_lt; lia |]. pose proof (N.Div0.div_le_upper_bound n 10 n). lia. }
  cbn. unfold digit_step.
  pose proof (N.mod_lt n 10 ltac:(done)) as Hm. rewrite is_digit_digit_byte, u8_digit by done.
  pose proof (N.div_mod n 10 ltac:(done)) as E.
  generalize dependent (n / 10). generalize dependent (n mod 10). intros r Hr q E.
  destruct (N.leb_spec (q * 10) max); [| lia].
  replace (q * 10 + (48 + r - 48)) with n by lia.
  destruct (N.leb_spec n max); [done | lia].
Qed.

(** Printing and parsing an unsigned integer in range is the identity. *)
Lemma parse_uint_dec max n : n <= max -> parse_uint max (dec n) = Some n.
Proof.
  intros Hn. pose proof (parse_digits_dec max n Hn) as H.
  pose proof (dec_digits n) as Hd. pose proof (dec_not_nil n).
  destruct (dec n) as [| b r]; [done |]. cbn [parse_uint].
  rewrite bool_decide_false; [done |]. intros ->. done.
Qed.

Lemma digit_step_bound max acc b r : digit_step max acc b = Some r -> r <= max.
Proof. unfold digit_step. repeat case_match; try done. intros [= <-]. by apply N.leb_le. Qed.

Lemma parse_digits_bound max acc s r :
  acc <= max -> parse_digits max acc s = Some r -> r <= max.
Proof.
  revert acc. induction s as [| b s IH]; intros acc Hacc; cbn; [naive_solver |].
  destruct (digit_step max acc b) as [acc' |] eqn:E; [| done].
  cbn. apply IH. by eapply digit_step_bound.
Qed.

(** ** UTF-8 *)

(** The well-formed byte sequences, character by character. *)
Inductive utf8 : bytes -> Prop :=
| utf8_nil : utf8 []
| utf8_one a s : is_ascii_byte a = true -> utf8 s -> utf8 (a :: s)
| utf8_two a b s : utf8_2 a b = true -> utf8 s -> utf8 (a :: b :: s)
| utf8_three a b c s : utf8_3 a b c = true -> utf8 s -> utf8 (a :: b :: c :: s)
| utf8_four a b c d s : utf8_4 a b c d = true -> utf8 s -> utf8 (a :: b :: c :: d :: s).
#[export] Hint Constructors utf8 : rust.

Lemma utf8_valid_sound s : utf8_valid s = true -> utf8 s.
Proof.
  induction s as [s IH] using (induction_ltof1 _ (@length byte)). unfold ltof in IH.
  destruct s as [| a s]; [constructor |]. cbn [utf8_valid].
  destruct (is_ascii_byte a) eqn:Ea; [intros; apply utf8_one; auto |].
  destruct s as [| b s]; [done |].
  destruct (utf8_2 a b) eqn:Eb; [intros; apply utf8_two; [done | apply IH; [cbn; lia | done]] |].
  destruct s as [| c s]; [done |].
  destruct (utf8_3 a b c) eqn:Ec; [intros; apply utf8_three; [done | apply IH; [cbn; lia | done]] |].
  destruct s as [| d s]; [done |].
  rewrite andb_true_iff. intros [Ed Hs]. apply utf8_four; [done | apply IH; [cbn; lia | done]].
Qed.

(** Decides the boolean tests on byte values. *)
Ltac byte_lia :=
  unfold utf8_2, utf8_3, utf8_4, second3, second4, is_continuation, is_ascii_byte, in_range in *; lia.

Lemma utf8_valid_complete s : utf8 s -> utf8_valid s = true.
Proof.
  induction 1 as [| a s Ha _ IH | a b s Hab _ IH | a b c s Habc _ IH | a b c d s Habcd _ IH];
    cbn [utf8_valid]; [done | by rewrite Ha | ..].
  - assert (is_ascii_byte a = false) as -> by byte_lia. by rewrite Hab.
  - assert (is_ascii_byte a = false) as -> by byte_lia.
    assert (utf8_2 a b = false) as -> by byte_lia. by rewrite Habc.
  - assert (is_ascii_byte a = false) as -> by byte_lia.
    assert (utf8_2 a b = false) as -> by byte_lia.
    assert (utf8_3 a b c = false) as -> by byte_lia. by rewrite Habcd.
Qed.

Lemma utf8_valid_iff s : utf8_valid s = true <-> utf8 s.
Proof. split; [apply utf8_valid_sound | apply utf8_valid_complete]. Qed.

Lemma ascii_utf8 s : is_ascii s = true -> utf8 s.
Proof.
  induction s as [| a s IH]; cbn; [constructor |].
  rewrite andb_true_iff. intros [Ha Hs]. auto with rust.
Qed.

Lemma utf8_valid_2 a b s : utf8_2 a b = true -> utf8_valid (a :: b :: s) = utf8_valid s.
Proof.
  intros H. cbn [utf8_valid]. assert (is_ascii_byte a = false) as -> by byte_lia. by rewrite H.
Qed.

Lemma utf8_valid_3 a b c s :
  utf8_3 a b c = true -> utf8_valid (a :: b :: c :: s) = utf8_valid s.
Proof.
  intros H. cbn [utf8_valid]. assert (is_ascii_byte a = false) as -> by byte_lia.
  assert (utf8_2 a b = false) as -> by byte_lia. by rewrite H.
Qed.

Lemma utf8_valid_4 a b c d s :
  utf8_4 a b c d = true -> utf8_valid (a :: b :: c :: d :: s) = utf8_valid s.
Proof.
  intros H. cbn [utf8_valid]. assert (is_ascii_byte a = false) as -> by byte_lia.
  assert (utf8_2 a b = false) as -> by byte_lia.
  assert (utf8_3 a b c = false) as -> by byte_lia. by rewrite H.
Qed.

Lemma utf8_head_spec s :
  match utf8_head s with
  | Ok w => utf8_valid s = utf8_valid (drop w s) /\ (s <> [] -> 0 < w)%nat
  | Err _ => utf8_valid s = false
  end.
Proof.
  unfold utf8_head.
  repeat case_match; simplify_eq; cbn [drop];
    lazymatch goal with
    | |- _ /\ _ => split; [| first [done | lia]]
    | |- _ = false =>
        apply not_true_is_false; intros Hv%utf8_valid_iff; inversion Hv; subst; byte_lia
    end.
  - done.
  - cbn [utf8_valid]. by case_match.
  - apply utf8_valid_2. byte_lia.
  - apply utf8_valid_3. byte_lia.
  - apply utf8_valid_4. byte_lia.
Qed.

Lemma utf8_error_None fuel i s :
  (length s <= fuel)%nat -> utf8_error fuel i s = None <-> utf8_valid s = true.
Proof.
  revert i s. induction fuel as [| f IH]; intros i s Hs.
  - destruct s; [done | cbn in Hs; lia].
  - destruct s as [| a s]; [done |]. cbn [utf8_error].
    pose proof (utf8_head_spec (a :: s)) as Hh.
    destruct (utf8_head (a :: s)) as [w | n].
    + destruct Hh as [-> Hw]. apply IH. rewrite length_drop. cbn in *. specialize (Hw ltac:(done)). lia.
    + by rewrite Hh.
Qed.

Lemma from_utf8_Ok s t : from_utf8 s = Ok t <-> t = s /\ utf8 s.
Proof.
  unfold from_utf8. rewrite <- utf8_valid_iff, <- (utf8_error_None (length s) 0) by done.
  destruct (utf8_error (length s) 0 s) as [[i [n |]] |]; naive_solver.
Qed.
