(* ===== verification/Random.v ===== *)
(** * Random bytes and UUIDs ([src/random.rs])

    The generators of [dryoc] and [uuid] are the class [Csprng]: operations on
    the generator state [W] that fill a buffer.  The SQL functions are
    computations in [rand W]. *)
From stdpp Require Import base tactics list numbers option strings.
From Stdlib Require Import Strings.Byte.
From S2P Require Import Prelude RustStr.

Local Open Scope Z_scope.

(** ** The generators the code calls *)

(** [dryoc::rng::copy_randombytes] overwrites the buffer it is given;
    [uuid::Uuid::new_v4] draws a random identifier. *)
Class Csprng (W : Type) := {
  copy_randombytes : bytes -> W -> bytes * W;
  uuid_new_v4 : W -> bytes * W;
}.

(** A slice cannot change its length, and a UUID is an array of 16 bytes. *)
Class CsprngLaws (W : Type) `{Csprng W} : Prop := {
  copy_randombytes_length : forall buffer w,
    length (fst (copy_randombytes buffer w)) = length buffer;
  uuid_new_v4_length : forall w, length (fst (uuid_new_v4 w)) = 16%nat;
}.

(** [pgrx::Uuid]. *)
Record pg_uuid := Uuid { uuid_bytes : bytes }.

(** [usize::try_from(n).expect(..)] of an [i32]. *)
Definition usize_try_from (n : Z) : outcome nat :=
  if 0 <=? n then Ok (Z.to_nat n) else panicked ExpectFailed.

(** [1..=hi].contains(n) and the like. *)
Definition contains_Z (lo hi n : Z) : bool := (lo <=? n) && (n <=? hi).

Definition MAX_RANDOM_BYTES : Z := 1024.

Section operations.
Context {W : Type} `{Csprng W}.

Definition random_vec (length : nat) : rand W bytes := fun w =>
  let output := replicate length "000"%byte in
  let '(output, w') := copy_randombytes output w in
  (Ok output, w').

Definition gen_random_bytes (length : Z) : rand W bytes :=
  if negb (contains_Z 1 MAX_RANDOM_BYTES length) then
    lift (pg_error (lit "length must be between 1 and " ++ dec (Z.to_N MAX_RANDOM_BYTES)))
  else
    n ← lift (usize_try_from length);
    random_vec n.

Definition random_bytes (length : Z) : rand W bytes := gen_random_bytes length.

Definition gen_random_uuid : rand W pg_uuid := fun w =>
  let '(id, w') := uuid_new_v4 w in
  (Ok (Uuid id), w').

End operations.

(** ** A concrete generator, for the witnesses *)
Module Toy.

(** A counter: every byte drawn is the counter's low byte. *)
Definition draw (n : nat) (w : N) : bytes * N :=
  (replicate n (byte_of (w mod 256)), w + 1)%N.

#[export] Instance csprng : Csprng N := {|
  copy_randombytes buffer w := draw (length buffer) w;
  uuid_new_v4 w := draw 16 w;
|}.

#[export] Instance csprng_laws : CsprngLaws N.
Proof. split; intros; [apply length_replicate | done]. Qed.

End Toy.

(** ** Properties *)

Lemma contains_Z_true lo hi n : contains_Z lo hi n = true <-> lo <= n <= hi.
Proof. unfold contains_Z. rewrite andb_true_iff, !Z.leb_le. done. Qed.

Lemma contains_Z_false lo hi n : contains_Z lo hi n = false <-> ~ (lo <= n <= hi).
Proof. rewrite <- contains_Z_true. by destruct (contains_Z lo hi n). Qed.

Lemma usize_try_from_Ok n : 0 <= n -> usize_try_from n = Ok (Z.to_nat n).
Proof. intros Hn. unfold usize_try_from. by rewrite (proj2 (Z.leb_le 0 n)). Qed.

Section properties.
Context {W : Type} `{CsprngLaws W}.

Lemma random_vec_spec n w :
  exists b w', random_vec n w = (Ok b, w') /\ length b = n.
Proof.
  unfold random_vec. pose proof (copy_randombytes_length (replicate n "000"%byte) w) as Hl.
  destruct (copy_randombytes _ w) as [b w']. exists b, w'.
  rewrite length_replicate in Hl. by split.
Qed.

(** C29: [gen_random_bytes] and its alias [random_bytes] return exactly the requested
    number of bytes for every length from 1 to 1024, reject every other length
    with the documented message, draw nothing when they reject, and never
    panic: the conversion to [usize] cannot fail. *)
Theorem gen_random_bytes_spec (n : Z) (w : W) :
  random_bytes n w = gen_random_bytes n w
  /\ (1 <= n <= 1024 ->
      exists b w', gen_random_bytes n w = (Ok b, w') /\ Z.of_nat (length b) = n)
  /\ (~ 1 <= n <= 1024 ->
      gen_random_bytes n w = (Err (PgError (lit "length must be between 1 and 1024")), w)).
Proof.
  split; [done |]. unfold gen_random_bytes. split; intros Hn.
  - rewrite (proj2 (contains_Z_true 1 MAX_RANDOM_BYTES n) Hn). cbn [negb].
    rewrite usize_try_from_Ok by lia.
    destruct (random_vec_spec (Z.to_nat n) w) as (b & w' & E & Hl).
    exists b, w'. split; [exact E | lia].
  - by rewrite (proj2 (contains_Z_false 1 MAX_RANDOM_BYTES n) Hn).
Qed.

End properties.

Import Toy.

Lemma gen_random_bytes_spec_witness :
  exists b w', gen_random_bytes 3 7%N = (Ok b, w') /\ Z.of_nat (length b) = 3.
Proof. apply (gen_random_bytes_spec (W := N) 3 7%N). split; discriminate. Defined.
