(* ===== verification/Hash.v ===== *)
(** * Digests and HMACs ([src/hash.rs])

    The hash functions of the RustCrypto crates and the [hmac] crate are the
    class [HashCrates]; the model is the selection of an algorithm by name. *)
From stdpp Require Import base tactics list numbers option strings.
From Stdlib Require Import Strings.Byte.
From S2P Require Import Prelude RustStr.

(** ** The crates the code calls *)

(** The digest types the code instantiates. *)
Inductive hash_ty :=
| Md5 | Sha1 | Sha224 | Sha256 | Sha384 | Sha512 | Sha3_256 | Sha3_512 | Blake2b512.

#[export] Instance hash_ty_eq_dec : EqDecision hash_ty.
Proof. solve_decision. Defined.

Class HashCrates := {
  digest : hash_ty -> bytes -> bytes;
  hmac_state : Type;
  hmac_new_from_slice : hash_ty -> bytes -> option hmac_state;
  hmac_update : hmac_state -> bytes -> hmac_state;
  hmac_finalize : hmac_state -> bytes;
}.

(** The output sizes of the standards, in bytes. *)
Definition output_size (h : hash_ty) : nat :=
  match h with
  | Md5 => 16 | Sha1 => 20 | Sha224 => 28 | Sha256 => 32 | Sha384 => 48
  | Sha512 => 64 | Sha3_256 => 32 | Sha3_512 => 64 | Blake2b512 => 64
  end.

(** Documented behaviour: fixed output sizes, and HMAC keys of any length. *)
Class HashCratesLaws `{HashCrates} : Prop := {
  digest_length : forall h data, length (digest h data) = output_size h;
  hmac_any_key : forall h key, exists st,
    hmac_new_from_slice h key = Some st
    /\ forall data, length (hmac_finalize (hmac_update st data)) = output_size h;
}.

(** ** Selection by name *)

Definition unknown_algorithm {A} (kind algorithm : bytes) : outcome A :=
  pg_error (lit "unknown " ++ kind ++ lit " algorithm: " ++ algorithm).

(** [algorithm.to_ascii_lowercase().replace('-', <nothing>)] *)
Definition normalized (algorithm : bytes) : bytes :=
  remove_byte "-" (to_ascii_lowercase algorithm).

Section operations.
Context `{HashCrates}.

Definition digest_bytes (data algorithm : bytes) : outcome bytes :=
  let name := normalized algorithm in
  if one_of name ["md5"] then Ok (digest Md5 data)
  else if one_of name ["sha1"] then Ok (digest Sha1 data)
  else if one_of name ["sha224"] then Ok (digest Sha224 data)
  else if one_of name ["sha256"] then Ok (digest Sha256 data)
  else if one_of name ["sha384"] then Ok (digest Sha384 data)
  else if one_of name ["sha512"] then Ok (digest Sha512 data)
  else if one_of name ["sha3256"] then Ok (digest Sha3_256 data)
  else if one_of name ["sha3512"] then Ok (digest Sha3_512 data)
  else if one_of name ["blake2b"; "blake2b512"] then Ok (digest Blake2b512 data)
  else unknown_algorithm (lit "digest") algorithm.

(** The macro [calculate!]. *)
Definition calculate (h : hash_ty) (data key : bytes) : outcome bytes :=
  mac ← ok_or_else (hmac_new_from_slice h key) (pg_error (lit "invalid HMAC key"));
  Ok (hmac_finalize (hmac_update mac data)).

Definition hmac_bytes (data key algorithm : bytes) : outcome bytes :=
  let name := normalized algorithm in
  if one_of name ["md5"] then calculate Md5 data key
  else if one_of name ["sha1"] then calculate Sha1 data key
  else if one_of name ["sha224"] then calculate Sha224 data key
  else if one_of name ["sha256"] then calculate Sha256 data key
  else if one_of name ["sha384"] then calculate Sha384 data key
  else if one_of name ["sha512"] then calculate Sha512 data key
  else if one_of name ["sha3256"] then calculate Sha3_256 data key
  else if one_of name ["sha3512"] then calculate Sha3_512 data key
  else unknown_algorithm (lit "HMAC") algorithm.

(** The SQL functions. *)
Definition digest_bytea (data algorithm : bytes) : outcome bytes :=
  digest_bytes data algorithm.
Definition digest_text (data algorithm : bytes) : outcome bytes :=
  digest_bytes data algorithm.
Definition hmac_bytea (data key algorithm : bytes) : outcome bytes :=
  hmac_bytes data key algorithm.
Definition hmac_text (data key algorithm : bytes) : outcome bytes :=
  hmac_bytes data key algorithm.
Definition blake2b (data : bytes) : outcome bytes := digest_bytes data (lit "blake2b").
Definition sha3_256 (data : bytes) : outcome bytes := digest_bytes data (lit "sha3-256").
Definition sha3_512 (data : bytes) : outcome bytes := digest_bytes data (lit "sha3-512").
Definition fips_mode : bool := false.

End operations.

(** ** Specification: names and their spellings *)

(** The names of the documentation, without hyphens. *)
Definition digest_names : list (string * hash_ty) :=
  [("md5", Md5); ("sha1", Sha1); ("sha224", Sha224); ("sha256", Sha256);
   ("sha384", Sha384); ("sha512", Sha512); ("sha3256", Sha3_256);
   ("sha3512", Sha3_512); ("blake2b", Blake2b512); ("blake2b512", Blake2b512)].

(** [spelled s name]: [s] is [name] in any letter case with hyphens anywhere. *)
Inductive spelled : bytes -> bytes -> Prop :=
| spelled_nil : spelled [] []
| spelled_hyphen s name : spelled s name -> spelled ("-"%byte :: s) name
| spelled_char c s n name :
    lower_byte c = n -> n <> "-"%byte -> spelled s name -> spelled (c :: s) (n :: name).

(** ** A concrete instance, for the witnesses *)
Module Toy.

(** Every "hash" is the data's bytes cut or padded to the output size. *)
Definition resize (n : nat) (data : bytes) : bytes :=
  take n (data ++ replicate n "000"%byte).

#[export] Instance hashes : HashCrates := {|
  digest h data := resize (output_size h) data;
  hmac_state := hash_ty * bytes;
  hmac_new_from_slice h key := Some (h, key);
  hmac_update st data := (st.1, st.2 ++ data);
  hmac_finalize st := resize (output_size st.1) st.2;
|}.

Lemma resize_length n data : length (resize n data) = n.
Proof. unfold resize. rewrite length_take, length_app, length_replicate. lia. Qed.

#[export] Instance hashes_laws : HashCratesLaws.
Proof.
  split; intros; cbn; [apply resize_length |].
  eexists; split; [done | intros; apply resize_length].
Qed.

End Toy.

(** ** Lemmas *)

Lemma spelled_normalized s name : spelled s name <-> normalized s = name.
Proof.
  unfold normalized, remove_byte, to_ascii_lowercase. split.
  - induction 1 as [| s name _ IH | c s n name Hc Hn _ IH]; [done | |].
    + rewrite fmap_cons, filter_cons_False by (intros H; by apply H). done.
    + rewrite fmap_cons, filter_cons_True by (by rewrite Hc). by rewrite Hc, IH.
  - revert name. induction s as [| c s IH]; intros name <-; [constructor |].
    rewrite fmap_cons. destruct (decide (lower_byte c = "-"%byte)) as [E | E].
    + assert (c = "-"%byte) as ->.
      { revert c E.
        apply (byte_forall_dec (fun c => lower_byte c = "-"%byte -> c = "-"%byte)). vm_compute. reflexivity. }
      rewrite filter_cons_False by (intros H; by apply H). constructor. by apply IH.
    + rewrite filter_cons_True by done. constructor; [done.. | by apply IH].
Qed.


(** The names accepted for an HMAC: those of the digests but BLAKE2b's. *)
Definition hmac_names : list (string * hash_ty) := take 8 digest_names.

Lemma hmac_names_spec name h :
  (name, h) ∈ hmac_names <-> (name, h) ∈ digest_names /\ h <> Blake2b512.
Proof.
  split.
  - intros Hin. split; [| by elem_cases Hin].
    unfold hmac_names in Hin. by apply elem_of_take in Hin as (i & Hi%list_elem_of_lookup_2 & _).
  - intros [Hin Hh]. elem_cases Hin; find_elem.
Qed.

Section lemmas.
Context `{HashCratesLaws}.

Lemma digest_bytes_known data s name h :
  (name, h) ∈ digest_names -> spelled s (lit name) ->
  digest_bytes data s = Ok (digest h data).
Proof.
  intros Hin Hs%spelled_normalized. unfold digest_bytes. rewrite Hs.
  elem_cases Hin; reflexivity.
Qed.

Lemma digest_bytes_unknown data s :
  (forall name h, (name, h) ∈ digest_names -> ~ spelled s (lit name)) ->
  digest_bytes data s = Err (PgError (lit "unknown digest algorithm: " ++ s)).
Proof.
  intros Hnone. unfold digest_bytes.
  repeat (case_match eqn:E;
    [apply one_of_elem in E as (n & Hn & E%spelled_normalized); exfalso;
     eapply (Hnone n); [elem_cases Hn; find_elem | exact E] | clear E]).
  reflexivity.
Qed.

Lemma calculate_Ok h data key :
  exists mac, hmac_new_from_slice h key = Some mac
  /\ calculate h data key = Ok (hmac_finalize (hmac_update mac data))
  /\ length (hmac_finalize (hmac_update mac data)) = output_size h.
Proof.
  destruct (hmac_any_key h key) as (mac & Hmac & Hlen). exists mac.
  split; [done |]. split; [| apply Hlen]. unfold calculate. by rewrite Hmac.
Qed.

Lemma hmac_bytes_known data key s name h :
  (name, h) ∈ hmac_names -> spelled s (lit name) ->
  hmac_bytes data key s = calculate h data key.
Proof.
  intros Hin Hs%spelled_normalized. unfold hmac_bytes. rewrite Hs.
  elem_cases Hin; reflexivity.
Qed.

Lemma hmac_bytes_unknown data key s :
  (forall name h, (name, h) ∈ hmac_names -> ~ spelled s (lit name)) ->
  hmac_bytes data key s = Err (PgError (lit "unknown HMAC algorithm: " ++ s)).
Proof.
  intros Hnone. unfold hmac_bytes.
  repeat (case_match eqn:E;
    [apply one_of_elem in E as (n & Hn & E%spelled_normalized); exfalso;
     eapply (Hnone n); [elem_cases Hn; find_elem | exact E] | clear E]).
  reflexivity.
Qed.

(** ** Properties *)

(** C27: [digest] selects its hash by name whatever the letter case and the
    hyphens of the spelling: a spelling of a documented name gives that hash of
    the data, with the standard's output size, and any other string is the
    error that quotes the name as it was given.  The functions with a fixed
    algorithm always give that algorithm's digest. *)
Theorem digest_bytes_spec data s :
  (forall name h, (name, h) ∈ digest_names -> spelled s (lit name) ->
     digest_bytes data s = Ok (digest h data) /\ length (digest h data) = output_size h)
  /\ ((forall name h, (name, h) ∈ digest_names -> ~ spelled s (lit name)) ->
     digest_bytes data s = Err (PgError (lit "unknown digest algorithm: " ++ s)))
  /\ (blake2b data = Ok (digest Blake2b512 data) /\ sha3_256 data = Ok (digest Sha3_256 data)
      /\ sha3_512 data = Ok (digest Sha3_512 data)).
Proof.
  split_and!; [| apply digest_bytes_unknown | ..].
  - intros name h Hin Hs. split; [by eapply digest_bytes_known | apply digest_length].
  - apply (digest_bytes_known _ _ "blake2b"); [find_elem | by apply spelled_normalized].
  - apply (digest_bytes_known _ _ "sha3256"); [find_elem | by apply spelled_normalized].
  - apply (digest_bytes_known _ _ "sha3512"); [find_elem | by apply spelled_normalized].
Qed.

(** C28: [hmac] accepts exactly the spellings of the digest names other than
    BLAKE2b's, keys of any length included, and answers with the chosen hash's
    HMAC; every other string, BLAKE2b's names too, is an error. *)
Theorem hmac_bytes_spec data key s :
  (forall name h, (name, h) ∈ digest_names -> h <> Blake2b512 -> spelled s (lit name) ->
     exists mac out, hmac_new_from_slice h key = Some mac
     /\ out = hmac_finalize (hmac_update mac data)
     /\ hmac_bytes data key s = Ok out /\ length out = output_size h)
  /\ ((forall name h, (name, h) ∈ digest_names -> h <> Blake2b512 -> ~ spelled s (lit name)) ->
     hmac_bytes data key s = Err (PgError (lit "unknown HMAC algorithm: " ++ s))).
Proof.
  split.
  - intros name h Hin Hh Hs. destruct (calculate_Ok h data key) as (mac & Hmac & Hc & Hl).
    exists mac, (hmac_finalize (hmac_update mac data)). split_and!; [done.. | | done].
    rewrite (hmac_bytes_known _ _ _ name h); [done | by apply hmac_names_spec | done].
  - intros Hnone. apply hmac_bytes_unknown. intros name h Hin.
    apply hmac_names_spec in Hin as [Hin Hh]. by eapply Hnone.
Qed.

End lemmas.

Lemma spelled_example : spelled (lit "SHA3-256") (lit "sha3256").
Proof. apply spelled_normalized. vm_compute. reflexivity. Qed.

Import Toy.

Lemma digest_bytes_spec_witness :
  digest_bytes (lit "abc") (lit "SHA3-256") = Ok (digest Sha3_256 (lit "abc"))
  /\ length (digest Sha3_256 (lit "abc")) = 32.
Proof.
  apply (proj1 (digest_bytes_spec (lit "abc") (lit "SHA3-256")) "sha3256" Sha3_256).
  - find_elem.
  - exact spelled_example.
Defined.

Lemma hmac_bytes_spec_witness :
  exists mac out, hmac_new_from_slice Sha3_256 (lit "key") = Some mac
  /\ out = hmac_finalize (hmac_update mac (lit "abc"))
  /\ hmac_bytes (lit "abc") (lit "key") (lit "SHA3-256") = Ok out /\ length out = 32.
Proof.
  apply (proj1 (hmac_bytes_spec (lit "abc") (lit "key") (lit "SHA3-256")) "sha3256" Sha3_256).
  - find_elem.
  - discriminate.
  - exact spelled_example.
Defined.
