(* ===== verification/Raw.v ===== *)
(** * Raw block ciphers ([src/raw.rs])

    The cipher-mode crates ([aes], [blowfish], [cbc], [cfb_mode], [ecb],
    [cipher]) are the class [CipherCrates].  The model is the code around them:
    the parser of cipher names, the preparation of keys and initialisation
    vectors, the choice of mode and padding, and the mapping of errors.  The
    slices and copies of keys and vectors are checked, and the loop over a short
    Blowfish key has fuel: [fixed_Ok] and [blowfish_key_Ok] show that nothing
    panics and that the results are [zero_padded] and [repeated_key]. *)
From stdpp Require Import base tactics list numbers option strings.
From Stdlib Require Import Strings.Byte.
From S2P Require Import Prelude RustStr.

(** ** Data *)

Inductive algorithm := Aes | Blowfish.
Inductive mode := Cbc | Cfb | Ecb.

Module Padding.
Inductive t := Pkcs | None.
End Padding.

#[export] Instance algorithm_eq_dec : EqDecision algorithm.
Proof. solve_decision. Defined.
#[export] Instance mode_eq_dec : EqDecision mode.
Proof. solve_decision. Defined.
#[export] Instance padding_eq_dec : EqDecision Padding.t.
Proof. solve_decision. Defined.

(** The cipher types of the crates, and their padding types. *)
Inductive cipher_ty := Aes128 | Aes192 | Aes256 | BlowfishCipher.
Inductive block_padding := Pkcs7 | NoPadding.

(** An AES key of one of the three sizes. *)
Module AesKey.
Inductive t := Aes128 (key : bytes) | Aes192 (key : bytes) | Aes256 (key : bytes).
End AesKey.

(** ** The crates the code calls

    A mode is initialised for a cipher with a key and, except for ECB, an
    initialisation vector: [..._new] from arrays, [..._new_from_slices] from
    slices whose lengths it checks.  [encrypt_padded_vec] has no error value:
    it returns the ciphertext or panics.  [..._in_place] is the stream mode. *)
Class CipherCrates := {
  encryptor : Type;
  decryptor : Type;
  encryptor_new : mode -> cipher_ty -> bytes -> option bytes -> encryptor;
  decryptor_new : mode -> cipher_ty -> bytes -> option bytes -> decryptor;
  encryptor_new_from_slices : mode -> cipher_ty -> bytes -> option bytes -> option encryptor;
  decryptor_new_from_slices : mode -> cipher_ty -> bytes -> option bytes -> option decryptor;
  encrypt_padded_vec : encryptor -> block_padding -> bytes -> outcome bytes;
  decrypt_padded_vec : decryptor -> block_padding -> bytes -> option bytes;
  encrypt_in_place : encryptor -> bytes -> bytes;
  decrypt_in_place : decryptor -> bytes -> bytes;
}.

(** ** Operations *)

Definition raw_error {A} (message : string) : outcome A :=
  pg_error (lit "raw cipher error: " ++ lit message).

Definition parse_type (cipher_type : bytes) : outcome (algorithm * mode * Padding.t) :=
  let normalized := to_ascii_lowercase cipher_type in
  '(cipher_mode, padding) ←
    match split_once "/" normalized with
    | None => Ok (normalized, Padding.Pkcs)
    | Some (left_part, right_part) =>
        padding ←
          (if one_of right_part ["pad:pkcs"] then Ok Padding.Pkcs
           else if one_of right_part ["pad:none"] then Ok Padding.None
           else raw_error "padding must be pad:pkcs or pad:none");
        Ok (left_part, padding)
    end;
  '(algorithm, mode) ←
    (if one_of cipher_mode ["aes"; "aes-cbc"; "rijndael"; "rijndael-cbc"] then Ok (Aes, Cbc)
     else if one_of cipher_mode ["aes-cfb"; "rijndael-cfb"] then Ok (Aes, Cfb)
     else if one_of cipher_mode ["aes-ecb"; "rijndael-ecb"] then Ok (Aes, Ecb)
     else if one_of cipher_mode ["bf"; "bf-cbc"; "blowfish"; "blowfish-cbc"] then Ok (Blowfish, Cbc)
     else if one_of cipher_mode ["bf-cfb"; "blowfish-cfb"] then Ok (Blowfish, Cfb)
     else if one_of cipher_mode ["bf-ecb"; "blowfish-ecb"] then Ok (Blowfish, Ecb)
     else raw_error "cipher must be aes or bf with cbc, cfb, or ecb mode");
  Ok (algorithm, mode, padding).

(** The input in an array of [N] zero bytes, cut to the array. *)
Definition fixed (N : nat) (input : bytes) : outcome bytes :=
  let output := replicate N "000"%byte in
  let count := Nat.min (length input) N in
  front ← slice output 0 count;
  source ← slice input 0 count;
  copied ← copy_from_slice front source;
  Ok (copied ++ drop count output).

Definition aes_key (input : bytes) : outcome AesKey.t :=
  if (length input <=? 16)%nat then key ← fixed 16 input; Ok (AesKey.Aes128 key)
  else if (length input <=? 24)%nat then key ← fixed 24 input; Ok (AesKey.Aes192 key)
  else if (length input <=? 32)%nat then key ← fixed 32 input; Ok (AesKey.Aes256 key)
  else raw_error "AES key must not exceed 32 bytes".

(** The loop of [blowfish_key]: [while output.len() < 4 { output += original }].
    Out of fuel it has not ended. *)
Fixpoint extend_while (fuel : nat) (original output : bytes) : outcome bytes :=
  match fuel with
  | O => panicked FuelExhausted
  | S f => if (length output <? 4)%nat then extend_while f original (output ++ original)
           else Ok output
  end.

Definition blowfish_key (key : bytes) : outcome bytes :=
  output ← slice key 0 (Nat.min (length key) 56);
  if negb (length output =? 0)%nat && (length output <? 4)%nat
  then extend_while 4 output output
  else Ok output.

Section operations.
Context `{CipherCrates}.

Definition encrypt_aes_with (cipher : cipher_ty) (key iv : bytes) (m : mode)
    (padding : Padding.t) (data : bytes) : outcome bytes :=
  match m with
  | Cbc =>
      match padding with
      | Padding.Pkcs => encrypt_padded_vec (encryptor_new Cbc cipher key (Some iv)) Pkcs7 data
      | Padding.None => encrypt_padded_vec (encryptor_new Cbc cipher key (Some iv)) NoPadding data
      end
  | Ecb =>
      match padding with
      | Padding.Pkcs => encrypt_padded_vec (encryptor_new Ecb cipher key None) Pkcs7 data
      | Padding.None => encrypt_padded_vec (encryptor_new Ecb cipher key None) NoPadding data
      end
  | Cfb => Ok (encrypt_in_place (encryptor_new Cfb cipher key (Some iv)) data)
  end.

Definition decrypt_aes_with (cipher : cipher_ty) (key iv : bytes) (m : mode)
    (padding : Padding.t) (data : bytes) : outcome bytes :=
  match m with
  | Cbc =>
      match padding with
      | Padding.Pkcs =>
          ok_or_else (decrypt_padded_vec (decryptor_new Cbc cipher key (Some iv)) Pkcs7 data)
            (raw_error "invalid ciphertext or padding")
      | Padding.None =>
          ok_or_else (decrypt_padded_vec (decryptor_new Cbc cipher key (Some iv)) NoPadding data)
            (raw_error "ciphertext is not block aligned")
      end
  | Ecb =>
      match padding with
      | Padding.Pkcs =>
          ok_or_else (decrypt_padded_vec (decryptor_new Ecb cipher key None) Pkcs7 data)
            (raw_error "invalid ciphertext or padding")
      | Padding.None =>
          ok_or_else (decrypt_padded_vec (decryptor_new Ecb cipher key None) NoPadding data)
            (raw_error "ciphertext is not block aligned")
      end
  | Cfb => Ok (decrypt_in_place (decryptor_new Cfb cipher key (Some iv)) data)
  end.

Definition encrypt_aes (data key iv : bytes) (m : mode) (padding : Padding.t) : outcome bytes :=
  iv ← fixed 16 iv;
  key ← aes_key key;
  match key with
  | AesKey.Aes128 key => encrypt_aes_with Aes128 key iv m padding data
  | AesKey.Aes192 key => encrypt_aes_with Aes192 key iv m padding data
  | AesKey.Aes256 key => encrypt_aes_with Aes256 key iv m padding data
  end.

Definition decrypt_aes (data key iv : bytes) (m : mode) (padding : Padding.t) : outcome bytes :=
  iv ← fixed 16 iv;
  key ← aes_key key;
  match key with
  | AesKey.Aes128 key => decrypt_aes_with Aes128 key iv m padding data
  | AesKey.Aes192 key => decrypt_aes_with Aes192 key iv m padding data
  | AesKey.Aes256 key => decrypt_aes_with Aes256 key iv m padding data
  end.

Definition encrypt_blowfish (data key iv : bytes) (m : mode) (padding : Padding.t) : outcome bytes :=
  key ← blowfish_key key;
  iv ← fixed 8 iv;
  match m with
  | Cbc =>
      match padding with
      | Padding.Pkcs =>
          e ← ok_or_else (encryptor_new_from_slices Cbc BlowfishCipher key (Some iv))
                (raw_error "invalid Blowfish key");
          encrypt_padded_vec e Pkcs7 data
      | Padding.None =>
          e ← ok_or_else (encryptor_new_from_slices Cbc BlowfishCipher key (Some iv))
                (raw_error "invalid Blowfish key");
          encrypt_padded_vec e NoPadding data
      end
  | Ecb =>
      match padding with
      | Padding.Pkcs =>
          e ← ok_or_else (encryptor_new_from_slices Ecb BlowfishCipher key None)
                (raw_error "invalid Blowfish key");
          encrypt_padded_vec e Pkcs7 data
      | Padding.None =>
          e ← ok_or_else (encryptor_new_from_slices Ecb BlowfishCipher key None)
                (raw_error "invalid Blowfish key");
          encrypt_padded_vec e NoPadding data
      end
  | Cfb =>
      e ← ok_or_else (encryptor_new_from_slices Cfb BlowfishCipher key (Some iv))
            (raw_error "invalid Blowfish key");
      Ok (encrypt_in_place e data)
  end.

Definition decrypt_blowfish (data key iv : bytes) (m : mode) (padding : Padding.t) : outcome bytes :=
  key ← blowfish_key key;
  iv ← fixed 8 iv;
  match m with
  | Cbc =>
      match padding with
      | Padding.Pkcs =>
          d ← ok_or_else (decryptor_new_from_slices Cbc BlowfishCipher key (Some iv))
                (raw_error "invalid Blowfish key");
          ok_or_else (decrypt_padded_vec d Pkcs7 data)
            (raw_error "invalid ciphertext or padding")
      | Padding.None =>
          d ← ok_or_else (decryptor_new_from_slices Cbc BlowfishCipher key (Some iv))
                (raw_error "invalid Blowfish key");
          ok_or_else (decrypt_padded_vec d NoPadding data)
            (raw_error "ciphertext is not block aligned")
      end
  | Ecb =>
      match padding with
      | Padding.Pkcs =>
          d ← ok_or_else (decryptor_new_from_slices Ecb BlowfishCipher key None)
                (raw_error "invalid Blowfish key");
          ok_or_else (decrypt_padded_vec d Pkcs7 data)
            (raw_error "invalid ciphertext or padding")
      | Padding.None =>
          d ← ok_or_else (decryptor_new_from_slices Ecb BlowfishCipher key None)
                (raw_error "invalid Blowfish key");
          ok_or_else (decrypt_padded_vec d NoPadding data)
            (raw_error "ciphertext is not block aligned")
      end
  | Cfb =>
      d ← ok_or_else (decryptor_new_from_slices Cfb BlowfishCipher key (Some iv))
            (raw_error "invalid Blowfish key");
      Ok (decrypt_in_place d data)
  end.

Definition transform (data key iv cipher_type : bytes) (decrypting : bool) : outcome bytes :=
  '(algorithm, mode, padding) ← parse_type cipher_type;
  match algorithm, decrypting with
  | Aes, false => encrypt_aes data key iv mode padding
  | Aes, true => decrypt_aes data key iv mode padding
  | Blowfish, false => encrypt_blowfish data key iv mode padding
  | Blowfish, true => decrypt_blowfish data key iv mode padding
  end.

(** The SQL functions. *)
Definition encrypt (data key cipher_type : bytes) : outcome bytes :=
  transform data key [] cipher_type false.
Definition decrypt (data key cipher_type : bytes) : outcome bytes :=
  transform data key [] cipher_type true.
Definition encrypt_iv (data key iv cipher_type : bytes) : outcome bytes :=
  transform data key iv cipher_type false.
Definition decrypt_iv (data key iv cipher_type : bytes) : outcome bytes :=
  transform data key iv cipher_type true.

End operations.

(** ** Specification *)

(** Block and key sizes of the ciphers. *)
Definition block_size (c : cipher_ty) : nat :=
  match c with BlowfishCipher => 8 | _ => 16 end.

Definition key_fits (c : cipher_ty) (n : nat) : bool :=
  match c with
  | Aes128 => (n =? 16)%nat
  | Aes192 => (n =? 24)%nat
  | Aes256 => (n =? 32)%nat
  | BlowfishCipher => (4 <=? n)%nat && (n <=? 56)%nat
  end.

(** ECB takes no initialisation vector, the others one block. *)
Definition iv_fits (m : mode) (c : cipher_ty) (iv : option bytes) : Prop :=
  match m, iv with
  | Ecb, None => True
  | Ecb, Some _ | _, None => False
  | _, Some iv => length iv = block_size c
  end.

(** An encryptor and a decryptor initialised alike. *)
Inductive initialised `{CipherCrates} (m : mode) (c : cipher_ty) (key : bytes)
    (iv : option bytes) : encryptor -> decryptor -> Prop :=
| by_arrays :
    key_fits c (length key) = true -> iv_fits m c iv ->
    initialised m c key iv (encryptor_new m c key iv) (decryptor_new m c key iv)
| by_slices e d :
    encryptor_new_from_slices m c key iv = Some e ->
    decryptor_new_from_slices m c key iv = Some d ->
    initialised m c key iv e d.

(** Documented behaviour of the crates: the slice constructors check the key
    size; PKCS#7 pads to the next block boundary and is removed again; without
    padding aligned data keeps its length; unaligned ciphertext is refused; CFB
    keeps the length and is undone by its decryptor. *)
Class CipherLaws `{CipherCrates} : Prop := {
  from_slices_ok m c key iv :
    key_fits c (length key) = true -> iv_fits m c iv ->
    exists e d, encryptor_new_from_slices m c key iv = Some e
                /\ decryptor_new_from_slices m c key iv = Some d;
  from_slices_bad_key m c key iv :
    key_fits c (length key) = false ->
    encryptor_new_from_slices m c key iv = None
    /\ decryptor_new_from_slices m c key iv = None;
  pkcs7_law m c key iv e d data :
    initialised m c key iv e d -> m <> Cfb ->
    exists ct, encrypt_padded_vec e Pkcs7 data = Ok ct
      /\ length ct = ((length data / block_size c + 1) * block_size c)%nat
      /\ decrypt_padded_vec d Pkcs7 ct = Some data;
  no_padding_law m c key iv e d data :
    initialised m c key iv e d -> m <> Cfb -> Nat.divide (block_size c) (length data) ->
    exists ct, encrypt_padded_vec e NoPadding data = Ok ct
      /\ length ct = length data
      /\ decrypt_padded_vec d NoPadding ct = Some data;
  unaligned_law m c key iv e d p data :
    initialised m c key iv e d -> m <> Cfb -> ~ Nat.divide (block_size c) (length data) ->
    decrypt_padded_vec d p data = None;
  cfb_law c key iv e d data :
    initialised Cfb c key iv e d ->
    length (encrypt_in_place e data) = length data
    /\ decrypt_in_place d (encrypt_in_place e data) = data;
}.

(** The accepted names of a cipher and mode, and the suffixes of a padding. *)
Definition type_names (a : algorithm) (m : mode) : list string :=
  match a, m with
  | Aes, Cbc => ["aes"; "aes-cbc"; "rijndael"; "rijndael-cbc"]
  | Aes, Cfb => ["aes-cfb"; "rijndael-cfb"]
  | Aes, Ecb => ["aes-ecb"; "rijndael-ecb"]
  | Blowfish, Cbc => ["bf"; "bf-cbc"; "blowfish"; "blowfish-cbc"]
  | Blowfish, Cfb => ["bf-cfb"; "blowfish-cfb"]
  | Blowfish, Ecb => ["bf-ecb"; "blowfish-ecb"]
  end%string.

Definition padding_suffixes (p : Padding.t) : list string :=
  match p with
  | Padding.Pkcs => [EmptyString; "/pad:pkcs"]
  | Padding.None => ["/pad:none"]
  end%string.

(** The first [N] bytes of the input, with zeros after a shorter one. *)
Definition zero_padded (N : nat) (input : bytes) : bytes :=
  take N (input ++ replicate N "000"%byte).
#[local] Arguments zero_padded : simpl never.
#[local] Arguments fixed : simpl never.

(** A key of at least four bytes is cut after 56; a shorter one is repeated
    until it has four. *)
Definition repeated_key (key : bytes) : bytes :=
  if (4 <=? length key)%nat then take 56 key
  else mjoin (replicate ((length key + 3) / length key) key).

(** The cipher and the key bytes an algorithm uses for an SQL key. *)
Definition effective_key (a : algorithm) (key : bytes) : outcome (cipher_ty * bytes) :=
  match a with
  | Aes =>
      if (length key <=? 16)%nat then Ok (Aes128, zero_padded 16 key)
      else if (length key <=? 24)%nat then Ok (Aes192, zero_padded 24 key)
      else if (length key <=? 32)%nat then Ok (Aes256, zero_padded 32 key)
      else raw_error "AES key must not exceed 32 bytes"
  | Blowfish =>
      if (length key =? 0)%nat then raw_error "invalid Blowfish key"
      else Ok (BlowfishCipher, repeated_key key)
  end.

Definition effective_iv (m : mode) (c : cipher_ty) (iv : bytes) : option bytes :=
  match m with Ecb => None | _ => Some (zero_padded (block_size c) iv) end.

Definition crate_padding (p : Padding.t) : block_padding :=
  match p with Padding.Pkcs => Pkcs7 | Padding.None => NoPadding end.

Definition decrypt_failure (p : Padding.t) : string :=
  match p with
  | Padding.Pkcs => "invalid ciphertext or padding"
  | Padding.None => "ciphertext is not block aligned"
  end.

(** One call of an initialised cipher. *)
Definition run_encryptor `{CipherCrates} (e : encryptor) (m : mode) (p : Padding.t)
    (data : bytes) : outcome bytes :=
  match m with
  | Cfb => Ok (encrypt_in_place e data)
  | _ => encrypt_padded_vec e (crate_padding p) data
  end.

Definition run_decryptor `{CipherCrates} (d : decryptor) (m : mode) (p : Padding.t)
    (data : bytes) : outcome bytes :=
  match m with
  | Cfb => Ok (decrypt_in_place d data)
  | _ => ok_or_else (decrypt_padded_vec d (crate_padding p) data) (raw_error (decrypt_failure p))
  end.

(** The length of a ciphertext. *)
Definition ciphertext_length (c : cipher_ty) (m : mode) (p : Padding.t) (n : nat) : nat :=
  match m, p with
  | Cfb, _ | _, Padding.None => n
  | _, Padding.Pkcs => (n / block_size c + 1) * block_size c
  end.

(** ** A concrete instance, for the witnesses *)
Module Toy.

(** PKCS#7 for blocks of [b] bytes. *)
Definition pad (b : nat) (data : bytes) : bytes :=
  let n := (b - length data mod b)%nat in data ++ replicate n (byte_of (N.of_nat n)).

Definition unpad (b : nat) (data : bytes) : option bytes :=
  if (length data mod b =? 0)%nat then
    match last data with
    | Some z => let n := N.to_nat (u8 z) in
        if (n <=? length data)%nat then Some (take (length data - n) data) else None
    | None => None
    end
  else None.

(** A "cipher" that reverses its padded input; the key only sets the block. *)
#[export] Instance ciphers : CipherCrates := {|
  encryptor := cipher_ty;
  decryptor := cipher_ty;
  encryptor_new _ c _ _ := c;
  decryptor_new _ c _ _ := c;
  encryptor_new_from_slices _ c key _ := if key_fits c (length key) then Some c else None;
  decryptor_new_from_slices _ c key _ := if key_fits c (length key) then Some c else None;
  encrypt_padded_vec c p data :=
    match p with
    | Pkcs7 => Ok (rev (pad (block_size c) data))
    | NoPadding => if (length data mod block_size c =? 0)%nat then Ok (rev data)
                   else panicked CratePanicked
    end;
  decrypt_padded_vec c p data :=
    match p with
    | Pkcs7 => unpad (block_size c) (rev data)
    | NoPadding => if (length data mod block_size c =? 0)%nat then Some (rev data) else None
    end;
  encrypt_in_place _ data := rev data;
  decrypt_in_place _ data := rev data;
|}.

Lemma initialised_eq m c key iv e d : initialised m c key iv e d -> e = c /\ d = c.
Proof. intros [| e' d' He Hd]; cbn in *; [done |]. by case_match; simplify_eq. Qed.

Lemma pad_length b data :
  (0 < b)%nat -> length (pad b data) = ((length data / b + 1) * b)%nat.
Proof.
  intros Hb. unfold pad. rewrite length_app, length_replicate.
  pose proof (Nat.mod_upper_bound (length data) b). pose proof (Nat.div_mod_eq (length data) b).
  nia.
Qed.

Lemma unpad_pad b data : (0 < b < 256)%nat -> unpad b (pad b data) = Some data.
Proof.
  intros Hb. unfold unpad. rewrite pad_length, Nat.Div0.mod_mul by lia. cbn [Nat.eqb].
  unfold pad. pose proof (Nat.mod_upper_bound (length data) b ltac:(lia)).
  set (n := (b - length data mod b)%nat). assert (0 < n < 256)%nat as Hn by lia.
  assert (replicate n (byte_of (N.of_nat n)) = replicate (pred n) (byte_of (N.of_nat n)) ++ [byte_of (N.of_nat n)])
    as E by (destruct n as [| k]; [lia | apply replicate_S_end]).
  rewrite E, app_assoc, last_snoc, u8_byte_of, Nat2N.id by lia.
  pose proof (Nat.div_mod_eq (length data) b).
  replace ((length data / b + 1) * b)%nat with (length data + n)%nat by (subst n; nia).
  rewrite <- app_assoc, <- E, (proj2 (Nat.leb_le n _)) by lia.
  f_equal. replace (_ + n - n)%nat with (length data) by lia. apply take_app_length.
Qed.

Lemma block_size_range c : (0 < block_size c < 256)%nat.
Proof. destruct c; cbn; lia. Qed.

#[export] Instance ciphers_laws : CipherLaws.
Proof.
  split.
  - intros m c key iv Hkey _. cbn. rewrite Hkey. eauto.
  - intros m c key iv Hkey. cbn. by rewrite Hkey.
  - intros m c key iv e d data [-> ->]%initialised_eq _. cbn.
    pose proof (block_size_range c). eexists. split; [done |].
    rewrite length_rev, pad_length, rev_involutive, unpad_pad by lia. done.
  - intros m c key iv e d data [-> ->]%initialised_eq _ Hdiv. cbn.
    pose proof (block_size_range c).
    apply Nat.Lcm0.mod_divide in Hdiv. rewrite Hdiv. cbn.
    eexists. split; [done |]. by rewrite length_rev, Hdiv, rev_involutive.
  - intros m c key iv e d p data [-> ->]%initialised_eq _ Hdiv. cbn.
    rewrite <- Nat.Lcm0.mod_divide in Hdiv. unfold unpad. rewrite ?length_rev.
    destruct (Nat.eqb_spec (length data mod block_size c) 0); [done |]. by destruct p.
  - intros c key iv e d data [-> ->]%initialised_eq. cbn.
    by rewrite length_rev, rev_involutive.
Qed.

End Toy.

(** ** Lemmas *)

Lemma zero_padded_length N input : length (zero_padded N input) = N.
Proof. unfold zero_padded. rewrite length_take, length_app, length_replicate. lia. Qed.

(** The array holds the input's bytes, then zeros. *)
Lemma zero_padded_lookup N input i :
  (i < N)%nat -> zero_padded N input !! i = Some (default "000"%byte (input !! i)).
Proof.
  intros Hi. unfold zero_padded. rewrite lookup_take_lt, lookup_app by done.
  destruct (input !! i) eqn:E; [done |]. apply lookup_ge_None in E.
  apply lookup_replicate_2. lia.
Qed.

Lemma zero_padded_ext N s t :
  (forall i, (i < N)%nat -> default "000"%byte (s !! i) = default "000"%byte (t !! i)) ->
  zero_padded N s = zero_padded N t.
Proof.
  intros Hst. apply list_eq_same_length with N; rewrite ?zero_padded_length; [done.. |].
  intros i x y Hi. rewrite !zero_padded_lookup by done. intros [= <-] [= <-]. by apply Hst.
Qed.

Lemma zero_padded_id N s : length s = N -> zero_padded N s = s.
Proof. intros <-. apply take_app_length. Qed.

(** Zero bytes at the end, and bytes past the array, make no difference. *)
Lemma zero_padded_zeros N s k : zero_padded N (s ++ replicate k "000"%byte) = zero_padded N s.
Proof.
  apply zero_padded_ext. intros i _. rewrite lookup_app.
  destruct (s !! i); [done |].
  destruct (replicate k "000"%byte !! (i - length s)%nat) eqn:E; [| done].
  by apply lookup_replicate in E as [-> _].
Qed.

(** The slices of [fixed] are in range and of one length. *)
Lemma fixed_Ok N input : fixed N input = Ok (zero_padded N input).
Proof.
  unfold fixed, zero_padded.
  rewrite !slice_front by (rewrite ?length_replicate; lia). cbn [mbind result_bind].
  rewrite copy_from_slice_Ok by (rewrite !length_take, length_replicate; lia).
  cbn [mbind result_bind]. f_equal.
  rewrite take_app, drop_replicate, take_replicate. f_equal.
  - destruct (Nat.min_spec (length input) N) as [[? ->] | [? ->]]; [| done].
    by rewrite !take_ge by lia.
  - f_equal. lia.
Qed.

Lemma aes_key_no_panic key : no_panic (aes_key key).
Proof. unfold aes_key, raw_error. rewrite !fixed_Ok. solve_no_panic. Qed.

Lemma extend_while_S f original output :
  extend_while (S f) original output =
  if (length output <? 4)%nat then extend_while f original (output ++ original) else Ok output.
Proof. done. Qed.

(** The slice is in range and the loop ends within its fuel. *)
Lemma blowfish_key_Ok key : blowfish_key key = Ok (repeated_key key).
Proof.
  unfold blowfish_key. rewrite slice_front by lia. cbn [mbind result_bind].
  destruct key as [| a [| b [| c [| d key]]]]; try done.
  remember (a :: b :: c :: d :: key) as k eqn:E.
  assert (4 <= length k)%nat as Hk by (subst; cbn; lia). clear E.
  unfold repeated_key. rewrite (proj2 (Nat.leb_le 4 _)) by done.
  rewrite (proj2 (Nat.ltb_ge _ 4)), andb_false_r by (rewrite length_take; lia).
  f_equal. destruct (Nat.min_spec (length k) 56) as [[? ->] | [? ->]]; [| done].
  by rewrite !take_ge by lia.
Qed.

(** Keys of four bytes and more are only cut. *)
Lemma repeated_key_long key : (4 <= length key)%nat -> repeated_key key = take 56 key.
Proof. intros Hk. unfold repeated_key. by rewrite (proj2 (Nat.leb_le 4 _)). Qed.

Lemma repeated_key_length key :
  length (repeated_key key) =
    match length key with 0 => 0 | 1 | 2 => 4 | 3 => 6 | n => Nat.min n 56 end%nat.
Proof.
  destruct key as [| a [| b [| c [| d key]]]]; try done.
  rewrite repeated_key_long by (cbn; lia). rewrite length_take. cbn [length]. lia.
Qed.

Lemma repeated_key_lookup key i :
  (i < length (repeated_key key))%nat ->
  repeated_key key !! i = key !! (i mod length key)%nat.
Proof.
  rewrite repeated_key_length.
  destruct key as [| a [| b [| c [| d key]]]]; cbn [length]; intros Hi.
  - lia.
  - do 4 (destruct i as [| i]; [done |]). lia.
  - do 4 (destruct i as [| i]; [done |]). lia.
  - do 6 (destruct i as [| i]; [done |]). lia.
  - rewrite repeated_key_long by (cbn; lia).
    rewrite lookup_take_lt by lia. rewrite Nat.mod_small; [done | cbn [length]; lia].
Qed.

Lemma repeated_key_fits key :
  key_fits BlowfishCipher (length (repeated_key key)) = negb (length key =? 0)%nat.
Proof.
  rewrite repeated_key_length. destruct key as [| a [| b [| c [| d key]]]]; try done.
  cbn [length]. unfold key_fits. cbn [negb Nat.eqb].
  rewrite andb_true_iff, !Nat.leb_le. lia.
Qed.

Lemma effective_key_fits a key c k :
  effective_key a key = Ok (c, k) -> key_fits c (length k) = true.
Proof.
  unfold effective_key. destruct a; repeat case_match; intros [= <- <-]; try done;
    unfold key_fits; rewrite ?zero_padded_length; try done.
  fold (key_fits BlowfishCipher (length (repeated_key key))).
  rewrite repeated_key_fits. by destruct key.
Qed.

Lemma effective_iv_fits m c iv : iv_fits m c (effective_iv m c iv).
Proof. destruct m; cbn; rewrite ?zero_padded_length; done. Qed.

(** ** The code against its specification *)

Section refinement.
Context `{CipherLaws}.

(** The two functions of an algorithm. *)
Definition encrypt_with (a : algorithm) :=
  match a with Aes => encrypt_aes | Blowfish => encrypt_blowfish end.
Definition decrypt_with (a : algorithm) :=
  match a with Aes => decrypt_aes | Blowfish => decrypt_blowfish end.

Lemma transform_eq data key iv t a m p decrypting :
  parse_type t = Ok (a, m, p) ->
  transform data key iv t decrypting =
    (if decrypting then decrypt_with a else encrypt_with a) data key iv m p.
Proof. intros Ht. unfold transform. rewrite Ht. by destruct a, decrypting. Qed.

Lemma aes_run c key iv m p data :
  encrypt_aes_with c key iv m p data
    = run_encryptor (encryptor_new m c key (match m with Ecb => None | _ => Some iv end)) m p data
  /\ decrypt_aes_with c key iv m p data
    = run_decryptor (decryptor_new m c key (match m with Ecb => None | _ => Some iv end)) m p data.
Proof. by destruct m, p. Qed.

Lemma blowfish_run data key iv m p e d :
  encryptor_new_from_slices m BlowfishCipher (repeated_key key) (effective_iv m BlowfishCipher iv)
    = Some e ->
  decryptor_new_from_slices m BlowfishCipher (repeated_key key) (effective_iv m BlowfishCipher iv)
    = Some d ->
  encrypt_blowfish data key iv m p = run_encryptor e m p data
  /\ decrypt_blowfish data key iv m p = run_decryptor d m p data.
Proof.
  intros He Hd. unfold encrypt_blowfish, decrypt_blowfish.
  rewrite blowfish_key_Ok, fixed_Ok.
  destruct m, p; cbn in He, Hd |- *; by rewrite He, Hd.
Qed.

(** A usable key gives one pair of ciphers, initialised alike, which the two
    directions run. *)
Lemma with_usable_key a key c k m iv :
  effective_key a key = Ok (c, k) ->
  exists e d, initialised m c k (effective_iv m c iv) e d
    /\ forall data p,
       encrypt_with a data key iv m p = run_encryptor e m p data
       /\ decrypt_with a data key iv m p = run_decryptor d m p data.
Proof.
  intros Hk. pose proof (effective_key_fits _ _ _ _ Hk) as Hfit.
  pose proof (effective_iv_fits m c iv) as Hiv. destruct a.
  - exists (encryptor_new m c k (effective_iv m c iv)), (decryptor_new m c k (effective_iv m c iv)).
    split; [by constructor |]. intros data p. cbn [encrypt_with decrypt_with].
    unfold encrypt_aes, decrypt_aes, aes_key. rewrite !fixed_Ok. unfold effective_key in Hk.
    repeat case_match; simplify_eq; apply aes_run.
  - assert (c = BlowfishCipher /\ k = repeated_key key) as [-> ->].
    { unfold effective_key in Hk. by case_match; simplify_eq. }
    destruct (from_slices_ok m _ _ _ Hfit Hiv) as (e & d & He & Hd).
    exists e, d. split; [by apply by_slices |]. intros data p. by apply blowfish_run.
Qed.

(** An unusable key is the same error in both directions. *)
Lemma with_unusable_key a key err :
  effective_key a key = Err err ->
  forall data iv m p, encrypt_with a data key iv m p = Err err
                      /\ decrypt_with a data key iv m p = Err err.
Proof.
  intros Hk data iv m p. unfold effective_key, raw_error, pg_error in Hk.
  destruct a; cbn [encrypt_with decrypt_with].
  - unfold encrypt_aes, decrypt_aes, aes_key. rewrite !fixed_Ok.
    repeat case_match; simplify_eq; done.
  - destruct (Nat.eqb_spec (length key) 0) as [Hn |]; [| done].
    destruct key; [| done]. simplify_eq. unfold encrypt_blowfish, decrypt_blowfish.
    rewrite blowfish_key_Ok, fixed_Ok.
    destruct m, p; cbn;
      match goal with
      | |- context [encryptor_new_from_slices ?m ?c ?k ?iv] =>
          destruct (from_slices_bad_key m c k iv eq_refl) as [-> ->]
      end; done.
Qed.

End refinement.

(** ** Parsing of cipher names *)

Definition parse_padding (s : bytes) : outcome (bytes * Padding.t) :=
  match split_once "/" s with
  | None => Ok (s, Padding.Pkcs)
  | Some (l, r) =>
      padding ←
        (if one_of r ["pad:pkcs"] then Ok Padding.Pkcs
         else if one_of r ["pad:none"] then Ok Padding.None
         else raw_error "padding must be pad:pkcs or pad:none");
      Ok (l, padding)
  end.

Definition parse_cipher_mode (s : bytes) : outcome (algorithm * mode) :=
  if one_of s (type_names Aes Cbc) then Ok (Aes, Cbc)
  else if one_of s (type_names Aes Cfb) then Ok (Aes, Cfb)
  else if one_of s (type_names Aes Ecb) then Ok (Aes, Ecb)
  else if one_of s (type_names Blowfish Cbc) then Ok (Blowfish, Cbc)
  else if one_of s (type_names Blowfish Cfb) then Ok (Blowfish, Cfb)
  else if one_of s (type_names Blowfish Ecb) then Ok (Blowfish, Ecb)
  else raw_error "cipher must be aes or bf with cbc, cfb, or ecb mode".

Lemma parse_type_stages s :
  parse_type s =
    ('(name, padding) ← parse_padding (to_ascii_lowercase s);
     '(a, m) ← parse_cipher_mode name;
     Ok (a, m, padding)).
Proof. done. Qed.

Lemma parse_padding_Ok s l p :
  parse_padding s = Ok (l, p) <->
  (("/"%byte ∉ s) /\ l = s /\ p = Padding.Pkcs)
  \/ (("/"%byte ∉ l) /\ exists suffix, suffix ∈ padding_suffixes p
        /\ suffix <> EmptyString /\ s = l ++ lit suffix).
Proof.
  unfold parse_padding. destruct (split_once "/" s) as [[l' r] |] eqn:E.
  - apply split_once_Some in E as [-> Hl']. split.
    + intros Hp.
      destruct (one_of r ["pad:pkcs"]) eqn:E1; [| destruct (one_of r ["pad:none"]) eqn:E2; [| done]];
        cbn in Hp; simplify_eq; right; (split; [done |]).
      * apply one_of_elem in E1 as (n & Hn%list_elem_of_singleton & ->). subst n.
        exists "/pad:pkcs"%string. split; [find_elem | done].
      * apply one_of_elem in E2 as (n & Hn%list_elem_of_singleton & ->). subst n.
        exists "/pad:none"%string. split; [find_elem | done].
    + intros [[Hn _] | (Hl & suffix & Hin & Hne & E)].
      * destruct Hn. apply elem_of_app. right. apply list_elem_of_here.
      * assert (exists r', lit suffix = "/"%byte :: r') as [r' Hr'] by (destruct p; elem_cases Hin; try done; by eexists).
        assert (l' = l /\ r = r') as [-> ->].
        { rewrite Hr' in E.
          assert (split_once "/" (l' ++ "/"%byte :: r) = Some (l, r')) as E'.
          { apply split_once_Some. by rewrite E. }
          rewrite split_once_app in E' by done. by simplify_eq. }
        destruct p; elem_cases Hin; try done; injection Hr' as <-; reflexivity.
  - apply split_once_None in E. split; [intros [= <- <-]; by left |].
    intros [(_ & -> & ->) | (_ & suffix & Hin & Hne & ->)]; [done |].
    destruct E. apply elem_of_app. right.
    destruct p; elem_cases Hin; try done; apply list_elem_of_here.
Qed.

Lemma parse_cipher_mode_Ok s a m :
  parse_cipher_mode s = Ok (a, m) <-> exists name, name ∈ type_names a m /\ s = lit name.
Proof.
  unfold parse_cipher_mode. split.
  - intros Hs.
    repeat (case_match eqn:E;
      [simplify_eq; by apply one_of_elem in E | clear E]).
    done.
  - intros (name & Hin & ->). destruct a, m; elem_cases Hin; reflexivity.
Qed.

Lemma parse_cipher_mode_unknown s :
  (forall a m name, name ∈ type_names a m -> s <> lit name) ->
  parse_cipher_mode s = raw_error "cipher must be aes or bf with cbc, cfb, or ecb mode".
Proof.
  intros Hno. unfold parse_cipher_mode.
  repeat (case_match eqn:E;
    [apply one_of_elem in E as (n & Hn & E); by destruct (Hno _ _ _ Hn E) | clear E]).
  done.
Qed.

Lemma type_names_no_slash a m name : name ∈ type_names a m -> "/"%byte ∉ lit name.
Proof.
  intros Hin. apply contains_byte_false.
  destruct a, m; elem_cases Hin; reflexivity.
Qed.

(** ** Properties *)

Lemma parse_type_accepts s a m p :
  parse_type s = Ok (a, m, p) <->
  exists name suffix, name ∈ type_names a m /\ suffix ∈ padding_suffixes p
    /\ to_ascii_lowercase s = lit name ++ lit suffix.
Proof.
  rewrite parse_type_stages, bind_Ok. split.
  - intros ([l p'] & Hp & Hm). apply bind_Ok in Hm as ([a' m'] & Hm & [= -> -> ->]).
    apply parse_cipher_mode_Ok in Hm as (name & Hin & ->). exists name.
    apply parse_padding_Ok in Hp as [(_ & E & ->) | (_ & suffix & Hs & _ & E)].
    + exists EmptyString. rewrite E. split_and!; [done | find_elem | by rewrite app_nil_r].
    + by exists suffix.
  - intros (name & suffix & Hin & Hs & E). exists (lit name, p).
    pose proof (type_names_no_slash _ _ _ Hin) as Hslash. split.
    + apply parse_padding_Ok. rewrite E. destruct (decide (suffix = EmptyString)) as [-> | Hne].
      * left. rewrite app_nil_r. split_and!; [done.. |]. by destruct p; elem_cases Hs.
      * right. split; [done |]. by exists suffix.
    + apply bind_Ok. exists (a, m). split; [| done]. apply parse_cipher_mode_Ok. by exists name.
Qed.

Lemma parse_type_errors s l r :
  to_ascii_lowercase s = l ++ "/"%byte :: r -> "/"%byte ∉ l ->
  (r <> lit "pad:pkcs" -> r <> lit "pad:none" ->
     parse_type s = Err (PgError (lit "raw cipher error: padding must be pad:pkcs or pad:none")))
  /\ (r = lit "pad:pkcs" \/ r = lit "pad:none" ->
      (forall a m name, name ∈ type_names a m -> l <> lit name) ->
      parse_type s
        = Err (PgError (lit "raw cipher error: cipher must be aes or bf with cbc, cfb, or ecb mode"))).
Proof.
  intros Hs Hl. rewrite parse_type_stages, Hs. split.
  - intros H1 H2. unfold parse_padding. rewrite split_once_app, !one_of_single by done.
    by rewrite (bool_decide_false (r = lit "pad:pkcs")), (bool_decide_false (r = lit "pad:none")).
  - intros Hr Hno.
    assert (exists p, parse_padding (l ++ "/"%byte :: r) = Ok (l, p)) as [p ->].
    { unfold parse_padding. rewrite split_once_app by done.
      destruct Hr as [-> | ->]; eexists; reflexivity. }
    unfold mbind, result_bind. by rewrite parse_cipher_mode_unknown.
Qed.

Lemma parse_type_unknown s :
  "/"%byte ∉ to_ascii_lowercase s ->
  (forall a m name, name ∈ type_names a m -> to_ascii_lowercase s <> lit name) ->
  parse_type s
    = Err (PgError (lit "raw cipher error: cipher must be aes or bf with cbc, cfb, or ecb mode")).
Proof.
  intros Hs%split_once_None Hno. rewrite parse_type_stages. unfold parse_padding. rewrite Hs.
  unfold mbind, result_bind. by rewrite parse_cipher_mode_unknown.
Qed.

(** C10: The cipher-type parser accepts exactly the documented names: a string is
    parsed to an algorithm, mode and padding when, in lower case, it is one of
    the names of that algorithm and mode (the [rijndael] and [blowfish] aliases
    included) followed by one of the suffixes of that padding (none or
    [/pad:pkcs], or [/pad:none]).  What it does not accept it reports in a fixed
    order: a suffix after the first [/] that is neither [pad:pkcs] nor [pad:none]
    is a padding error even when the cipher is unknown too; otherwise, with a
    suffix or without, an unknown cipher name is a cipher error. *)
Theorem parse_type_spec s :
  (forall a m p, parse_type s = Ok (a, m, p) <->
     exists name suffix, name ∈ type_names a m /\ suffix ∈ padding_suffixes p
       /\ to_ascii_lowercase s = lit name ++ lit suffix)
  /\ (forall l r, to_ascii_lowercase s = l ++ "/"%byte :: r -> "/"%byte ∉ l ->
     (r <> lit "pad:pkcs" -> r <> lit "pad:none" ->
        parse_type s = Err (PgError (lit "raw cipher error: padding must be pad:pkcs or pad:none")))
     /\ (r = lit "pad:pkcs" \/ r = lit "pad:none" ->
         (forall a m name, name ∈ type_names a m -> l <> lit name) ->
         parse_type s
           = Err (PgError (lit "raw cipher error: cipher must be aes or bf with cbc, cfb, or ecb mode"))))
  /\ ("/"%byte ∉ to_ascii_lowercase s ->
     (forall a m name, name ∈ type_names a m -> to_ascii_lowercase s <> lit name) ->
     parse_type s
       = Err (PgError (lit "raw cipher error: cipher must be aes or bf with cbc, cfb, or ecb mode"))).
Proof.
  split_and!; intros; [apply parse_type_accepts | by apply parse_type_errors | by apply parse_type_unknown].
Qed.

(** The keys an algorithm accepts, and its block size. *)
Definition usable_key (a : algorithm) (key : bytes) : Prop :=
  match a with Aes => (length key <= 32)%nat | Blowfish => key <> [] end.

Definition key_message (a : algorithm) : string :=
  match a with
  | Aes => "raw cipher error: AES key must not exceed 32 bytes"
  | Blowfish => "raw cipher error: invalid Blowfish key"
  end.

Definition algorithm_block (a : algorithm) : nat := match a with Aes => 16 | Blowfish => 8 end.

Lemma effective_key_block a key c k :
  effective_key a key = Ok (c, k) -> block_size c = algorithm_block a.
Proof. unfold effective_key. destruct a; repeat case_match; by intros [= <- <-]. Qed.

Lemma effective_key_usable a key :
  usable_key a key -> exists c k, effective_key a key = Ok (c, k).
Proof.
  unfold usable_key, effective_key. destruct a.
  - intros Hk. repeat case_match; eauto. apply Nat.leb_gt in H1. lia.
  - destruct key; cbn; eauto. done.
Qed.

Lemma effective_key_unusable a key :
  ~ usable_key a key -> effective_key a key = Err (PgError (lit (key_message a))).
Proof.
  unfold usable_key, effective_key. destruct a.
  - intros Hk. repeat case_match; try done;
      match goal with E : (_ <=? _) = true |- _ => apply Nat.leb_le in E; lia end.
  - destruct key; [done |]. intros Hk. by destruct Hk.
Qed.

Section properties.
Context `{CipherLaws}.

(** C3: For every accepted cipher type and usable key there is one pair of
    ciphers, initialised alike with the key and vector of the specification,
    such that [encrypt_iv] and [decrypt_iv] are one call of its two halves on
    any data: the nested choices of the code refine one cipher. *)
Theorem raw_refines_cipher key iv t a m p :
  parse_type t = Ok (a, m, p) -> usable_key a key ->
  exists c k e d, effective_key a key = Ok (c, k)
    /\ initialised m c k (effective_iv m c iv) e d
    /\ forall data,
       encrypt_iv data key iv t = run_encryptor e m p data
       /\ decrypt_iv data key iv t = run_decryptor d m p data.
Proof.
  intros Ht Hk. destruct (effective_key_usable a key Hk) as (c & k & Hck).
  destruct (with_usable_key a key c k m iv Hck) as (e & d & Hed & Hrun).
  exists c, k, e, d. split_and!; [done.. |]. intros data.
  unfold encrypt_iv, decrypt_iv. rewrite !(transform_eq _ _ _ _ a m p) by done. apply Hrun.
Qed.

Lemma run_roundtrip m c key iv e d p data :
  initialised m c key iv e d ->
  (m <> Cfb -> p = Padding.None -> Nat.divide (block_size c) (length data)) ->
  exists ct, run_encryptor e m p data = Ok ct
    /\ length ct = ciphertext_length c m p (length data)
    /\ run_decryptor d m p ct = Ok data.
Proof.
  intros Hed Hdiv. destruct (decide (m = Cfb)) as [-> | Hm].
  { destruct (cfb_law c key iv e d data Hed) as [Hl Hr].
    exists (encrypt_in_place e data). cbn. by rewrite Hr. }
  assert (exists ct, encrypt_padded_vec e (crate_padding p) data = Ok ct
    /\ length ct = ciphertext_length c m p (length data)
    /\ decrypt_padded_vec d (crate_padding p) ct = Some data) as (ct & He & Hl & Hd).
  { destruct p; [destruct (pkcs7_law m c key iv e d data Hed Hm) as (ct & ?)
                | destruct (no_padding_law m c key iv e d data Hed Hm) as (ct & ?); [auto |]];
      exists ct; by destruct m. }
  exists ct. unfold run_encryptor, run_decryptor. rewrite Hd. by destruct m.
Qed.

(** C5: Decrypting what was encrypted with the same key, vector and cipher type
    gives the data back, for every accepted type and usable key; only CBC and
    ECB without padding need block-aligned data.  The ciphertext has the data's
    length under CFB (whatever the padding named) and without padding, and is
    the next multiple of the block size under PKCS#7. *)
Theorem raw_roundtrip data key iv t a m p :
  parse_type t = Ok (a, m, p) -> usable_key a key ->
  (m <> Cfb -> p = Padding.None -> Nat.divide (algorithm_block a) (length data)) ->
  exists ct, encrypt_iv data key iv t = Ok ct
    /\ length ct = match m, p with
                   | Cfb, _ | _, Padding.None => length data
                   | _, Padding.Pkcs =>
                       ((length data / algorithm_block a + 1) * algorithm_block a)%nat
                   end
    /\ decrypt_iv ct key iv t = Ok data.
Proof.
  intros Ht Hk Hdiv. destruct (raw_refines_cipher key iv t a m p Ht Hk)
    as (c & k & e & d & Hck & Hed & Hrun).
  rewrite <- (effective_key_block a key c k Hck) in *.
  destruct (run_roundtrip m c k _ e d p data Hed Hdiv) as (ct & He & Hl & Hd).
  exists ct. rewrite (proj1 (Hrun data)), (proj2 (Hrun ct)). split_and!; [done | | done].
  rewrite Hl. by destruct m, p.
Qed.

(** C34: A key the algorithm cannot use is one error, the same for encryption and
    decryption, any data and vector: AES keys of more than 32 bytes, and for
    Blowfish the empty key only. *)
Theorem raw_key_rejected data key iv t a m p :
  parse_type t = Ok (a, m, p) -> ~ usable_key a key ->
  encrypt_iv data key iv t = Err (PgError (lit (key_message a)))
  /\ decrypt_iv data key iv t = Err (PgError (lit (key_message a))).
Proof.
  intros Ht Hk%effective_key_unusable. unfold encrypt_iv, decrypt_iv.
  rewrite !(transform_eq _ _ _ _ a m p) by done. by apply with_unusable_key.
Qed.

Lemma parse_type_no_panic s : no_panic (parse_type s).
Proof. unfold parse_type, raw_error. solve_no_panic. Qed.

Lemma decrypt_no_panic data key iv t : no_panic (decrypt_iv data key iv t).
Proof.
  apply no_panic_bind; [apply parse_type_no_panic | intros [[[] m] p] _].
  - unfold decrypt_aes. rewrite fixed_Ok.
    apply no_panic_bind; [done | intros ? _].
    apply no_panic_bind; [apply aes_key_no_panic | intros ? _].
    unfold decrypt_aes_with, raw_error. solve_no_panic.
  - unfold decrypt_blowfish, raw_error. rewrite blowfish_key_Ok, fixed_Ok. solve_no_panic.
Qed.

(** C35: Decryption never panics, whatever the type name, key, vector and data;
    and CBC or ECB ciphertext that is not block aligned is the SQL error that
    names the padding expected. *)
Theorem decrypt_errors data key iv t :
  no_panic (decrypt_iv data key iv t)
  /\ forall a m p, parse_type t = Ok (a, m, p) -> usable_key a key -> m <> Cfb ->
     ~ Nat.divide (algorithm_block a) (length data) ->
     decrypt_iv data key iv t
       = Err (PgError (lit "raw cipher error: " ++ lit (decrypt_failure p))).
Proof.
  split.
  - apply decrypt_no_panic.
  - intros a m p Ht Hk Hm Hdiv.
    destruct (raw_refines_cipher key iv t a m p Ht Hk) as (c & k & e & d & Hck & Hed & Hrun).
    rewrite <- (effective_key_block a key c k Hck) in Hdiv.
    rewrite (proj2 (Hrun data)). unfold run_decryptor.
    rewrite (unaligned_law m c k _ e d _ data Hed Hm Hdiv). by destruct m.
Qed.

End properties.

(** C36: A Blowfish key is used by repetition.  The preparation always ends with
    a key [k], without a panic: up to three bytes are repeated whole until there
    are at least four, and no more often, so byte [i] of [k] is byte [i mod n] of
    the [n] given;
    longer keys are cut after 56 bytes; and [k] has a size the cipher accepts
    exactly when the key is not empty. *)
Theorem blowfish_key_spec key :
  exists k, blowfish_key key = Ok k
  /\ (forall i, (i < length k)%nat -> k !! i = key !! (i mod length key)%nat)
  /\ (key <> [] <-> (4 <= length k <= 56)%nat)
  /\ ((length key < 4)%nat ->
      (exists n, k = mjoin (replicate n key)) /\ (length k < 4 + length key)%nat)
  /\ ((4 <= length key)%nat -> k = take 56 key).
Proof.
  exists (repeated_key key). split; [apply blowfish_key_Ok |].
  split; [intros i; apply repeated_key_lookup |].
  pose proof (repeated_key_fits key) as Hfit. unfold key_fits in Hfit. split_and!.
  - rewrite <- !Nat.leb_le, <- andb_true_iff, Hfit. by destruct key.
  - intros Hk. split.
    + eexists. unfold repeated_key. by rewrite (proj2 (Nat.leb_gt 4 _)).
    + rewrite repeated_key_length. destruct (length key) as [| [| [| [| n]]]]; lia.
  - apply repeated_key_long.
Qed.

(** The size of AES key a key of [n] bytes selects. *)
Definition aes_tier (n : nat) : option nat :=
  if (n <=? 16)%nat then Some 16%nat
  else if (n <=? 24)%nat then Some 24%nat
  else if (n <=? 32)%nat then Some 32%nat
  else None.

(** C37: AES keys are zero padded inside the selected size: appending zero bytes
    to a key changes no result of [encrypt] or [decrypt], as long as the longer
    key still selects the same one of AES-128, AES-192 and AES-256. *)
Theorem aes_key_zero_padding `{CipherCrates} data key iv t m p n decrypting :
  parse_type t = Ok (Aes, m, p) ->
  aes_tier (length key + n) = aes_tier (length key) ->
  transform data (key ++ replicate n "000"%byte) iv t decrypting
    = transform data key iv t decrypting.
Proof.
  intros Ht Htier. rewrite !(transform_eq _ _ _ _ Aes m p) by done.
  assert (aes_key (key ++ replicate n "000"%byte) = aes_key key) as E.
  { unfold aes_key. rewrite length_app, length_replicate, !fixed_Ok, !zero_padded_zeros.
    unfold aes_tier in Htier. repeat case_match; simplify_eq; done. }
  destruct decrypting; cbn; unfold encrypt_aes, decrypt_aes; by rewrite E.
Qed.

(** C38: The vector counts only as one block: it is cut or zero padded to the
    block size, [encrypt] and [decrypt] are the functions with the all-zero
    vector, and ECB ignores the vector. *)
Theorem raw_iv_one_block `{CipherCrates} data key iv t a m p decrypting :
  parse_type t = Ok (a, m, p) ->
  transform data key iv t decrypting
    = transform data key (zero_padded (algorithm_block a) iv) t decrypting
  /\ encrypt data key t = encrypt_iv data key (replicate (algorithm_block a) "000"%byte) t
  /\ decrypt data key t = decrypt_iv data key (replicate (algorithm_block a) "000"%byte) t
  /\ (m = Ecb -> forall iv', transform data key iv t decrypting = transform data key iv' t decrypting).
Proof.
  intros Ht. unfold encrypt, decrypt, encrypt_iv, decrypt_iv.
  rewrite !(transform_eq _ _ _ _ a m p) by done.
  assert (forall iv1 iv2 d, zero_padded (algorithm_block a) iv1 = zero_padded (algorithm_block a) iv2 \/ m = Ecb ->
    (if d : bool then decrypt_with a else encrypt_with a) data key iv1 m p
    = (if d then decrypt_with a else encrypt_with a) data key iv2 m p) as Hiv.
  { intros iv1 iv2 d E. destruct a, d; cbn in *;
      unfold encrypt_aes, decrypt_aes, encrypt_blowfish, decrypt_blowfish; rewrite !fixed_Ok;
      destruct E as [-> | ->]; done. }
  split_and!.
  - apply Hiv. left. by rewrite (zero_padded_id _ (zero_padded _ iv)) by apply zero_padded_length.
  - apply (Hiv _ _ false). left. symmetry. apply (zero_padded_zeros _ []).
  - apply (Hiv _ _ true). left. symmetry. apply (zero_padded_zeros _ []).
  - intros -> iv'. rewrite (transform_eq _ _ _ _ a Ecb p) by done. apply Hiv. by right.
Qed.

(** ** Witnesses *)

Import Toy.

Lemma parse_type_spec_witness :
  parse_type (lit "DES/pad:zero")
    = Err (PgError (lit "raw cipher error: padding must be pad:pkcs or pad:none"))
  /\ parse_type (lit "DES/pad:none")
    = Err (PgError (lit "raw cipher error: cipher must be aes or bf with cbc, cfb, or ecb mode")).
Proof.
  assert ("/"%byte ∉ lit "des") as Hl by (apply contains_byte_false; reflexivity).
  split.
  - apply (proj1 (proj1 (proj2 (parse_type_spec (lit "DES/pad:zero"))) (lit "des") (lit "pad:zero") eq_refl Hl));
      discriminate.
  - apply (proj2 (proj1 (proj2 (parse_type_spec (lit "DES/pad:none"))) (lit "des") (lit "pad:none") eq_refl Hl)).
    + by right.
    + intros a m name Hin. destruct a, m; elem_cases Hin; discriminate.
Defined.

Lemma raw_refines_cipher_witness :
  exists c k e d, effective_key Blowfish (lit "foo") = Ok (c, k)
    /\ initialised Ecb c k (effective_iv Ecb c []) e d
    /\ forall data,
       encrypt_iv data (lit "foo") [] (lit "BF-ecb/pad:none") = run_encryptor e Ecb Padding.None data
       /\ decrypt_iv data (lit "foo") [] (lit "BF-ecb/pad:none") = run_decryptor d Ecb Padding.None data.
Proof.
  apply (raw_refines_cipher (lit "foo") [] (lit "BF-ecb/pad:none") Blowfish Ecb Padding.None).
  - vm_compute. reflexivity.
  - discriminate.
Defined.

Lemma raw_roundtrip_witness :
  exists ct, encrypt_iv (lit "raw cipher data") (lit "key") (lit "iv") (lit "rijndael") = Ok ct
    /\ length ct = 16%nat
    /\ decrypt_iv ct (lit "key") (lit "iv") (lit "rijndael") = Ok (lit "raw cipher data").
Proof.
  apply (raw_roundtrip (lit "raw cipher data") (lit "key") (lit "iv") (lit "rijndael") Aes Cbc Padding.Pkcs).
  - vm_compute. reflexivity.
  - cbn. lia.
  - discriminate.
Defined.

Lemma raw_key_rejected_witness :
  encrypt_iv (lit "data") [] [] (lit "blowfish-cfb")
    = Err (PgError (lit "raw cipher error: invalid Blowfish key"))
  /\ decrypt_iv (lit "data") [] [] (lit "blowfish-cfb")
    = Err (PgError (lit "raw cipher error: invalid Blowfish key")).
Proof.
  apply (raw_key_rejected (lit "data") [] [] (lit "blowfish-cfb") Blowfish Cfb Padding.Pkcs).
  - vm_compute. reflexivity.
  - intros Hk. by apply Hk.
Defined.

Lemma decrypt_errors_witness :
  decrypt_iv (lit "odd") (lit "key") [] (lit "aes-ecb/pad:none")
    = Err (PgError (lit "raw cipher error: " ++ lit "ciphertext is not block aligned")).
Proof.
  apply (proj2 (decrypt_errors (lit "odd") (lit "key") [] (lit "aes-ecb/pad:none"))
           Aes Ecb Padding.None).
  - vm_compute. reflexivity.
  - cbn. lia.
  - discriminate.
  - intros [k Hk]. cbn in Hk. lia.
Defined.

Lemma blowfish_key_spec_witness :
  exists k, blowfish_key (lit "abc") = Ok k /\ k !! 4%nat = Some "b"%byte
    /\ (4 <= length k <= 56)%nat.
Proof.
  destruct (blowfish_key_spec (lit "abc")) as (k & E & Hget & Hlen & _).
  exists k. split; [exact E |]. vm_compute in E. injection E as <-. split.
  - rewrite Hget; [reflexivity | cbn; lia].
  - apply Hlen. discriminate.
Defined.

Lemma aes_key_zero_padding_witness :
  transform (lit "data") (lit "key" ++ replicate 5 "000"%byte) [] (lit "aes") false
    = transform (lit "data") (lit "key") [] (lit "aes") false.
Proof.
  apply (aes_key_zero_padding (lit "data") (lit "key") [] (lit "aes") Cbc Padding.Pkcs 5 false).
  - vm_compute. reflexivity.
  - reflexivity.
Defined.

Lemma raw_iv_one_block_witness :
  decrypt (lit "data") (lit "key") (lit "bf-cfb")
    = decrypt_iv (lit "data") (lit "key") (replicate 8 "000"%byte) (lit "bf-cfb").
Proof.
  destruct (raw_iv_one_block (lit "data") (lit "key") [] (lit "bf-cfb") Blowfish Cfb Padding.Pkcs true)
    as (_ & _ & Hdec & _); [vm_compute; reflexivity | exact Hdec].
Defined.
