(* ===== verification/PgpOptions.v ===== *)
(** * OpenPGP option strings ([src/pgp.rs], the option parsers)

    [parse_options] and [parse_decrypt_options] read comma-separated
    [name=value] settings.  The algorithm enumerations are those of the
    [sequoia_openpgp] crate, with the variants the parsers name. *)
From stdpp Require Import base tactics list numbers option strings.
From Stdlib Require Import Strings.Byte.
From S2P Require Import Prelude RustStr.

Local Open Scope N_scope.

(** ** Data *)

Module SymmetricAlgorithm.
Inductive t := Blowfish | AES128 | AES192 | AES256 | TripleDES | CAST5.
#[global] Instance eq_dec : EqDecision t.
Proof. solve_decision. Defined.
End SymmetricAlgorithm.

Module CompressionAlgorithm.
Inductive t := Uncompressed | Zip | Zlib.
#[global] Instance eq_dec : EqDecision t.
Proof. solve_decision. Defined.
End CompressionAlgorithm.

Module HashAlgorithm.
Inductive t := MD5 | SHA1.
#[global] Instance eq_dec : EqDecision t.
Proof. solve_decision. Defined.
End HashAlgorithm.

Record PgpOptions := {
  cipher : SymmetricAlgorithm.t;
  compression : CompressionAlgorithm.t;
  compression_level : N;
  text_input : bool;
  unicode_mode : bool;
  convert_crlf : bool;
  s2k_mode : N;
  s2k_count : option N;
  s2k_digest : HashAlgorithm.t;
  s2k_cipher : option SymmetricAlgorithm.t;
  use_session_key : bool;
}.

(** [PgpOptions { text_input, ..Default::default() }] *)
Definition default_options (text : bool) : PgpOptions := {|
  cipher := SymmetricAlgorithm.AES128;
  compression := CompressionAlgorithm.Uncompressed;
  compression_level := 6;
  text_input := text;
  unicode_mode := false;
  convert_crlf := false;
  s2k_mode := 3;
  s2k_count := None;
  s2k_digest := HashAlgorithm.SHA1;
  s2k_cipher := None;
  use_session_key := false;
|}.

(** Assignments to the fields of [parsed]. *)
Definition set_cipher v o := {| cipher := v; compression := compression o;
  compression_level := compression_level o; text_input := text_input o;
  unicode_mode := unicode_mode o; convert_crlf := convert_crlf o; s2k_mode := s2k_mode o;
  s2k_count := s2k_count o; s2k_digest := s2k_digest o; s2k_cipher := s2k_cipher o;
  use_session_key := use_session_key o |}.
Definition set_compression v o := {| cipher := cipher o; compression := v;
  compression_level := compression_level o; text_input := text_input o;
  unicode_mode := unicode_mode o; convert_crlf := convert_crlf o; s2k_mode := s2k_mode o;
  s2k_count := s2k_count o; s2k_digest := s2k_digest o; s2k_cipher := s2k_cipher o;
  use_session_key := use_session_key o |}.
Definition set_compression_level v o := {| cipher := cipher o; compression := compression o;
  compression_level := v; text_input := text_input o;
  unicode_mode := unicode_mode o; convert_crlf := convert_crlf o; s2k_mode := s2k_mode o;
  s2k_count := s2k_count o; s2k_digest := s2k_digest o; s2k_cipher := s2k_cipher o;
  use_session_key := use_session_key o |}.
Definition set_unicode_mode v o := {| cipher := cipher o; compression := compression o;
  compression_level := compression_level o; text_input := text_input o;
  unicode_mode := v; convert_crlf := convert_crlf o; s2k_mode := s2k_mode o;
  s2k_count := s2k_count o; s2k_digest := s2k_digest o; s2k_cipher := s2k_cipher o;
  use_session_key := use_session_key o |}.
Definition set_convert_crlf v o := {| cipher := cipher o; compression := compression o;
  compression_level := compression_level o; text_input := text_input o;
  unicode_mode := unicode_mode o; convert_crlf := v; s2k_mode := s2k_mode o;
  s2k_count := s2k_count o; s2k_digest := s2k_digest o; s2k_cipher := s2k_cipher o;
  use_session_key := use_session_key o |}.
Definition set_s2k_mode v o := {| cipher := cipher o; compression := compression o;
  compression_level := compression_level o; text_input := text_input o;
  unicode_mode := unicode_mode o; convert_crlf := convert_crlf o; s2k_mode := v;
  s2k_count := s2k_count o; s2k_digest := s2k_digest o; s2k_cipher := s2k_cipher o;
  use_session_key := use_session_key o |}.
Definition set_s2k_count v o := {| cipher := cipher o; compression := compression o;
  compression_level := compression_level o; text_input := text_input o;
  unicode_mode := unicode_mode o; convert_crlf := convert_crlf o; s2k_mode := s2k_mode o;
  s2k_count := v; s2k_digest := s2k_digest o; s2k_cipher := s2k_cipher o;
  use_session_key := use_session_key o |}.
Definition set_s2k_digest v o := {| cipher := cipher o; compression := compression o;
  compression_level := compression_level o; text_input := text_input o;
  unicode_mode := unicode_mode o; convert_crlf := convert_crlf o; s2k_mode := s2k_mode o;
  s2k_count := s2k_count o; s2k_digest := v; s2k_cipher := s2k_cipher o;
  use_session_key := use_session_key o |}.
Definition set_s2k_cipher v o := {| cipher := cipher o; compression := compression o;
  compression_level := compression_level o; text_input := text_input o;
  unicode_mode := unicode_mode o; convert_crlf := convert_crlf o; s2k_mode := s2k_mode o;
  s2k_count := s2k_count o; s2k_digest := s2k_digest o; s2k_cipher := v;
  use_session_key := use_session_key o |}.
Definition set_use_session_key v o := {| cipher := cipher o; compression := compression o;
  compression_level := compression_level o; text_input := text_input o;
  unicode_mode := unicode_mode o; convert_crlf := convert_crlf o; s2k_mode := s2k_mode o;
  s2k_count := s2k_count o; s2k_digest := s2k_digest o; s2k_cipher := s2k_cipher o;
  use_session_key := v |}.

(** ** The parsers *)

Definition parse_boolean_option (name value : bytes) : outcome bool :=
  let v := trim value in
  if one_of v ["0"] then Ok false
  else if one_of v ["1"] then Ok true
  else pg_error (name ++ lit " must be 0 or 1, got " ++ v).

Definition parse_cipher (value : bytes) : outcome SymmetricAlgorithm.t :=
  let v := to_ascii_lowercase (trim value) in
  if one_of v ["bf"; "blowfish"] then Ok SymmetricAlgorithm.Blowfish
  else if one_of v ["aes"; "aes128"] then Ok SymmetricAlgorithm.AES128
  else if one_of v ["aes192"] then Ok SymmetricAlgorithm.AES192
  else if one_of v ["aes256"] then Ok SymmetricAlgorithm.AES256
  else if one_of v ["3des"] then Ok SymmetricAlgorithm.TripleDES
  else if one_of v ["cast5"] then Ok SymmetricAlgorithm.CAST5
  else pg_error (lit "unsupported OpenPGP cipher: " ++ v).

(** The values of [compress-algo], [s2k-digest-algo] and [s2k-cipher-algo]. *)
Definition parse_compression (value : bytes) : outcome CompressionAlgorithm.t :=
  let v := trim value in
  if one_of v ["0"] then Ok CompressionAlgorithm.Uncompressed
  else if one_of v ["1"] then Ok CompressionAlgorithm.Zip
  else if one_of v ["2"] then Ok CompressionAlgorithm.Zlib
  else pg_error (lit "compress-algo must be 0, 1, or 2, got " ++ v).

Definition parse_s2k_digest (value : bytes) : outcome HashAlgorithm.t :=
  let v := to_ascii_lowercase (trim value) in
  if one_of v ["md5"] then Ok HashAlgorithm.MD5
  else if one_of v ["sha1"] then Ok HashAlgorithm.SHA1
  else pg_error (lit "unsupported S2K digest: " ++ v).

Definition parse_s2k_cipher (value : bytes) : outcome SymmetricAlgorithm.t :=
  let v := to_ascii_lowercase (trim value) in
  if one_of v ["bf"] then Ok SymmetricAlgorithm.Blowfish
  else if one_of v ["aes"; "aes128"] then Ok SymmetricAlgorithm.AES128
  else if one_of v ["aes192"] then Ok SymmetricAlgorithm.AES192
  else if one_of v ["aes256"] then Ok SymmetricAlgorithm.AES256
  else pg_error (lit "unsupported S2K cipher: " ++ v).

Definition compress_level_error : bytes :=
  lit "compress-level must be an integer from 0 to 9".
Definition s2k_mode_error : bytes := lit "s2k-mode must be 0, 1, or 3".

(** One round of the loop of [parse_options]. *)
Definition parse_option (parsed : PgpOptions) (option : bytes) : outcome PgpOptions :=
  '(name, value) ← ok_or_else (split_once "=" option)
                     (pg_error (lit "invalid PGP option: " ++ option));
  let key := to_ascii_lowercase (trim name) in
  if one_of key ["cipher-algo"] then
    c ← parse_cipher value;
    Ok (set_cipher c parsed)
  else if one_of key ["compress-algo"] then
    c ← parse_compression value;
    Ok (set_compression c parsed)
  else if one_of key ["compress-level"] then
    level ← ok_or_else (parse_u8 (trim value)) (pg_error compress_level_error);
    if 9 <? level then pg_error compress_level_error
    else Ok (set_compression_level level parsed)
  else if one_of key ["unicode-mode"] then
    b ← parse_boolean_option name value;
    Ok (set_unicode_mode b parsed)
  else if one_of key ["convert-crlf"] then
    b ← parse_boolean_option name value;
    Ok (set_convert_crlf b parsed)
  else if one_of key ["s2k-mode"] then
    m ← ok_or_else (parse_u8 (trim value)) (pg_error s2k_mode_error);
    if negb ((m =? 0) || (m =? 1) || (m =? 3)) then pg_error s2k_mode_error
    else Ok (set_s2k_mode m parsed)
  else if one_of key ["s2k-digest-algo"] then
    d ← parse_s2k_digest value;
    Ok (set_s2k_digest d parsed)
  else if one_of key ["s2k-cipher-algo"] then
    c ← parse_s2k_cipher value;
    Ok (set_s2k_cipher (Some c) parsed)
  else if one_of key ["s2k-count"] then
    count ← ok_or_else (parse_u32 (trim value))
              (pg_error (lit "s2k-count must be an integer"));
    if negb ((1024 <=? count) && (count <=? 65011712))
    then pg_error (lit "s2k-count must be between 1024 and 65011712")
    else Ok (set_s2k_count (Some count) parsed)
  else if one_of key ["sess-key"] then
    b ← parse_boolean_option name value;
    Ok (set_use_session_key b parsed)
  else if one_of key ["disable-mdc"] then
    b ← parse_boolean_option name value;
    if (b : bool) then
      pg_error (lit "generating OpenPGP messages without integrity protection is not supported")
    else Ok parsed
  else if one_of key ["ignore-cipher-failure"] then
    _ ← parse_boolean_option name value;
    Ok parsed
  else pg_error (lit "unknown PGP option: " ++ key).

(** [options.split(',').map(str::trim).filter(|item| !item.is_empty())] *)
Definition option_items (options : bytes) : list bytes :=
  filter (fun item => item <> []) (trim <$> split_on "," options).

Fixpoint parse_items (parsed : PgpOptions) (items : list bytes) : outcome PgpOptions :=
  match items with
  | [] => Ok parsed
  | item :: rest => parsed ← parse_option parsed item; parse_items parsed rest
  end.

(** The check after the loop. *)
Definition check_count (parsed : PgpOptions) : outcome PgpOptions :=
  if bool_decide (is_Some (s2k_count parsed)) && negb (s2k_mode parsed =? 3)
  then pg_error (lit "s2k-count requires s2k-mode=3")
  else Ok parsed.

Definition parse_options (options : bytes) (text : bool) : outcome PgpOptions :=
  parsed ← parse_items (default_options text) (option_items options);
  check_count parsed.

(** [DecryptOptions]: a record with the one field [convert_crlf]. *)
Record DecryptOptions := { decrypt_convert_crlf : bool }.

Definition ignored_on_decrypt : list string :=
  ["cipher-algo"; "compress-algo"; "compress-level"; "disable-mdc"; "sess-key";
   "s2k-mode"; "s2k-count"; "s2k-digest-algo"; "s2k-cipher-algo"; "unicode-mode"].

Definition parse_decrypt_option (parsed : DecryptOptions) (option : bytes)
    : outcome DecryptOptions :=
  '(name, value) ← ok_or_else (split_once "=" option)
                     (pg_error (lit "invalid PGP option: " ++ option));
  let key := to_ascii_lowercase (trim name) in
  if one_of key ["convert-crlf"] then
    b ← parse_boolean_option name value;
    Ok {| decrypt_convert_crlf := b |}
  else if one_of key ["ignore-cipher-failure"] then
    _ ← parse_boolean_option name value;
    Ok parsed
  else if one_of key ignored_on_decrypt then Ok parsed
  else pg_error (lit "unknown PGP option: " ++ key).

Fixpoint parse_decrypt_items (parsed : DecryptOptions) (items : list bytes)
    : outcome DecryptOptions :=
  match items with
  | [] => Ok parsed
  | item :: rest => parsed ← parse_decrypt_option parsed item; parse_decrypt_items parsed rest
  end.

Definition parse_decrypt_options (options : bytes) : outcome DecryptOptions :=
  parse_decrypt_items {| decrypt_convert_crlf := false |} (option_items options).

(** ** Specification: settings, their text and their effect *)

Inductive setting :=
| CipherAlgo (c : SymmetricAlgorithm.t)
| CompressAlgo (c : CompressionAlgorithm.t)
| CompressLevel (n : N)
| UnicodeMode (b : bool)
| ConvertCrlf (b : bool)
| S2kMode (n : N)
| S2kDigestAlgo (h : HashAlgorithm.t)
| S2kCipherAlgo (c : SymmetricAlgorithm.t)
| S2kCount (n : N)
| SessKey (b : bool)
| DisableMdc (b : bool)
| IgnoreCipherFailure (b : bool).

Definition setting_name (s : setting) : string :=
  match s with
  | CipherAlgo _ => "cipher-algo" | CompressAlgo _ => "compress-algo"
  | CompressLevel _ => "compress-level" | UnicodeMode _ => "unicode-mode"
  | ConvertCrlf _ => "convert-crlf" | S2kMode _ => "s2k-mode"
  | S2kDigestAlgo _ => "s2k-digest-algo" | S2kCipherAlgo _ => "s2k-cipher-algo"
  | S2kCount _ => "s2k-count" | SessKey _ => "sess-key"
  | DisableMdc _ => "disable-mdc" | IgnoreCipherFailure _ => "ignore-cipher-failure"
  end.

Definition render_bool (b : bool) : bytes := if b then lit "1" else lit "0".

Definition render_cipher (c : SymmetricAlgorithm.t) : bytes :=
  lit match c with
      | SymmetricAlgorithm.Blowfish => "bf" | SymmetricAlgorithm.AES128 => "aes128"
      | SymmetricAlgorithm.AES192 => "aes192" | SymmetricAlgorithm.AES256 => "aes256"
      | SymmetricAlgorithm.TripleDES => "3des" | SymmetricAlgorithm.CAST5 => "cast5"
      end.

Definition setting_value (s : setting) : bytes :=
  match s with
  | CipherAlgo c | S2kCipherAlgo c => render_cipher c
  | CompressAlgo c =>
      lit match c with
          | CompressionAlgorithm.Uncompressed => "0"
          | CompressionAlgorithm.Zip => "1"
          | CompressionAlgorithm.Zlib => "2"
          end
  | CompressLevel n | S2kMode n | S2kCount n => dec n
  | S2kDigestAlgo h => lit match h with HashAlgorithm.MD5 => "md5" | HashAlgorithm.SHA1 => "sha1" end
  | UnicodeMode b | ConvertCrlf b | SessKey b | DisableMdc b | IgnoreCipherFailure b => render_bool b
  end.

Definition render_setting (s : setting) : bytes :=
  lit (setting_name s) ++ "="%byte :: setting_value s.

Definition valid_setting (s : setting) : Prop :=
  match s with
  | CompressLevel n => n <= 9
  | S2kMode n => n = 0 \/ n = 1 \/ n = 3
  | S2kCipherAlgo c => c <> SymmetricAlgorithm.TripleDES /\ c <> SymmetricAlgorithm.CAST5
  | S2kCount n => 1024 <= n <= 65011712
  | DisableMdc b => b = false
  | _ => True
  end.

Definition apply_setting (o : PgpOptions) (s : setting) : PgpOptions :=
  match s with
  | CipherAlgo c => set_cipher c o
  | CompressAlgo c => set_compression c o
  | CompressLevel n => set_compression_level n o
  | UnicodeMode b => set_unicode_mode b o
  | ConvertCrlf b => set_convert_crlf b o
  | S2kMode n => set_s2k_mode n o
  | S2kDigestAlgo h => set_s2k_digest h o
  | S2kCipherAlgo c => set_s2k_cipher (Some c) o
  | S2kCount n => set_s2k_count (Some n) o
  | SessKey b => set_use_session_key b o
  | DisableMdc _ | IgnoreCipherFailure _ => o
  end.

(** Settings joined by commas. *)
Fixpoint join_items (items : list bytes) : bytes :=
  match items with
  | [] => []
  | [item] => item
  | item :: rest => item ++ ","%byte :: join_items rest
  end.

Definition render_settings (ss : list setting) : bytes := join_items (render_setting <$> ss).

(** The settings that say all of an option record. *)
Definition settings_of (o : PgpOptions) : list setting :=
  [CipherAlgo (cipher o); CompressAlgo (compression o); CompressLevel (compression_level o);
   UnicodeMode (unicode_mode o); ConvertCrlf (convert_crlf o); S2kMode (s2k_mode o);
   S2kDigestAlgo (s2k_digest o); SessKey (use_session_key o)]
  ++ match s2k_cipher o with Some c => [S2kCipherAlgo c] | None => [] end
  ++ match s2k_count o with Some n => [S2kCount n] | None => [] end.

(** The option records the rest of the program relies on. *)
Record wf_fields (o : PgpOptions) : Prop := {
  wf_level : compression_level o <= 9;
  wf_s2k_mode : s2k_mode o = 0 \/ s2k_mode o = 1 \/ s2k_mode o = 3;
  wf_s2k_cipher : forall c, s2k_cipher o = Some c ->
    c <> SymmetricAlgorithm.TripleDES /\ c <> SymmetricAlgorithm.CAST5;
  wf_s2k_count : forall n, s2k_count o = Some n -> 1024 <= n <= 65011712;
}.

Definition wf_options (o : PgpOptions) : Prop :=
  wf_fields o /\ (is_Some (s2k_count o) -> s2k_mode o = 3).

(** ** Lemmas *)

(** Rewrites a parser's tests for a key that is a literal. *)
Ltac eval_one_of :=
  repeat match goal with
  | |- context [one_of (lit ?a) ?l] =>
      let b := eval vm_compute in (one_of (lit a) l) in
      change (one_of (lit a) l) with b
  end; cbv iota.

Lemma setting_name_plain s :
  trim (lit (setting_name s)) = lit (setting_name s)
  /\ to_ascii_lowercase (lit (setting_name s)) = lit (setting_name s)
  /\ ("="%byte ∉ lit (setting_name s)) /\ (","%byte ∉ lit (setting_name s))
  /\ graphic (lit (setting_name s)) = true.
Proof.
  split_and!; [by destruct s.. | | |]; rewrite <- ?contains_byte_false; by destruct s.
Qed.

Lemma graphic_app s t : graphic (s ++ t) = graphic s && graphic t.
Proof. apply forallb_app. Qed.

Lemma setting_value_graphic s : graphic (setting_value s) = true.
Proof.
  destruct s as [[] | [] | n | [] | [] | n | [] | [] | n | [] | [] | []];
    try reflexivity; apply dec_graphic.
Qed.

Lemma dec_no_comma n : ","%byte ∉ dec n.
Proof.
  intros Hin%list_elem_of_In. pose proof (dec_digits n) as H.
  rewrite forallb_forall in H. by apply H in Hin.
Qed.

Lemma setting_value_no_comma s : ","%byte ∉ setting_value s.
Proof.
  destruct s as [[] | [] | n | [] | [] | n | [] | [] | n | [] | [] | []];
    try (apply dec_no_comma); apply contains_byte_false; reflexivity.
Qed.

Lemma parse_boolean_option_render name b : parse_boolean_option name (render_bool b) = Ok b.
Proof. by destruct b. Qed.

Lemma trim_dec n : trim (dec n) = dec n.
Proof. apply trim_graphic, dec_graphic. Qed.

(** A rendered setting is parsed to its effect. *)
Lemma parse_option_render o s :
  valid_setting s -> parse_option o (render_setting s) = Ok (apply_setting o s).
Proof.
  intros Hs. unfold parse_option, render_setting.
  destruct (setting_name_plain s) as (Htrim & Hlower & Heq & _ & _).
  rewrite split_once_app by done.
  cbn [ok_or_else mbind result_bind]. rewrite Htrim, Hlower.
  destruct s as [c | c | n | b | b | n | h | c | n | b | b | b];
    cbn [setting_name setting_value apply_setting valid_setting] in *; eval_one_of;
    rewrite ?parse_boolean_option_render, ?trim_dec; cbn [mbind result_bind].
  - by destruct c.
  - by destruct c.
  - unfold parse_u8. rewrite parse_uint_dec by lia. cbn [ok_or_else mbind result_bind].
    destruct (N.ltb_spec 9 n); [lia | done].
  - done.
  - done.
  - unfold parse_u8. rewrite parse_uint_dec by lia. cbn [ok_or_else mbind result_bind].
    destruct Hs as [-> | [-> | ->]]; done.
  - by destruct h.
  - destruct Hs. by destruct c.
  - unfold parse_u32. rewrite parse_uint_dec by lia. cbn [ok_or_else mbind result_bind].
    rewrite (proj2 (N.leb_le 1024 n)), (proj2 (N.leb_le n 65011712)) by lia. done.
  - done.
  - by rewrite Hs.
  - done.
Qed.

(** The value of the settings that are read as booleans. *)
Definition boolean_of (s : setting) : option bool :=
  match s with
  | UnicodeMode b | ConvertCrlf b | SessKey b | DisableMdc b | IgnoreCipherFailure b => Some b
  | _ => None
  end.

(** Whatever item is accepted, its effect is that of a valid setting of that name. *)
Lemma parse_option_inv o item o' :
  parse_option o item = Ok o' ->
  exists name value s, split_once "=" item = Some (name, value)
    /\ to_ascii_lowercase (trim name) = lit (setting_name s)
    /\ valid_setting s /\ o' = apply_setting o s
    /\ forall b, boolean_of s = Some b -> parse_boolean_option name value = Ok b.
Proof.
  unfold parse_option. destruct (split_once "=" item) as [[name value] |]; [| done].
  cbn [ok_or_else mbind result_bind]. intros H.
  exists name, value.
  repeat match type of H with
  | (if one_of ?k ?l then _ else _) = _ =>
      let E := fresh "E" in
      destruct (one_of k l) eqn:E;
        [apply one_of_elem in E as (n & Hn%list_elem_of_singleton & E); subst n |]
  end; try done; try (apply bind_Ok in H as (x & Hx & H)).
  all: match goal with E : to_ascii_lowercase _ = lit ?n |- _ =>
         match n with
         | "cipher-algo"%string => exists (CipherAlgo x)
         | "compress-algo"%string => exists (CompressAlgo x)
         | "compress-level"%string => exists (CompressLevel x)
         | "unicode-mode"%string => exists (UnicodeMode x)
         | "convert-crlf"%string => exists (ConvertCrlf x)
         | "s2k-mode"%string => exists (S2kMode x)
         | "s2k-digest-algo"%string => exists (S2kDigestAlgo x)
         | "s2k-cipher-algo"%string => exists (S2kCipherAlgo x)
         | "s2k-count"%string => exists (S2kCount x)
         | "sess-key"%string => exists (SessKey x)
         | "disable-mdc"%string => exists (DisableMdc x)
         | "ignore-cipher-failure"%string => exists (IgnoreCipherFailure x)
         end; rewrite E; clear E end.
  all: repeat case_match; try done; simplify_eq;
       split_and!; try done; cbn [boolean_of valid_setting]; try (intros ? [= <-]; done).
  all: try lia.
  unfold parse_s2k_cipher in Hx. repeat case_match; simplify_eq; done.
Qed.

Lemma parse_items_app o l1 l2 :
  parse_items o (l1 ++ l2) = (o1 ← parse_items o l1; parse_items o1 l2).
Proof.
  revert o. induction l1 as [| item l1 IH]; intros o; [done |]. cbn.
  destruct (parse_option o item) as [o1 | e]; cbn; [apply IH | done].
Qed.

Lemma parse_items_render o ss :
  Forall valid_setting ss ->
  parse_items o (render_setting <$> ss) = Ok (fold_left apply_setting ss o).
Proof.
  intros Hss. revert o. induction Hss as [| s ss Hs _ IH]; intros o; [done |].
  cbn. rewrite parse_option_render by done. apply IH.
Qed.

(** Items in normal form: not empty, without spaces and commas. *)
Definition plain_item (item : bytes) : Prop :=
  item <> [] /\ graphic item = true /\ ","%byte ∉ item.

Lemma render_setting_plain s : plain_item (render_setting s).
Proof.
  destruct (setting_name_plain s) as (_ & _ & _ & Hc & Hg). unfold render_setting.
  split_and!.
  - by destruct (lit (setting_name s)).
  - rewrite graphic_app, Hg. apply setting_value_graphic.
  - rewrite elem_of_app, elem_of_cons. intros [? | [? | Hv]]; [done.. |].
    by apply setting_value_no_comma in Hv.
Qed.

Lemma option_items_plain item : plain_item item -> option_items item = [item].
Proof.
  intros (Hne & Hg & Hc). unfold option_items. rewrite split_on_no_sep by done. cbn.
  rewrite trim_graphic by done. by rewrite decide_True.
Qed.

Lemma option_items_app o1 o2 :
  option_items (o1 ++ ","%byte :: o2) = option_items o1 ++ option_items o2.
Proof. unfold option_items. by rewrite split_on_app, fmap_app, filter_app. Qed.

Lemma option_items_join items :
  Forall plain_item items -> option_items (join_items items) = items.
Proof.
  induction 1 as [| item items Hi Hitems IH]; [done |].
  destruct items as [| item' items]; [by apply option_items_plain |].
  change (join_items (item :: item' :: items))
    with (item ++ ","%byte :: join_items (item' :: items)).
  by rewrite option_items_app, IH, option_items_plain.
Qed.

Lemma option_items_render ss : option_items (render_settings ss) = render_setting <$> ss.
Proof.
  apply option_items_join, Forall_fmap, Forall_true. apply render_setting_plain.
Qed.

(** Well-formedness of the fields is kept by valid settings, hence by parsing. *)
Lemma apply_setting_wf o s : wf_fields o -> valid_setting s -> wf_fields (apply_setting o s).
Proof.
  intros [Hl Hm Hc Hn] Hs.
  destruct s; cbn [apply_setting valid_setting] in *; try (split; cbn; assumption);
    split; cbn; try assumption; intros ? [= <-]; assumption.
Qed.

Lemma parse_items_wf o items o' :
  parse_items o items = Ok o' -> wf_fields o -> wf_fields o' /\ text_input o' = text_input o.
Proof.
  revert o. induction items as [| item items IH]; cbn; intros o H Hwf.
  - by simplify_eq.
  - apply bind_Ok in H as (o1 & H1 & H2).
    apply parse_option_inv in H1 as (name & value & s & _ & _ & Hs & -> & _).
    destruct (IH _ H2) as [Hwf' Ht]; [by apply apply_setting_wf |].
    split; [done |]. rewrite Ht. by destruct s.
Qed.

Lemma default_options_wf text : wf_fields (default_options text).
Proof. split; cbn; [lia | by right; right | done..]. Qed.

Lemma check_count_Ok o o' :
  check_count o = Ok o' <-> o' = o /\ (is_Some (s2k_count o) -> s2k_mode o = 3).
Proof.
  unfold check_count. case_bool_decide as Hc; cbn.
  - destruct (N.eqb_spec (s2k_mode o) 3); cbn; naive_solver.
  - naive_solver.
Qed.

Lemma settings_of_valid o : wf_fields o -> Forall valid_setting (settings_of o).
Proof.
  intros [Hl Hm Hc Hn]. unfold settings_of.
  rewrite !Forall_app. split_and!.
  - by rewrite !Forall_cons.
  - destruct (s2k_cipher o) as [c |]; [| done]. rewrite Forall_singleton. by apply Hc.
  - destruct (s2k_count o) as [n |]; [| done]. rewrite Forall_singleton. by apply Hn.
Qed.

Lemma settings_of_apply o :
  fold_left apply_setting (settings_of o) (default_options (text_input o)) = o.
Proof. by destruct o as [? ? ? ? ? ? ? [] ? [] ?]. Qed.

Lemma parse_options_Ok options text o :
  parse_options options text = Ok o <->
  parse_items (default_options text) (option_items options) = Ok o
  /\ (is_Some (s2k_count o) -> s2k_mode o = 3).
Proof.
  unfold parse_options. rewrite bind_Ok. split.
  - intros (o' & Hi & Hc). apply check_count_Ok in Hc as [-> Hc]. by split.
  - intros [Hi Hc]. exists o. split; [done |]. by apply check_count_Ok.
Qed.

(** What [parse_options] accepts, [parse_decrypt_options] accepts too. *)
Lemma decrypt_option_agrees o item o' d :
  parse_option o item = Ok o' -> decrypt_convert_crlf d = convert_crlf o ->
  parse_decrypt_option d item = Ok {| decrypt_convert_crlf := convert_crlf o' |}.
Proof.
  intros (name & value & s & Hsplit & Hname & _ & -> & Hb)%parse_option_inv Hd.
  unfold parse_decrypt_option. rewrite Hsplit. cbn [ok_or_else mbind result_bind].
  rewrite Hname. destruct d as [crlf]; cbn in Hd; subst crlf.
  destruct s; cbn [setting_name apply_setting]; eval_one_of; try done;
    by rewrite (Hb b eq_refl).
Qed.

Lemma decrypt_items_agree o items o' d :
  parse_items o items = Ok o' -> decrypt_convert_crlf d = convert_crlf o ->
  parse_decrypt_items d items = Ok {| decrypt_convert_crlf := convert_crlf o' |}.
Proof.
  revert o d. induction items as [| item items IH]; cbn; intros o d H Hd.
  - simplify_eq. rewrite <- Hd. by destruct d.
  - apply bind_Ok in H as (o1 & H1 & H2).
    rewrite (decrypt_option_agrees o item o1 d) by done. by apply (IH o1).
Qed.

Lemma parse_options_wf options text o :
  parse_options options text = Ok o -> wf_options o /\ text_input o = text.
Proof.
  intros [Hi Hc]%parse_options_Ok.
  destruct (parse_items_wf _ _ _ Hi (default_options_wf text)) as [Hwf Ht].
  split; [by split | done].
Qed.

(** ** Properties *)

(** C11: The records [parse_options] can produce are exactly the well-formed ones
    with the caller's text flag: compression level at most 9, S2K mode 0, 1 or
    3, an S2K cipher among Blowfish and AES, an S2K count from 1024 to 65011712
    only together with mode 3; and each of them is produced by some option
    string, the one that prints its fields. *)
Theorem parse_options_range o text :
  (exists options, parse_options options text = Ok o)
  <-> wf_options o /\ text_input o = text.
Proof.
  split.
  - intros [options Hp]. by eapply parse_options_wf.
  - intros [[Hwf Hc] <-]. exists (render_settings (settings_of o)).
    apply parse_options_Ok. rewrite option_items_render, parse_items_render, settings_of_apply;
      [done | by apply settings_of_valid].
Qed.

(** C30: Printing settings and parsing them back gives their combined effect, in
    order, on the defaults; and a setting appended to any accepted option string
    overrides what the string said of it and nothing else. *)
Theorem parse_options_settings ss s options text o :
  Forall valid_setting ss -> valid_setting s -> parse_options options text = Ok o ->
  parse_options (render_settings ss) text
    = check_count (fold_left apply_setting ss (default_options text))
  /\ parse_options (options ++ ","%byte :: render_setting s) text
    = check_count (apply_setting o s).
Proof.
  intros Hss Hs [Hi _]%parse_options_Ok. unfold parse_options. split.
  - by rewrite option_items_render, parse_items_render.
  - rewrite option_items_app, parse_items_app, Hi. cbn [mbind result_bind].
    rewrite option_items_plain by apply render_setting_plain.
    cbn [parse_items]. by rewrite parse_option_render.
Qed.

(** C12: No accepted option string turns integrity protection off: every
    [disable-mdc] setting of a string that [parse_options] accepts, however it
    is spelled and wherever it stands, has the value [0]. *)
Theorem disable_mdc_rejected options text o item name value :
  parse_options options text = Ok o -> item ∈ option_items options ->
  split_once "=" item = Some (name, value) ->
  to_ascii_lowercase (trim name) = lit "disable-mdc" ->
  trim value = lit "0".
Proof.
  intros [Hi _]%parse_options_Ok Hin Hsplit Hname.
  apply list_elem_of_split in Hin as (l1 & l2 & E). rewrite E, parse_items_app in Hi.
  apply bind_Ok in Hi as (o1 & _ & Hi). cbn in Hi. apply bind_Ok in Hi as (o2 & Hi & _).
  apply parse_option_inv in Hi as (name' & value' & s & Hsplit' & Hname' & Hs & _ & Hb).
  rewrite Hsplit in Hsplit'. simplify_eq. rewrite Hname in Hname'.
  destruct s; try discriminate. cbn in Hs. subst b. specialize (Hb false eq_refl).
  unfold parse_boolean_option in Hb. repeat case_match; simplify_eq.
  by apply one_of_elem in H as (n & ->%list_elem_of_singleton & ->).
Qed.

(** C31: Every option string accepted for encryption is accepted for decryption,
    which reads from it the same [convert-crlf] and ignores the rest. *)
Theorem decrypt_options_agree options text o :
  parse_options options text = Ok o ->
  parse_decrypt_options options = Ok {| decrypt_convert_crlf := convert_crlf o |}.
Proof.
  intros [Hi _]%parse_options_Ok. by eapply decrypt_items_agree.
Qed.

Lemma parse_option_no_equals o item :
  "="%byte ∉ item -> parse_option o item = Err (PgError (lit "invalid PGP option: " ++ item)).
Proof. intros H%split_once_None. unfold parse_option. by rewrite H. Qed.

Lemma parse_decrypt_option_no_equals o item :
  "="%byte ∉ item ->
  parse_decrypt_option o item = Err (PgError (lit "invalid PGP option: " ++ item)).
Proof. intros H%split_once_None. unfold parse_decrypt_option. by rewrite H. Qed.

Definition known_names : list string :=
  "convert-crlf" :: "ignore-cipher-failure" :: ignored_on_decrypt.

Lemma unknown_name_not key n :
  one_of key known_names = false -> n ∈ known_names -> one_of key [n] = false.
Proof.
  intros Hk Hn. rewrite one_of_single. apply bool_decide_eq_false. intros E.
  by rewrite (one_of_intro _ _ _ E Hn) in Hk.
Qed.

Lemma parse_option_unknown o name value :
  "="%byte ∉ name -> one_of (to_ascii_lowercase (trim name)) known_names = false ->
  parse_option o (name ++ "="%byte :: value)
    = Err (PgError (lit "unknown PGP option: " ++ to_ascii_lowercase (trim name))).
Proof.
  intros Hname Hk. unfold parse_option. rewrite split_once_app by done.
  cbn [ok_or_else mbind result_bind].
  repeat (rewrite (unknown_name_not _ _ Hk) by (unfold known_names, ignored_on_decrypt; find_elem)).
  done.
Qed.

Lemma parse_decrypt_option_unknown o name value :
  "="%byte ∉ name -> one_of (to_ascii_lowercase (trim name)) known_names = false ->
  parse_decrypt_option o (name ++ "="%byte :: value)
    = Err (PgError (lit "unknown PGP option: " ++ to_ascii_lowercase (trim name))).
Proof.
  intros Hname Hk. unfold parse_decrypt_option. rewrite split_once_app by done.
  cbn [ok_or_else mbind result_bind].
  repeat (rewrite (unknown_name_not _ _ Hk) by (unfold known_names, ignored_on_decrypt; find_elem)).
  assert (one_of (to_ascii_lowercase (trim name)) ignored_on_decrypt = false) as ->; [| done].
  apply one_of_false. intros Hin. apply one_of_false in Hk. destruct Hk.
  unfold known_names. rewrite !fmap_cons, !elem_of_cons. auto.
Qed.

Lemma parse_decrypt_items_app o l1 l2 :
  parse_decrypt_items o (l1 ++ l2)
    = (o1 ← parse_decrypt_items o l1; parse_decrypt_items o1 l2).
Proof.
  revert o. induction l1 as [| item l1 IH]; intros o; [done |]. cbn.
  destruct (parse_decrypt_option o item) as [o1 | e]; cbn; [apply IH | done].
Qed.

(** The first item that is refused, after accepted ones, decides the result. *)
Lemma first_bad_item options text o item rest e :
  parse_options options text = Ok o -> plain_item item ->
  (forall o', parse_option o' item = Err e) ->
  (forall o', parse_decrypt_option o' item = Err e) ->
  parse_options (options ++ ","%byte :: item ++ ","%byte :: rest) text = Err e
  /\ parse_decrypt_options (options ++ ","%byte :: item ++ ","%byte :: rest) = Err e.
Proof.
  intros [Hi _]%parse_options_Ok Hitem He Hd. unfold parse_options, parse_decrypt_options.
  rewrite !option_items_app, (option_items_plain item), parse_items_app, Hi by done.
  rewrite parse_decrypt_items_app.
  rewrite (decrypt_items_agree _ _ _ {| decrypt_convert_crlf := false |} Hi) by done.
  cbn. by rewrite He, Hd.
Qed.

(** C39: After any accepted settings, an item of visible ASCII without [=] and one
    with an unknown name are each the same error for encryption and for decryption,
    whatever follows: the first quotes the item, the second the name in lower
    case. *)
Theorem bad_item_rejected options text o item rest :
  parse_options options text = Ok o -> plain_item item ->
  let given := options ++ ","%byte :: item ++ ","%byte :: rest in
  ("="%byte ∉ item ->
     parse_options given text = Err (PgError (lit "invalid PGP option: " ++ item))
     /\ parse_decrypt_options given = Err (PgError (lit "invalid PGP option: " ++ item)))
  /\ (forall name value, item = name ++ "="%byte :: value -> "="%byte ∉ name ->
      one_of (to_ascii_lowercase (trim name)) known_names = false ->
      let e := PgError (lit "unknown PGP option: " ++ to_ascii_lowercase (trim name)) in
      parse_options given text = Err e /\ parse_decrypt_options given = Err e).
Proof.
  intros Ho Hitem given. split.
  - intros Heq. apply (first_bad_item _ _ o); auto using parse_option_no_equals,
      parse_decrypt_option_no_equals.
  - intros name value -> Hname Hk e. apply (first_bad_item _ _ o); auto using
      parse_option_unknown, parse_decrypt_option_unknown.
Qed.

(** ** Witnesses *)

Lemma parse_options_settings_witness :
  parse_options (render_settings [S2kMode 3; S2kCount 65536; ConvertCrlf true]) true
    = check_count (set_convert_crlf true (set_s2k_count (Some 65536) (default_options true)))
  /\ parse_options (lit " Cipher-Algo = AES256 ,, compress-level=9"
                      ++ ","%byte :: render_setting (CipherAlgo SymmetricAlgorithm.CAST5)) true
    = check_count (set_cipher SymmetricAlgorithm.CAST5
        (set_compression_level 9 (set_cipher SymmetricAlgorithm.AES256 (default_options true)))).
Proof.
  apply (parse_options_settings [S2kMode 3; S2kCount 65536; ConvertCrlf true]
           (CipherAlgo SymmetricAlgorithm.CAST5)).
  - repeat apply List.Forall_cons; [right; right; reflexivity | cbn; lia | exact I | apply List.Forall_nil].
  - exact I.
  - vm_compute. reflexivity.
Defined.

Lemma disable_mdc_rejected_witness : trim (lit " 0") = lit "0".
Proof.
  apply (disable_mdc_rejected (lit "sess-key=1, Disable-MDC = 0") true
           (set_use_session_key true (default_options true))
           (lit "Disable-MDC = 0") (lit "Disable-MDC ") (lit " 0")).
  - vm_compute. reflexivity.
  - apply (bool_decide_eq_true_1
      (lit "Disable-MDC = 0" ∈ option_items (lit "sess-key=1, Disable-MDC = 0"))).
    vm_compute. reflexivity.
  - vm_compute. reflexivity.
  - vm_compute. reflexivity.
Defined.

Lemma decrypt_options_agree_witness :
  parse_decrypt_options (lit "s2k-mode=0,convert-crlf=1")
    = Ok {| decrypt_convert_crlf := true |}.
Proof.
  apply (decrypt_options_agree (lit "s2k-mode=0,convert-crlf=1") false
           (set_convert_crlf true (set_s2k_mode 0 (default_options false)))).
  vm_compute. reflexivity.
Defined.

Lemma bad_item_rejected_witness :
  parse_options (lit "s2k-mode=0" ++ ","%byte :: lit "Level=9" ++ ","%byte :: []) false
    = Err (PgError (lit "unknown PGP option: level")).
Proof.
  assert (plain_item (lit "Level=9")) as Hitem
    by (split; [discriminate | split; [reflexivity | apply contains_byte_false; reflexivity]]).
  apply (proj2 (bad_item_rejected (lit "s2k-mode=0") false
           (set_s2k_mode 0 (default_options false)) (lit "Level=9") [] eq_refl Hitem)
           (lit "Level") (lit "9")).
  - reflexivity.
  - apply contains_byte_false. reflexivity.
  - reflexivity.
Defined.
