(* ===== verification/PgpText.v ===== *)
(** * Text payloads of OpenPGP messages ([src/pgp.rs])

    The CRLF conversions and the checks that turn a decrypted payload into an
    SQL text. *)
From stdpp Require Import base tactics list numbers option strings.
From Stdlib Require Import Strings.Byte.
From S2P Require Import Prelude RustStr PgpOptions.

Definition CR : byte := "013"%byte.
Definition LF : byte := "010"%byte.
Definition NUL : byte := "000"%byte.

(** ** Operations *)

Definition pgp_error {A} (context : string) (error : bytes) : outcome A :=
  pg_error (lit context ++ lit ": " ++ error).

(** One round of the loop of [crlf_encode]. *)
Definition crlf_push (output : bytes) (b : byte) : bytes :=
  (if bool_decide (b = LF) then output ++ [CR] else output) ++ [b].

Definition crlf_encode (data : bytes) : bytes := fold_left crlf_push data [].

(** [data[index]]: panics out of range. *)
Definition index_byte (data : bytes) (index : nat) : outcome byte :=
  ok_or_else (data !! index) (panicked SliceOutOfRange).

(** The loop of [crlf_decode]. *)
Fixpoint crlf_decode_loop (fuel : nat) (data : bytes) (index : nat) (output : bytes)
    : outcome bytes :=
  match fuel with
  | O => panicked FuelExhausted
  | S f =>
      if (index <? length data)%nat then
        b ← index_byte data index;
        let index :=
          if bool_decide (b = CR) && bool_decide (data !! (index + 1)%nat = Some LF)
          then (index + 1)%nat else index in
        c ← index_byte data index;
        crlf_decode_loop f data (index + 1) (output ++ [c])
      else Ok output
  end.

Definition crlf_decode (data : bytes) : outcome bytes :=
  crlf_decode_loop (S (length data)) data 0 [].

(** The marks the packet inspection leaves. *)
Definition LITERAL_UNKNOWN : N := 0.
Definition LITERAL_BINARY : N := 1.
Definition LITERAL_TEXT : N := 2.
Definition LITERAL_UNICODE : N := 3.

Definition decrypted_text (data : bytes) (format : N) (options : DecryptOptions)
    : outcome bytes :=
  if negb ((format =? LITERAL_TEXT)%N || (format =? LITERAL_UNICODE)%N)
  then pg_error (lit "decrypted OpenPGP data is not text")
  else
    data ← (if decrypt_convert_crlf options then crlf_decode data else Ok data);
    if contains_byte NUL data then pg_error (lit "decrypted text contains a NUL byte")
    else unwrap_or_else (from_utf8 data) (pgp_error "decrypted data is not valid UTF-8").

(** ** Specification *)

(** A carriage return before every line feed is inserted, or removed. *)
Definition crlf_insert (data : bytes) : bytes :=
  b ← data; if bool_decide (b = LF) then [CR; LF] else [b].

Fixpoint crlf_remove (data : bytes) : bytes :=
  match data with
  | [] => []
  | b :: r =>
      if bool_decide (b = CR) && bool_decide (head r = Some LF) then crlf_remove r
      else b :: crlf_remove r
  end.

(** Every line feed follows a carriage return. *)
Definition crlf_lines (data : bytes) : Prop :=
  forall i, data !! i = Some LF -> exists j, i = S j /\ data !! j = Some CR.

(** The text a payload becomes. *)
Definition text_of (options : DecryptOptions) (data : bytes) : bytes :=
  if decrypt_convert_crlf options then crlf_remove data else data.

(** ** Lemmas *)

Lemma fold_crlf_push data output :
  fold_left crlf_push data output = output ++ crlf_insert data.
Proof.
  revert output. induction data as [| b data IH]; intros output; cbn.
  - by rewrite app_nil_r.
  - rewrite IH. unfold crlf_push. case_bool_decide; subst; by rewrite <- ?app_assoc.
Qed.

Lemma crlf_encode_insert data : crlf_encode data = crlf_insert data.
Proof. apply fold_crlf_push. Qed.

Lemma crlf_insert_cons b data :
  crlf_insert (b :: data) = (if bool_decide (b = LF) then [CR; LF] else [b]) ++ crlf_insert data.
Proof. done. Qed.

(** The loop, started at [index], appends the conversion of the rest: it neither
    leaves the slice nor runs out of fuel. *)
Lemma crlf_decode_loop_spec fuel data index output :
  (length data - index < fuel)%nat ->
  crlf_decode_loop fuel data index output = Ok (output ++ crlf_remove (drop index data)).
Proof.
  revert index output. induction fuel as [| f IH]; intros index output Hfuel; [lia |].
  cbn [crlf_decode_loop]. destruct (Nat.ltb_spec index (length data)) as [Hlt | Hge].
  2: { by rewrite drop_ge, app_nil_r. }
  destruct (lookup_lt_is_Some_2 data index Hlt) as [b Hb].
  unfold index_byte. rewrite Hb. cbn [ok_or_else mbind result_bind].
  rewrite (drop_S _ _ _ Hb). cbn [crlf_remove].
  assert (head (drop (S index) data) = data !! (index + 1)%nat) as ->.
  { destruct (data !! (index + 1)%nat) as [c |] eqn:Hc.
    - replace (index + 1)%nat with (S index) in Hc by lia. by rewrite (drop_S _ _ _ Hc).
    - apply lookup_ge_None in Hc. by rewrite drop_ge by lia. }
  case_bool_decide as Hcr; cbn [andb].
  - case_bool_decide as Hlf.
    + rewrite Hlf. cbn [ok_or_else mbind result_bind].
      rewrite IH by (apply lookup_lt_Some in Hlf; lia).
      replace (S index) with (index + 1)%nat by lia.
      rewrite (drop_S _ _ _ Hlf). cbn [crlf_remove andb bool_decide].
      rewrite <- app_assoc. by replace (S (index + 1)) with (index + 1 + 1)%nat by lia.
    + rewrite Hb. cbn [ok_or_else mbind result_bind]. rewrite IH by lia.
      rewrite <- app_assoc. by replace (index + 1)%nat with (S index) by lia.
  - rewrite Hb. cbn [ok_or_else mbind result_bind]. rewrite IH by lia.
    rewrite <- app_assoc. by replace (index + 1)%nat with (S index) by lia.
Qed.

Lemma crlf_decode_remove data : crlf_decode data = Ok (crlf_remove data).
Proof. unfold crlf_decode. rewrite crlf_decode_loop_spec by lia. done. Qed.

Lemma crlf_remove_insert data : crlf_remove (crlf_insert data) = data.
Proof.
  induction data as [| b data IH]; [done |]. rewrite crlf_insert_cons.
  case_bool_decide as Hb; subst; cbn [app].
  - cbn [crlf_remove head]. by rewrite IH.
  - cbn [crlf_remove]. rewrite IH. case_bool_decide as Hcr; [| done]. cbn [andb].
    rewrite bool_decide_false; [done |].
    destruct data as [| c data]; [done |]. rewrite crlf_insert_cons.
    case_bool_decide; cbn; congruence.
Qed.

(** [crlf_lines], read from left to right. *)
Fixpoint lines_ok (after_cr : bool) (data : bytes) : Prop :=
  match data with
  | [] => True
  | b :: r => (b = LF -> after_cr = true) /\ lines_ok (bool_decide (b = CR)) r
  end.

Lemma lines_ok_lookup after data :
  lines_ok after data <->
  forall i, data !! i = Some LF ->
    match i with O => after = true | S j => data !! j = Some CR end.
Proof.
  revert after. induction data as [| b data IH]; intros after; cbn; [done |].
  rewrite IH. split.
  - intros [Hb Hr] [| i]; cbn; [naive_solver |]. intros Hi. specialize (Hr i Hi).
    destruct i as [| j]; [| done]. apply bool_decide_eq_true in Hr. by subst.
  - intros H. split; [intros ->; by apply (H 0%nat) |].
    intros i Hi. specialize (H (S i) Hi). destruct i as [| j]; cbn in *; [| done].
    simplify_eq. by apply bool_decide_eq_true.
Qed.

Lemma crlf_lines_ok data : crlf_lines data <-> lines_ok false data.
Proof.
  rewrite lines_ok_lookup. unfold crlf_lines. split; intros H i Hi; specialize (H i Hi).
  - destruct H as (j & -> & Hj). done.
  - destruct i as [| j]; [done | by exists j].
Qed.

Lemma lines_ok_not_lf after data :
  head data <> Some LF -> lines_ok after data <-> lines_ok false data.
Proof. destruct data as [| b data]; cbn; naive_solver. Qed.

Lemma crlf_insert_remove data : crlf_insert (crlf_remove data) = data <-> lines_ok false data.
Proof.
  induction data as [data IH] using (induction_ltof1 _ (@length byte)). unfold ltof in IH.
  destruct data as [| b r]; [done |]. cbn [crlf_remove].
  destruct (bool_decide (b = CR) && bool_decide (head r = Some LF)) eqn:E.
  - apply andb_true_iff in E as [->%bool_decide_eq_true Hr%bool_decide_eq_true].
    destruct r as [| c r]; cbn in Hr; simplify_eq. cbn [crlf_remove].
    change (bool_decide (LF = CR)) with false. cbn [andb]. rewrite crlf_insert_cons.
    change (bool_decide (LF = LF)) with true. cbn [app lines_ok].
    change (bool_decide (CR = CR)) with true. change (bool_decide (LF = CR)) with false.
    rewrite <- (IH r) by (cbn; lia). split.
    + by intros [= E].
    + intros (_ & _ & E). by rewrite E.
  - assert (IHr := IH r ltac:(cbn; lia)). rewrite crlf_insert_cons. cbn [lines_ok].
    destruct (decide (b = LF)) as [-> | Hlf].
    { change (bool_decide (LF = LF)) with true. cbn [app].
      split; [intros H; discriminate H | intros [H _]; discriminate (H eq_refl)]. }
    rewrite (bool_decide_false (b = LF)) by done. cbn [app].
    assert (lines_ok (bool_decide (b = CR)) r <-> lines_ok false r) as ->.
    { apply andb_false_iff in E as [-> | Hr%bool_decide_eq_false]; [done |].
      by apply lines_ok_not_lf. }
    rewrite <- IHr. split; [by intros [= H] | intros [_ H]; by rewrite H].
Qed.

Lemma crlf_insert_lines data : lines_ok false (crlf_insert data).
Proof.
  assert (forall after, lines_ok after (crlf_insert data)) as H; [| apply H].
  induction data as [| b data IH]; intros after; [done |]. rewrite crlf_insert_cons.
  case_bool_decide as Hb; cbn [app lines_ok]; [| done].
  by change (bool_decide (CR = CR)) with true.
Qed.

(** The conversions keep UTF-8: they touch ASCII characters only. *)
Lemma crlf_insert_not_ascii b data :
  is_ascii_byte b = false -> crlf_insert (b :: data) = b :: crlf_insert data.
Proof. intros Hb. rewrite crlf_insert_cons, bool_decide_false; [done | by intros ->]. Qed.

Lemma crlf_remove_not_ascii b data :
  is_ascii_byte b = false -> crlf_remove (b :: data) = b :: crlf_remove data.
Proof. intros Hb. cbn. rewrite bool_decide_false; [done | by intros ->]. Qed.

Lemma crlf_insert_utf8 data : utf8 data -> utf8 (crlf_insert data).
Proof.
  induction 1 as [| a s Ha _ IH | | |]; [constructor | | ..].
  - rewrite crlf_insert_cons. case_bool_decide; cbn [app]; auto with rust.
  - rewrite !crlf_insert_not_ascii by byte_lia. auto with rust.
  - rewrite !crlf_insert_not_ascii by byte_lia. auto with rust.
  - rewrite !crlf_insert_not_ascii by byte_lia. auto with rust.
Qed.

Lemma crlf_remove_utf8 data : utf8 data -> utf8 (crlf_remove data).
Proof.
  induction 1 as [| a s Ha _ IH | | |]; [constructor | | ..].
  - cbn. case_match; auto with rust.
  - rewrite !crlf_remove_not_ascii by byte_lia. auto with rust.
  - rewrite !crlf_remove_not_ascii by byte_lia. auto with rust.
  - rewrite !crlf_remove_not_ascii by byte_lia. auto with rust.
Qed.

(** ** Properties *)

(** C16: Decoding undoes encoding on every payload, whatever mixture of carriage
    returns and line feeds it holds; the decoder always ends in a value, equal
    to the payload with the carriage return before each line feed dropped. *)
Theorem crlf_roundtrip data :
  crlf_decode (crlf_encode data) = Ok data
  /\ crlf_decode data = Ok (crlf_remove data).
Proof.
  rewrite crlf_encode_insert, !crlf_decode_remove. split; [| done].
  f_equal. apply crlf_remove_insert.
Qed.

(** C40: In an encoded payload every line feed follows a carriage return, and
    encoding a decoded payload gives it back exactly when it already was of that
    form; both conversions keep valid UTF-8 valid. *)
Theorem crlf_canonical data :
  crlf_lines (crlf_encode data)
  /\ (forall decoded, crlf_decode data = Ok decoded ->
      crlf_encode decoded = data <-> crlf_lines data)
  /\ (utf8 data -> utf8 (crlf_encode data)
      /\ forall decoded, crlf_decode data = Ok decoded -> utf8 decoded).
Proof.
  rewrite !crlf_lines_ok, crlf_encode_insert, crlf_decode_remove. split_and!.
  - apply crlf_insert_lines.
  - intros decoded [= <-]. rewrite crlf_encode_insert, crlf_lines_ok. apply crlf_insert_remove.
  - intros Hu. split; [by apply crlf_insert_utf8 |].
    intros decoded [= <-]. by apply crlf_remove_utf8.
Qed.

(** C24: [decrypted_text] returns a text exactly when the literal packet was
    marked text or Unicode and the payload, converted if asked, is valid UTF-8
    without a NUL byte; the text is that payload.  Otherwise it is an SQL error,
    in the order format, NUL, UTF-8, and never a panic. *)
Theorem decrypted_text_spec data format options :
  let text := text_of options data in
  let marked := format = LITERAL_TEXT \/ format = LITERAL_UNICODE in
  (forall s, decrypted_text data format options = Ok s
     <-> marked /\ s = text /\ (NUL ∉ text) /\ utf8 text)
  /\ (~ marked -> decrypted_text data format options
        = Err (PgError (lit "decrypted OpenPGP data is not text")))
  /\ (marked -> NUL ∈ text -> decrypted_text data format options
        = Err (PgError (lit "decrypted text contains a NUL byte")))
  /\ (marked -> NUL ∉ text -> ~ utf8 text -> exists detail,
        decrypted_text data format options
          = Err (PgError (lit "decrypted data is not valid UTF-8: " ++ detail))).
Proof.
  intros text marked. unfold decrypted_text.
  assert ((if decrypt_convert_crlf options then crlf_decode data else Ok data) = Ok text) as ->.
  { subst text. unfold text_of. destruct (decrypt_convert_crlf options); [| done].
    apply crlf_decode_remove. }
  cbn [mbind result_bind].
  assert (((format =? LITERAL_TEXT) || (format =? LITERAL_UNICODE))%N = bool_decide marked) as ->.
  { subst marked. apply eq_true_iff_eq. rewrite bool_decide_eq_true, orb_true_iff, !N.eqb_eq. done. }
  case_bool_decide as Hm; cbn [negb]; [| naive_solver].
  unfold contains_byte. case_bool_decide as Hn; [naive_solver |].
  destruct (from_utf8 text) as [t | e] eqn:E; cbn [unwrap_or_else].
  - apply from_utf8_Ok in E as [-> Hu]. naive_solver.
  - assert (~ utf8 text) as Hu.
    { intros Hu. by rewrite (proj2 (from_utf8_Ok text text)) in E. }
    split_and!; naive_solver.
Qed.

(** ** Witnesses *)

Lemma crlf_canonical_witness : utf8 (crlf_encode (lit "a")).
Proof.
  destruct (crlf_canonical (lit "a")) as (_ & _ & Hu).
  exact (proj1 (Hu (utf8_one "a"%byte [] eq_refl utf8_nil))).
Defined.

Lemma decrypted_text_spec_witness :
  decrypted_text (lit "binary") LITERAL_BINARY {| decrypt_convert_crlf := true |}
    = Err (PgError (lit "decrypted OpenPGP data is not text")).
Proof.
  destruct (decrypted_text_spec (lit "binary") LITERAL_BINARY {| decrypt_convert_crlf := true |})
    as (_ & Hf & _).
  apply Hf. intros [H | H]; discriminate H.
Defined.
