(* ===== verification/Modern.v ===== *)
(** * The modern authenticated API ([src/modern.rs])

    [dryoc]'s primitives are the class [Dryoc] and the [hkdf] crate is the class
    [HkdfCrate].  The model is the code around them: the size checks, the
    assembly of the envelopes and the slices that take them apart. *)
From stdpp Require Import base tactics list numbers option strings.
From Stdlib Require Import Strings.Byte.
From S2P Require Import Prelude RustStr Random Hash.

(** ** The crates the code calls *)

(** The constants of [dryoc::constants] the code names, and the sizes of the
    array types it converts to. *)
Class DryocSizes := {
  CRYPTO_AEAD_KEYBYTES : nat;
  CRYPTO_SECRETBOX_KEYBYTES : nat;
  CRYPTO_SECRETBOX_NONCEBYTES : nat;
  CRYPTO_SECRETBOX_MACBYTES : nat;
  CRYPTO_BOX_PUBLICKEYBYTES : nat;
  CRYPTO_BOX_SECRETKEYBYTES : nat;
  CRYPTO_BOX_MACBYTES : nat;
  CRYPTO_BOX_SEALBYTES : nat;
  CRYPTO_SIGN_BYTES : nat;
  CRYPTO_SIGN_PUBLICKEYBYTES : nat;
  CRYPTO_SIGN_SECRETKEYBYTES : nat;
}.

(** Operations that take a [W] draw from the generators. *)
Class Dryoc (W : Type) := {
  (* Argon2id *)
  pw_hash : Type;
  hash_with_defaults : bytes -> try W pw_hash;
  to_encoded_string : pw_hash -> fallible bytes;
  from_string_with_defaults : bytes -> fallible pw_hash;
  pw_verify : pw_hash -> bytes -> fallible unit;
  (* XChaCha20-Poly1305 *)
  aead_envelope : Type;
  seal_to_vec : bytes -> option bytes -> bytes -> try W aead_envelope;
  envelope_into_vec : aead_envelope -> bytes;
  envelope_from_bytes : bytes -> fallible aead_envelope;
  open_to_vec : aead_envelope -> option bytes -> bytes -> fallible bytes;
  (* secretbox *)
  secret_box : Type;
  nonce_generate : W -> bytes * W;
  encrypt_to_vecbox : bytes -> bytes -> bytes -> secret_box;
  secret_box_to_vec : secret_box -> bytes;
  secret_box_from_bytes : bytes -> fallible secret_box;
  decrypt_to_vec : secret_box -> bytes -> bytes -> fallible bytes;
  (* sealed box *)
  vec_box : Type;
  seal_to_vecbox : bytes -> bytes -> try W vec_box;
  vec_box_to_bytes : vec_box -> bytes;
  new_with_epk_data_and_mac : bytes -> bytes -> bytes -> vec_box;
  unseal_to_vec : vec_box -> bytes * bytes -> fallible bytes;
  (* Ed25519 *)
  signed_message : Type;
  secret_key_to_public_key : bytes -> bytes;
  sign_with_defaults : bytes * bytes -> bytes -> fallible signed_message;
  signed_to_vec : signed_message -> bytes;
  signed_from_bytes : bytes -> fallible signed_message;
  signed_verify : signed_message -> bytes -> fallible unit;
  (* X25519: writes the shared secret over the buffer *)
  crypto_scalarmult : bytes -> bytes -> bytes -> fallible bytes;
}.

(** [SimpleHkdf::<H>]: extract, then expand over the buffer ([None] is
    [InvalidLength]). *)
Class HkdfCrate := {
  hkdf_state : Type;
  hkdf_new : hash_ty -> option bytes -> bytes -> hkdf_state;
  hkdf_expand : hkdf_state -> bytes -> bytes -> option bytes;
}.

(** ** Operations *)

Definition crypto_error {A} (context : string) (error : bytes) : outcome A :=
  pg_error (lit context ++ lit ": " ++ error).

(** A fixed-size array from a slice of exactly that length. *)
Definition exact_array (N : nat) (input : bytes) (what : string) : outcome bytes :=
  if (length input =? N)%nat then Ok input
  else pg_error (lit what ++ lit " must be exactly " ++ dec (N.of_nat N) ++ lit " bytes").

Definition validate_hkdf_length (length : Z) : outcome bytes :=
  if negb (contains_Z 1 16320 length)
  then pg_error (lit "HKDF output length must be between 1 and 16320 bytes")
  else
    n ← usize_try_from length;
    Ok (replicate n "000"%byte).

Section operations.
Context {W : Type} `{DryocSizes} `{Dryoc W} `{HkdfCrate}.

Definition argon2id_hash (password : bytes) : rand W bytes :=
  hash ← or_fail (hash_with_defaults password) (crypto_error "Argon2id hashing failed");
  lift (unwrap_or_else (to_encoded_string hash) (crypto_error "Argon2id encoding failed")).

Definition argon2id_verify (password encoded_hash : bytes) : bool :=
  is_ok (hash ← from_string_with_defaults encoded_hash; pw_verify hash password).

Definition xchacha20poly1305_encrypt (data key associated_data : bytes) : rand W bytes :=
  key ← lift (exact_array CRYPTO_AEAD_KEYBYTES key "XChaCha20-Poly1305 key");
  envelope ← or_fail (seal_to_vec data (Some associated_data) key)
               (crypto_error "XChaCha20-Poly1305 encryption failed");
  mret (envelope_into_vec envelope).

Definition xchacha20poly1305_decrypt (data key associated_data : bytes) : outcome bytes :=
  key ← exact_array CRYPTO_AEAD_KEYBYTES key "XChaCha20-Poly1305 key";
  envelope ← unwrap_or_else (envelope_from_bytes data)
               (crypto_error "invalid XChaCha20-Poly1305 envelope");
  unwrap_or_else (open_to_vec envelope (Some associated_data) key)
    (crypto_error "XChaCha20-Poly1305 authentication failed").

Definition secretbox (data key : bytes) : rand W bytes :=
  key ← lift (exact_array CRYPTO_SECRETBOX_KEYBYTES key "secretbox key");
  nonce ← (fun w => let '(nonce, w') := nonce_generate w in (Ok nonce, w')) : rand W bytes;
  let encrypted := encrypt_to_vecbox data nonce key in
  mret (nonce ++ secret_box_to_vec encrypted).

Definition secretbox_open (data key : bytes) : outcome bytes :=
  if (length data <? CRYPTO_SECRETBOX_NONCEBYTES + CRYPTO_SECRETBOX_MACBYTES)%nat
  then pg_error (lit "secretbox envelope is too short")
  else
    key ← exact_array CRYPTO_SECRETBOX_KEYBYTES key "secretbox key";
    front ← slice data 0 CRYPTO_SECRETBOX_NONCEBYTES;
    nonce ← exact_array CRYPTO_SECRETBOX_NONCEBYTES front "secretbox nonce";
    rest ← slice data CRYPTO_SECRETBOX_NONCEBYTES (length data);
    box ← unwrap_or_else (secret_box_from_bytes rest) (crypto_error "invalid secretbox envelope");
    unwrap_or_else (decrypt_to_vec box nonce key) (crypto_error "secretbox authentication failed").

Definition box_seal (data recipient_public_key : bytes) : rand W bytes :=
  public_key ← lift (exact_array CRYPTO_BOX_PUBLICKEYBYTES recipient_public_key "X25519 public key");
  box ← or_fail (seal_to_vecbox data public_key) (crypto_error "sealed-box encryption failed");
  mret (vec_box_to_bytes box).

Definition box_seal_open (data recipient_public_key recipient_secret_key : bytes)
    : outcome bytes :=
  if (length data <? CRYPTO_BOX_SEALBYTES)%nat
  then pg_error (lit "sealed box is too short")
  else
    public_key ← exact_array CRYPTO_BOX_PUBLICKEYBYTES recipient_public_key "X25519 public key";
    secret_key ← exact_array CRYPTO_BOX_SECRETKEYBYTES recipient_secret_key "X25519 secret key";
    epk ← slice data 0 CRYPTO_BOX_PUBLICKEYBYTES;
    ephemeral_public_key ←
      exact_array CRYPTO_BOX_PUBLICKEYBYTES epk "sealed-box ephemeral public key";
    tag ← slice data CRYPTO_BOX_PUBLICKEYBYTES CRYPTO_BOX_SEALBYTES;
    mac ← exact_array CRYPTO_BOX_MACBYTES tag "sealed-box MAC";
    rest ← slice data CRYPTO_BOX_SEALBYTES (length data);
    unwrap_or_else
      (unseal_to_vec (new_with_epk_data_and_mac ephemeral_public_key mac rest)
         (public_key, secret_key))
      (crypto_error "sealed-box authentication failed").

Definition ed25519_sign (data secret_key : bytes) : outcome bytes :=
  secret_key ← exact_array CRYPTO_SIGN_SECRETKEYBYTES secret_key "Ed25519 secret key";
  let public_key := secret_key_to_public_key secret_key in
  signed ← unwrap_or_else (sign_with_defaults (public_key, secret_key) data)
             (crypto_error "Ed25519 signing failed");
  slice (signed_to_vec signed) 0 CRYPTO_SIGN_BYTES.

Definition ed25519_verify (data signature public_key : bytes) : outcome bool :=
  signature ← exact_array CRYPTO_SIGN_BYTES signature "Ed25519 signature";
  public_key ← exact_array CRYPTO_SIGN_PUBLICKEYBYTES public_key "Ed25519 public key";
  let signed := signature ++ data in
  Ok (is_ok (message ← signed_from_bytes signed; signed_verify message public_key)).

Definition x25519 (secret_key public_key : bytes) : outcome bytes :=
  secret ← exact_array CRYPTO_BOX_SECRETKEYBYTES secret_key "X25519 secret key";
  public ← exact_array CRYPTO_BOX_PUBLICKEYBYTES public_key "X25519 public key";
  let shared := replicate CRYPTO_BOX_SECRETKEYBYTES "000"%byte in
  unwrap_or_else (crypto_scalarmult shared secret public)
    (crypto_error "X25519 key agreement failed").

Definition hkdf_sha256 (key_material salt info : bytes) (length : Z) : outcome bytes :=
  output ← validate_hkdf_length length;
  ok_or_else (hkdf_expand (hkdf_new Sha256 (Some salt) key_material) info output)
    (pg_error (lit "HKDF-SHA256 output length is too large")).

Definition hkdf_sha512 (key_material salt info : bytes) (length : Z) : outcome bytes :=
  output ← validate_hkdf_length length;
  ok_or_else (hkdf_expand (hkdf_new Sha512 (Some salt) key_material) info output)
    (pg_error (lit "HKDF-SHA512 output length is too large")).

End operations.

(** ** Specification *)

(** The sizes libsodium documents. *)
Class DryocSizesLaws `{DryocSizes} : Prop := {
  aead_key_32 : CRYPTO_AEAD_KEYBYTES = 32%nat;
  secretbox_key_32 : CRYPTO_SECRETBOX_KEYBYTES = 32%nat;
  secretbox_nonce_24 : CRYPTO_SECRETBOX_NONCEBYTES = 24%nat;
  secretbox_mac_16 : CRYPTO_SECRETBOX_MACBYTES = 16%nat;
  box_public_32 : CRYPTO_BOX_PUBLICKEYBYTES = 32%nat;
  box_secret_32 : CRYPTO_BOX_SECRETKEYBYTES = 32%nat;
  box_mac_16 : CRYPTO_BOX_MACBYTES = 16%nat;
  box_seal_48 : CRYPTO_BOX_SEALBYTES = 48%nat;
  sign_64 : CRYPTO_SIGN_BYTES = 64%nat;
  sign_public_32 : CRYPTO_SIGN_PUBLICKEYBYTES = 32%nat;
  sign_secret_64 : CRYPTO_SIGN_SECRETKEYBYTES = 64%nat;
}.

(** Documented behaviour of the primitives: what is sealed opens again with the
    matching key, and the layouts of the serialised forms.  [box_keypair pk sk]
    says that a Curve25519 public and secret key belong together. *)
Class DryocLaws (W : Type) `{DryocSizes} `{Dryoc W} (box_keypair : bytes -> bytes -> Prop)
    : Prop := {
  argon_law password w h w' encoded :
    hash_with_defaults password w = (Ok h, w') -> to_encoded_string h = Ok encoded ->
    exists h', from_string_with_defaults encoded = Ok h' /\ pw_verify h' password = Ok tt;
  aead_law data ad key w e w' :
    length key = CRYPTO_AEAD_KEYBYTES -> seal_to_vec data ad key w = (Ok e, w') ->
    exists e', envelope_from_bytes (envelope_into_vec e) = Ok e' /\ open_to_vec e' ad key = Ok data;
  nonce_length w : length (fst (nonce_generate w)) = CRYPTO_SECRETBOX_NONCEBYTES;
  secretbox_length data nonce key :
    length (secret_box_to_vec (encrypt_to_vecbox data nonce key))
      = (CRYPTO_SECRETBOX_MACBYTES + length data)%nat;
  secretbox_law data nonce key :
    length nonce = CRYPTO_SECRETBOX_NONCEBYTES -> length key = CRYPTO_SECRETBOX_KEYBYTES ->
    exists b, secret_box_from_bytes (secret_box_to_vec (encrypt_to_vecbox data nonce key)) = Ok b
              /\ decrypt_to_vec b nonce key = Ok data;
  sealed_box_law data pk w b w' :
    length pk = CRYPTO_BOX_PUBLICKEYBYTES -> seal_to_vecbox data pk w = (Ok b, w') ->
    exists epk mac ct, vec_box_to_bytes b = epk ++ mac ++ ct
      /\ length epk = CRYPTO_BOX_PUBLICKEYBYTES /\ length mac = CRYPTO_BOX_MACBYTES
      /\ length ct = length data
      /\ forall sk, box_keypair pk sk ->
         unseal_to_vec (new_with_epk_data_and_mac epk mac ct) (pk, sk) = Ok data;
  scalarmult_length buffer sk pk shared :
    crypto_scalarmult buffer sk pk = Ok shared -> length shared = length buffer;
}.

(** Documented behaviour of Ed25519 signatures.  [sign_keypair pk sk] says that the
    two were generated together: [sk] is a seed followed by the public key [pk] of
    that seed.  Only then is a signature known to verify; a 64-byte string whose
    halves do not belong together is a secret key of no public one.  A signed
    message is the signature and then the data ([signed_layout], for any key the
    crate signs with); parsing splits it and fails only on input shorter than a
    signature; and verification depends on the message's bytes. *)
Class SignLaws (W : Type) `{DryocSizes} `{Dryoc W} (sign_keypair : bytes -> bytes -> Prop)
    : Prop := {
  sign_keypair_sizes pk sk :
    sign_keypair pk sk ->
    length pk = CRYPTO_SIGN_PUBLICKEYBYTES /\ length sk = CRYPTO_SIGN_SECRETKEYBYTES;
  sign_keypair_public pk sk : sign_keypair pk sk -> secret_key_to_public_key sk = pk;
  sign_keypair_signs pk sk data :
    sign_keypair pk sk -> exists s, sign_with_defaults (pk, sk) data = Ok s;
  signed_layout keys data s :
    sign_with_defaults keys data = Ok s ->
    exists signature, signed_to_vec s = signature ++ data
                      /\ length signature = CRYPTO_SIGN_BYTES;
  signed_parse input :
    (CRYPTO_SIGN_BYTES <= length input)%nat ->
    exists m, signed_from_bytes input = Ok m /\ signed_to_vec m = input;
  signed_parse_short input :
    (length input < CRYPTO_SIGN_BYTES)%nat -> exists e, signed_from_bytes input = Err e;
  sign_keypair_verifies pk sk data s m :
    sign_keypair pk sk -> sign_with_defaults (pk, sk) data = Ok s ->
    signed_to_vec m = signed_to_vec s -> signed_verify m pk = Ok tt;
}.

(** RFC 5869: the output is at most 255 hash blocks. *)
Class HkdfLaws `{HkdfCrate} : Prop := {
  expand_ok h salt ikm info buffer :
    h = Sha256 \/ h = Sha512 -> (length buffer <= 255 * output_size h)%nat ->
    exists out, hkdf_expand (hkdf_new h salt ikm) info buffer = Some out
                /\ length out = length buffer;
  expand_too_long h salt ikm info buffer :
    h = Sha256 \/ h = Sha512 -> (255 * output_size h < length buffer)%nat ->
    hkdf_expand (hkdf_new h salt ikm) info buffer = None;
}.

(** ** A concrete instance, for the witnesses *)
Module Toy.

#[export] Instance sizes : DryocSizes := {|
  CRYPTO_AEAD_KEYBYTES := 32; CRYPTO_SECRETBOX_KEYBYTES := 32;
  CRYPTO_SECRETBOX_NONCEBYTES := 24; CRYPTO_SECRETBOX_MACBYTES := 16;
  CRYPTO_BOX_PUBLICKEYBYTES := 32; CRYPTO_BOX_SECRETKEYBYTES := 32;
  CRYPTO_BOX_MACBYTES := 16; CRYPTO_BOX_SEALBYTES := 48; CRYPTO_SIGN_BYTES := 64;
  CRYPTO_SIGN_PUBLICKEYBYTES := 32; CRYPTO_SIGN_SECRETKEYBYTES := 64;
|}.

#[export] Instance sizes_laws : DryocSizesLaws.
Proof. by split. Qed.

Definition zeros (n : nat) : bytes := replicate n "000"%byte.

(** The public key of a seed is the seed reversed; a signature shows the seed, so
    it verifies under the public key of the seed only. *)
Definition signature_of (sk : bytes) : bytes := take 64 (take 32 sk ++ zeros 64).

Definition sign_keypair (pk sk : bytes) : Prop :=
  length pk = 32%nat /\ sk = rev pk ++ pk.

(** Nothing is hidden: tags are zeros and the plaintext is stored. *)
#[export] Instance dryoc : Dryoc N := {|
  pw_hash := bytes;
  hash_with_defaults password w := (Ok password, (w + 1)%N);
  to_encoded_string h := Ok h;
  from_string_with_defaults encoded := Ok encoded;
  pw_verify h password := if bool_decide (h = password) then Ok tt else Err (lit "mismatch");
  aead_envelope := bytes;
  seal_to_vec data _ _ w := (Ok (zeros 40 ++ data), (w + 1)%N);
  envelope_into_vec e := e;
  envelope_from_bytes data := if (length data <? 40)%nat then Err (lit "short") else Ok data;
  open_to_vec e _ _ := Ok (drop 40 e);
  secret_box := bytes;
  nonce_generate w := Random.Toy.draw 24 w;
  encrypt_to_vecbox data _ _ := zeros 16 ++ data;
  secret_box_to_vec b := b;
  secret_box_from_bytes data := if (length data <? 16)%nat then Err (lit "short") else Ok data;
  decrypt_to_vec b _ _ := Ok (drop 16 b);
  vec_box := bytes * bytes * bytes;
  seal_to_vecbox data _ w := (Ok (zeros 32, zeros 16, data), (w + 1)%N);
  vec_box_to_bytes b := b.1.1 ++ b.1.2 ++ b.2;
  new_with_epk_data_and_mac epk mac data := (epk, mac, data);
  unseal_to_vec b _ := Ok b.2;
  signed_message := bytes;
  secret_key_to_public_key sk := drop 32 sk;
  sign_with_defaults keys data := Ok (signature_of (snd keys) ++ data);
  signed_to_vec s := s;
  signed_from_bytes data := if (length data <? 64)%nat then Err (lit "short") else Ok data;
  signed_verify s pk :=
    if bool_decide (take 32 s = rev pk /\ take 32 (drop 32 s) = zeros 32)
    then Ok tt else Err (lit "bad");
  crypto_scalarmult buffer _ _ := Ok buffer;
|}.

Lemma zeros_length n : length (zeros n) = n.
Proof. apply length_replicate. Qed.

Lemma drop_zeros n data : drop n (zeros n ++ data) = data.
Proof. unfold zeros. apply drop_app_length'. by rewrite length_replicate. Qed.

Lemma take_zeros n data : take n (zeros n ++ data) = zeros n.
Proof. unfold zeros. apply take_app_length'. by rewrite length_replicate. Qed.

Lemma not_short n data : (length (zeros n ++ data) <? n)%nat = false.
Proof. unfold zeros. apply Nat.ltb_ge. rewrite length_app, length_replicate. lia. Qed.

#[local] Opaque zeros.

#[export] Instance dryoc_laws : DryocLaws N (fun _ _ => True).
Proof.
  split; cbn -[Nat.ltb].
  - intros password w h w' encoded [= <- <-] [= <-]. eexists. split; [done |].
    by rewrite bool_decide_true.
  - intros data ad key w e w' _ [= <- <-]. rewrite not_short.
    eexists. split; [done |]. by rewrite drop_zeros.
  - done.
  - intros data _ _. by rewrite length_app, zeros_length.
  - intros data nonce key _ _. rewrite not_short. eexists. split; [done |]. by rewrite drop_zeros.
  - intros data pk w b w' _ [= <- <-]. exists (zeros 32), (zeros 16), data.
    by rewrite !zeros_length.
  - intros buffer sk pk shared [= <-]. done.
Qed.

Lemma signature_of_length sk : length (signature_of sk) = 64%nat.
Proof. unfold signature_of. rewrite length_take, length_app, zeros_length. lia. Qed.

Lemma signature_of_pair pk : length pk = 32%nat -> signature_of (rev pk ++ pk) = rev pk ++ zeros 32.
Proof.
  intros Hp. unfold signature_of. rewrite (take_app_length' (rev pk)) by by rewrite length_rev.
  rewrite take_app_ge, length_rev, Hp by (rewrite length_rev; lia).
  reflexivity.
Qed.

#[export] Instance sign_laws : SignLaws N sign_keypair.
Proof.
  split; cbn -[Nat.ltb signature_of take drop].
  - intros pk sk [Hp ->]. split; [done |]. rewrite length_app, length_rev. lia.
  - intros pk sk [Hp ->]. apply drop_app_length'. by rewrite length_rev.
  - eauto.
  - intros keys data s [= <-]. eexists. split; [done | apply signature_of_length].
  - intros input Hi. rewrite (proj2 (Nat.ltb_ge _ _)) by done. eauto.
  - intros input Hi. rewrite (proj2 (Nat.ltb_lt _ _)) by done. eauto.
  - intros pk sk data s m [Hp ->] [= <-] ->. rewrite signature_of_pair by done.
    rewrite <- app_assoc, bool_decide_true; [done |].
    destruct (take_prefix_app (rev pk) (zeros 32 ++ data) 32) as [-> ->];
      [by rewrite length_rev |]. by rewrite take_zeros.
Qed.

#[export] Instance hkdf : HkdfCrate := {|
  hkdf_state := hash_ty;
  hkdf_new h _ _ := h;
  hkdf_expand h _ buffer :=
    if (length buffer <=? 255 * output_size h)%nat then Some buffer else None;
|}.

#[export] Instance hkdf_laws : HkdfLaws.
Proof.
  split; intros h salt ikm info buffer _ Hl; cbn -[Nat.mul].
  - rewrite (proj2 (Nat.leb_le _ _)) by done. eauto.
  - by rewrite (proj2 (Nat.leb_gt _ _)).
Qed.

End Toy.

(** ** Lemmas *)

Lemma exact_array_Ok N input what : length input = N -> exact_array N input what = Ok input.
Proof. intros H. unfold exact_array. by rewrite (proj2 (Nat.eqb_eq _ _) H). Qed.

Lemma exact_array_bad N input what :
  length input <> N ->
  exact_array N input what
    = Err (PgError (lit what ++ lit " must be exactly " ++ dec (N.of_nat N) ++ lit " bytes")).
Proof. intros H. unfold exact_array. by rewrite (proj2 (Nat.eqb_neq _ _) H). Qed.

Lemma exact_array_no_panic N input what : no_panic (exact_array N input what).
Proof. unfold exact_array. solve_no_panic. Qed.

Lemma slice_no_panic data lo hi :
  (lo <= hi)%nat -> (hi <= length data)%nat -> no_panic (slice data lo hi).
Proof. intros. rewrite slice_Ok by done. apply no_panic_Ok. Qed.

Lemma validate_hkdf_length_spec n :
  validate_hkdf_length n =
    if contains_Z 1 16320 n then Ok (replicate (Z.to_nat n) "000"%byte)
    else Err (PgError (lit "HKDF output length must be between 1 and 16320 bytes")).
Proof.
  unfold validate_hkdf_length. destruct (contains_Z 1 16320 n) eqn:E; [| done].
  apply contains_Z_true in E. cbn [negb]. by rewrite usize_try_from_Ok by lia.
Qed.

#[export] Hint Resolve exact_array_no_panic : rust.

(** Rewrites the crate's constants to the documented sizes. *)
Ltac sizes :=
  rewrite ?aead_key_32, ?secretbox_key_32, ?secretbox_nonce_24, ?secretbox_mac_16,
    ?box_public_32, ?box_secret_32, ?box_mac_16, ?box_seal_48, ?sign_64, ?sign_public_32,
    ?sign_secret_64 in *.

Ltac run_binds := cbn [mbind mret stateful_bind stateful_ret result_bind result_ret
  lift or_fail unwrap_or_else ok_or_else].

Section properties.
Context {W : Type} {box_keypair : bytes -> bytes -> Prop}.
Context {sign_keypair : bytes -> bytes -> Prop}.
Context `{DryocSizesLaws} `{Dryoc W} `{!DryocLaws W box_keypair}.
Context `{!SignLaws W sign_keypair} `{HkdfLaws}.

(** The two halves of a secretbox envelope. *)
Lemma secretbox_open_parts nonce sealed key b data :
  length nonce = 24%nat -> (16 <= length sealed)%nat -> length key = 32%nat ->
  secret_box_from_bytes sealed = Ok b -> decrypt_to_vec b nonce key = Ok data ->
  secretbox_open (nonce ++ sealed) key = Ok data.
Proof.
  intros Hn Hs Hk Hb Hd. unfold secretbox_open. sizes.
  rewrite (proj2 (Nat.ltb_ge _ _)) by (rewrite length_app; lia).
  rewrite exact_array_Ok by done. run_binds.
  rewrite slice_app_l by done. run_binds. rewrite exact_array_Ok by done. run_binds.
  rewrite slice_app_r by (rewrite ?length_app; lia). run_binds.
  rewrite Hb. run_binds. by rewrite Hd.
Qed.

(** C18: With a 32-byte key [secretbox] always succeeds, with an envelope of the
    fresh 24-byte nonce, 16 bytes of tag and a ciphertext of the data's length,
    which [secretbox_open] opens to the data under the same key; with any other
    key size it is an error before a nonce is drawn. *)
Theorem secretbox_roundtrip data key w :
  (length key = 32%nat -> exists out w',
     secretbox data key w = (Ok out, w')
     /\ length out = (24 + 16 + length data)%nat
     /\ take 24 out = fst (nonce_generate w)
     /\ secretbox_open out key = Ok data)
  /\ (length key <> 32%nat ->
      secretbox data key w
        = (Err (PgError (lit "secretbox key must be exactly 32 bytes")), w)).
Proof.
  unfold secretbox. sizes. split; intros Hk.
  - pose proof (nonce_length (box_keypair := box_keypair) w) as Hn. sizes.
    rewrite exact_array_Ok by done. unfold mbind, stateful_bind, lift.
    destruct (nonce_generate w) as [nonce w']. cbn [fst] in Hn.
    pose proof (secretbox_length (box_keypair := box_keypair) data nonce key) as Hl. sizes.
    destruct (secretbox_law (box_keypair := box_keypair) data nonce key) as (b & Hb & Hd);
      [by sizes.. |].
    eexists _, w'. split; [done |]. split_and!.
    + rewrite length_app. lia.
    + cbn [fst]. by apply take_prefix_app.
    + eapply secretbox_open_parts; eauto. lia.
  - rewrite exact_array_bad by done. reflexivity.
Qed.

(** Taking the three parts of a sealed box apart. *)
Lemma box_seal_open_parts epk mac ct pk sk data :
  length epk = 32%nat -> length mac = 16%nat -> length pk = 32%nat -> length sk = 32%nat ->
  unseal_to_vec (new_with_epk_data_and_mac epk mac ct) (pk, sk) = Ok data ->
  box_seal_open (epk ++ mac ++ ct) pk sk = Ok data.
Proof.
  intros He Hm Hp Hs Hu. unfold box_seal_open. sizes.
  rewrite (proj2 (Nat.ltb_ge _ _)) by (rewrite !length_app; lia).
  rewrite !exact_array_Ok by done. run_binds.
  rewrite slice_app_l by done. run_binds. rewrite exact_array_Ok by done. run_binds.
  rewrite (slice_app_m _ _ _ 32 48) by lia. run_binds. rewrite exact_array_Ok by done. run_binds.
  rewrite (app_assoc epk), slice_app_r by (rewrite ?length_app; lia). run_binds. by rewrite Hu.
Qed.

(** C19: What [box_seal] returns for a 32-byte public key is 48 bytes longer than
    the data, and [box_seal_open] with that public key and a secret key that
    belongs to it returns the data. *)
Theorem sealed_box_roundtrip data pk sk w out w' :
  length pk = 32%nat -> length sk = 32%nat -> box_keypair pk sk ->
  box_seal data pk w = (Ok out, w') ->
  length out = (48 + length data)%nat /\ box_seal_open out pk sk = Ok data.
Proof.
  unfold box_seal. sizes. intros Hp Hs Hpair. rewrite exact_array_Ok by done.
  unfold mbind, stateful_bind, lift, or_fail, unwrap_or_else.
  destruct (seal_to_vecbox data pk w) as [[b | e] w1] eqn:E; intros Ho; [| done].
  destruct (sealed_box_law (box_keypair := box_keypair) data pk w b w1)
    as (epk & mac & ct & Hb & He & Hm & Hc & Hu); [by sizes | done |].
  sizes. unfold mret, stateful_ret in Ho. rewrite Hb in Ho. injection Ho as <- _.
  split; [rewrite !length_app; lia |]. apply box_seal_open_parts; auto.
Qed.

Lemma secretbox_open_checks data key :
  no_panic (secretbox_open data key)
  /\ ((length data < 40)%nat ->
      secretbox_open data key = Err (PgError (lit "secretbox envelope is too short")))
  /\ ((40 <= length data)%nat -> length key <> 32%nat ->
      secretbox_open data key = Err (PgError (lit "secretbox key must be exactly 32 bytes"))).
Proof.
  unfold secretbox_open. sizes. split_and!.
  - destruct (Nat.ltb_spec (length data) (24 + 16)); [apply no_panic_error |].
    apply no_panic_bind; [auto with rust | intros k _].
    apply no_panic_bind; [apply slice_no_panic; lia | intros front _].
    apply no_panic_bind; [auto with rust | intros nonce _].
    apply no_panic_bind; [apply slice_no_panic; lia | intros rest _].
    apply no_panic_bind; [apply no_panic_unwrap | intros b _]. apply no_panic_unwrap.
  - intros Hd. by rewrite (proj2 (Nat.ltb_lt _ _)).
  - intros Hd Hk. rewrite (proj2 (Nat.ltb_ge _ _)) by done. by rewrite exact_array_bad.
Qed.

Lemma box_seal_open_checks data pk sk :
  no_panic (box_seal_open data pk sk)
  /\ ((length data < 48)%nat ->
      box_seal_open data pk sk = Err (PgError (lit "sealed box is too short")))
  /\ ((48 <= length data)%nat -> length pk <> 32%nat ->
      box_seal_open data pk sk
        = Err (PgError (lit "X25519 public key must be exactly 32 bytes")))
  /\ ((48 <= length data)%nat -> length pk = 32%nat -> length sk <> 32%nat ->
      box_seal_open data pk sk
        = Err (PgError (lit "X25519 secret key must be exactly 32 bytes"))).
Proof.
  unfold box_seal_open. sizes. split_and!.
  - destruct (Nat.ltb_spec (length data) 48); [apply no_panic_error |].
    apply no_panic_bind; [auto with rust | intros p _].
    apply no_panic_bind; [auto with rust | intros s _].
    apply no_panic_bind; [apply slice_no_panic; lia | intros front _].
    apply no_panic_bind; [auto with rust | intros epk _].
    apply no_panic_bind; [apply slice_no_panic; lia | intros tag _].
    apply no_panic_bind; [auto with rust | intros mac _].
    apply no_panic_bind; [apply slice_no_panic; lia | intros rest _]. apply no_panic_unwrap.
  - intros Hd. by rewrite (proj2 (Nat.ltb_lt _ _)).
  - intros Hd Hk. rewrite (proj2 (Nat.ltb_ge _ _)) by done. by rewrite (exact_array_bad _ pk).
  - intros Hd Hp Hk. rewrite (proj2 (Nat.ltb_ge _ _)) by done.
    rewrite (exact_array_Ok _ pk) by done. run_binds. by rewrite exact_array_bad.
Qed.

(** C33: The functions that open an envelope never panic, whatever they are given:
    every slice is in range once the length check has passed.  An envelope too
    short for its fixed parts (40 bytes for [secretbox_open], 48 for
    [box_seal_open]) is reported before the keys are looked at, then the keys by
    their sizes, the public one first. *)
Theorem open_checks data pk sk :
  (no_panic (secretbox_open data sk) /\ no_panic (box_seal_open data pk sk))
  /\ ((length data < 40)%nat ->
      secretbox_open data sk = Err (PgError (lit "secretbox envelope is too short")))
  /\ ((40 <= length data)%nat -> length sk <> 32%nat ->
      secretbox_open data sk = Err (PgError (lit "secretbox key must be exactly 32 bytes")))
  /\ ((length data < 48)%nat ->
      box_seal_open data pk sk = Err (PgError (lit "sealed box is too short")))
  /\ ((48 <= length data)%nat -> length pk <> 32%nat ->
      box_seal_open data pk sk
        = Err (PgError (lit "X25519 public key must be exactly 32 bytes")))
  /\ ((48 <= length data)%nat -> length pk = 32%nat -> length sk <> 32%nat ->
      box_seal_open data pk sk
        = Err (PgError (lit "X25519 secret key must be exactly 32 bytes"))).
Proof.
  destruct (secretbox_open_checks data sk) as (? & ? & ?).
  destruct (box_seal_open_checks data pk sk) as (? & ? & ? & ?). by split_and!.
Qed.

(** A 64-byte secret key is signed with or refused by the crate. *)
Lemma ed25519_sign_eq data sk :
  length sk = 64%nat ->
  match sign_with_defaults (secret_key_to_public_key sk, sk) data with
  | Ok s => exists signature, ed25519_sign data sk = Ok signature
      /\ length signature = 64%nat /\ signed_to_vec s = signature ++ data
  | Err e => ed25519_sign data sk = Err (PgError (lit "Ed25519 signing failed: " ++ e))
  end.
Proof.
  intros Hs. unfold ed25519_sign. sizes. rewrite exact_array_Ok by done. run_binds.
  destruct (sign_with_defaults _ data) as [s | e] eqn:E; [| done].
  destruct (signed_layout (sign_keypair := sign_keypair) _ _ _ E) as (signature & Hv & Hl). sizes.
  exists signature. run_binds. by rewrite Hv, slice_app_l.
Qed.

(** C20: With the 64-byte secret key of a key pair [ed25519_sign] returns the
    64-byte detached signature, which [ed25519_verify] accepts for the same data
    under the public key of the pair, although the signer is given the secret key
    alone.  With any secret key [ed25519_sign] does not panic, and with one of
    another size it is an error.  For operands of the right sizes
    [ed25519_verify] always answers; a wrong size is an error, the signature's
    reported first. *)
Theorem ed25519_roundtrip data sk :
  (forall pk, sign_keypair pk sk -> exists signature,
     ed25519_sign data sk = Ok signature /\ length signature = 64%nat
     /\ ed25519_verify data signature pk = Ok true)
  /\ no_panic (ed25519_sign data sk)
  /\ (length sk <> 64%nat ->
      ed25519_sign data sk = Err (PgError (lit "Ed25519 secret key must be exactly 64 bytes")))
  /\ (forall signature pk, length signature = 64%nat -> length pk = 32%nat ->
      exists answer, ed25519_verify data signature pk = Ok answer)
  /\ (forall signature pk, length signature <> 64%nat ->
      ed25519_verify data signature pk
        = Err (PgError (lit "Ed25519 signature must be exactly 64 bytes")))
  /\ (forall signature pk, length signature = 64%nat -> length pk <> 32%nat ->
      ed25519_verify data signature pk
        = Err (PgError (lit "Ed25519 public key must be exactly 32 bytes"))).
Proof.
  assert (length sk <> 64%nat ->
    ed25519_sign data sk = Err (PgError (lit "Ed25519 secret key must be exactly 64 bytes"))) as Hbad.
  { intros Hs. unfold ed25519_sign. sizes. by rewrite exact_array_bad. }
  unfold ed25519_verify. sizes. split_and!; [| | done | ..].
  - intros pk Hpair. destruct (sign_keypair_sizes pk sk Hpair) as [Hp Hs]. sizes.
    pose proof (ed25519_sign_eq data sk Hs) as Hsign.
    rewrite (sign_keypair_public pk sk Hpair) in Hsign.
    destruct (sign_keypair_signs pk sk data Hpair) as [s E]. rewrite E in Hsign.
    destruct Hsign as (signature & Hok & Hl & Hvec).
    destruct (signed_parse (sign_keypair := sign_keypair) (signature ++ data))
      as (m & Hm & Hbytes); [rewrite length_app; sizes; lia |].
    exists signature. split_and!; [done.. |]. rewrite !exact_array_Ok by done. run_binds.
    rewrite Hm. run_binds.
    by rewrite (sign_keypair_verifies pk sk data s m Hpair E) by by rewrite Hbytes, Hvec.
  - destruct (decide (length sk = 64%nat)) as [Hs | Hs]; [| rewrite Hbad by done; apply no_panic_error].
    pose proof (ed25519_sign_eq data sk Hs) as Hsign.
    destruct (sign_with_defaults _ data) as [s | e].
    + destruct Hsign as (signature & -> & _). apply no_panic_Ok.
    + rewrite Hsign. apply no_panic_error.
  - intros signature pk Hs Hp. rewrite !exact_array_Ok by done. run_binds. eauto.
  - intros signature pk Hs. by rewrite (exact_array_bad _ signature).
  - intros signature pk Hs Hp. rewrite (exact_array_Ok _ signature) by done. run_binds.
    by rewrite (exact_array_bad _ pk).
Qed.

(** An envelope [xchacha20poly1305_encrypt] returns opens to the data with the
    same key and associated data.  A key that is not 32 bytes long is the same
    error on both sides, before the generator is used. *)
Lemma xchacha20poly1305_roundtrip data key ad w :
  (forall out w', xchacha20poly1305_encrypt data key ad w = (Ok out, w') ->
     xchacha20poly1305_decrypt out key ad = Ok data)
  /\ (length key <> 32%nat ->
      let bad := PgError (lit "XChaCha20-Poly1305 key must be exactly 32 bytes") in
      xchacha20poly1305_encrypt data key ad w = (Err bad, w)
      /\ xchacha20poly1305_decrypt data key ad = Err bad).
Proof.
  unfold xchacha20poly1305_encrypt, xchacha20poly1305_decrypt. sizes. split.
  - intros out w'. destruct (decide (length key = 32%nat)) as [Hk | Hk];
      [| by rewrite exact_array_bad].
    rewrite exact_array_Ok by done. unfold mbind, stateful_bind, lift, or_fail, unwrap_or_else.
    destruct (seal_to_vec data (Some ad) key w) as [[e | e] w1] eqn:E; intros Ho; [| done].
    injection Ho as <- _.
    destruct (aead_law (box_keypair := box_keypair) data (Some ad) key w e w1)
      as (e' & Hfrom & Hopen); [by sizes | done |].
    unfold result_bind. by rewrite Hfrom, Hopen.
  - intros Hk. cbv zeta. by rewrite exact_array_bad.
Qed.

(** C22: HKDF-SHA512 succeeds exactly for the lengths from 1 to 16320 its guard
    admits, with that many bytes.  HKDF-SHA256 shares the guard but succeeds
    only up to 8160 = 255 * 32: the lengths from 8161 to 16320 pass the guard and
    are the crate's own error.  Every other length is the guard's error, and the
    conversion of the length never panics. *)
Theorem hkdf_bounds ikm salt info n :
  (1 <= n <= 16320 ->
     exists out, hkdf_sha512 ikm salt info n = Ok out /\ Z.of_nat (length out) = n)%Z
  /\ (1 <= n <= 8160 ->
     exists out, hkdf_sha256 ikm salt info n = Ok out /\ Z.of_nat (length out) = n)%Z
  /\ (8160 < n <= 16320 ->
     hkdf_sha256 ikm salt info n
       = Err (PgError (lit "HKDF-SHA256 output length is too large")))%Z
  /\ (~ 1 <= n <= 16320 ->
     let bad := Err (PgError (lit "HKDF output length must be between 1 and 16320 bytes")) in
     hkdf_sha256 ikm salt info n = bad /\ hkdf_sha512 ikm salt info n = bad)%Z.
Proof.
  unfold hkdf_sha256, hkdf_sha512. rewrite validate_hkdf_length_spec. split_and!; intros Hn.
  - rewrite (proj2 (contains_Z_true _ _ _) Hn). run_binds.
    destruct (expand_ok Sha512 (Some salt) ikm info (replicate (Z.to_nat n) "000"%byte))
      as (out & -> & Hl); [by right | rewrite length_replicate; cbn; lia |].
    rewrite length_replicate in Hl. exists out. split; [done | lia].
  - rewrite (proj2 (contains_Z_true 1 16320 n)) by lia. run_binds.
    destruct (expand_ok Sha256 (Some salt) ikm info (replicate (Z.to_nat n) "000"%byte))
      as (out & -> & Hl); [by left | rewrite length_replicate; cbn; lia |].
    rewrite length_replicate in Hl. exists out. split; [done | lia].
  - rewrite (proj2 (contains_Z_true 1 16320 n)) by lia. run_binds.
    rewrite expand_too_long; [done | by left | rewrite length_replicate; cbn; lia].
  - by rewrite (proj2 (contains_Z_false _ _ _) Hn).
Qed.

End properties.

Import Toy.

Lemma secretbox_roundtrip_witness :
  exists out w', secretbox (lit "hi") (zeros 32) 5%N = (Ok out, w')
    /\ length out = 42%nat /\ take 24 out = fst (nonce_generate 5%N)
    /\ secretbox_open out (zeros 32) = Ok (lit "hi").
Proof. apply (secretbox_roundtrip (box_keypair := fun _ _ => True) (lit "hi") (zeros 32) 5%N). reflexivity. Defined.

Lemma sealed_box_roundtrip_witness :
  length (zeros 48 ++ lit "hi") = 50%nat
  /\ box_seal_open (W := N) (zeros 48 ++ lit "hi") (zeros 32) (zeros 32) = Ok (lit "hi").
Proof.
  exact (sealed_box_roundtrip (box_keypair := fun _ _ => True) (lit "hi") (zeros 32) (zeros 32) 5%N
    (zeros 48 ++ lit "hi") 6%N eq_refl eq_refl I eq_refl).
Defined.

Lemma open_checks_witness :
  secretbox_open (W := N) (zeros 39) [] = Err (PgError (lit "secretbox envelope is too short"))
  /\ box_seal_open (W := N) (zeros 48) (zeros 32) (zeros 31)
    = Err (PgError (lit "X25519 secret key must be exactly 32 bytes")).
Proof.
  split.
  - destruct (open_checks (W := N) (zeros 39) [] []) as (_ & H & _).
    apply H, Nat.ltb_lt. reflexivity.
  - destruct (open_checks (W := N) (zeros 48) (zeros 32) (zeros 31)) as (_ & _ & _ & _ & _ & H).
    apply H; [apply Nat.leb_le; reflexivity | reflexivity | discriminate].
Defined.

Definition seed : bytes := lit "abcdefghijklmnopqrstuvwxyz012345".

Lemma ed25519_roundtrip_witness :
  (exists signature, ed25519_sign (W := N) (lit "hi") (seed ++ rev seed) = Ok signature
    /\ length signature = 64%nat
    /\ ed25519_verify (W := N) (lit "hi") signature (rev seed) = Ok true)
  /\ ed25519_verify (W := N) (lit "hi") (zeros 64) (zeros 31)
     = Err (PgError (lit "Ed25519 public key must be exactly 32 bytes")).
Proof.
  destruct (ed25519_roundtrip (W := N) (sign_keypair := sign_keypair) (lit "hi") (seed ++ rev seed))
    as (Hpair & _ & _ & _ & _ & Hpk).
  split; [apply Hpair; split; reflexivity | apply Hpk; [reflexivity | discriminate]].
Defined.

Lemma hkdf_bounds_witness :
  hkdf_sha256 (lit "key") (lit "salt") (lit "info") 8161
    = Err (PgError (lit "HKDF-SHA256 output length is too large"))
  /\ exists out, hkdf_sha512 (lit "key") (lit "salt") (lit "info") 8161 = Ok out
       /\ Z.of_nat (length out) = 8161%Z.
Proof.
  destruct (hkdf_bounds (lit "key") (lit "salt") (lit "info") 8161) as (H1 & _ & H2 & _).
  split; [apply H2; split; [reflexivity | discriminate] | apply H1; split; discriminate].
Defined.
