(* ===== verification/Password.v ===== *)
(** * Password hashing and salts ([src/password.rs])

    The [pwhash] crate is the class [Pwhash].  The model is the code around it:
    the range checks on the iteration counts, and [salt_prefix], which cuts the
    setting (everything before the digest) out of a freshly generated hash by
    byte positions. *)
From stdpp Require Import base tactics list numbers option strings.
From Stdlib Require Import Strings.Byte.
From S2P Require Import Prelude RustStr Random.

Local Open Scope Z_scope.

(** ** The crate the code calls *)

(** [pwhash::HashSetup] and [bcrypt::BcryptSetup]. *)
Record HashSetup := { salt : option bytes; rounds : option Z }.
Record BcryptSetup (variant_type : Type) := {
  bcrypt_salt : option bytes;
  cost : option Z;
  variant : option variant_type;
}.
Arguments bcrypt_salt {variant_type}.
Arguments cost {variant_type}.
Arguments variant {variant_type}.

(** The hash functions draw a salt when they are given none. *)
Class Pwhash (W : Type) := {
  BcryptVariant : Type;
  V2a : BcryptVariant;
  unix_crypt : bytes -> bytes -> fallible bytes;
  bcrypt_hash_with : BcryptSetup BcryptVariant -> bytes -> try W bytes;
  unix_crypt_hash : bytes -> try W bytes;
  bsdi_crypt_hash_with : HashSetup -> bytes -> try W bytes;
  md5_crypt_hash : bytes -> try W bytes;
  sha256_crypt_hash_with : HashSetup -> bytes -> try W bytes;
  sha512_crypt_hash_with : HashSetup -> bytes -> try W bytes;
  sha256_crypt_DEFAULT_ROUNDS : Z;
  sha512_crypt_DEFAULT_ROUNDS : Z;
}.

(** ** Operations *)

Definition password_error {A} (context : string) (error : bytes) : outcome A :=
  pg_error (lit context ++ lit ": " ++ error).

Definition DOLLAR : byte := "$"%byte.

(** [i32::cast_unsigned]. *)
Definition cast_unsigned (n : Z) : Z := n mod 2 ^ 32.

Definition salt_prefix (hash algorithm : bytes) : outcome bytes :=
  if one_of algorithm ["bf"] then
    front ← str_slice hash 0 29;
    Ok (replace (lit "$2b$") (lit "$2a$") front)
  else if one_of algorithm ["des"] then str_slice hash 0 2
  else if one_of algorithm ["xdes"] then str_slice hash 0 9
  else if one_of algorithm ["md5"] then
    tail ← str_slice hash 3 (length hash);
    let stop := match find_byte DOLLAR tail with
                | Some index => (index + 4)%nat
                | None => length hash
                end in
    str_slice hash 0 stop
  else if one_of algorithm ["sha256crypt"; "sha512crypt"] then
    let separators := drop 2 (match_indices DOLLAR hash) in
    last ← usize_sub (length hash) 1;
    let third := default last (head separators) in
    let stop := if bool_decide (str_get hash 3 10 = Some (lit "rounds="))
                then default third (head (tail separators))
                else third in
    str_slice hash 0 (S stop)
  else panicked UnreachableReached.

Definition rounds_or_default (rounds default : Z) : outcome Z :=
  match rounds ?= 0 with
  | Eq => Ok default
  | Gt => Ok (cast_unsigned rounds)
  | Lt => pg_error (lit "iteration count must be positive")
  end.

Section operations.
Context {W : Type} `{Pwhash W}.

Definition crypt (password salt : bytes) : outcome bytes :=
  unwrap_or_else (unix_crypt password salt) (password_error "invalid salt").

Definition generate_salt (algorithm : bytes) (rounds : Z) : rand W bytes :=
  let empty := [] in
  if one_of algorithm ["bf"] then
    let cost := if rounds =? 0 then 6 else rounds in
    _ ← lift (reject_if (negb (contains_Z 4 31 cost))
                (PgError (lit "bcrypt iteration count must be between 4 and 31")));
    hash ← or_fail
      (bcrypt_hash_with {| bcrypt_salt := None; cost := Some (cast_unsigned cost);
                           variant := Some V2a |} empty)
      (password_error "could not generate bcrypt salt");
    lift (salt_prefix hash algorithm)
  else if one_of algorithm ["des"] then
    _ ← lift (reject_if (negb ((rounds =? 0) || (rounds =? 25)))
                (PgError (lit "DES iteration count must be 25 when specified")));
    hash ← or_fail (unix_crypt_hash empty) (password_error "could not generate DES salt");
    lift (salt_prefix hash algorithm)
  else if one_of algorithm ["xdes"] then
    actual ← lift (rounds_or_default rounds 725);
    _ ← lift (reject_if ((16777215 <? actual) || (actual mod 2 =? 0))
      (PgError (lit "extended DES iteration count must be odd and at most 16777215")));
    hash ← or_fail (bsdi_crypt_hash_with {| salt := None; rounds := Some actual |} empty)
      (password_error "could not generate extended DES salt");
    lift (salt_prefix hash algorithm)
  else if one_of algorithm ["md5"] then
    _ ← lift (reject_if (negb ((rounds =? 0) || (rounds =? 1000)))
                (PgError (lit "md5crypt iteration count must be 1000 when specified")));
    hash ← or_fail (md5_crypt_hash empty) (password_error "could not generate md5crypt salt");
    lift (salt_prefix hash algorithm)
  else if one_of algorithm ["sha256crypt"] then
    actual ← lift (rounds_or_default rounds sha256_crypt_DEFAULT_ROUNDS);
    _ ← lift (reject_if (negb (contains_Z 1000 999999999 actual))
      (PgError (lit "sha256crypt iteration count must be between 1000 and 999999999")));
    hash ← or_fail (sha256_crypt_hash_with {| salt := None; rounds := Some actual |} empty)
      (password_error "could not generate sha256crypt salt");
    lift (salt_prefix hash algorithm)
  else if one_of algorithm ["sha512crypt"] then
    actual ← lift (rounds_or_default rounds sha512_crypt_DEFAULT_ROUNDS);
    _ ← lift (reject_if (negb (contains_Z 1000 999999999 actual))
      (PgError (lit "sha512crypt iteration count must be between 1000 and 999999999")));
    hash ← or_fail (sha512_crypt_hash_with {| salt := None; rounds := Some actual |} empty)
      (password_error "could not generate sha512crypt salt");
    lift (salt_prefix hash algorithm)
  else lift (pg_error (lit "unknown salt algorithm: " ++ algorithm)).

Definition gen_salt (algorithm : bytes) (rounds : Z) : rand W bytes :=
  generate_salt (to_ascii_lowercase algorithm) rounds.

End operations.

(** ** Specification: the crypt(3) formats *)

(** The alphabet of crypt's base 64: [./0-9A-Za-z]. *)
Definition crypt64_byte (b : byte) : bool :=
  in_range 46 57 b || in_range 65 90 b || in_range 97 122 b.
Definition crypt64 (s : bytes) : Prop := forallb crypt64_byte s = true.

(** The digit for a 6-bit value, and the four digits of an extended-DES round
    count, least significant first. *)
Definition itoa64 (n : Z) : byte :=
  nth (Z.to_nat (n mod 64))
    (lit "./0123456789ABCDEFGHIJKLMNOPQRSTUVWXYZabcdefghijklmnopqrstuvwxyz") "."%byte.
Definition xdes_rounds (n : Z) : bytes :=
  [itoa64 n; itoa64 (n / 64); itoa64 (n / 4096); itoa64 (n / 262144)].

(** bcrypt's cost, as two decimal digits. *)
Definition two_digits (n : Z) : bytes :=
  [digit_byte (Z.to_N (n / 10 mod 10)); digit_byte (Z.to_N (n mod 10))].

(** The kinds of setting with what each carries, as crypt(5) lays them out. *)
Inductive setting : Type :=
| BcryptSetting (minor : byte) (cost : Z) (salt : bytes)
| DesSetting (salt : bytes)
| XdesSetting (rounds : Z) (salt : bytes)
| Md5Setting (salt : bytes)
| ShaSetting (id : byte) (rounds : option Z) (salt : bytes).

Definition print_setting (s : setting) : bytes :=
  match s with
  | BcryptSetting minor cost salt =>
      lit "$2" ++ [minor] ++ lit "$" ++ two_digits cost ++ lit "$" ++ salt
  | DesSetting salt => salt
  | XdesSetting rounds salt => lit "_" ++ xdes_rounds rounds ++ salt
  | Md5Setting salt => lit "$1$" ++ salt ++ lit "$"
  | ShaSetting id rounds salt =>
      lit "$" ++ [id] ++ lit "$"
        ++ match rounds with Some r => lit "rounds=" ++ dec (Z.to_N r) ++ lit "$" | None => [] end
        ++ salt ++ lit "$"
  end.

(** bcrypt's 22 digits carry 128 bits: the last is one of four. *)
Definition wf_setting (s : setting) : Prop :=
  match s with
  | BcryptSetting minor cost salt =>
      minor ∈ lit "aby" /\ 4 <= cost <= 31 /\ crypt64 salt /\ length salt = 22%nat
      /\ exists front c, salt = front ++ [c] /\ c ∈ lit ".Oeu"
  | DesSetting salt => crypt64 salt /\ length salt = 2%nat
  | XdesSetting rounds salt => 1 <= rounds <= 16777215 /\ crypt64 salt /\ length salt = 4%nat
  | Md5Setting salt => crypt64 salt /\ (1 <= length salt <= 8)%nat
  | ShaSetting id rounds salt =>
      id ∈ lit "56" /\ crypt64 salt /\ (1 <= length salt <= 16)%nat
      /\ (forall r, rounds = Some r -> 1000 <= r <= 999999999)
  end.

(** The name [gen_salt] knows the format by. *)
Definition algorithm_of (s : setting) : string :=
  match s with
  | BcryptSetting _ _ _ => "bf"
  | DesSetting _ => "des"
  | XdesSetting _ _ => "xdes"
  | Md5Setting _ => "md5"
  | ShaSetting id _ _ => if bool_decide (id = "5"%byte) then "sha256crypt" else "sha512crypt"
  end.

(** bcrypt settings are handed out with the minor version [a]. *)
Definition published (s : setting) : setting :=
  match s with
  | BcryptSetting minor cost salt =>
      BcryptSetting (if bool_decide (minor = "b"%byte) then "a"%byte else minor) cost salt
  | _ => s
  end.

(** What [gen_salt] promises on iteration counts: every algorithm has a default,
    chosen by 0, and a set of valid counts. *)
Definition pick (default : Z) (valid : Z -> bool) (rounds : Z) : option Z :=
  let n := if rounds =? 0 then default else rounds in
  if valid n then Some n else None.

Definition effective (algorithm : string) (rounds : Z) : option Z :=
  if String.eqb algorithm "bf" then pick 6 (contains_Z 4 31) rounds
  else if String.eqb algorithm "des" then pick 25 (Z.eqb 25) rounds
  else if String.eqb algorithm "xdes"
  then pick 725 (fun n => contains_Z 1 16777215 n && Z.odd n) rounds
  else if String.eqb algorithm "md5" then pick 1000 (Z.eqb 1000) rounds
  else if one_of (lit algorithm) ["sha256crypt"; "sha512crypt"]
  then pick 5000 (contains_Z 1000 999999999) rounds
  else None.

(** The message for a count the algorithm refuses. *)
Definition refusal (algorithm : string) (rounds : Z) : string :=
  if one_of (lit algorithm) ["xdes"; "sha256crypt"; "sha512crypt"] && (rounds <? 0)
  then "iteration count must be positive"
  else if String.eqb algorithm "bf" then "bcrypt iteration count must be between 4 and 31"
  else if String.eqb algorithm "des" then "DES iteration count must be 25 when specified"
  else if String.eqb algorithm "xdes"
  then "extended DES iteration count must be odd and at most 16777215"
  else if String.eqb algorithm "md5" then "md5crypt iteration count must be 1000 when specified"
  else algorithm +:+ " iteration count must be between 1000 and 999999999".

(** The hash of the empty password the crate makes for an algorithm and count. *)
Definition fresh_hash {W} `{Pwhash W} (algorithm : string) (n : Z) : try W bytes :=
  if String.eqb algorithm "bf"
  then bcrypt_hash_with {| bcrypt_salt := None; cost := Some n; variant := Some V2a |} []
  else if String.eqb algorithm "des" then unix_crypt_hash []
  else if String.eqb algorithm "xdes"
  then bsdi_crypt_hash_with {| salt := None; rounds := Some n |} []
  else if String.eqb algorithm "md5" then md5_crypt_hash []
  else if String.eqb algorithm "sha256crypt"
  then sha256_crypt_hash_with {| salt := None; rounds := Some n |} []
  else sha512_crypt_hash_with {| salt := None; rounds := Some n |} [].

(** The count a setting carries, where the format has one. *)
Definition carries (s : setting) (n : Z) : Prop :=
  match s with
  | BcryptSetting _ c _ => c = n
  | XdesSetting r _ => r = n
  | ShaSetting _ r _ => r = Some n \/ r = None
  | _ => True
  end.

(** Documented behaviour of the crate: a generated hash is a setting of the
    requested kind and cost followed by its digest; [crypt] reads only the setting
    of the string it is given and returns it with a digest. *)
Class PwhashLaws (W : Type) `{Pwhash W} : Prop := {
  sha256_default : sha256_crypt_DEFAULT_ROUNDS = 5000;
  sha512_default : sha512_crypt_DEFAULT_ROUNDS = 5000;
  bcrypt_law c password w hash w' :
    4 <= c <= 31 ->
    bcrypt_hash_with {| bcrypt_salt := None; cost := Some c; variant := Some V2a |} password w
      = (Ok hash, w') ->
    exists minor salt digest, hash = print_setting (BcryptSetting minor c salt) ++ digest
      /\ minor ∈ lit "ab" /\ wf_setting (BcryptSetting minor c salt) /\ crypt64 digest;
  des_law password w hash w' :
    unix_crypt_hash password w = (Ok hash, w') ->
    exists salt digest, hash = print_setting (DesSetting salt) ++ digest
      /\ wf_setting (DesSetting salt) /\ crypt64 digest;
  xdes_law r password w hash w' :
    1 <= r <= 16777215 ->
    bsdi_crypt_hash_with {| salt := None; rounds := Some r |} password w = (Ok hash, w') ->
    exists salt digest, hash = print_setting (XdesSetting r salt) ++ digest
      /\ wf_setting (XdesSetting r salt) /\ crypt64 digest;
  md5_law password w hash w' :
    md5_crypt_hash password w = (Ok hash, w') ->
    exists salt digest, hash = print_setting (Md5Setting salt) ++ digest
      /\ wf_setting (Md5Setting salt) /\ crypt64 digest;
  sha256_law r password w hash w' :
    1000 <= r <= 999999999 ->
    sha256_crypt_hash_with {| salt := None; rounds := Some r |} password w = (Ok hash, w') ->
    exists printed salt digest,
      hash = print_setting (ShaSetting "5" printed salt) ++ digest
      /\ printed ∈ [Some r; None] /\ wf_setting (ShaSetting "5" printed salt) /\ crypt64 digest;
  sha512_law r password w hash w' :
    1000 <= r <= 999999999 ->
    sha512_crypt_hash_with {| salt := None; rounds := Some r |} password w = (Ok hash, w') ->
    exists printed salt digest,
      hash = print_setting (ShaSetting "6" printed salt) ++ digest
      /\ printed ∈ [Some r; None] /\ wf_setting (ShaSetting "6" printed salt) /\ crypt64 digest;
  crypt_reads_setting password s digest :
    wf_setting s -> crypt64 digest ->
    unix_crypt password (print_setting s ++ digest) = unix_crypt password (print_setting s);
  crypt_keeps_setting password s hash :
    wf_setting s -> unix_crypt password (print_setting s) = Ok hash ->
    exists digest, hash = print_setting s ++ digest /\ crypt64 digest;
}.

(** ** Lemmas: cutting the setting out of a hash *)

Lemma crypt64_ascii s : crypt64 s -> is_ascii s = true.
Proof.
  unfold crypt64, is_ascii. rewrite !forallb_forall. intros H b Hb. specialize (H b Hb).
  revert H. apply implb_true_iff. revert b Hb. intros b _. revert b.
  apply byte_forall. vm_compute. reflexivity.
Qed.

Lemma crypt64_no_dollar s : crypt64 s -> DOLLAR ∉ s.
Proof.
  unfold crypt64. rewrite forallb_forall. intros H Hin%list_elem_of_In. by apply H in Hin.
Qed.

Lemma digits_crypt64 s : forallb is_digit s = true -> crypt64 s.
Proof.
  unfold crypt64. rewrite !forallb_forall. intros H b Hb. specialize (H b Hb).
  revert H. apply implb_true_iff. clear Hb. revert b. apply byte_forall. vm_compute. reflexivity.
Qed.

Lemma elem_crypt64 c l : forallb crypt64_byte l = true -> c ∈ l -> crypt64 [c].
Proof.
  rewrite forallb_forall. intros H Hc%list_elem_of_In. unfold crypt64. cbn.
  by rewrite (H _ Hc).
Qed.

Lemma itoa64_crypt64 n : crypt64_byte (itoa64 n) = true.
Proof.
  unfold itoa64.
  assert (forallb crypt64_byte
    (lit "./0123456789ABCDEFGHIJKLMNOPQRSTUVWXYZabcdefghijklmnopqrstuvwxyz") = true) as Hall
    by by vm_compute.
  rewrite forallb_forall in Hall. apply Hall, nth_In. cbn.
  assert (0 <= n mod 64 < 64) by by apply Z.mod_pos_bound. lia.
Qed.

Lemma two_digits_crypt64 n : crypt64 (two_digits n).
Proof.
  apply digits_crypt64. unfold two_digits. cbn [forallb].
  assert (0 <= n / 10 mod 10 < 10) by by apply Z.mod_pos_bound.
  assert (0 <= n mod 10 < 10) by by apply Z.mod_pos_bound.
  by rewrite !is_digit_digit_byte by lia.
Qed.

Lemma xdes_rounds_crypt64 n : crypt64 (xdes_rounds n).
Proof. unfold crypt64, xdes_rounds. cbn [forallb]. by rewrite !itoa64_crypt64. Qed.

Lemma dec_crypt64 n : crypt64 (dec n).
Proof. apply digits_crypt64, dec_digits. Qed.

#[export] Hint Resolve crypt64_ascii crypt64_no_dollar two_digits_crypt64 xdes_rounds_crypt64
  dec_crypt64 : rust.

Lemma str_slice_prefix s t n :
  is_ascii (s ++ t) = true -> length s = n -> str_slice (s ++ t) 0 n = Ok s.
Proof. intros Ha Hl. apply (str_slice_app [] s t); [done | done | cbn; lia]. Qed.

Lemma indices_one i c s : c ∉ s -> indices_from i c (s ++ [c]) = [(i + length s)%nat].
Proof.
  intros Hs. rewrite indices_from_app, indices_from_none by done. cbn.
  by rewrite bool_decide_true.
Qed.

Lemma replace_other p to b s :
  is_prefix p (b :: s) = false -> replace p to (b :: s) = b :: replace p to s.
Proof. intros H. unfold replace. cbn [replace_go]. by rewrite H. Qed.

(** Only a leading minor version [b] is rewritten. *)
Lemma replace_minor minor d1 d2 salt :
  DOLLAR ∉ [minor] -> DOLLAR ∉ [d1; d2] -> d2 <> "b"%byte -> DOLLAR ∉ salt ->
  replace (lit "$2b$") (lit "$2a$") (lit "$2" ++ [minor] ++ lit "$" ++ [d1; d2] ++ lit "$" ++ salt)
    = lit "$2" ++ [if bool_decide (minor = "b"%byte) then "a"%byte else minor]
        ++ lit "$" ++ [d1; d2] ++ lit "$" ++ salt.
Proof.
  intros Hm Hd Hb Hs.
  assert (Hrest : replace (lit "$2b$") (lit "$2a$") (d1 :: d2 :: DOLLAR :: salt)
                  = d1 :: d2 :: DOLLAR :: salt).
  { rewrite !not_elem_of_cons in Hd. destruct Hd as (H1 & H2 & _).
    rewrite !replace_other; [do 3 f_equal; by apply (replace_absent DOLLAR (lit "2b$")) | ..];
      apply not_true_is_false; intros [t E]%is_prefix_true; cbn in E; simplify_eq.
    by apply Hs, list_elem_of_further, list_elem_of_further, list_elem_of_here. }
  case_bool_decide as E; [subst minor |].
  - change (lit "$2" ++ ["b"%byte] ++ lit "$" ++ [d1; d2] ++ lit "$" ++ salt)
      with (lit "$2b$" ++ d1 :: d2 :: DOLLAR :: salt).
    change (lit "$2b$") with (DOLLAR :: lit "2b$"). rewrite replace_match.
    change (DOLLAR :: lit "2b$") with (lit "$2b$"). by rewrite Hrest.
  - change (lit "$2" ++ [minor] ++ lit "$" ++ [d1; d2] ++ lit "$" ++ salt)
      with (DOLLAR :: "2"%byte :: minor :: DOLLAR :: d1 :: d2 :: DOLLAR :: salt).
    rewrite not_elem_of_cons in Hm. destruct Hm as [Hm _].
    rewrite 4!replace_other; [by rewrite Hrest | ..];
      apply not_true_is_false; intros [t Et]%is_prefix_true; cbn in Et; simplify_eq.
Qed.

(** The parts of a concatenation, each ASCII by computation or by its alphabet. *)
Ltac solve_ascii :=
  rewrite ?is_ascii_app, ?andb_true_iff; split_and!;
  first [done | apply crypt64_ascii; auto with rust].

Lemma wf_ascii s digest :
  wf_setting s -> crypt64 digest -> is_ascii (print_setting s ++ digest) = true.
Proof.
  intros Hwf Hd. destruct s as [minor c salt | salt | r salt | salt | id r salt];
    cbn [wf_setting print_setting] in *.
  - destruct Hwf as (Hm%elem_crypt64 & _ & Hs & _); [| done]. solve_ascii.
  - destruct Hwf as (Hs & _). solve_ascii.
  - destruct Hwf as (_ & Hs & _). solve_ascii.
  - destruct Hwf as (Hs & _). solve_ascii.
  - destruct Hwf as (Hi%elem_crypt64 & Hs & _); [| done]. destruct r; solve_ascii.
Qed.

Lemma salt_prefix_bf minor c salt digest :
  wf_setting (BcryptSetting minor c salt) -> crypt64 digest ->
  salt_prefix (print_setting (BcryptSetting minor c salt) ++ digest) (lit "bf")
    = Ok (print_setting (published (BcryptSetting minor c salt))).
Proof.
  intros Hwf Hd. pose proof (wf_ascii _ _ Hwf Hd) as Ha.
  unfold salt_prefix. change (one_of (lit "bf") ["bf"]) with true. cbv iota.
  destruct Hwf as (Hm%elem_crypt64 & Hc & Hs & Hl & _); [| done].
  rewrite str_slice_prefix by (done || (cbn; lia)). cbn [mbind result_bind]. f_equal.
  cbn [print_setting published]. unfold two_digits.
  pose proof (two_digits_crypt64 c) as H2. unfold two_digits in H2.
  apply replace_minor; auto with rust.
  assert (0 <= c mod 10 < 10) by by apply Z.mod_pos_bound.
  intros E. apply (f_equal u8) in E. rewrite u8_digit in E by lia. cbn in E. lia.
Qed.

Lemma salt_prefix_md5 salt digest :
  wf_setting (Md5Setting salt) -> crypt64 digest ->
  salt_prefix (print_setting (Md5Setting salt) ++ digest) (lit "md5")
    = Ok (print_setting (Md5Setting salt)).
Proof.
  intros Hwf Hd. pose proof (wf_ascii _ _ Hwf Hd) as Ha. destruct Hwf as (Hs & Hl).
  unfold salt_prefix. change (one_of (lit "md5") ["bf"]) with false.
  change (one_of (lit "md5") ["des"]) with false. change (one_of (lit "md5") ["xdes"]) with false.
  change (one_of (lit "md5") ["md5"]) with true. cbv iota. cbn [print_setting] in *.
  assert (Et : str_slice ((lit "$1$" ++ salt ++ lit "$") ++ digest) 3
                 (length ((lit "$1$" ++ salt ++ lit "$") ++ digest))
               = Ok (salt ++ lit "$" ++ digest)).
  { rewrite str_slice_ascii by (done || (rewrite !length_app; cbn; lia)).
    f_equal. rewrite <- !app_assoc. cbn [lit String.list_byte_of_string app drop].
    apply take_ge. cbn. lia. }
  rewrite Et. cbn [mbind result_bind]. unfold find_byte, match_indices.
  rewrite (app_assoc salt), indices_from_app.
  rewrite (indices_one _ DOLLAR salt) by auto with rust. cbn [app head].
  apply str_slice_prefix; [done |]. rewrite !length_app. cbn. lia.
Qed.

Lemma indices_next i c s t :
  c ∉ s -> indices_from i c (s ++ [c] ++ t)
    = (i + length s)%nat :: indices_from (S (i + length s)) c t.
Proof.
  intros Hs. rewrite indices_from_app, indices_from_none by done. cbn.
  by rewrite bool_decide_true.
Qed.

Lemma str_get_other s lo hi c t : c ∈ t -> c ∉ s -> str_get s lo hi <> Some t.
Proof.
  unfold str_get. intros Ht Hs. destruct (str_slice s lo hi) as [u |] eqn:E; [| done].
  intros [= ->]. apply str_slice_Ok in E as (-> & _).
  apply Hs. rewrite <- (take_drop lo s), elem_of_app. right.
  rewrite <- (take_drop (hi - lo) (drop lo s)), elem_of_app. by left.
Qed.

Lemma crypt64_no_equals s : crypt64 s -> "="%byte ∉ s.
Proof.
  unfold crypt64. rewrite forallb_forall. intros H Hin%list_elem_of_In. by apply H in Hin.
Qed.

Lemma sha_names algorithm :
  algorithm = lit "sha256crypt" \/ algorithm = lit "sha512crypt" ->
  one_of algorithm ["bf"] = false /\ one_of algorithm ["des"] = false
  /\ one_of algorithm ["xdes"] = false /\ one_of algorithm ["md5"] = false
  /\ one_of algorithm ["sha256crypt"; "sha512crypt"] = true.
Proof. by intros [-> | ->]. Qed.

(** The separators the iterator yields after the first two. *)
Lemma sha_separators id r salt digest :
  crypt64 [id] -> crypt64 salt -> crypt64 digest ->
  drop 2 (match_indices DOLLAR (print_setting (ShaSetting id r salt) ++ digest))
    = match r with
      | Some n => [(10 + length (dec (Z.to_N n)))%nat;
                   (11 + length (dec (Z.to_N n)) + length salt)%nat]
      | None => [(3 + length salt)%nat]
      end.
Proof.
  intros Hi Hs Hd. unfold match_indices. cbn [print_setting]. rewrite <- !app_assoc.
  change (lit "$") with [DOLLAR]. set (rest := _ ++ salt ++ _).
  change ([DOLLAR] ++ [id] ++ [DOLLAR] ++ rest) with ([] ++ [DOLLAR] ++ [id] ++ [DOLLAR] ++ rest).
  rewrite indices_next by apply not_elem_of_nil. rewrite indices_next by auto with rust.
  cbn [drop]. subst rest. destruct r as [n |].
  - rewrite <- !app_assoc, (app_assoc (lit "rounds=")), indices_next.
    + rewrite indices_next by auto with rust. rewrite indices_from_none by auto with rust.
      rewrite length_app. reflexivity.
    + rewrite not_elem_of_app. split; [by apply contains_byte_false | auto with rust].
  - rewrite (app_nil_l (salt ++ _)). rewrite indices_next by auto with rust.
    rewrite indices_from_none by auto with rust. reflexivity.
Qed.

Lemma salt_prefix_sha id r salt digest algorithm :
  wf_setting (ShaSetting id r salt) -> crypt64 digest ->
  algorithm = lit "sha256crypt" \/ algorithm = lit "sha512crypt" ->
  salt_prefix (print_setting (ShaSetting id r salt) ++ digest) algorithm
    = Ok (print_setting (ShaSetting id r salt)).
Proof.
  intros Hwf Hd Halg. pose proof (wf_ascii _ _ Hwf Hd) as Ha.
  destruct Hwf as (Hi%elem_crypt64 & Hs & Hl & _); [| done].
  unfold salt_prefix. destruct (sha_names _ Halg) as (-> & -> & -> & -> & ->).
  rewrite sha_separators by done. unfold usize_sub.
  rewrite (proj2 (Nat.leb_le 1 _)) by (cbn; lia). cbn [mbind result_bind].
  destruct r as [n |]; cbn [head tail default].
  - assert (str_get (print_setting (ShaSetting id (Some n) salt) ++ digest) 3 10
            = Some (lit "rounds=")) as Eg.
    { unfold str_get. rewrite str_slice_ascii; [done | done | lia |].
      cbn [print_setting]. rewrite !length_app. cbn. lia. }
    rewrite Eg, bool_decide_true by done.
    apply str_slice_prefix; [done |]. cbn [print_setting]. rewrite !length_app. cbn. lia.
  - rewrite bool_decide_false.
    + apply str_slice_prefix; [done |]. cbn [print_setting]. rewrite !length_app. cbn. lia.
    + apply (str_get_other _ _ _ "="%byte); [by vm_compute; find_elem |].
      cbn [print_setting]. rewrite !not_elem_of_app.
      split_and!; first [by apply contains_byte_false | by apply crypt64_no_equals].
Qed.

(** Decides the tests of an algorithm name against literals. *)
Ltac eval_names :=
  repeat match goal with
  | |- context [one_of (lit ?a) ?l] =>
      let b := eval vm_compute in (one_of (lit a) l) in change (one_of (lit a) l) with b
  | |- context [String.eqb ?a ?c] =>
      let b := eval vm_compute in (String.eqb a c) in change (String.eqb a c) with b
  end; cbv iota; cbn [andb].

(** C8: Out of every hash of the six crypt(3) formats [salt_prefix] cuts exactly
    the setting, the part before the digest: 29 characters of a bcrypt hash with
    the minor version [b] rewritten to [a], 2 of a DES and 9 of an extended-DES
    one, up to and including the [$] after the salt of an md5crypt and of a
    SHA-crypt one, with or without a [rounds=] field.  No slice is out of
    range. *)
Theorem salt_prefix_spec s digest :
  wf_setting s -> crypt64 digest ->
  salt_prefix (print_setting s ++ digest) (lit (algorithm_of s))
    = Ok (print_setting (published s)).
Proof.
  intros Hwf Hd. pose proof (wf_ascii _ _ Hwf Hd) as Ha.
  destruct s as [minor c salt | salt | r salt | salt | id r salt]; cbn [algorithm_of published].
  - by apply salt_prefix_bf.
  - unfold salt_prefix. eval_names. apply str_slice_prefix; [done | apply Hwf].
  - unfold salt_prefix. eval_names. apply str_slice_prefix; [done |].
    destruct Hwf as (_ & _ & Hl). cbn. lia.
  - by apply salt_prefix_md5.
  - apply salt_prefix_sha; [done.. |]. case_bool_decide; auto.
Qed.

Section properties.
Context {W : Type} `{PwhashLaws W}.

Definition algorithms : list string := ["bf"; "des"; "xdes"; "md5"; "sha256crypt"; "sha512crypt"].

Lemma effective_known a r n : effective a r = Some n -> a ∈ algorithms.
Proof.
  unfold effective. intros He.
  repeat match type of He with
  | (if String.eqb a ?b then _ else _) = _ =>
      destruct (String.eqb_spec a b); [subst a; unfold algorithms; find_elem |]
  end.
  destruct (one_of (lit a) _) eqn:E; [| done].
  apply one_of_elem in E as (b & Hb & E).
  apply (f_equal String.string_of_list_byte) in E. unfold lit in E.
  rewrite !String.string_of_list_byte_of_string in E. subst b.
  elem_cases Hb; unfold algorithms; find_elem.
Qed.

Lemma pick_Some d valid r n :
  pick d valid r = Some n <-> valid n = true /\ n = if r =? 0 then d else r.
Proof.
  unfold pick. cbv zeta. destruct (valid _) eqn:E; split.
  - by intros [= <-].
  - by intros [_ ->].
  - done.
  - intros [Hv ->]. congruence.
Qed.

Lemma fresh_hash_law a r n w hash w' :
  effective a r = Some n -> fresh_hash a n w = (Ok hash, w') ->
  exists s digest, hash = print_setting s ++ digest /\ wf_setting s /\ crypt64 digest
    /\ algorithm_of s = a /\ carries s n.
Proof.
  intros He Hf. pose proof (effective_known _ _ _ He) as Ha. unfold algorithms in Ha.
  elem_cases Ha; revert He Hf; unfold effective, fresh_hash; eval_names;
    rewrite pick_Some; intros [Hv Hn] Hf.
  - apply contains_Z_true in Hv.
    destruct (bcrypt_law _ _ _ _ _ Hv Hf) as (minor & s & d & -> & _ & Hwf & Hd).
    by exists (BcryptSetting minor n s), d.
  - destruct (des_law _ _ _ _ Hf) as (s & d & -> & Hwf & Hd).
    by exists (DesSetting s), d.
  - apply andb_true_iff in Hv as [Hv%contains_Z_true _].
    destruct (xdes_law _ _ _ _ _ Hv Hf) as (s & d & -> & Hwf & Hd).
    by exists (XdesSetting n s), d.
  - destruct (md5_law _ _ _ _ Hf) as (s & d & -> & Hwf & Hd).
    by exists (Md5Setting s), d.
  - apply contains_Z_true in Hv.
    destruct (sha256_law _ _ _ _ _ Hv Hf) as (p & s & d & -> & Hp & Hwf & Hd).
    exists (ShaSetting "5" p s), d. split_and!; try done. elem_cases Hp; [by left | by right].
  - apply contains_Z_true in Hv.
    destruct (sha512_law _ _ _ _ _ Hv Hf) as (p & s & d & -> & Hp & Hwf & Hd).
    exists (ShaSetting "6" p s), d. split_and!; try done. elem_cases Hp; [by left | by right].
Qed.

(** The text before the colon when the crate fails to make a hash. *)
Definition fresh_context (a : string) : string :=
  "could not generate " +:+
  (if String.eqb a "bf" then "bcrypt" else if String.eqb a "des" then "DES"
   else if String.eqb a "xdes" then "extended DES" else if String.eqb a "md5" then "md5crypt"
   else a) +:+ " salt".

Lemma cast_unsigned_id n : 0 <= n < 2 ^ 32 -> cast_unsigned n = n.
Proof. apply Z.mod_small. Qed.

Lemma rounds_or_default_eq r d :
  0 <= r < 2 ^ 31 -> rounds_or_default r d = Ok (if r =? 0 then d else r).
Proof.
  intros Hr. unfold rounds_or_default. destruct (Z.compare_spec r 0) as [-> | | Hlt]; [done | lia |].
  rewrite (proj2 (Z.eqb_neq r 0)) by lia. by rewrite cast_unsigned_id by lia.
Qed.

Lemma mod2_even n : (n mod 2 =? 0) = negb (Z.odd n).
Proof. rewrite Zmod_odd. by destruct (Z.odd n). Qed.

(** An accepted count leads to one hash by the crate. *)
Lemma generate_salt_accepted a r n w :
  r < 2 ^ 31 -> effective a r = Some n ->
  generate_salt (lit a) r w
    = (hash ← or_fail (fresh_hash a n) (password_error (fresh_context a));
       lift (salt_prefix hash (lit a))) w.
Proof.
  intros Hr He. pose proof (effective_known _ _ _ He) as Ha. unfold algorithms in Ha.
  elem_cases Ha; revert He; unfold effective, generate_salt, fresh_hash, fresh_context;
    eval_names; rewrite pick_Some; intros [Hv ->].
  - rewrite Hv. cbn [negb]. apply contains_Z_true in Hv. by rewrite cast_unsigned_id by lia.
  - destruct (Z.eqb_spec r 0) as [-> |]; [done |]. rewrite Z.eqb_sym in Hv. by rewrite Hv.
  - apply andb_true_iff in Hv as [Hc Ho]. pose proof (proj1 (contains_Z_true _ _ _) Hc) as Hb.
    rewrite rounds_or_default_eq by (destruct (Z.eqb_spec r 0); lia).
    unfold mbind, stateful_bind, lift at 1. rewrite mod2_even, Ho.
    rewrite (proj2 (Z.ltb_ge _ _)) by lia. done.
  - destruct (Z.eqb_spec r 0) as [-> |]; [done |]. rewrite Z.eqb_sym in Hv. by rewrite Hv.
  - pose proof (proj1 (contains_Z_true _ _ _) Hv) as Hb. rewrite sha256_default.
    rewrite rounds_or_default_eq by (destruct (Z.eqb_spec r 0); lia).
    unfold mbind, stateful_bind, lift at 1. by rewrite Hv.
  - pose proof (proj1 (contains_Z_true _ _ _) Hv) as Hb. rewrite sha512_default.
    rewrite rounds_or_default_eq by (destruct (Z.eqb_spec r 0); lia).
    unfold mbind, stateful_bind, lift at 1. by rewrite Hv.
Qed.

Lemma gen_salt_fresh algorithm a r n w :
  to_ascii_lowercase algorithm = lit a -> r < 2 ^ 31 -> effective a r = Some n ->
  match fresh_hash a n w with
  | (Ok hash, w') =>
      exists s digest, hash = print_setting s ++ digest /\ wf_setting s
        /\ crypt64 digest /\ algorithm_of s = a /\ carries s n
        /\ gen_salt algorithm r w = (Ok (print_setting (published s)), w')
  | (Err e, w') =>
      gen_salt algorithm r w
        = (Err (PgError (lit (fresh_context a) ++ lit ": " ++ e)), w')
  end.
Proof.
  intros Ha Hr He. unfold gen_salt. rewrite Ha, (generate_salt_accepted _ _ _ _ Hr He).
  unfold mbind, stateful_bind, or_fail.
  destruct (fresh_hash a n w) as [[hash | e] w'] eqn:Ef; [| done].
  destruct (fresh_hash_law _ _ _ _ _ _ He Ef) as (s & d & -> & Hwf & Hd & Hs & Hc).
  exists s, d. split_and!; [done.. |]. cbn [unwrap_or_else]. unfold lift.
  by rewrite <- Hs, salt_prefix_spec.
Qed.

Lemma pick_None d valid r : pick d valid r = None <-> valid (if r =? 0 then d else r) = false.
Proof. unfold pick. cbv zeta. by destruct (valid _). Qed.

Lemma rounds_or_default_neg r d :
  r < 0 -> rounds_or_default r d = Err (PgError (lit "iteration count must be positive")).
Proof. intros Hr. unfold rounds_or_default. by rewrite (proj2 (Z.compare_lt_iff r 0)). Qed.

(** A count that is not negative is the default or itself. *)
Ltac count_read Hr :=
  match goal with
  | |- context [?r <? 0] => destruct (Z.ltb_spec r 0) as [Hneg | Hpos];
      [by rewrite rounds_or_default_neg by done |];
      rewrite rounds_or_default_eq by lia; unfold mbind, stateful_bind, lift at 1
  end.

Lemma generate_salt_rejected a r w :
  a ∈ algorithms -> - 2 ^ 31 <= r < 2 ^ 31 -> effective a r = None ->
  generate_salt (lit a) r w = (Err (PgError (lit (refusal a r))), w).
Proof.
  intros Ha Hr He. unfold algorithms in Ha.
  elem_cases Ha; revert He; unfold effective, generate_salt, refusal;
    eval_names; rewrite pick_None; intros Hv.
  - by rewrite Hv.
  - rewrite Z.eqb_sym in Hv. destruct (Z.eqb_spec r 0) as [-> |]; [done |]. by rewrite Hv.
  - count_read Hr. set (n := if r =? 0 then 725 else r) in *.
    assert (1 <= n) by (unfold n; destruct (Z.eqb_spec r 0); lia).
    rewrite mod2_even. apply andb_false_iff in Hv as [Hv%contains_Z_false | Hv].
    + by rewrite (proj2 (Z.ltb_lt _ _)) by lia.
    + by rewrite Hv, orb_true_r.
  - rewrite Z.eqb_sym in Hv. destruct (Z.eqb_spec r 0) as [-> |]; [done |]. by rewrite Hv.
  - rewrite sha256_default. count_read Hr. by rewrite Hv.
  - rewrite sha512_default. count_read Hr. by rewrite Hv.
Qed.

Lemma generate_salt_unknown algorithm r w :
  algorithm ∉ lit <$> algorithms ->
  generate_salt algorithm r w
    = (Err (PgError (lit "unknown salt algorithm: " ++ algorithm)), w).
Proof.
  intros Hn. unfold generate_salt. rewrite list_elem_of_fmap in Hn.
  repeat (rewrite (proj2 (one_of_false _ _));
          [| intros Hin; apply Hn; apply list_elem_of_fmap in Hin as (b & -> & Hb);
             exists b; split; [done |]; elem_cases Hb; unfold algorithms; find_elem]).
  done.
Qed.

(** The message of a request that is refused. *)
Definition refusal_message (a : string) (r : Z) : bytes :=
  if bool_decide (a ∈ algorithms) then lit (refusal a r)
  else lit "unknown salt algorithm: " ++ lit a.

Lemma generate_salt_refused a r w :
  - 2 ^ 31 <= r < 2 ^ 31 -> effective a r = None ->
  generate_salt (lit a) r w = (Err (PgError (refusal_message a r)), w).
Proof.
  intros Hr He. unfold refusal_message. case_bool_decide as Ha.
  - by apply generate_salt_rejected.
  - apply generate_salt_unknown. intros (b & E & Hb)%list_elem_of_fmap.
    apply (f_equal String.string_of_list_byte) in E. unfold lit in E.
    rewrite !String.string_of_list_byte_of_string in E. by subst b.
Qed.

(** C4: [gen_salt] accepts a count exactly when the algorithm's specification
    does (0 stands for the default: 6, 25, 725, 1000 or 5000), in any spelling of
    the algorithm's name.  A count that is accepted gives the published setting of
    one hash the crate makes with that count, so the salt is well formed, is of
    the requested kind and carries the count where the format has one; a failure
    of the crate is an SQL error with its text.  For any other count, and for a
    name that is none of the six, no hash is made: the request is refused with a
    message of its own and the generator is not used. *)
Theorem gen_salt_spec algorithm a r w :
  to_ascii_lowercase algorithm = lit a -> r < 2 ^ 31 ->
  match effective a r with
  | Some n =>
      match fresh_hash a n w with
      | (Ok hash, w') =>
          exists s digest, hash = print_setting s ++ digest /\ wf_setting s
            /\ crypt64 digest /\ algorithm_of s = a /\ carries s n
            /\ gen_salt algorithm r w = (Ok (print_setting (published s)), w')
      | (Err e, w') =>
          gen_salt algorithm r w
            = (Err (PgError (lit (fresh_context a) ++ lit ": " ++ e)), w')
      end
  | None =>
      - 2 ^ 31 <= r ->
      gen_salt algorithm r w = (Err (PgError (refusal_message a r)), w)
  end.
Proof.
  intros Ha Hr. destruct (effective a r) as [n |] eqn:He; [by apply gen_salt_fresh |].
  intros Hr'. unfold gen_salt. rewrite Ha. by apply generate_salt_refused.
Qed.


(** C21: The verification idiom of crypt(3) holds for every salt [gen_salt] makes:
    when [crypt] hashes a password under the salt, hashing the same password
    under the stored hash gives the stored hash again, and the stored hash starts
    with the salt. *)
Theorem crypt_verifies algorithm a r n w password salt w' stored :
  to_ascii_lowercase algorithm = lit a -> r < 2 ^ 31 -> effective a r = Some n ->
  gen_salt algorithm r w = (Ok salt, w') -> crypt password salt = Ok stored ->
  crypt password stored = Ok stored /\ salt `prefix_of` stored.
Proof.
  intros Ha Hr He Hg Hc. pose proof (gen_salt_fresh _ _ _ _ w Ha Hr He) as Hfresh.
  destruct (fresh_hash a n w) as [[hash | e] w1]; [| by rewrite Hfresh in Hg].
  destruct Hfresh as (s & d & _ & Hwf & _ & _ & _ & Hs). rewrite Hs in Hg. injection Hg as <- <-.
  assert (Hwfp : wf_setting (published s)).
  { destruct s as [minor c salt | | | |]; try done. cbn [published wf_setting] in *.
    case_bool_decide; [| done]. split; [| by apply Hwf]. find_elem. }
  unfold crypt in *. destruct (unix_crypt password _) as [h | e] eqn:Eh; [| done].
  injection Hc as <-. destruct (crypt_keeps_setting _ _ _ Hwfp Eh) as (d' & -> & Hd').
  rewrite crypt_reads_setting, Eh by done. split; [done | by eexists].
Qed.

End properties.

(** ** A concrete instance, for the witnesses *)
Module Toy.

(** The prefix up to the last [$], if any. *)
Fixpoint up_to_last (s : bytes) : bytes :=
  match s with
  | [] => []
  | b :: r =>
      match up_to_last r with
      | [] => if bool_decide (b = DOLLAR) then [b] else []
      | u => b :: u
      end
  end.

(** The setting a hash starts with, found from its first characters. *)
Definition setting_of (h : bytes) : bytes :=
  if is_prefix (lit "_") h then take 9 h
  else if is_prefix (lit "$2") h then take 29 h
  else if is_prefix (lit "$") h then up_to_last h
  else take 2 h.

Definition salt22 : bytes := lit "abcdefghijklmnopqrstu.".

(** Every digest is [x]; salts are fixed. *)
#[export] Instance pwhash : Pwhash N := {|
  BcryptVariant := unit;
  V2a := tt;
  unix_crypt _ s := Ok (setting_of s ++ lit "x");
  bcrypt_hash_with setup _ w :=
    (Ok (print_setting (BcryptSetting "b" (default 6 (cost setup)) salt22) ++ lit "x"), (w + 1)%N);
  unix_crypt_hash _ w := (Ok (print_setting (DesSetting (lit "ab")) ++ lit "x"), (w + 1)%N);
  bsdi_crypt_hash_with setup _ w :=
    (Ok (print_setting (XdesSetting (default 725 (rounds setup)) (lit "abcd")) ++ lit "x"),
     (w + 1)%N);
  md5_crypt_hash _ w := (Ok (print_setting (Md5Setting (lit "salt")) ++ lit "x"), (w + 1)%N);
  sha256_crypt_hash_with setup _ w :=
    (Ok (print_setting (ShaSetting "5" (rounds setup) (lit "salt")) ++ lit "x"), (w + 1)%N);
  sha512_crypt_hash_with setup _ w :=
    (Ok (print_setting (ShaSetting "6" None (lit "salt")) ++ lit "x"), (w + 1)%N);
  sha256_crypt_DEFAULT_ROUNDS := 5000;
  sha512_crypt_DEFAULT_ROUNDS := 5000;
|}.

Lemma up_to_last_none s : DOLLAR ∉ s -> up_to_last s = [].
Proof.
  induction s as [| b s IH]; [done |]. rewrite not_elem_of_cons. intros [Hb Hs]. cbn.
  rewrite IH by done. by rewrite bool_decide_false.
Qed.

Lemma up_to_last_app s d : DOLLAR ∉ d -> up_to_last (s ++ lit "$" ++ d) = s ++ lit "$".
Proof.
  intros Hd. induction s as [| b s IH]; cbn [app up_to_last].
  - change (lit "$" ++ d) with (DOLLAR :: d). cbn [up_to_last].
    by rewrite up_to_last_none, bool_decide_true.
  - rewrite IH. by destruct s.
Qed.

Lemma crypt64_first (b : byte) (s : bytes) : crypt64 (b :: s) -> b <> "$"%byte /\ b <> "_"%byte.
Proof. intros H. by split; intros ->; unfold crypt64 in H; cbn in H. Qed.

Lemma take_prefix (s d : bytes) n : length s = n -> take n (s ++ d) = s.
Proof. intros <-. apply take_app_length. Qed.

Lemma setting_of_print s d :
  wf_setting s -> crypt64 d -> setting_of (print_setting s ++ d) = print_setting s.
Proof.
  intros Hwf Hd. destruct s as [minor c salt | salt | r salt | salt | id r salt].
  - destruct Hwf as (_ & _ & _ & Hl & _). set (h := print_setting _).
    change (setting_of (h ++ d)) with (take 29 (h ++ d)). apply take_prefix.
    subst h. cbn. by rewrite Hl.
  - destruct Hwf as [Hs Hl]. destruct salt as [| x [| y [|]]]; try done.
    apply crypt64_first in Hs as [H1 H2]. unfold setting_of, is_prefix.
    rewrite !bool_decide_false by (intros [= ?]; done). done.
  - destruct Hwf as (_ & _ & Hl). set (h := print_setting _).
    change (setting_of (h ++ d)) with (take 9 (h ++ d)). apply take_prefix.
    subst h. cbn. by rewrite Hl.
  - change (setting_of (print_setting (Md5Setting salt) ++ d))
      with (up_to_last (print_setting (Md5Setting salt) ++ d)).
    cbn [print_setting]. rewrite (app_assoc (lit "$1$")), <- app_assoc.
    apply up_to_last_app. auto with rust.
  - destruct Hwf as (Hi & _). set (h := print_setting _).
    assert (setting_of (h ++ d) = up_to_last (h ++ d)) as -> by by elem_cases Hi.
    assert (exists front, h = front ++ lit "$") as [front ->].
    { subst h. cbn [print_setting]. eexists. by rewrite !app_assoc. }
    rewrite <- app_assoc. apply up_to_last_app. auto with rust.
Qed.

Lemma salt22_wf : crypt64 salt22 /\ length salt22 = 22%nat
  /\ exists front c, salt22 = front ++ [c] /\ c ∈ lit ".Oeu".
Proof.
  split; [done |]. split; [done |].
  exists (lit "abcdefghijklmnopqrstu"), "."%byte. split; [done |]. find_elem.
Qed.

#[export] Instance pwhash_laws : PwhashLaws N.
Proof.
  split.
  - done.
  - done.
  - intros c password w hash w' Hc [= <- <-]. exists "b"%byte, salt22, (lit "x").
    split_and!; [done | find_elem | | done]. split; [find_elem |]. split; [lia |]. apply salt22_wf.
  - intros password w hash w' [= <- <-]. by exists (lit "ab"), (lit "x").
  - intros r password w hash w' Hr [= <- <-]. by exists (lit "abcd"), (lit "x").
  - intros password w hash w' [= <- <-]. exists (lit "salt"), (lit "x").
    split_and!; [done | | done]. split; [done | cbn; lia].
  - intros r password w hash w' Hr [= <- <-]. exists (Some r), (lit "salt"), (lit "x").
    split_and!; [done | find_elem | | done].
    split_and!; [find_elem | done | cbn; lia.. |]. by intros ? [= <-].
  - intros r password w hash w' Hr [= <- <-]. exists None, (lit "salt"), (lit "x").
    split_and!; [done | find_elem | | done].
    split_and!; [find_elem | done | cbn; lia.. |]. done.
  - intros password s d Hwf Hd. cbn. rewrite setting_of_print by done.
    rewrite <- (app_nil_r (print_setting s)) at 2. by rewrite setting_of_print.
  - intros password s hash Hwf. cbn. rewrite <- (app_nil_r (print_setting s)) at 1.
    rewrite setting_of_print by done. intros [= <-]. by exists (lit "x").
Qed.

End Toy.

Import Toy.

Lemma salt_prefix_spec_witness :
  salt_prefix (print_setting (ShaSetting "5" (Some 10000) (lit "NaCl")) ++ lit "digest")
    (lit "sha256crypt") = Ok (lit "$5$rounds=10000$NaCl$")
  /\ salt_prefix (print_setting (BcryptSetting "b" 6 salt22) ++ lit "digest") (lit "bf")
    = Ok (lit "$2a$06$abcdefghijklmnopqrstu.").
Proof.
  split.
  - apply (salt_prefix_spec (ShaSetting "5" (Some 10000) (lit "NaCl")) (lit "digest"));
      [| reflexivity].
    split_and!; [apply (bool_decide_eq_true_1 ("5"%byte ∈ lit "56")); reflexivity
      | reflexivity | cbn; lia | cbn; lia | intros r [= <-]; lia].
  - apply (salt_prefix_spec (BcryptSetting "b" 6 salt22) (lit "digest")); [| reflexivity].
    split; [apply (bool_decide_eq_true_1 ("b"%byte ∈ lit "aby")); reflexivity |].
    split; [lia | apply salt22_wf].
Defined.

Lemma gen_salt_spec_witness :
  (exists s digest, lit "$2b$06$abcdefghijklmnopqrstu.x" = print_setting s ++ digest
    /\ wf_setting s /\ crypt64 digest /\ algorithm_of s = "bf" /\ carries s 6
    /\ gen_salt (lit "BF") 0 9%N = (Ok (print_setting (published s)), 10%N))
  /\ gen_salt (lit "MD5") 999 9%N
     = (Err (PgError (lit "md5crypt iteration count must be 1000 when specified")), 9%N).
Proof.
  split.
  - exact (gen_salt_spec (W := N) (lit "BF") "bf" 0 9%N eq_refl eq_refl).
  - assert (- 2 ^ 31 <= 999) as Hr by discriminate.
    exact (gen_salt_spec (W := N) (lit "MD5") "md5" 999 9%N eq_refl eq_refl Hr).
Defined.


Lemma crypt_verifies_witness :
  crypt (lit "secret") (lit "$1$salt$x") = Ok (lit "$1$salt$x")
  /\ lit "$1$salt$" `prefix_of` lit "$1$salt$x".
Proof.
  apply (crypt_verifies (W := N) (lit "md5") "md5" 0 1000 9%N (lit "secret") (lit "$1$salt$") 10%N
    (lit "$1$salt$x")); reflexivity.
Defined.
