(* ===== verification/ArmorFormat.v ===== *)
(** * The ASCII armor format of OpenPGP (RFC 4880, section 6)

    The text between the extension and Sequoia's armor writer and reader, written
    out as the standard defines it: radix-64 with its padding, the CRC-24 checksum,
    the header lines and the two framing lines.  [armored] relates a text to the
    headers and the data it carries; [read_text] is a reader of the format, which
    shows that a text carries one list of headers and one block of data only. *)
From stdpp Require Import base tactics list numbers option strings.
From Stdlib Require Import Strings.Byte ZifyBool.
From S2P Require Import Prelude RustStr.

Local Open Scope N_scope.

(** ** Radix 64 *)

Definition alphabet : bytes :=
  lit "ABCDEFGHIJKLMNOPQRSTUVWXYZabcdefghijklmnopqrstuvwxyz0123456789+/".

(** The digit for a six-bit value, and the value of a digit. *)
Definition sextet (n : N) : byte := nth (N.to_nat n) alphabet "A"%byte.

Definition sextet_value (c : byte) : N :=
  if in_range 65 90 c then u8 c - 65
  else if in_range 97 122 c then u8 c - 71
  else if in_range 48 57 c then u8 c + 4
  else if bool_decide (c = "+"%byte) then 62 else 63.

(** Three octets are four digits; a last group of one or two is padded. *)
Fixpoint radix64 (s : bytes) : bytes :=
  match s with
  | a :: b :: c :: rest =>
      sextet (u8 a / 4) :: sextet (u8 a mod 4 * 16 + u8 b / 16)
        :: sextet (u8 b mod 16 * 4 + u8 c / 64) :: sextet (u8 c mod 64) :: radix64 rest
  | [a; b] =>
      [sextet (u8 a / 4); sextet (u8 a mod 4 * 16 + u8 b / 16); sextet (u8 b mod 16 * 4); "="%byte]
  | [a] => [sextet (u8 a / 4); sextet (u8 a mod 4 * 16); "="%byte; "="%byte]
  | [] => []
  end.

Fixpoint unradix64 (s : bytes) : bytes :=
  match s with
  | a :: b :: c :: d :: rest =>
      let first := byte_of (sextet_value a * 4 + sextet_value b / 16) in
      let second := byte_of (sextet_value b mod 16 * 16 + sextet_value c / 4) in
      let third := byte_of (sextet_value c mod 4 * 64 + sextet_value d) in
      if bool_decide (c = "="%byte) then [first]
      else if bool_decide (d = "="%byte) then [first; second]
      else first :: second :: third :: unradix64 rest
  | _ => []
  end.

(** ** CRC-24 *)

Definition crc24_shift (crc : N) : N :=
  let shifted := N.shiftl crc 1 in
  if N.testbit shifted 24 then N.lxor shifted 0x1864CFB else shifted.

Definition crc24_octet (crc : N) (b : byte) : N :=
  Nat.iter 8 crc24_shift (N.lxor crc (N.shiftl (u8 b) 16)).

Definition crc24 (data : bytes) : N := fold_left crc24_octet data 0xB704CE.

Definition checksum_line (data : bytes) : bytes :=
  let crc := crc24 data in
  "="%byte :: radix64 [byte_of (crc / 65536); byte_of (crc / 256 mod 256); byte_of (crc mod 256)].

(** ** The text *)

Definition line_end : byte := "010"%byte.

Definition begin_line : bytes := lit "-----BEGIN PGP MESSAGE-----".
Definition end_line : bytes := lit "-----END PGP MESSAGE-----".
Definition header_line (h : bytes * bytes) : bytes := h.1 ++ lit ": " ++ h.2.

(** The pieces of [n] octets of the data, the last one perhaps shorter. *)
Fixpoint pieces_go (fuel n : nat) (s : bytes) : list bytes :=
  match fuel, s with
  | S f, _ :: _ => take n s :: pieces_go f n (drop n s)
  | _, _ => []
  end.
Definition pieces (n : nat) (s : bytes) : list bytes := pieces_go (length s) n s.

(** Each line of the body carries [groups] groups of three octets, so it has
    [4 * groups] characters; the checksum is optional. *)
Definition text_lines (groups : nat) (checksum : bool) (headers : list (bytes * bytes))
    (data : bytes) : list bytes :=
  begin_line :: (header_line <$> headers) ++ [] :: (radix64 <$> pieces (3 * groups) data)
    ++ (if checksum then [checksum_line data] else []) ++ [end_line].

Definition print_lines (ls : list bytes) : bytes := ls ≫= fun l => l ++ [line_end].

(** No line is longer than the 76 characters of the standard. *)
Inductive armored (headers : list (bytes * bytes)) (data text : bytes) : Prop :=
| armored_intro groups checksum :
    (1 <= groups <= 19)%nat ->
    text = print_lines (text_lines groups checksum headers data) ->
    armored headers data text.

(** Headers the format keeps as they are: a key of graphic characters without a
    colon, a printable value without outer blanks. *)
Definition printable (b : byte) : bool := in_range 32 126 b.
Definition clean (h : bytes * bytes) : Prop :=
  h.1 <> [] /\ graphic h.1 = true /\ (":"%byte ∉ h.1)
  /\ h.2 <> [] /\ forallb printable h.2 = true /\ trim h.2 = h.2.

(** A reader: the headers up to the blank line, the body up to the checksum or
    the last line. *)
Fixpoint read_headers (ls : list bytes) : option (list (bytes * bytes) * list bytes) :=
  match ls with
  | [] => None
  | [] :: rest => Some ([], rest)
  | l :: rest =>
      '(key, value) ← split_once ":" l;
      '(headers, body) ← read_headers rest;
      Some ((key, drop 1 value) :: headers, body)
  end.

Definition ends_body (l : bytes) : bool :=
  match l with c :: _ => bool_decide (c ∈ lit "=-") | [] => true end.

Fixpoint read_body (ls : list bytes) : bytes :=
  match ls with
  | [] => []
  | l :: rest => if ends_body l then [] else unradix64 l ++ read_body rest
  end.

Definition read_text (text : bytes) : option (list (bytes * bytes) * bytes) :=
  match split_on line_end text with
  | [] => None
  | first :: rest =>
      if bool_decide (first = begin_line) then
        '(headers, body) ← read_headers rest;
        Some (headers, read_body body)
      else None
  end.

(** ** Lemmas: radix 64 *)

Lemma sextet_roundtrip n : n < 64 -> sextet_value (sextet n) = n.
Proof.
  intros Hn.
  assert (forallb (fun k => sextet_value (sextet (N.of_nat k)) =? N.of_nat k) (seq 0 64) = true)
    as Hall by by vm_compute.
  rewrite forallb_forall in Hall.
  specialize (Hall (N.to_nat n)). rewrite N2Nat.id in Hall. apply N.eqb_eq, Hall.
  apply in_seq. lia.
Qed.

(** The characters of a radix-64 text. *)
Definition radix64_char (c : byte) : bool := bool_decide (c ∈ alphabet) || bool_decide (c = "="%byte).

Lemma sextet_alphabet n : sextet n ∈ alphabet.
Proof.
  unfold sextet. apply list_elem_of_In.
  destruct (nth_in_or_default (N.to_nat n) alphabet "A"%byte) as [Hin | ->]; [done |].
  apply list_elem_of_In, list_elem_of_here.
Qed.

Lemma alphabet_letter c : c ∈ alphabet -> c <> "="%byte /\ (c ∉ lit "=-").
Proof.
  intros Hc. apply (bool_decide_eq_true_1 (c <> "="%byte /\ (c ∉ lit "=-"))).
  assert (forallb (fun c => bool_decide (c <> "="%byte /\ (c ∉ lit "=-"))) alphabet = true) as Hall
    by by vm_compute.
  rewrite forallb_forall in Hall. by apply Hall, list_elem_of_In.
Qed.

Lemma sextet_not_pad n : sextet n <> "="%byte.
Proof. apply alphabet_letter, sextet_alphabet. Qed.

Lemma sextet_char n : radix64_char (sextet n) = true.
Proof. unfold radix64_char. by rewrite bool_decide_true by apply sextet_alphabet. Qed.

(** Induction along the groups of three. *)
Lemma groups_ind (P : bytes -> Prop) :
  P [] -> (forall a, P [a]) -> (forall a b, P [a; b]) ->
  (forall a b c s, P s -> P (a :: b :: c :: s)) -> forall s, P s.
Proof.
  intros H0 H1 H2 H3 s.
  induction s as [s IH] using (induction_ltof1 _ (@length byte)). unfold ltof in IH.
  destruct s as [| a [| b [| c s]]]; auto. apply H3, IH. cbn. lia.
Qed.

Lemma radix64_chars s : forallb radix64_char (radix64 s) = true.
Proof.
  induction s as [| a | a b | a b c s IH] using groups_ind; cbn [radix64 forallb];
    rewrite ?sextet_char; done.
Qed.

Lemma u8_bound (b : byte) : u8 b < 256.
Proof. apply N.ltb_lt. revert b. apply byte_forall. by vm_compute. Qed.

Lemma byte_of_u8 (b : byte) n : n = u8 b -> byte_of n = b.
Proof. intros ->. unfold byte_of, u8. by rewrite Byte.of_to_N. Qed.

(** Arithmetic on the parts of an octet. *)
Ltac octets :=
  repeat match goal with
  | b : Byte.byte |- _ =>
      lazymatch goal with _ : u8 b < 256 |- _ => fail | _ => pose proof (u8_bound b) end
  end;
  repeat (rewrite sextet_roundtrip by (zify; Z.to_euclidean_division_equations; lia));
  zify; Z.to_euclidean_division_equations; lia.

Lemma unradix64_radix64 s : unradix64 (radix64 s) = s.
Proof.
  induction s as [| a | a b | a b c s IH] using groups_ind; [done | ..];
    cbn [radix64 unradix64];
    rewrite ?(bool_decide_false (sextet _ = "="%byte)) by apply sextet_not_pad;
    rewrite ?(bool_decide_true ("="%byte = "="%byte)) by done;
    rewrite ?IH; repeat f_equal; apply byte_of_u8; octets.
Qed.

(** ** Lemmas: lines *)

Lemma pieces_nil n : pieces n [] = [].
Proof. done. Qed.

Lemma mjoin_cons {A} (l : list A) ls : mjoin (l :: ls) = l ++ mjoin ls.
Proof. done. Qed.

Lemma pieces_go_spec fuel n s :
  (0 < n)%nat -> (length s <= fuel)%nat ->
  mjoin (pieces_go fuel n s) = s /\ Forall (fun p => p <> []) (pieces_go fuel n s).
Proof.
  intros Hn. revert s. induction fuel as [| f IH]; intros [| a s] Hs; try (cbn in *; lia); try done.
  cbn [pieces_go].
  assert (length (drop n (a :: s)) <= f)%nat as Hd by (rewrite length_drop; cbn in *; lia).
  destruct (IH _ Hd) as [Hj Hp]. split.
  - rewrite mjoin_cons, Hj. apply take_drop.
  - constructor; [by destruct n; [lia |] | done].
Qed.

(** The pieces are the data, cut. *)
Lemma pieces_join n s : (0 < n)%nat -> mjoin (pieces n s) = s.
Proof. intros Hn. by apply pieces_go_spec. Qed.

Lemma pieces_not_empty n s : (0 < n)%nat -> Forall (fun p => p <> []) (pieces n s).
Proof. intros Hn. by apply pieces_go_spec. Qed.

(** The characters of every line but the headers. *)
Definition body_char (c : byte) : bool := radix64_char c || in_range 65 90 c || bool_decide (c ∈ lit "- ").

Lemma radix64_body_char s : forallb body_char (radix64 s) = true.
Proof.
  pose proof (radix64_chars s) as Hs. rewrite forallb_forall in *. intros c Hc.
  unfold body_char. by rewrite (Hs c Hc).
Qed.

(** A character a line of text can hold: printable, so ASCII and no line end. *)
Lemma body_char_printable c : body_char c = true -> printable c = true.
Proof.
  intros Hc. assert (implb (body_char c) (printable c) = true) as Hall
    by (revert c Hc; intros c _; revert c; apply byte_forall; by vm_compute).
  by rewrite Hc in Hall.
Qed.

Lemma radix64_printable s : forallb printable (radix64 s) = true.
Proof.
  pose proof (radix64_body_char s) as Hs. rewrite forallb_forall in *.
  intros c Hc. by apply body_char_printable, Hs.
Qed.

Lemma header_printable h : clean h -> forallb printable (header_line h) = true.
Proof.
  intros (_ & Hk & _ & _ & Hv & _). unfold header_line. rewrite !forallb_app, Hv, andb_true_r.
  unfold graphic in Hk. rewrite forallb_forall in *. intros c Hc. specialize (Hk c Hc).
  unfold is_graphic, printable, in_range in *. lia.
Qed.

(** Every line of an armored text is printable. *)
Lemma text_printable groups checksum headers data :
  Forall clean headers ->
  Forall (fun l => forallb printable l = true) (text_lines groups checksum headers data).
Proof.
  intros Hh. unfold text_lines. constructor; [done |]. apply Forall_app. split.
  { apply Forall_fmap. eapply Forall_impl; [exact Hh | apply header_printable]. }
  constructor; [done |]. apply Forall_app. split.
  { apply Forall_fmap, Forall_true. intros p. apply radix64_printable. }
  apply Forall_app. split; [| by repeat constructor].
  destruct checksum; [| constructor]. constructor; [| constructor].
  unfold checksum_line. cbv zeta. cbn [forallb]. by rewrite radix64_printable.
Qed.

Lemma printable_no_line_end l : forallb printable l = true -> line_end ∉ l.
Proof. rewrite forallb_forall. intros H Hin%list_elem_of_In. by apply H in Hin. Qed.

Lemma printable_ascii l : forallb printable l = true -> is_ascii l = true.
Proof.
  unfold is_ascii. rewrite !forallb_forall. intros H c Hc. specialize (H c Hc).
  unfold printable, in_range, is_ascii_byte in *. lia.
Qed.

Lemma print_lines_ascii ls :
  Forall (fun l => forallb printable l = true) ls -> is_ascii (print_lines ls) = true.
Proof.
  unfold print_lines. induction 1 as [| l ls Hl _ IH]; [done |].
  by rewrite bind_cons, !is_ascii_app, IH, (printable_ascii l) by done.
Qed.

Lemma split_print_lines ls :
  Forall (fun l => forallb printable l = true) ls -> split_on line_end (print_lines ls) = ls ++ [[]].
Proof.
  unfold print_lines. induction 1 as [| l ls Hl _ IH]; [done |].
  rewrite bind_cons, <- app_assoc. cbn [app].
  by rewrite split_on_app, IH, split_on_no_sep by by apply printable_no_line_end.
Qed.

(** An armored text is ASCII, so it is a string. *)
Lemma armored_ascii headers data text :
  Forall clean headers -> armored headers data text -> is_ascii text = true.
Proof. intros Hh [groups checksum _ ->]. by apply print_lines_ascii, text_printable. Qed.

(** ** Lemmas: reading *)

Lemma read_headers_print headers rest :
  Forall clean headers ->
  read_headers ((header_line <$> headers) ++ [] :: rest) = Some (headers, rest).
Proof.
  induction 1 as [| [key value] headers (Hk & _ & Hcolon & _) _ IH]; [done |].
  cbn [fst] in Hk, Hcolon. rewrite fmap_cons. cbn [app].
  assert (exists c l, header_line (key, value) = c :: l) as (c & l & E)
    by (destruct key; [done |]; by eexists _, _).
  change (read_headers (header_line (key, value) :: (header_line <$> headers) ++ [] :: rest)
          = Some ((key, value) :: headers, rest)).
  rewrite E. cbn [read_headers]. rewrite <- E.
  change (header_line (key, value)) with (key ++ ":"%byte :: " "%byte :: value).
  rewrite split_once_app by done. cbn [mbind option_bind]. by rewrite IH.
Qed.

Lemma radix64_not_end p : p <> [] -> ends_body (radix64 p) = false.
Proof.
  destruct p as [| a [| b [| c p]]]; [done | ..]; intros _;
    apply bool_decide_eq_false, alphabet_letter, sextet_alphabet.
Qed.

Lemma read_body_print ps rest :
  Forall (fun p => p <> []) ps ->
  read_body ((radix64 <$> ps) ++ rest) = mjoin ps ++ read_body rest.
Proof.
  induction 1 as [| p ps Hp _ IH]; [done |]. rewrite fmap_cons. cbn [app read_body].
  by rewrite radix64_not_end, unradix64_radix64, mjoin_cons, <- app_assoc, IH.
Qed.

(** What an armored text carries is read back from it. *)
Lemma read_armored headers data text :
  Forall clean headers -> armored headers data text -> read_text text = Some (headers, data).
Proof.
  intros Hh [groups checksum Hg ->]. unfold read_text.
  rewrite split_print_lines by by apply text_printable.
  unfold text_lines. cbn [app]. rewrite bool_decide_true by done.
  rewrite <- app_assoc. cbn [app]. rewrite read_headers_print by done. cbn [mbind option_bind].
  rewrite <- app_assoc, read_body_print by (apply pieces_not_empty; lia).
  rewrite pieces_join by lia. do 2 f_equal.
  assert (read_body (((if checksum then [checksum_line data] else []) ++ [end_line]) ++ [[]]) = [])
    as -> by by destruct checksum.
  apply app_nil_r.
Qed.

(** A text carries one list of headers and one block of data. *)
Lemma armored_inj headers data headers' data' text :
  Forall clean headers -> Forall clean headers' ->
  armored headers data text -> armored headers' data' text ->
  headers = headers' /\ data = data'.
Proof.
  intros Hh Hh' Ha%read_armored Ha'%read_armored; [| done..].
  rewrite Ha in Ha'. by injection Ha'.
Qed.

(** The checksum of no octets is the initial value, printed [twTO], and the
    standard check value of the nine digits. *)
Example crc24_empty : checksum_line [] = lit "=twTO".
Proof. by vm_compute. Qed.

Example crc24_check : crc24 (lit "123456789") = 0x21CF02.
Proof. by vm_compute. Qed.

Example radix64_example : radix64 (lit "foob") = lit "Zm9vYg==".
Proof. by vm_compute. Qed.
