(* ===== verification/Armor.v ===== *)
(** * ASCII armor ([src/armor.rs])

    Sequoia's armor writer and reader are the class [ArmorCrate], with laws that
    tie each of them to the format of RFC 4880 ([ArmorFormat]).  The model is the
    code around them: the SQL arrays of header keys and values with their
    NULLs and dimensions, the checks on every header in their order, and the
    error texts. *)
From stdpp Require Import base tactics list numbers option strings.
From Stdlib Require Import Strings.Byte.
From S2P Require Import Prelude RustStr ArmorFormat.

(** ** The crate the code calls *)

(** [sequoia_openpgp::armor]: a [Writer] over a [Vec<u8>], a [Reader] over a
    [Cursor]. *)
Class ArmorCrate := {
  Kind : Type;
  Message : Kind;
  ReaderMode : Type;
  Tolerant : option Kind -> ReaderMode;
  Writer : Type;
  with_headers : Kind -> list (bytes * bytes) -> fallible Writer;
  write_all : Writer -> bytes -> fallible Writer;
  finalize : Writer -> fallible bytes;
  Reader : Type;
  from_reader : bytes -> ReaderMode -> Reader;
  read_to_end : Reader -> fallible bytes;
  reader_headers : Reader -> fallible (list (bytes * bytes));
}.

(** [pgrx::Array<&str>]: its elements in storage order, a NULL as [None], and the
    number of dimensions of the array header (0 for an empty array). *)
Record pg_array := { elements : list (option bytes); ndim : Z }.

(** ** Operations *)

Definition NEWLINE : byte := "010"%byte.

Definition armor_error {A} (context : string) (error : bytes) : outcome A :=
  pg_error (lit context ++ lit ": " ++ error).

(** The elements of an array none of which may be NULL. *)
Definition collect_not_null (array : pg_array) (message : string) : outcome (list bytes) :=
  mapM (fun element => ok_or_else element (pg_error (lit message))) (elements array).

(** The closure applied to every key and value. *)
Definition check_header (header : bytes * bytes) : outcome (bytes * bytes) :=
  let '(key, value) := header in
  if negb (is_ascii key)
  then pg_error (lit "armor header key must not contain non-ASCII characters")
  else if contains_str (lit ": ") key
  then pg_error (lit "armor header key must not contain ': '")
  else if contains_byte NEWLINE key
  then pg_error (lit "armor header key must not contain newlines")
  else if negb (is_ascii value)
  then pg_error (lit "armor header value must not contain non-ASCII characters")
  else if contains_byte NEWLINE value
  then pg_error (lit "armor header value must not contain newlines")
  else Ok (key, value).

Section operations.
Context `{ArmorCrate}.

Definition encode_armor (data : bytes) (headers : list (bytes * bytes)) : outcome bytes :=
  writer ← unwrap_or_else (with_headers Message headers)
             (armor_error "could not initialize ASCII armor");
  writer ← unwrap_or_else (write_all writer data) (armor_error "could not encode ASCII armor");
  output ← unwrap_or_else (finalize writer) (armor_error "could not finalize ASCII armor");
  unwrap_or_else (from_utf8 output) (armor_error "ASCII armor was not UTF-8").

Definition armor (data : bytes) : outcome bytes := encode_armor data [].

Definition armor_with_headers (data : bytes) (keys values : pg_array) : outcome bytes :=
  key_array ← collect_not_null keys "armor header keys cannot be NULL";
  let key_dimensions := ndim keys in
  value_array ← collect_not_null values "armor header values cannot be NULL";
  let value_dimensions := ndim values in
  if (1 <? key_dimensions)%Z || negb (key_dimensions =? value_dimensions)%Z
  then pg_error (lit "wrong number of armor header array subscripts")
  else if negb (length key_array =? length value_array)%nat
  then pg_error (lit "armor header arrays have mismatched dimensions")
  else
    headers ← mapM check_header (zip key_array value_array);
    encode_armor data headers.

Definition dearmor (data : bytes) : outcome bytes :=
  let reader := from_reader data (Tolerant (Some Message)) in
  unwrap_or_else (read_to_end reader) (armor_error "invalid ASCII armor").

Definition pgp_armor_headers (data : bytes) : outcome (list (bytes * bytes)) :=
  let reader := from_reader data (Tolerant (Some Message)) in
  unwrap_or_else (reader_headers reader) (armor_error "invalid ASCII armor").

End operations.

(** ** Specification *)

(** The rules on a header, in the order they are reported. *)
Definition header_rules : list (string * (bytes * bytes -> Prop)) :=
  [ ("armor header key must not contain non-ASCII characters",
     fun h => exists b, b ∈ h.1 /\ (128 <= u8 b)%N);
    ("armor header key must not contain ': '",
     fun h => exists before after, h.1 = before ++ lit ": " ++ after);
    ("armor header key must not contain newlines", fun h => NEWLINE ∈ h.1);
    ("armor header value must not contain non-ASCII characters",
     fun h => exists b, b ∈ h.2 /\ (128 <= u8 b)%N);
    ("armor header value must not contain newlines", fun h => NEWLINE ∈ h.2) ].

(** [breaks h message]: the first rule [h] violates is the one with [message]. *)
Fixpoint breaks_first (rules : list (string * (bytes * bytes -> Prop))) (h : bytes * bytes)
    (message : string) : Prop :=
  match rules with
  | [] => False
  | (m, violated) :: rest =>
      (violated h /\ message = m) \/ (~ violated h /\ breaks_first rest h message)
  end.
Definition breaks (h : bytes * bytes) (message : string) : Prop :=
  breaks_first header_rules h message.
Definition acceptable (h : bytes * bytes) : Prop :=
  Forall (fun rule => ~ rule.2 h) header_rules.

(** Why the arrays are refused, in the order the code reports it. *)
Inductive refused (keys values : pg_array) : string -> Prop :=
| null_key :
    None ∈ elements keys -> refused keys values "armor header keys cannot be NULL"
| null_value :
    (None ∉ elements keys) -> None ∈ elements values ->
    refused keys values "armor header values cannot be NULL"
| bad_subscripts :
    (None ∉ elements keys) -> (None ∉ elements values) ->
    (1 < ndim keys \/ ndim keys <> ndim values)%Z ->
    refused keys values "wrong number of armor header array subscripts"
| bad_lengths :
    (None ∉ elements keys) -> (None ∉ elements values) ->
    (ndim keys <= 1 /\ ndim keys = ndim values)%Z ->
    length (elements keys) <> length (elements values) ->
    refused keys values "armor header arrays have mismatched dimensions"
| bad_header before h after message ks vs :
    elements keys = Some <$> ks -> elements values = Some <$> vs ->
    (ndim keys <= 1 /\ ndim keys = ndim values)%Z -> length ks = length vs ->
    zip ks vs = before ++ h :: after -> Forall acceptable before -> breaks h message ->
    refused keys values message.

(** The arrays that carry headers. *)
Definition carry (keys values : pg_array) (headers : list (bytes * bytes)) : Prop :=
  elements keys = Some <$> headers.*1 /\ elements values = Some <$> headers.*2
  /\ (ndim keys <= 1)%Z /\ ndim keys = ndim values /\ Forall acceptable headers.

(** Documented behaviour of the crate, on either side of the format of RFC 4880
    ([armored]): for data and headers the format keeps as they are, writing into a
    vector succeeds and gives an armored text; and the reader finds in an armored
    text, of any line length and with or without a checksum, what it carries.
    Neither law is about empty data, for which the writer emits no armor. *)
Class ArmorLaws `{ArmorCrate} : Prop := {
  writer_law headers data :
    Forall clean headers -> data <> [] ->
    exists w w' out, with_headers Message headers = Ok w /\ write_all w data = Ok w'
      /\ finalize w' = Ok out /\ armored headers data out;
  reader_body_law headers data text :
    Forall clean headers -> data <> [] -> armored headers data text ->
    read_to_end (from_reader text (Tolerant (Some Message))) = Ok data;
  reader_headers_law headers data text :
    Forall clean headers -> data <> [] -> armored headers data text ->
    reader_headers (from_reader text (Tolerant (Some Message))) = Ok headers;
}.

(** ** Lemmas *)

Lemma not_ascii s : negb (is_ascii s) = true <-> exists b, b ∈ s /\ (128 <= u8 b)%N.
Proof.
  unfold is_ascii. induction s as [| a s IH]; cbn.
  - split; [done |]. by intros (b & Hb%elem_of_nil & _).
  - rewrite negb_andb, orb_true_iff, IH. unfold is_ascii_byte.
    rewrite negb_true_iff, N.ltb_ge. split.
    + intros [Ha | (b & Hb & Hn)]; [exists a | exists b]; split; try done.
      * apply list_elem_of_here.
      * by apply list_elem_of_further.
    + intros (b & [-> | Hb]%elem_of_cons & Hn); [by left | right; eauto].
Qed.

Lemma contains_str_true p s :
  contains_str p s = true <-> exists before after, s = before ++ p ++ after.
Proof.
  induction s as [| a s IH]; cbn [contains_str]; rewrite orb_true_iff, is_prefix_true.
  - split; [intros [[t Ht] | [=]]; by exists [], t |].
    intros (b & t & E). left. exists t. symmetry in E. apply app_eq_nil in E as [-> E]. by rewrite E.
  - rewrite IH. split.
    + intros [[t Ht] | (b & t & ->)]; [by exists [], t | by exists (a :: b), t].
    + intros ([| c b] & t & E); [left; by exists t |]. right. injection E as -> ->. eauto.
Qed.

Lemma contains_byte_true c s : contains_byte c s = true <-> c ∈ s.
Proof. unfold contains_byte. apply bool_decide_eq_true. Qed.

(** The rules as the tests of the code. *)
Definition header_tests (h : bytes * bytes) : list bool :=
  [negb (is_ascii h.1); contains_str (lit ": ") h.1; contains_byte NEWLINE h.1;
   negb (is_ascii h.2); contains_byte NEWLINE h.2].

Lemma header_tests_rules h :
  Forall2 (fun test (rule : string * (bytes * bytes -> Prop)) => test = true <-> rule.2 h)
    (header_tests h) header_rules.
Proof.
  unfold header_tests, header_rules. repeat constructor; cbn [snd];
    first [apply not_ascii | apply contains_str_true | apply contains_byte_true].
Qed.

(** The first failing test with its message. *)
Fixpoint first_failure (tests : list bool) (rules : list (string * (bytes * bytes -> Prop)))
    : option string :=
  match tests, rules with
  | test :: tests, (m, _) :: rules => if test then Some m else first_failure tests rules
  | _, _ => None
  end.

Lemma first_failure_spec tests rules h :
  Forall2 (fun test (rule : string * (bytes * bytes -> Prop)) => test = true <-> rule.2 h)
    tests rules ->
  (forall m, first_failure tests rules = Some m <-> breaks_first rules h m)
  /\ (first_failure tests rules = None <-> Forall (fun rule => ~ rule.2 h) rules).
Proof.
  induction 1 as [| test [m violated] tests rules Ht _ [IHs IHn]]; cbn in *.
  - split; [naive_solver |]. split; [constructor | done].
  - rewrite Forall_cons. cbn. destruct test; split; try intros m'; naive_solver.
Qed.

Lemma check_header_eq h :
  check_header h = match first_failure (header_tests h) header_rules with
                   | Some m => Err (PgError (lit m))
                   | None => Ok h
                   end.
Proof.
  destruct h as [key value]. unfold check_header, header_tests, header_rules. cbn [first_failure fst snd].
  by repeat case_match.
Qed.

Lemma check_header_breaks h m : breaks h m -> check_header h = Err (PgError (lit m)).
Proof.
  intros Hb. rewrite check_header_eq.
  by rewrite (proj2 (proj1 (first_failure_spec _ _ h (header_tests_rules h)) m) Hb).
Qed.

Lemma check_header_acceptable h : acceptable h -> check_header h = Ok h.
Proof.
  intros Hb. rewrite check_header_eq.
  by rewrite (proj2 (proj2 (first_failure_spec _ _ h (header_tests_rules h))) Hb).
Qed.

Lemma acceptable_or_breaks h : acceptable h \/ exists m, breaks h m.
Proof.
  destruct (first_failure_spec _ _ h (header_tests_rules h)) as [Hs Hn].
  destruct (first_failure (header_tests h) header_rules) as [m |] eqn:E.
  - right. exists m. by apply Hs.
  - left. by apply Hn.
Qed.

Lemma mapM_Ok {E A B} (f : A -> result E B) (g : A -> B) l :
  Forall (fun a => f a = Ok (g a)) l -> mapM f l = Ok (g <$> l).
Proof.
  induction 1 as [| a l Ha _ IH]; [done |]. cbn [mapM]. rewrite Ha.
  cbn [mbind result_bind]. by rewrite IH.
Qed.

(** The first failure of a traversal. *)
Lemma mapM_Err {E A B} (f : A -> result E B) (g : A -> B) before a after e :
  Forall (fun a => f a = Ok (g a)) before -> f a = Err e -> mapM f (before ++ a :: after) = Err e.
Proof.
  intros Hb Ha. induction Hb as [| b l Hbl _ IH]; cbn [app mapM].
  - by rewrite Ha.
  - rewrite Hbl. cbn [mbind result_bind]. by rewrite IH.
Qed.

Lemma all_Some {A} (l : list (option A)) : None ∉ l -> exists ks, l = Some <$> ks.
Proof.
  induction l as [| [a |] l IH]; rewrite ?not_elem_of_cons; [by exists [] | | naive_solver].
  intros [_ Hl]. destruct (IH Hl) as [ks ->]. by exists (a :: ks).
Qed.

Lemma collect_Some array ks message :
  elements array = Some <$> ks -> collect_not_null array message = Ok ks.
Proof.
  intros Ha. unfold collect_not_null. rewrite Ha. clear Ha.
  induction ks as [| k ks IH]; [done |]. rewrite fmap_cons. cbn [mapM ok_or_else mbind result_bind].
  by rewrite IH.
Qed.

Lemma collect_None array message :
  None ∈ elements array -> collect_not_null array message = Err (PgError (lit message)).
Proof.
  unfold collect_not_null. induction (elements array) as [| [k |] l IH]; [by intros ?%elem_of_nil | |].
  - intros [[=] | Hl]%elem_of_cons. cbn [mapM ok_or_else mbind result_bind]. by rewrite IH.
  - done.
Qed.

Section properties.
Context `{ArmorCrate}.

(** Arrays that are not refused carry headers. *)
Lemma carry_or_refused keys values :
  (exists headers, carry keys values headers) \/ (exists m, refused keys values m).
Proof.
  destruct (decide (None ∈ elements keys)) as [Hk | Hk]; [right; eauto using null_key |].
  destruct (decide (None ∈ elements values)) as [Hv | Hv]; [right; eauto using null_value |].
  destruct (decide (ndim keys <= 1 /\ ndim keys = ndim values)%Z) as [Hd | Hd];
    [| right; eexists; apply bad_subscripts; [done | done | lia]].
  destruct (decide (length (elements keys) = length (elements values))) as [Hl | Hl];
    [| right; eexists; by apply bad_lengths].
  destruct (all_Some _ Hk) as [ks Eks], (all_Some _ Hv) as [vs Evs].
  rewrite Eks, Evs, !length_fmap in Hl.
  assert (Hz : forall hs, (Forall acceptable hs) \/ exists before h after m,
             hs = before ++ h :: after /\ Forall acceptable before /\ breaks h m).
  { induction hs as [| h hs IH]; [by left |].
    destruct (acceptable_or_breaks h) as [Ha | [m Hm]]; [| right; by exists [], h, hs, m].
    destruct IH as [IH | (b & h' & a & m & -> & Hb & Hm)]; [left; by constructor |].
    right. exists (h :: b), h', a, m. split_and!; [done | by constructor | done]. }
  destruct (Hz (zip ks vs)) as [Hall | (b & h & a & m & E & Hb & Hm)].
  - left. exists (zip ks vs). unfold carry. rewrite fst_zip, snd_zip by lia. naive_solver.
  - right. exists m. by eapply bad_header.
Qed.

Lemma armor_carried data keys values headers :
  carry keys values headers -> armor_with_headers data keys values = encode_armor data headers.
Proof.
  intros (Hk & Hv & Hd & Hdd & Hh). unfold armor_with_headers.
  rewrite (collect_Some _ _ _ Hk), (collect_Some _ _ _ Hv). cbn [mbind result_bind].
  rewrite (proj2 (Z.ltb_ge _ _)) by done. rewrite Hdd, Z.eqb_refl. cbn [orb negb].
  rewrite !length_fmap, Nat.eqb_refl. cbn [negb].
  rewrite zip_fst_snd, (mapM_Ok _ id), list_fmap_id; [done |].
  eapply Forall_impl; [exact Hh |]. intros h. apply check_header_acceptable.
Qed.

Lemma armor_refused data keys values m :
  refused keys values m -> armor_with_headers data keys values = Err (PgError (lit m)).
Proof.
  unfold armor_with_headers. destruct 1 as [Hk | Hk Hv | Hk Hv Hd | Hk Hv Hd Hl
    | before h after m ks vs Hk Hv Hd Hl Hz Hb Hm].
  - by rewrite (collect_None keys).
  - destruct (all_Some _ Hk) as [ks Eks]. by rewrite (collect_Some _ _ _ Eks), (collect_None values).
  - destruct (all_Some _ Hk) as [ks Eks], (all_Some _ Hv) as [vs Evs].
    rewrite (collect_Some _ _ _ Eks), (collect_Some _ _ _ Evs). cbn [mbind result_bind].
    rewrite (proj2 (orb_true_iff _ _)); [done |].
    rewrite Z.ltb_lt, negb_true_iff, Z.eqb_neq. done.
  - destruct (all_Some _ Hk) as [ks Eks], (all_Some _ Hv) as [vs Evs].
    rewrite (collect_Some _ _ _ Eks), (collect_Some _ _ _ Evs). cbn [mbind result_bind].
    rewrite (proj2 (Z.ltb_ge _ _)), (proj2 (Z.eqb_eq _ _)) by lia. cbn [orb negb].
    rewrite Eks, Evs, !length_fmap in Hl. by rewrite (proj2 (Nat.eqb_neq _ _) Hl).
  - rewrite (collect_Some _ _ _ Hk), (collect_Some _ _ _ Hv). cbn [mbind result_bind].
    rewrite (proj2 (Z.ltb_ge _ _)), (proj2 (Z.eqb_eq _ _)) by lia. cbn [orb negb].
    rewrite Hl, Nat.eqb_refl. cbn [negb]. rewrite Hz.
    erewrite (mapM_Err _ id); [done | | by apply check_header_breaks].
    eapply Forall_impl; [exact Hb |]. intros h'. apply check_header_acceptable.
Qed.

Lemma encode_armor_no_panic data headers : no_panic (encode_armor data headers).
Proof.
  unfold encode_armor, armor_error.
  repeat (apply no_panic_bind; [apply no_panic_unwrap | intros ? _]). apply no_panic_unwrap.
Qed.

(** C15: [armor] with header arrays either encodes the data with the headers the
    arrays carry (equally long, without NULLs, at most one-dimensional, every key
    and value acceptable) or is refused with the message of the first rule broken:
    a NULL key, a NULL value, the dimensions, the lengths, then header by header
    a non-ASCII key, a ": " in it, a newline in it, a non-ASCII value, a newline
    in it.  One of the two always holds, and there is no panic. *)
Theorem armor_with_headers_spec data keys values :
  (forall headers, carry keys values headers ->
     armor_with_headers data keys values = encode_armor data headers)
  /\ (forall m, refused keys values m ->
     armor_with_headers data keys values = Err (PgError (lit m)))
  /\ ((exists headers, carry keys values headers) \/ (exists m, refused keys values m))
  /\ no_panic (armor_with_headers data keys values).
Proof.
  split_and!.
  - intros headers. apply armor_carried.
  - intros m. apply armor_refused.
  - apply carry_or_refused.
  - destruct (carry_or_refused keys values) as [[headers Hc] | [m Hr]].
    + rewrite (armor_carried _ _ _ _ Hc). apply encode_armor_no_panic.
    + rewrite (armor_refused _ _ _ _ Hr). apply no_panic_error.
Qed.

(** A header the format keeps as it is passes the checks. *)
Lemma clean_acceptable h : clean h -> acceptable h.
Proof.
  intros (_ & Hk & Hc & _ & Hv & _). unfold acceptable, header_rules.
  unfold graphic in Hk. rewrite forallb_forall in Hk, Hv.
  assert (Hk' : forall b, b ∈ h.1 -> in_range 33 126 b = true)
    by (intros b Hb; by apply Hk, list_elem_of_In).
  assert (Hv' : forall b, b ∈ h.2 -> in_range 32 126 b = true)
    by (intros b Hb; by apply Hv, list_elem_of_In).
  repeat constructor; cbn [snd].
  - intros (b & Hb & Hn). apply Hk' in Hb. unfold in_range in Hb. lia.
  - intros (x & y & E). apply Hc. rewrite E, elem_of_app. right. apply list_elem_of_here.
  - intros Hb%Hk'. by vm_compute in Hb.
  - intros (b & Hb & Hn). apply Hv' in Hb. unfold in_range in Hb. lia.
  - intros Hb%Hv'. by vm_compute in Hb.
Qed.

End properties.

Section roundtrip.
Context `{ArmorLaws}.

(** The writer's text passes the conversion to a string. *)
Lemma encode_armor_armored data headers :
  Forall clean headers -> data <> [] ->
  exists out, encode_armor data headers = Ok out /\ armored headers data out.
Proof.
  intros Hclean Hdata.
  destruct (writer_law headers data Hclean Hdata) as (w & w' & out & Hw & Hwa & Hf & Harm).
  exists out. split; [| done]. unfold encode_armor.
  rewrite Hw. cbn [unwrap_or_else mbind result_bind].
  rewrite Hwa. cbn [unwrap_or_else mbind result_bind].
  rewrite Hf. cbn [unwrap_or_else mbind result_bind].
  rewrite (proj2 (from_utf8_Ok out out)); [done |]. split; [done |].
  apply ascii_utf8. exact (armored_ascii _ _ _ Hclean Harm).
Qed.

(** C23: For non-empty data and arrays that carry clean headers (keys of visible
    ASCII without a colon, printable values without outer blanks) [armor] succeeds
    with an armored text of exactly these headers, in order, and of the data: every
    check passes, and so does the conversion to a string.  [dearmor] gives the data
    of that text back and [pgp_armor_headers] the pairs of the arrays, in order, as
    they do for any other armored text of them.  Without headers it is the
    one-argument [armor]. *)
Theorem armor_roundtrip data keys values headers :
  carry keys values headers -> Forall clean headers -> data <> [] ->
  (exists out, armor_with_headers data keys values = Ok out
     /\ armored headers data out
     /\ dearmor out = Ok data /\ pgp_armor_headers out = Ok headers
     /\ (headers = [] -> armor data = Ok out))
  /\ (forall text, armored headers data text ->
     dearmor text = Ok data /\ pgp_armor_headers text = Ok headers).
Proof.
  intros Hc Hclean Hdata.
  assert (Hread : forall text, armored headers data text ->
    dearmor text = Ok data /\ pgp_armor_headers text = Ok headers).
  { intros text Ht. unfold dearmor, pgp_armor_headers.
    by rewrite (reader_body_law _ _ _ Hclean Hdata Ht), (reader_headers_law _ _ _ Hclean Hdata Ht). }
  split; [| done].
  destruct (encode_armor_armored data headers Hclean Hdata) as (out & He & Harm).
  exists out. rewrite (armor_carried _ _ _ _ Hc). destruct (Hread out Harm) as [Hd Hh].
  split_and!; try done. by intros ->.
Qed.

End roundtrip.

(** ** A concrete instance, for the witnesses *)
Module Toy.

(** A writer of the format, with lines of 64 characters and a checksum, which
    emits nothing for empty data, and the reader of [ArmorFormat]. *)
Definition write (headers : list (bytes * bytes)) (data : bytes) : bytes :=
  if bool_decide (data = []) then [] else print_lines (text_lines 16 true headers data).

#[export] Instance armor_crate : ArmorCrate := {|
  Kind := unit;
  Message := tt;
  ReaderMode := option unit;
  Tolerant kind := kind;
  Writer := list (bytes * bytes) * bytes;
  with_headers _ headers := Ok (headers, []);
  write_all w data := Ok (w.1, w.2 ++ data);
  finalize w := Ok (write w.1 w.2);
  Reader := bytes;
  from_reader text _ := text;
  read_to_end text :=
    match read_text text with Some (_, data) => Ok data | None => Err (lit "no armor") end;
  reader_headers text :=
    match read_text text with Some (headers, _) => Ok headers | None => Err (lit "no armor") end;
|}.

#[export] Instance armor_laws : ArmorLaws.
Proof.
  split; intros headers data.
  - intros _ Hdata. exists (headers, []), (headers, data), (write headers data).
    split_and!; [done.. |]. unfold write. rewrite bool_decide_false by done.
    apply (armored_intro _ _ _ 16 true); [lia | done].
  - intros text Hh _ Ht. cbn. by rewrite (read_armored _ _ _ Hh Ht).
  - intros text Hh _ Ht. cbn. by rewrite (read_armored _ _ _ Hh Ht).
Qed.

End Toy.

Import Toy.

Definition example_headers : list (bytes * bytes) :=
  [(lit "Comment", lit "hello world"); (lit "Version", lit "1.0")].

Lemma example_clean : Forall clean example_headers.
Proof.
  repeat constructor; try done; by apply contains_byte_false.
Qed.

Definition example_keys : pg_array := {| elements := Some <$> example_headers.*1; ndim := 1 |}.
Definition example_values : pg_array := {| elements := Some <$> example_headers.*2; ndim := 1 |}.

Lemma example_carry : carry example_keys example_values example_headers.
Proof.
  split_and!; try done. eapply Forall_impl; [exact example_clean |]. apply clean_acceptable.
Qed.

Lemma armor_with_headers_spec_witness :
  armor_with_headers (lit "x") example_keys example_values = encode_armor (lit "x") example_headers
  /\ armor_with_headers (lit "x") {| elements := [Some (lit "k"); None]; ndim := 3 |} example_values
     = Err (PgError (lit "armor header keys cannot be NULL")).
Proof.
  split.
  - apply (proj1 (armor_with_headers_spec (lit "x") example_keys example_values)).
    exact example_carry.
  - apply (proj1 (proj2 (armor_with_headers_spec (lit "x")
      {| elements := [Some (lit "k"); None]; ndim := 3 |} example_values))).
    apply null_key. cbn. find_elem.
Defined.

Lemma armor_roundtrip_witness :
  exists out, armor_with_headers (lit "x") example_keys example_values = Ok out
    /\ armored example_headers (lit "x") out
    /\ dearmor out = Ok (lit "x") /\ pgp_armor_headers out = Ok example_headers
    /\ (example_headers = [] -> armor (lit "x") = Ok out).
Proof.
  assert (lit "x" <> []) as Hdata by discriminate.
  exact (proj1 (armor_roundtrip (lit "x") example_keys example_values example_headers
    example_carry example_clean Hdata)).
Defined.

(** The text itself. *)
Example armor_text :
  armor_with_headers (lit "x") example_keys example_values
  = Ok (print_lines (lit <$> ["-----BEGIN PGP MESSAGE-----"; "Comment: hello world";
      "Version: 1.0"; EmptyString; "eA=="; "=ENRY"; "-----END PGP MESSAGE-----"]%string)).
Proof. vm_compute. reflexivity. Qed.
