(* ===== verification/PgpMessage.v ===== *)
(** * OpenPGP messages ([src/pgp.rs], encryption, decryption and key ids)

    Sequoia is the pair of classes [OpenpgpTypes] and [Openpgp].  The model is
    the code around it: which packets are built with which algorithms and keys,
    the layering of the payload, the helpers a decryptor calls back, the cell
    they share with the caller, and the search for a key id.

    A decryptor's streaming is a [protocol]: it calls the helper (inspection of
    a packet, certificates, the search for a session key, the check of the
    structure) any finite number of times and ends in a result. *)
From stdpp Require Import base tactics list numbers option strings.
From Stdlib Require Import Strings.Byte.
From S2P Require Import Prelude RustStr PgpOptions PgpText.

Local Open Scope N_scope.

(** ** The crate the code calls *)

Module DataFormat.
(** [Other] stands for every further variant of the crate's enumeration. *)
Inductive t := Binary | Text | Unicode | Other (tag : N).
#[global] Instance eq_dec : EqDecision t.
Proof. solve_decision. Defined.
End DataFormat.

Class OpenpgpTypes := {
  S2K : Type;
  SessionKey : Type;
  SKESK : Type;
  PKESK : Type;
  other_packet : Type;
  Cert : Type;
  KeyAmalgamation : Type;
  KeyHandle : Type;
  KeyID : Type;
  SecretKey : Type;
  KeyPair : Type;
  Message : Type;
  CompressionLevel : Type;
  Compressor : Type;
  LiteralWriter : Type;
  Encryptor : Type;
  DecryptorBuilder : Type;
  Decryptor : Type;
  MessageStructure : Type;
  (** The state captured by the [decrypt] closure a decryptor hands out. *)
  closure : Type;
}.

Section types.
Context `{OpenpgpTypes}.

(** [openpgp::Packet], with the variants the code matches on. *)
Inductive Packet : Type :=
| PKESK_packet (p : PKESK)
| SKESK_packet (s : SKESK)
| Literal_packet (format : DataFormat.t)
| Other_packet (o : other_packet).

(** What a decryptor does with its helper. *)
Inductive protocol (A : Type) : Type :=
| Done (r : fallible A)
| Inspect (pp : Packet) (k : fallible unit -> protocol A)
| GetCerts (ids : list KeyHandle) (k : fallible (list Cert) -> protocol A)
| CheckStructure (s : MessageStructure) (k : fallible unit -> protocol A)
| AskDecrypt (pkesks : list PKESK) (skesks : list SKESK)
    (sym_algo : option SymmetricAlgorithm.t) (decrypt : closure)
    (k : fallible (option Cert) * closure -> protocol A).

End types.
Arguments Done {_ A} r.
Arguments Inspect {_ A} pp k.
Arguments GetCerts {_ A} ids k.
Arguments CheckStructure {_ A} s k.
Arguments AskDecrypt {_ A} pkesks skesks sym_algo decrypt k.

Class Openpgp (W : Type) `{OpenpgpTypes} := {
  (* [openpgp::crypto] and string-to-key *)
  crypto_random : bytes -> try W bytes;
  S2K_Simple : HashAlgorithm.t -> S2K;
  S2K_Salted : HashAlgorithm.t -> bytes -> S2K;
  S2K_new_iterated : HashAlgorithm.t -> N -> try W S2K;
  derive_key : S2K -> bytes -> N -> fallible SessionKey;
  key_size : SymmetricAlgorithm.t -> fallible N;
  SessionKey_new : N -> try W SessionKey;
  (* session-key packets *)
  SKESK4_new : SymmetricAlgorithm.t -> S2K -> option bytes -> fallible SKESK;
  SKESK4_with_password :
    SymmetricAlgorithm.t -> SymmetricAlgorithm.t -> S2K -> SessionKey -> bytes -> try W SKESK;
  skesk_decrypt : SKESK -> bytes -> fallible (option SymmetricAlgorithm.t * SessionKey);
  pkesk_decrypt : PKESK -> KeyPair -> option SymmetricAlgorithm.t ->
    option (option SymmetricAlgorithm.t * SessionKey) * KeyPair;
  pkesk_recipient : PKESK -> option KeyHandle;
  handle_to_hex : KeyHandle -> bytes;
  (* the writer stack over a [Vec<u8>]; [finalize] closes the whole stack *)
  Message_new : Message;
  serialize : Packet -> Message -> fallible Message;
  Encryptor_with_session_key : Message -> SymmetricAlgorithm.t -> SessionKey -> fallible Encryptor;
  Encryptor_for_recipients : Message -> list KeyAmalgamation -> Encryptor;
  symmetric_algo : SymmetricAlgorithm.t -> Encryptor -> Encryptor;
  Encryptor_build : Encryptor -> try W Message;
  CompressionLevel_new : N -> fallible CompressionLevel;
  Compressor_new : Message -> Compressor;
  algo : CompressionAlgorithm.t -> Compressor -> Compressor;
  level : CompressionLevel -> Compressor -> Compressor;
  Compressor_build : Compressor -> fallible Message;
  LiteralWriter_new : Message -> LiteralWriter;
  literal_set_format : DataFormat.t -> LiteralWriter -> LiteralWriter;
  LiteralWriter_build : LiteralWriter -> fallible Message;
  message_write_all : Message -> bytes -> fallible Message;
  message_finalize : Message -> fallible bytes;
  (* certificates; the code's policy is always the [NullPolicy] *)
  Cert_from_bytes : bytes -> fallible Cert;
  is_tsk : Cert -> bool;
  cert_keys : Cert -> list KeyAmalgamation;
  key_with_policy : KeyAmalgamation -> bool;
  key_supported : KeyAmalgamation -> bool;
  key_alive : KeyAmalgamation -> bool;
  key_revoked : KeyAmalgamation -> bool;
  key_for_transport_encryption : KeyAmalgamation -> bool;
  keyid : KeyAmalgamation -> KeyID;
  keyid_to_hex : KeyID -> bytes;
  cert_secret_keys : Cert -> list SecretKey;
  is_encrypted : SecretKey -> bool;
  decrypt_secret : SecretKey -> bytes -> fallible SecretKey;
  into_keypair : SecretKey -> fallible KeyPair;
  (* decryption; [InvalidOperation] is what that error displays as *)
  InvalidOperation : bytes -> bytes;
  DecryptorBuilder_from_bytes : bytes -> fallible DecryptorBuilder;
  with_policy : DecryptorBuilder -> protocol Decryptor;
  decryptor_read_to_end : Decryptor -> protocol bytes;
  call_decrypt : closure -> option SymmetricAlgorithm.t -> SessionKey -> bool * closure;
  PacketPile_from_reader : bytes -> fallible (list Packet);
}.

(** The helper traits.  Methods take the helper and the shared cell of the
    literal format, and return them with their result. *)
Class VerificationHelper `{OpenpgpTypes} (T : Type) := {
  inspect : Packet -> T -> N -> fallible unit * T * N;
  get_certs : list KeyHandle -> T -> N -> fallible (list Cert) * T * N;
  check_structure : MessageStructure -> T -> N -> fallible unit * T * N;
}.
Class DecryptionHelper `{OpenpgpTypes} (T : Type) := {
  helper_decrypt : list PKESK -> list SKESK -> option SymmetricAlgorithm.t -> closure ->
    T -> N -> fallible (option Cert) * closure * T * N;
}.

(** A decryptor running with its helper. *)
Fixpoint run_protocol `{OpenpgpTypes} {T A} `{!VerificationHelper T, !DecryptionHelper T}
    (p : protocol A) (helper : T) (cell : N) : fallible A * T * N :=
  match p with
  | Done r => (r, helper, cell)
  | Inspect pp k =>
      let '(r, helper, cell) := inspect pp helper cell in run_protocol (k r) helper cell
  | GetCerts ids k =>
      let '(r, helper, cell) := get_certs ids helper cell in run_protocol (k r) helper cell
  | CheckStructure s k =>
      let '(r, helper, cell) := check_structure s helper cell in run_protocol (k r) helper cell
  | AskDecrypt pkesks skesks sym_algo c k =>
      let '(r, c, helper, cell) := helper_decrypt pkesks skesks sym_algo c helper cell in
      run_protocol (k (r, c)) helper cell
  end.

(** ** Operations: encryption *)

(** [openpgp::Result] inside a function that may also panic, and its [?]. *)
Definition crate {W A} (m : try W A) : rand W (fallible A) :=
  fun w => let '(r, w') := m w in (Ok r, w').
Definition question {W A B} (m : rand W (fallible A)) (f : A -> rand W (fallible B))
    : rand W (fallible B) :=
  r ← m; match r with Ok a => f a | Err e => mret (Err e) end.

(** [u32::from_le_bytes], and [u32] addition with its overflow check. *)
Fixpoint from_le_bytes (b : bytes) : N :=
  match b with [] => 0 | x :: r => u8 x + 256 * from_le_bytes r end.
Definition u32_add (a b : N) : outcome N :=
  if a + b <? 2 ^ 32 then Ok (a + b) else panicked ArithmeticOverflow.

Definition MIN_S2K_COUNT : N := 65536.
Definition MAX_S2K_COUNT : N := 253952.

Section encryption.
Context {W : Type} `{Openpgp W}.

Definition default_s2k_count : rand W (fallible N) :=
  question (crate (crypto_random (replicate 4 "000"%byte))) (fun random =>
    count ← lift (u32_add MIN_S2K_COUNT
                    (from_le_bytes random mod (MAX_S2K_COUNT - MIN_S2K_COUNT + 1)));
    mret (Ok count)).

Definition make_s2k (options : PgpOptions) : rand W (fallible S2K) :=
  if s2k_mode options =? 0 then mret (Ok (S2K_Simple (s2k_digest options)))
  else if s2k_mode options =? 1 then
    question (crate (crypto_random (replicate 8 "000"%byte))) (fun salt =>
      mret (Ok (S2K_Salted (s2k_digest options) salt)))
  else if s2k_mode options =? 3 then
    question (match s2k_count options with
              | Some count => mret (Ok count)
              | None => default_s2k_count
              end) (fun count => crate (S2K_new_iterated (s2k_digest options) count))
  else lift (panicked UnreachableReached).

Definition literal_format_of (options : PgpOptions) : DataFormat.t :=
  match text_input options, unicode_mode options with
  | false, _ => DataFormat.Binary
  | true, false => DataFormat.Text
  | true, true => DataFormat.Unicode
  end.

Definition payload_of (data : bytes) (options : PgpOptions) : bytes :=
  if text_input options && convert_crlf options then crlf_encode data else data.

Definition write_payload (message : Message) (data : bytes) (options : PgpOptions)
    : fallible bytes :=
  message ←
    (if negb (bool_decide (compression options = CompressionAlgorithm.Uncompressed))
        && (0 <? compression_level options)
     then
       l ← CompressionLevel_new (compression_level options);
       Compressor_build (level l (algo (compression options) (Compressor_new message)))
     else Ok message);
  literal ← LiteralWriter_build
    (literal_set_format (literal_format_of options) (LiteralWriter_new message));
  literal ← message_write_all literal (payload_of data options);
  message_finalize literal.

Definition sym_encrypt (data password options : bytes) (text : bool) : rand W bytes :=
  options ← lift (parse_options options text);
  made ← make_s2k options;
  s2k ← lift (unwrap_or_else made (pgp_error "could not initialize OpenPGP S2K"));
  let s2k_cipher := default (cipher options) (s2k_cipher options) in
  _ ← lift (reject_if (negb (use_session_key options)
                       && negb (bool_decide (s2k_cipher = cipher options)))
    (PgError (lit "s2k-cipher-algo requires sess-key=1 when it differs from cipher-algo")));
  session_key ←
    (if use_session_key options
     then
       size ← lift (unwrap_or_else (key_size (cipher options))
                      (pgp_error "unsupported OpenPGP cipher"));
       or_fail (SessionKey_new size) (pgp_error "could not generate OpenPGP session key")
     else
       size ← lift (unwrap_or_else (key_size (cipher options))
                      (pgp_error "unsupported OpenPGP cipher"));
       lift (unwrap_or_else (derive_key s2k password size)
               (pgp_error "OpenPGP S2K derivation failed")));
  skesk ←
    (if use_session_key options
     then or_fail (SKESK4_with_password (cipher options) s2k_cipher s2k session_key password)
            (pgp_error "could not create OpenPGP session key packet")
     else lift (unwrap_or_else (SKESK4_new s2k_cipher s2k None)
                  (pgp_error "could not create OpenPGP S2K packet")));
  message ← lift (unwrap_or_else (serialize (SKESK_packet skesk) Message_new)
                    (pgp_error "could not serialize OpenPGP S2K packet"));
  message ← or_fail (encryptor ← lift (Encryptor_with_session_key message (cipher options) session_key);
                     Encryptor_build encryptor)
              (pgp_error "could not initialize OpenPGP encryption");
  lift (unwrap_or_else (write_payload message data options)
          (pgp_error "OpenPGP encryption failed")).

Definition pgp_sym_encrypt (data password options : bytes) : rand W bytes :=
  sym_encrypt data password options true.
Definition pgp_sym_encrypt_bytea (data password options : bytes) : rand W bytes :=
  sym_encrypt data password options false.

(** [cert.keys().with_policy(..).supported().alive().revoked(false)
    .for_transport_encryption()] *)
Definition encryption_keys (cert : Cert) : list KeyAmalgamation :=
  filter (fun k => key_for_transport_encryption k = true)
    (filter (fun k => key_revoked k = false)
      (filter (fun k => key_alive k = true)
        (filter (fun k => key_supported k = true)
          (filter (fun k => key_with_policy k = true) (cert_keys cert))))).

Definition pub_encrypt (data public_key options : bytes) (text : bool) : rand W bytes :=
  options ← lift (parse_options options text);
  cert ← lift (unwrap_or_else (Cert_from_bytes public_key)
                 (pgp_error "invalid OpenPGP public key"));
  _ ← lift (reject_if (is_tsk cert)
    (PgError (lit "a secret OpenPGP key cannot be used for public-key encryption")));
  let recipients := encryption_keys cert in
  message ← or_fail
    (Encryptor_build (symmetric_algo (cipher options)
                        (Encryptor_for_recipients Message_new recipients)))
    (pgp_error "no usable OpenPGP encryption key");
  lift (unwrap_or_else (write_payload message data options)
          (pgp_error "OpenPGP public-key encryption failed")).

Definition pgp_pub_encrypt (data public_key options : bytes) : rand W bytes :=
  pub_encrypt data public_key options true.
Definition pgp_pub_encrypt_bytea (data public_key options : bytes) : rand W bytes :=
  pub_encrypt data public_key options false.

End encryption.

(** ** Operations: decryption *)

Section decryption.
Context {W : Type} `{Openpgp W}.

(** The mark of a literal packet's format; other packets leave the cell alone. *)
Definition inspect_literal_format (pp : Packet) (cell : N) : N :=
  match pp with
  | Literal_packet format =>
      match format with
      | DataFormat.Binary => LITERAL_BINARY
      | DataFormat.Text => LITERAL_TEXT
      | DataFormat.Unicode => LITERAL_UNICODE
      | DataFormat.Other _ => LITERAL_UNKNOWN
      end
  | _ => cell
  end.

(** The helpers.  Their [literal_format] field is the shared cell, which the
    model threads beside them. *)
Record PasswordHelper := { helper_password : bytes }.
Record KeyHelper := { pairs : list KeyPair; helper_cert : Cert }.

(** The loop over the packets with an encrypted session key. *)
Fixpoint try_skesks (password : bytes) (skesks : list SKESK) (c : closure)
    : fallible (option Cert) * closure :=
  match skesks with
  | [] => (Err (InvalidOperation (lit "incorrect password or no symmetric session key")), c)
  | skesk :: rest =>
      match skesk_decrypt skesk password with
      | Ok (algorithm, key) =>
          let '(accepted, c) := call_decrypt c algorithm key in
          if (accepted : bool) then (Ok None, c) else try_skesks password rest c
      | Err _ => try_skesks password rest c
      end
  end.

(** The inner loop over the key pairs, which are borrowed mutably: [true] when the
    closure accepted a key. *)
Fixpoint try_pairs (pkesk : PKESK) (sym_algo : option SymmetricAlgorithm.t)
    (pairs : list KeyPair) (c : closure) : bool * list KeyPair * closure :=
  match pairs with
  | [] => (false, [], c)
  | keypair :: rest =>
      let '(found, keypair) := pkesk_decrypt pkesk keypair sym_algo in
      let '(accepted, c) :=
        match found with
        | Some (algorithm, key) => call_decrypt c algorithm key
        | None => (false, c)
        end in
      if (accepted : bool) then (true, keypair :: rest, c)
      else
        let '(accepted, rest, c) := try_pairs pkesk sym_algo rest c in
        (accepted, keypair :: rest, c)
  end.

Fixpoint try_pkesks (pkesks : list PKESK) (sym_algo : option SymmetricAlgorithm.t)
    (helper : KeyHelper) (c : closure) : fallible (option Cert) * closure * KeyHelper :=
  match pkesks with
  | [] => (Err (InvalidOperation (lit "message was not encrypted for the supplied key")), c, helper)
  | pkesk :: rest =>
      let '(accepted, ps, c) := try_pairs pkesk sym_algo (pairs helper) c in
      let helper := {| pairs := ps; helper_cert := helper_cert helper |} in
      if (accepted : bool) then (Ok (Some (helper_cert helper)), c, helper)
      else try_pkesks rest sym_algo helper c
  end.

#[export] Instance PasswordHelper_verification : VerificationHelper PasswordHelper := {|
  inspect pp helper cell := (Ok tt, helper, inspect_literal_format pp cell);
  get_certs _ helper cell := (Ok [], helper, cell);
  check_structure _ helper cell := (Ok tt, helper, cell);
|}.
#[export] Instance PasswordHelper_decryption : DecryptionHelper PasswordHelper := {|
  helper_decrypt _ skesks _ c helper cell :=
    let '(r, c) := try_skesks (helper_password helper) skesks c in (r, c, helper, cell);
|}.
#[export] Instance KeyHelper_verification : VerificationHelper KeyHelper := {|
  inspect pp helper cell := (Ok tt, helper, inspect_literal_format pp cell);
  get_certs _ helper cell := (Ok [], helper, cell);
  check_structure _ helper cell := (Ok tt, helper, cell);
|}.
#[export] Instance KeyHelper_decryption : DecryptionHelper KeyHelper := {|
  helper_decrypt pkesks _ sym_algo c helper cell :=
    let '(r, c, helper) := try_pkesks pkesks sym_algo helper c in (r, c, helper, cell);
|}.

Definition sym_decrypt (data password : bytes) : outcome (bytes * N) :=
  let literal_format := LITERAL_UNKNOWN in
  let helper := {| helper_password := password |} in
  builder ← unwrap_or_else (DecryptorBuilder_from_bytes data)
              (pgp_error "invalid OpenPGP message");
  let '(decryptor, helper, literal_format) :=
    run_protocol (with_policy builder) helper literal_format in
  decryptor ← unwrap_or_else decryptor (pgp_error "OpenPGP decryption failed");
  let '(output, _, literal_format) :=
    run_protocol (decryptor_read_to_end decryptor) helper literal_format in
  output ← unwrap_or_else output (pgp_error "OpenPGP decryption failed");
  Ok (output, literal_format).

Definition pgp_sym_decrypt (data password options : bytes) : outcome bytes :=
  options ← parse_decrypt_options options;
  '(data, format) ← sym_decrypt data password;
  decrypted_text data format options.

Definition pgp_sym_decrypt_bytea (data password options : bytes) : outcome bytes :=
  _ ← parse_decrypt_options options;
  r ← sym_decrypt data password;
  Ok (fst r).

(** The loop over the secret keys of a certificate. *)
Fixpoint unlock_keys (password : bytes) (keys : list SecretKey) (pairs : list KeyPair)
    : outcome (list KeyPair) :=
  match keys with
  | [] => Ok pairs
  | key :: rest =>
      key ← (if is_encrypted key
             then unwrap_or_else (decrypt_secret key password)
                    (pgp_error "could not unlock OpenPGP secret key")
             else Ok key);
      match into_keypair key with
      | Ok keypair => unlock_keys password rest (pairs ++ [keypair])
      | Err _ => unlock_keys password rest pairs
      end
  end.

Definition pub_decrypt (data secret_key password : bytes) : outcome (bytes * N) :=
  cert ← unwrap_or_else (Cert_from_bytes secret_key) (pgp_error "invalid OpenPGP secret key");
  ps ← unlock_keys password (cert_secret_keys cert) [];
  _ ← reject_if (bool_decide (length ps = 0%nat))
        (PgError (lit "OpenPGP secret key contains no usable key material"));
  let literal_format := LITERAL_UNKNOWN in
  builder ← unwrap_or_else (DecryptorBuilder_from_bytes data)
              (pgp_error "invalid OpenPGP message");
  let helper := {| pairs := ps; helper_cert := cert |} in
  let '(decryptor, helper, literal_format) :=
    run_protocol (with_policy builder) helper literal_format in
  decryptor ← unwrap_or_else decryptor (pgp_error "OpenPGP public-key decryption failed");
  let '(output, _, literal_format) :=
    run_protocol (decryptor_read_to_end decryptor) helper literal_format in
  output ← unwrap_or_else output (pgp_error "OpenPGP public-key decryption failed");
  Ok (output, literal_format).

Definition pgp_pub_decrypt (data secret_key password options : bytes) : outcome bytes :=
  options ← parse_decrypt_options options;
  '(data, format) ← pub_decrypt data secret_key password;
  decrypted_text data format options.

Definition pgp_pub_decrypt_bytea (data secret_key password options : bytes) : outcome bytes :=
  _ ← parse_decrypt_options options;
  r ← pub_decrypt data secret_key password;
  Ok (fst r).

(** The loop over the packets of [pgp_key_id]. *)
Fixpoint first_session_key (packets : list Packet) : outcome bytes :=
  match packets with
  | [] => pg_error (lit "OpenPGP data contains no encrypted session key")
  | PKESK_packet pkesk :: _ =>
      Ok (match pkesk_recipient pkesk with Some id => handle_to_hex id | None => lit "ANYKEY" end)
  | SKESK_packet _ :: _ => Ok (lit "SYMKEY")
  | _ :: rest => first_session_key rest
  end.

Definition pgp_key_id (data : bytes) : outcome bytes :=
  match Cert_from_bytes data with
  | Ok cert =>
      match head (encryption_keys cert) with
      | Some key => Ok (keyid_to_hex (keyid key))
      | None => pg_error (lit "OpenPGP key contains no usable encryption key")
      end
  | Err _ =>
      pile ← unwrap_or_else (PacketPile_from_reader data) (pgp_error "invalid OpenPGP data");
      first_session_key pile
  end.

End decryption.
