(* ===== verification/PgpToy.v ===== *)
(** * A concrete OpenPGP crate, for the witnesses

    An instance of [OpenpgpTypes] and [Openpgp] that computes: messages are lists
    of layers, serialised through stdpp's [Countable] encodings.  Nothing is
    hidden in them; what matters is that it meets the laws stated in
    [PgpRoundtrip]. *)
From stdpp Require Import base tactics list numbers option strings countable.
From Stdlib Require Import Strings.Byte.
From S2P Require Import Prelude RustStr PgpOptions PgpText PgpMessage.

(** ** Encodings *)

#[export] Instance byte_countable : Countable byte.
Proof. apply (inj_countable u8 Byte.of_N). intros b. apply Byte.of_to_N. Defined.

Definition symmetric_to_N (c : SymmetricAlgorithm.t) : N :=
  match c with
  | SymmetricAlgorithm.Blowfish => 0 | SymmetricAlgorithm.AES128 => 1
  | SymmetricAlgorithm.AES192 => 2 | SymmetricAlgorithm.AES256 => 3
  | SymmetricAlgorithm.TripleDES => 4 | SymmetricAlgorithm.CAST5 => 5
  end.
Definition symmetric_of_N (n : N) : SymmetricAlgorithm.t :=
  match n with
  | 0 => SymmetricAlgorithm.Blowfish | 1 => SymmetricAlgorithm.AES128
  | 2 => SymmetricAlgorithm.AES192 | 3 => SymmetricAlgorithm.AES256
  | 4 => SymmetricAlgorithm.TripleDES | _ => SymmetricAlgorithm.CAST5
  end%N.
#[export] Instance symmetric_countable : Countable SymmetricAlgorithm.t.
Proof. apply (inj_countable' symmetric_to_N symmetric_of_N). by intros []. Defined.

Definition format_to_N (f : DataFormat.t) : N :=
  match f with
  | DataFormat.Binary => 0 | DataFormat.Text => 1 | DataFormat.Unicode => 2
  | DataFormat.Other tag => 3 + tag
  end.
Definition format_of_N (n : N) : DataFormat.t :=
  if (n =? 0)%N then DataFormat.Binary else if (n =? 1)%N then DataFormat.Text
  else if (n =? 2)%N then DataFormat.Unicode else DataFormat.Other (n - 3).
#[export] Instance format_countable : Countable DataFormat.t.
Proof.
  apply (inj_countable' format_to_N format_of_N). intros [| | | tag]; try done.
  unfold format_of_N, format_to_N.
  rewrite !(proj2 (N.eqb_neq _ _)) by lia. f_equal. lia.
Defined.

(** A positive number as a string of binary digits. *)
Fixpoint bits (p : positive) : bytes :=
  match p with xH => [] | xO p => "0"%byte :: bits p | xI p => "1"%byte :: bits p end.
Fixpoint of_bits (s : bytes) : positive :=
  match s with
  | [] => xH
  | b :: r => if bool_decide (b = "0"%byte) then xO (of_bits r) else xI (of_bits r)
  end.
Lemma of_bits_bits p : of_bits (bits p) = p.
Proof. by induction p as [p IH | p IH |]; cbn; rewrite ?IH. Qed.

Definition pack {A} `{Countable A} (a : A) : bytes := bits (encode a).
Definition unpack {A} `{Countable A} (s : bytes) : option A := decode (of_bits s).
Lemma unpack_pack {A} `{Countable A} (a : A) : unpack (pack a) = Some a.
Proof. unfold unpack, pack. by rewrite of_bits_bits, decode_encode. Qed.

(** ** Data *)

(** A symmetric session-key packet: the algorithm with, when a session key was
    encrypted, the password and that key.  A public-key one: recipient,
    algorithm, key. *)
Abbreviation toy_skesk := (SymmetricAlgorithm.t * option (bytes * bytes))%type.
Abbreviation toy_pkesk := (N * SymmetricAlgorithm.t * bytes)%type.
Abbreviation toy_encrypted := (list toy_pkesk * SymmetricAlgorithm.t * bytes)%type.
Abbreviation toy_layer := (toy_skesk + toy_encrypted + (unit + DataFormat.t * bytes))%type.
Abbreviation toy_message := (list toy_layer).

Definition LSkesk (s : toy_skesk) : toy_layer := inl (inl s).
Definition LEncrypted (e : toy_encrypted) : toy_layer := inl (inr e).
Definition LCompressed : toy_layer := inr (inl tt).
Definition LLiteral (f : DataFormat.t) (d : bytes) : toy_layer := inr (inr (f, d)).

(** What a decryptor reads: the packets, the container, the literal. *)
Record toy_builder := {
  toy_skesks : list toy_skesk;
  toy_container : toy_encrypted;
  toy_literal : DataFormat.t * bytes;
}.

Fixpoint split_skesks (m : toy_message) : list toy_skesk * toy_message :=
  match m with
  | inl (inl s) :: rest => let '(ss, rest) := split_skesks rest in (s :: ss, rest)
  | _ => ([], m)
  end.

Definition toy_parse (data : bytes) : option toy_builder :=
  match data with
  | "P"%byte :: packed =>
      m ← (unpack packed : option toy_message);
      let '(skesks, rest) := split_skesks m in
      match rest with
      | [inl (inr e); inr (inr l)] | [inl (inr e); inr (inl _); inr (inr l)] =>
          Some {| toy_skesks := skesks; toy_container := e; toy_literal := l |}
      | _ => None
      end
  | _ => None
  end.

Definition toy_cert_bytes (tsk : bool) (keys : list N) : bytes := "C"%byte :: pack (tsk, keys).

#[export] Instance toy_types : OpenpgpTypes := {|
  S2K := N;
  SessionKey := bytes;
  SKESK := toy_skesk;
  PKESK := toy_pkesk;
  other_packet := unit;
  Cert := bool * list N;
  KeyAmalgamation := N;
  KeyHandle := N + N;
  KeyID := N;
  SecretKey := N;
  KeyPair := N;
  Message := toy_message;
  CompressionLevel := N;
  Compressor := toy_message;
  LiteralWriter := toy_message * DataFormat.t;
  Encryptor := toy_message * SymmetricAlgorithm.t * (bytes + list N);
  DecryptorBuilder := toy_builder;
  Decryptor := bytes;
  MessageStructure := unit;
  closure := SymmetricAlgorithm.t * bytes * bool;
|}.

Definition toy_call (c : SymmetricAlgorithm.t * bytes * bool)
    (a : option SymmetricAlgorithm.t) (k : bytes) : bool * (SymmetricAlgorithm.t * bytes * bool) :=
  if bool_decide (a = Some c.1.1 /\ k = c.1.2) then (true, (c.1, true)) else (false, c).

Definition toy_with_policy (b : toy_builder) : protocol bytes :=
  let '(pkesks, a, k) := toy_container b in
  Inspect (Other_packet tt) (fun _ =>
    AskDecrypt pkesks (toy_skesks b) None (a, k, false) (fun answer =>
      match answer with
      | (Ok _, (_, true)) =>
          Inspect (Literal_packet (toy_literal b).1) (fun _ => Done (Ok (toy_literal b).2))
      | (Ok _, _) => Done (Err (lit "no session key"))
      | (Err e, _) => Done (Err e)
      end)).

(** The generator counts; session keys are the byte [k]; keys 0 to 99 can be used
    for encryption, and every odd secret key is locked with [pw]. *)
#[export] Instance toy_openpgp : Openpgp N := {|
  crypto_random buffer w := (Ok (replicate (length buffer) (byte_of (w mod 256))), (w + 1)%N);
  S2K_Simple _ := 0%N;
  S2K_Salted _ _ := 1%N;
  S2K_new_iterated _ count w := (Ok count, (w + 1)%N);
  derive_key _ password _ := Ok password;
  key_size _ := Ok 16%N;
  SessionKey_new _ w := (Ok (lit "k"), (w + 1)%N);
  SKESK4_new a _ _ := Ok (a, None);
  SKESK4_with_password payload _ _ key password w :=
    (Ok (payload, Some (password, key)), (w + 1)%N);
  skesk_decrypt s password :=
    match s with
    | (a, None) => Ok (Some a, password)
    | (a, Some (pw, key)) =>
        if bool_decide (pw = password) then Ok (Some a, key) else Err (lit "bad password")
    end;
  pkesk_decrypt p kp _ :=
    ((if bool_decide (p.1.1 = kp) then Some (Some p.1.2, p.2) else None), kp);
  pkesk_recipient p := Some (inr p.1.1);
  handle_to_hex h := match h with inl n => lit "FP" ++ dec n | inr n => dec n end;
  Message_new := [];
  serialize p m :=
    match p with
    | SKESK_packet s => Ok (m ++ [LSkesk s])
    | _ => Err (lit "unsupported packet")
    end;
  Encryptor_with_session_key m a k := Ok (m, a, inl k);
  Encryptor_for_recipients m rs := (m, SymmetricAlgorithm.AES256, inr rs);
  symmetric_algo a e := (e.1.1, a, e.2);
  Encryptor_build e w :=
    match e with
    | (m, a, inl k) => (Ok (m ++ [LEncrypted ([], a, k)]), (w + 1)%N)
    | (m, a, inr []) => (Err (lit "no recipients"), w)
    | (m, a, inr rs) =>
        (Ok (m ++ [LEncrypted ((fun r => (r, a, lit "k")) <$> rs, a, lit "k")]), (w + 1)%N)
    end;
  CompressionLevel_new l := if (l <=? 9)%N then Ok l else Err (lit "level");
  Compressor_new m := m;
  algo _ c := c;
  level _ c := c;
  Compressor_build c := Ok (c ++ [LCompressed]);
  LiteralWriter_new m := (m, DataFormat.Binary);
  literal_set_format f l := (l.1, f);
  LiteralWriter_build l := Ok (l.1 ++ [LLiteral l.2 []]);
  message_write_all m data :=
    match rev (m : toy_message) with
    | inr (inr (f, d)) :: front => Ok (rev front ++ [LLiteral f (d ++ data)])
    | _ => Err (lit "no literal")
    end;
  message_finalize m := Ok ("P"%byte :: pack m);
  Cert_from_bytes data :=
    match data with
    | "C"%byte :: packed =>
        match unpack packed with Some c => Ok c | None => Err (lit "not a certificate") end
    | _ => Err (lit "not a certificate")
    end;
  is_tsk c := c.1;
  cert_keys c := c.2;
  key_with_policy _ := true;
  key_supported k := (k <? 100)%N;
  key_alive _ := true;
  key_revoked _ := false;
  key_for_transport_encryption _ := true;
  keyid k := k;
  keyid_to_hex := dec;
  cert_secret_keys c := if (c.1 : bool) then c.2 else [];
  is_encrypted k := N.odd k;
  decrypt_secret k password :=
    if bool_decide (password = lit "pw") then Ok k else Err (lit "bad passphrase");
  into_keypair k := Ok k;
  InvalidOperation m := lit "Invalid operation: " ++ m;
  DecryptorBuilder_from_bytes data :=
    match toy_parse data with Some b => Ok b | None => Err (lit "not a message") end;
  with_policy b := toy_with_policy b;
  decryptor_read_to_end d := CheckStructure tt (fun _ => Done (Ok d));
  call_decrypt := toy_call;
  PacketPile_from_reader data :=
    match toy_parse data with
    | Some b => Ok ((SKESK_packet <$> toy_skesks b) ++ (PKESK_packet <$> (toy_container b).1.1)
                    ++ [Other_packet tt])
    | None => Err (lit "not a message")
    end;
|}.
