(* ===== verification/PgpHelpers.v ===== *)
(** * Session keys and helpers: what the OpenPGP code does between the crate's calls

    Theorems about [PgpMessage] that need nothing of the crate but that using a
    key pair leaves it unchanged: the string-to-key specifier, the order in which
    the decryption helpers try keys, the unlocking of secret keys, the search
    for a key id, and that no OpenPGP function panics. *)
From stdpp Require Import base tactics list numbers option strings.
From Stdlib Require Import Strings.Byte.
From S2P Require Import Prelude RustStr PgpOptions PgpText PgpMessage PgpToy.

Local Open Scope N_scope.

Section s2k.
Context {W : Type} `{Openpgp W}.

Lemma u32_add_Ok a b : a + b < 2 ^ 32 -> u32_add a b = Ok (a + b).
Proof. intros Hb. unfold u32_add. by rewrite (proj2 (N.ltb_lt _ _) Hb). Qed.

Lemma drawn_bound n : 65536 <= 65536 + n mod 188417 <= 253952.
Proof.
  pose proof (N.mod_lt n 188417 ltac:(done)) as Hn. revert Hn.
  generalize (n mod 188417). intros m Hm. lia.
Qed.

Lemma default_s2k_count_eq w :
  default_s2k_count w =
    match crypto_random (replicate 4 "000"%byte) w with
    | (Ok random, w') => (Ok (Ok (65536 + from_le_bytes random mod 188417)), w')
    | (Err e, w') => (Ok (Err e), w')
    end.
Proof.
  unfold default_s2k_count, question, crate, mbind, stateful_bind, mret, stateful_ret, lift.
  destruct (crypto_random _ w) as [[random | e] w']; [| done].
  change (MAX_S2K_COUNT - MIN_S2K_COUNT + 1) with 188417. unfold MIN_S2K_COUNT.
  pose proof (N.mod_lt (from_le_bytes random) 188417 ltac:(done)).
  by rewrite u32_add_Ok by lia.
Qed.

(** [n] as four little-endian bytes. *)
Definition le_bytes (n : N) : bytes :=
  [byte_of (n mod 256); byte_of (n / 256 mod 256); byte_of (n / 65536 mod 256);
   byte_of (n / 16777216 mod 256)].

Lemma from_le_bytes_le_bytes n : n < 2 ^ 32 -> from_le_bytes (le_bytes n) = n.
Proof.
  intros Hn. unfold le_bytes. cbn [from_le_bytes].
  rewrite !u8_byte_of by (apply N.mod_lt; done).
  change 65536 with (256 * 256). change 16777216 with (256 * 256 * 256).
  rewrite <- !N.Div0.div_div.
  pose proof (N.div_mod n 256 ltac:(done)).
  pose proof (N.div_mod (n / 256) 256 ltac:(done)).
  pose proof (N.div_mod (n / 256 / 256) 256 ltac:(done)).
  assert (n / 256 / 256 / 256 < 256).
  { rewrite !N.Div0.div_div. apply N.Div0.div_lt_upper_bound. exact Hn. }
  rewrite (N.mod_small (n / 256 / 256 / 256)) by done. lia.
Qed.

(** Every value of the range is drawn for some four bytes, and no other. *)
Lemma default_s2k_count_bounds w :
  (forall e w', crypto_random (replicate 4 "000"%byte) w = (Err e, w') ->
     default_s2k_count w = (Ok (Err e), w'))
  /\ (forall random w', crypto_random (replicate 4 "000"%byte) w = (Ok random, w') ->
     exists count, default_s2k_count w = (Ok (Ok count), w') /\ 65536 <= count <= 253952)
  /\ (forall count w', 65536 <= count <= 253952 ->
     crypto_random (replicate 4 "000"%byte) w = (Ok (le_bytes (count - 65536)), w') ->
     default_s2k_count w = (Ok (Ok count), w')).
Proof.
  rewrite default_s2k_count_eq. split_and!.
  - by intros e w' ->.
  - intros random w' ->. eexists. split; [done |].
    apply drawn_bound.
  - intros count w' Hc ->. rewrite from_le_bytes_le_bytes by lia.
    rewrite N.mod_small by lia. by replace (65536 + (count - 65536)) with count by lia.
Qed.

Lemma make_s2k_no_panic options text o w :
  parse_options options text = Ok o -> no_panic (fst (make_s2k o w)).
Proof.
  intros Hparse. destruct (parse_options_wf _ _ _ Hparse) as [[Hwf Hcount] _]. unfold make_s2k.
  unfold question, crate, mbind, stateful_bind, mret, stateful_ret.
  destruct (wf_s2k_mode _ Hwf) as [-> | [-> | ->]]; [apply no_panic_Ok | |].
  - change (1 =? 0) with false. change (1 =? 1) with true. cbv beta iota.
    destruct (crypto_random _ w) as [[salt | e] w']; apply no_panic_Ok.
  - change (3 =? 0) with false. change (3 =? 1) with false. change (3 =? 3) with true. cbv beta iota.
    destruct (s2k_count o) as [n |].
    + destruct (S2K_new_iterated (s2k_digest o) n w). apply no_panic_Ok.
    + rewrite default_s2k_count_eq. destruct (crypto_random _ w) as [[random | e] w1];
        [| apply no_panic_Ok].
      destruct (S2K_new_iterated _ _ w1). apply no_panic_Ok.
Qed.

(** C14: For every options record the parser can produce [make_s2k] builds the
    specifier of the mode: simple without drawing, salted with eight random
    bytes, or iterated with the given count (1024 to 65011712) or the drawn one
    (65536 to 253952, every value of which is drawn for some four bytes).  A
    failure of the crate is an error value; the [unreachable!] arm is not reached,
    the [u32] addition does not overflow and nothing else panics. *)
Theorem make_s2k_spec options text o w :
  parse_options options text = Ok o ->
  (s2k_mode o = 0 -> make_s2k o w = (Ok (Ok (S2K_Simple (s2k_digest o))), w))
  /\ (s2k_mode o = 1 -> make_s2k o w =
        match crypto_random (replicate 8 "000"%byte) w with
        | (Ok salt, w') => (Ok (Ok (S2K_Salted (s2k_digest o) salt)), w')
        | (Err e, w') => (Ok (Err e), w')
        end)
  /\ (s2k_mode o = 3 -> forall s w', make_s2k o w = (Ok (Ok s), w') ->
        exists count w1, S2K_new_iterated (s2k_digest o) count w1 = (Ok s, w')
          /\ match s2k_count o with
             | Some n => count = n /\ w1 = w /\ 1024 <= count <= 65011712
             | None => 65536 <= count <= 253952
             end)
  /\ (s2k_mode o = 3 -> s2k_count o = None -> forall count w1, 65536 <= count <= 253952 ->
        crypto_random (replicate 4 "000"%byte) w = (Ok (le_bytes (count - 65536)), w1) ->
        make_s2k o w = crate (S2K_new_iterated (s2k_digest o) count) w1)
  /\ (s2k_mode o = 0 \/ s2k_mode o = 1 \/ s2k_mode o = 3)
  /\ no_panic (fst (make_s2k o w)).
Proof.
  intros Hparse. destruct (parse_options_wf _ _ _ Hparse) as [[Hwf Hcount] _].
  unfold make_s2k. split_and!.
  - by intros ->.
  - intros ->. unfold question, crate, mbind, stateful_bind, mret, stateful_ret.
    change (1 =? 0) with false. change (1 =? 1) with true. cbv beta iota.
    by destruct (crypto_random _ w) as [[salt | e] w'].
  - intros -> s w'. change (3 =? 0) with false. change (3 =? 1) with false.
    change (3 =? 3) with true. cbv beta iota.
    unfold question, crate, mbind, stateful_bind, mret, stateful_ret. cbv beta iota.
    destruct (s2k_count o) as [n |] eqn:En.
    + destruct (S2K_new_iterated (s2k_digest o) n w) as [r w1] eqn:E. intros [= -> <-].
      exists n, w. split_and!; try done; by apply (wf_s2k_count _ Hwf).
    + rewrite default_s2k_count_eq. destruct (crypto_random _ w) as [[random | e] w1]; [| done].
      destruct (S2K_new_iterated _ _ w1) as [r w2] eqn:E. intros [= -> <-].
      eexists _, w1. split; [done | apply drawn_bound].
  - intros -> -> count w1 Hc Hr. change (3 =? 0) with false. change (3 =? 1) with false.
    change (3 =? 3) with true. cbv beta iota.
    destruct (default_s2k_count_bounds w) as (_ & _ & Hdraw). specialize (Hdraw count w1 Hc Hr).
    unfold question, mbind, stateful_bind. by rewrite Hdraw.
  - by apply wf_s2k_mode.
  - by eapply make_s2k_no_panic.
Qed.

End s2k.

(** ** The decryption helpers *)

Section helpers.
Context {W : Type} `{Openpgp W}.

(** Presenting candidate keys to a decryptor's closure until it accepts one. *)
Fixpoint present (c : closure)
    (candidates : list (option SymmetricAlgorithm.t * SessionKey)) : bool * closure :=
  match candidates with
  | [] => (false, c)
  | (algorithm, key) :: rest =>
      let '(accepted, c) := call_decrypt c algorithm key in
      if (accepted : bool) then (true, c) else present c rest
  end.

Lemma present_app c l1 l2 :
  present c (l1 ++ l2) = let '(accepted, c') := present c l1 in
                         if (accepted : bool) then (true, c') else present c' l2.
Proof.
  revert c. induction l1 as [| [a k] l1 IH]; intros c; [done |]. cbn [app present].
  destruct (call_decrypt c a k) as [[] c']; [done |]. apply IH.
Qed.

Definition value {E A} (r : result E A) : option A :=
  match r with Ok a => Some a | Err _ => None end.

(** The keys the password recovers, in the order of their packets. *)
Definition password_keys (password : bytes) (skesks : list SKESK)
    : list (option SymmetricAlgorithm.t * SessionKey) :=
  omap (fun s => value (skesk_decrypt s password)) skesks.

(** The keys the pairs recover: packet by packet, and for each the pairs in order. *)
Definition pair_keys (pairs : list KeyPair) (pkesks : list PKESK)
    (sym_algo : option SymmetricAlgorithm.t)
    : list (option SymmetricAlgorithm.t * SessionKey) :=
  pkesks ≫= fun p => omap (fun kp => fst (pkesk_decrypt p kp sym_algo)) pairs.

Lemma try_skesks_present password skesks c :
  try_skesks password skesks c =
    let '(accepted, c') := present c (password_keys password skesks) in
    ((if (accepted : bool) then Ok None
      else Err (InvalidOperation (lit "incorrect password or no symmetric session key"))), c').
Proof.
  revert c. unfold password_keys. induction skesks as [| s rest IH]; intros c; [done |].
  cbn [try_skesks omap list_omap]. destruct (skesk_decrypt s password) as [[a k] | e]; cbn [value].
  - cbn [present]. destruct (call_decrypt c a k) as [[] c']; [done |]. apply IH.
  - apply IH.
Qed.

(** Using a key pair does not change it. *)
Definition pairs_kept : Prop :=
  forall p kp sym_algo, snd (pkesk_decrypt p kp sym_algo) = kp.

Lemma try_pairs_present (Hkept : pairs_kept) pkesk sym_algo pairs c :
  try_pairs pkesk sym_algo pairs c =
    let '(accepted, c') :=
      present c (omap (fun kp => fst (pkesk_decrypt pkesk kp sym_algo)) pairs) in
    (accepted, pairs, c').
Proof.
  revert c. induction pairs as [| kp rest IH]; intros c; [done |].
  cbn [try_pairs omap list_omap]. pose proof (Hkept pkesk kp sym_algo) as Hkp.
  destruct (pkesk_decrypt pkesk kp sym_algo) as [[[a k] |] kp']; cbn [fst snd] in *; subst kp'.
  - cbn [present]. destruct (call_decrypt c a k) as [[] c']; [done |]. rewrite IH.
    by destruct (present c' _).
  - rewrite IH. by destruct (present c _).
Qed.

Lemma try_pkesks_present (Hkept : pairs_kept) pkesks sym_algo helper c :
  try_pkesks pkesks sym_algo helper c =
    let '(accepted, c') := present c (pair_keys (pairs helper) pkesks sym_algo) in
    ((if (accepted : bool) then Ok (Some (helper_cert helper))
      else Err (InvalidOperation (lit "message was not encrypted for the supplied key"))),
     c', helper).
Proof.
  revert c. unfold pair_keys. induction pkesks as [| p rest IH]; intros c; [done |].
  cbn [try_pkesks]. rewrite bind_cons, present_app, (try_pairs_present Hkept).
  destruct (present c _) as [[] c']; destruct helper as [ps hc]; cbn [pairs helper_cert] in *; [done |].
  apply IH.
Qed.

(** C13: The decryption helpers try keys in a fixed order and stop at the first the
    decryptor accepts.  With a password: the symmetric session-key packets in
    order, skipping those it does not decrypt; public-key packets play no part.
    With a certificate: the public-key packets in order, and for each every
    unlocked pair in order; the certificate is returned as the recipient, and the
    pairs, though borrowed mutably, are unchanged for the next packet.  When no
    key is accepted each reports its own error. *)
Theorem helpers_order pkesks skesks sym_algo c cell :
  (forall helper, helper_decrypt pkesks skesks sym_algo c helper cell =
     let '(accepted, c') := present c (password_keys (helper_password helper) skesks) in
     ((if (accepted : bool) then Ok None
       else Err (InvalidOperation (lit "incorrect password or no symmetric session key"))),
      c', helper, cell))
  /\ (forall helper, pairs_kept -> helper_decrypt pkesks skesks sym_algo c helper cell =
     let '(accepted, c') := present c (pair_keys (pairs helper) pkesks sym_algo) in
     ((if (accepted : bool) then Ok (Some (helper_cert helper))
       else Err (InvalidOperation (lit "message was not encrypted for the supplied key"))),
      c', helper, cell)).
Proof.
  split.
  - intros helper. unfold helper_decrypt, PasswordHelper_decryption. rewrite try_skesks_present.
    by destruct (present c _).
  - intros helper Hkept. unfold helper_decrypt, KeyHelper_decryption.
    rewrite (try_pkesks_present Hkept). by destruct (present c _).
Qed.

(** ** Unlocking *)

Definition unlock (password : bytes) (key : SecretKey) : outcome SecretKey :=
  if is_encrypted key
  then unwrap_or_else (decrypt_secret key password) (pgp_error "could not unlock OpenPGP secret key")
  else Ok key.

Lemma unlock_keys_eq password keys ps :
  unlock_keys password keys ps =
    (unlocked ← mapM (unlock password) keys;
     Ok (ps ++ omap (fun k => value (into_keypair k)) unlocked)).
Proof.
  revert ps. induction keys as [| key rest IH]; intros ps.
  - cbn. by rewrite app_nil_r.
  - cbn [unlock_keys mapM]. change (if is_encrypted key then _ else _) with (unlock password key).
    destruct (unlock password key) as [k | e]; [| done]. cbn [mbind result_bind].
    destruct (into_keypair k) as [kp | e] eqn:Ek; rewrite IH;
      destruct (mapM (unlock password) rest) as [ks | e']; try done;
      cbn [mbind result_bind mret result_ret omap list_omap]; rewrite Ek; cbn [value]; [| done].
    by rewrite <- app_assoc.
Qed.

(** C32: [pub_decrypt] reads the key before the message: an invalid certificate, a
    secret key the password does not unlock (the first in the certificate's
    order, even if another one would do), and a certificate without usable key
    material are reported whatever the data is.  Unlocked keys that do not make a
    key pair are skipped. *)
Theorem pub_decrypt_key_first data secret_key password :
  (forall e, Cert_from_bytes secret_key = Err e ->
     pub_decrypt data secret_key password
       = Err (PgError (lit "invalid OpenPGP secret key: " ++ e)))
  /\ (forall cert e, Cert_from_bytes secret_key = Ok cert ->
     mapM (unlock password) (cert_secret_keys cert) = Err e ->
     pub_decrypt data secret_key password = Err e)
  /\ (forall cert unlocked, Cert_from_bytes secret_key = Ok cert ->
     mapM (unlock password) (cert_secret_keys cert) = Ok unlocked ->
     omap (fun k => value (into_keypair k)) unlocked = [] ->
     pub_decrypt data secret_key password
       = Err (PgError (lit "OpenPGP secret key contains no usable key material")))
  /\ (forall cert unlocked e, Cert_from_bytes secret_key = Ok cert ->
     mapM (unlock password) (cert_secret_keys cert) = Ok unlocked ->
     omap (fun k => value (into_keypair k)) unlocked <> [] ->
     DecryptorBuilder_from_bytes data = Err e ->
     pub_decrypt data secret_key password
       = Err (PgError (lit "invalid OpenPGP message: " ++ e))).
Proof.
  unfold pub_decrypt. split_and!.
  - by intros e ->.
  - intros cert e -> He. cbn [unwrap_or_else mbind result_bind]. by rewrite unlock_keys_eq, He.
  - intros cert ks -> Hk Hn. cbn [unwrap_or_else mbind result_bind].
    rewrite unlock_keys_eq, Hk. cbn [mbind result_bind app]. by rewrite Hn.
  - intros cert ks e -> Hk Hn He. cbn [unwrap_or_else mbind result_bind].
    rewrite unlock_keys_eq, Hk. cbn [mbind result_bind app].
    rewrite bool_decide_false by (by intros Hl%nil_length_inv). cbn [reject_if mbind result_bind].
    by rewrite He.
Qed.

End helpers.

(** ** Key ids *)

Section key_ids.
Context {W : Type} `{Openpgp W}.

(** A key the encryption functions may use. *)
Definition suitable (k : KeyAmalgamation) : Prop :=
  key_with_policy k = true /\ key_supported k = true /\ key_alive k = true
  /\ key_revoked k = false /\ key_for_transport_encryption k = true.
#[export] Instance suitable_dec k : Decision (suitable k).
Proof. unfold suitable. apply _. Defined.

Lemma encryption_keys_suitable cert : encryption_keys cert = filter suitable (cert_keys cert).
Proof.
  unfold encryption_keys. rewrite !list_filter_filter. apply list_filter_iff.
  unfold suitable. naive_solver.
Qed.

Definition no_session_key (q : Packet) : Prop :=
  match q with PKESK_packet _ | SKESK_packet _ => False | _ => True end.

Lemma first_session_key_skip before rest :
  Forall no_session_key before -> first_session_key (before ++ rest) = first_session_key rest.
Proof. induction 1 as [| q qs Hq _ IH]; [done |]. cbn [app]. by destruct q. Qed.

Lemma filter_none {A} (P : A -> Prop) `{forall a, Decision (P a)} l :
  Forall (fun a => ~ P a) l -> filter P l = [].
Proof. induction 1; [done |]. by rewrite filter_cons_False. Qed.

(** C26: [pgp_key_id] of a certificate is the id of its first suitable key, the one
    [pub_encrypt] lists first, and an error when there is none.  Of anything else
    that parses it is decided by the first session-key packet: [SYMKEY] for a
    symmetric one, the recipient's id or [ANYKEY] for a public-key one, an error
    when there is none. *)
Theorem key_id_spec data :
  (forall cert, Cert_from_bytes data = Ok cert ->
     (forall before k after, cert_keys cert = before ++ k :: after ->
        Forall (fun k' => ~ suitable k') before -> suitable k ->
        head (encryption_keys cert) = Some k /\ pgp_key_id data = Ok (keyid_to_hex (keyid k)))
     /\ (Forall (fun k => ~ suitable k) (cert_keys cert) ->
        pgp_key_id data = Err (PgError (lit "OpenPGP key contains no usable encryption key"))))
  /\ (forall e packets, Cert_from_bytes data = Err e ->
     PacketPile_from_reader data = Ok packets ->
     (forall before p after, packets = before ++ PKESK_packet p :: after ->
        Forall no_session_key before ->
        pgp_key_id data = Ok (match pkesk_recipient p with
                              | Some id => handle_to_hex id | None => lit "ANYKEY" end))
     /\ (forall before s after, packets = before ++ SKESK_packet s :: after ->
        Forall no_session_key before -> pgp_key_id data = Ok (lit "SYMKEY"))
     /\ (Forall no_session_key packets ->
        pgp_key_id data = Err (PgError (lit "OpenPGP data contains no encrypted session key")))).
Proof.
  unfold pgp_key_id. split.
  - intros cert ->. rewrite encryption_keys_suitable. split.
    + intros before k after -> Hb Hk. rewrite filter_app, filter_none by done.
      by rewrite filter_cons_True.
    + intros Hall. by rewrite filter_none.
  - intros e packets -> ->. cbn [unwrap_or_else mbind result_bind]. split_and!.
    + intros before p after -> Hb. by rewrite first_session_key_skip.
    + intros before p after -> Hb. by rewrite first_session_key_skip.
    + intros Hall. rewrite <- (app_nil_r packets). by rewrite first_session_key_skip.
Qed.

End key_ids.

(** ** Freedom from panics *)

Lemma parse_boolean_no_panic name value : no_panic (parse_boolean_option name value).
Proof. unfold parse_boolean_option. solve_no_panic. Qed.

Lemma parse_option_no_panic o item : no_panic (parse_option o item).
Proof.
  unfold parse_option. apply no_panic_bind; [auto with rust | intros [name value] _].
  unfold parse_cipher, parse_compression, parse_s2k_digest, parse_s2k_cipher.
  solve_no_panic; apply parse_boolean_no_panic.
Qed.

Lemma parse_decrypt_option_no_panic o item : no_panic (parse_decrypt_option o item).
Proof.
  unfold parse_decrypt_option. apply no_panic_bind; [auto with rust | intros [name value] _].
  solve_no_panic; apply parse_boolean_no_panic.
Qed.

Lemma parse_options_no_panic options text : no_panic (parse_options options text).
Proof.
  unfold parse_options. apply no_panic_bind.
  - generalize (default_options text). induction (option_items options) as [| item items IH];
      intros o; [apply no_panic_Ok |].
    apply no_panic_bind; [apply parse_option_no_panic | intros o' _; apply IH].
  - intros o _. unfold check_count. solve_no_panic.
Qed.

Lemma parse_decrypt_options_no_panic options : no_panic (parse_decrypt_options options).
Proof.
  unfold parse_decrypt_options. generalize {| decrypt_convert_crlf := false |}.
  induction (option_items options) as [| item items IH]; intros o; [apply no_panic_Ok |].
  apply no_panic_bind; [apply parse_decrypt_option_no_panic | intros o' _; apply IH].
Qed.

Lemma pgp_error_no_panic {A} (r : fallible A) context :
  no_panic (unwrap_or_else r (pgp_error context)).
Proof. destruct r; [apply no_panic_Ok | apply no_panic_error]. Qed.

Lemma decrypted_text_no_panic data format options : no_panic (decrypted_text data format options).
Proof.
  unfold decrypted_text. destruct (negb _); [apply no_panic_error |].
  apply no_panic_bind.
  - destruct (decrypt_convert_crlf options); [rewrite crlf_decode_remove |]; apply no_panic_Ok.
  - intros text _. destruct (contains_byte _ _); [apply no_panic_error | apply pgp_error_no_panic].
Qed.

(** A computation with randomness that does not panic from any state. *)
Definition never_panics {W A} (m : rand W A) : Prop := forall w, no_panic (fst (m w)).

Lemma never_panics_bind {W A B} (m : rand W A) (f : A -> rand W B) :
  never_panics m -> (forall a w w', m w = (Ok a, w') -> never_panics (f a)) ->
  never_panics (m ≫= f).
Proof.
  intros Hm Hf w. unfold mbind, stateful_bind. specialize (Hm w).
  destruct (m w) as [[a | e] w'] eqn:E; [by eapply Hf |].
  intros why H. apply (Hm why). cbn in *. congruence.
Qed.

Lemma never_panics_lift {W A} (r : outcome A) : no_panic r -> never_panics (lift (W := W) r).
Proof. intros Hr w. exact Hr. Qed.

Lemma never_panics_or_fail {W A} (t : try W A) context :
  never_panics (or_fail t (pgp_error context)).
Proof. intros w. unfold or_fail. destruct (t w) as [r w']. apply pgp_error_no_panic. Qed.

#[export] Hint Resolve never_panics_lift never_panics_or_fail pgp_error_no_panic
  parse_options_no_panic parse_decrypt_options_no_panic decrypted_text_no_panic : rust.

Section safety.
Context {W : Type} `{Openpgp W}.

Lemma make_s2k_never_panics options text o :
  parse_options options text = Ok o -> never_panics (make_s2k o).
Proof. intros Ho w. by eapply make_s2k_no_panic. Qed.

(** Goes through the steps of an encryption. *)
Ltac step :=
  apply never_panics_bind;
  [try (match goal with |- never_panics (if ?b then _ else _) => destruct b end);
   auto with rust | intros].

Lemma sym_encrypt_never_panics data password options text :
  never_panics (sym_encrypt data password options text).
Proof.
  unfold sym_encrypt. apply never_panics_bind; [auto with rust | intros o w w' Ho].
  apply never_panics_bind.
  { eapply make_s2k_never_panics. unfold lift in Ho. by injection Ho as ->. }
  intros made _ _ _. step. step.
  apply never_panics_bind.
  { destruct (use_session_key o); (step; auto with rust). }
  intros key _ _ _. step. step. step. auto with rust.
Qed.

Lemma pub_encrypt_never_panics data public_key options text :
  never_panics (pub_encrypt data public_key options text).
Proof. unfold pub_encrypt. do 4 step. auto with rust. Qed.

Lemma sym_decrypt_no_panic data password : no_panic (sym_decrypt data password).
Proof.
  unfold sym_decrypt. apply no_panic_bind; [auto with rust | intros b _].
  destruct (run_protocol _ _ _) as [[r h] cell]. apply no_panic_bind; [auto with rust | intros d _].
  destruct (run_protocol _ _ _) as [[r' h'] cell'].
  apply no_panic_bind; [auto with rust | intros out _]. apply no_panic_Ok.
Qed.

Lemma unlock_keys_no_panic password keys ps : no_panic (unlock_keys password keys ps).
Proof.
  revert ps. induction keys as [| key rest IH]; intros ps; [apply no_panic_Ok |].
  cbn [unlock_keys]. apply no_panic_bind.
  - destruct (is_encrypted key); auto with rust.
  - intros k _. destruct (into_keypair k); apply IH.
Qed.

Lemma pub_decrypt_no_panic data secret_key password : no_panic (pub_decrypt data secret_key password).
Proof.
  unfold pub_decrypt. apply no_panic_bind; [auto with rust | intros cert _].
  apply no_panic_bind; [apply unlock_keys_no_panic | intros ps _].
  apply no_panic_bind; [auto with rust | intros _ _].
  apply no_panic_bind; [auto with rust | intros b _].
  destruct (run_protocol _ _ _) as [[r h] cell]. apply no_panic_bind; [auto with rust | intros d _].
  destruct (run_protocol _ _ _) as [[r' h'] cell'].
  apply no_panic_bind; [auto with rust | intros out _]. apply no_panic_Ok.
Qed.

Lemma first_session_key_no_panic packets : no_panic (first_session_key packets).
Proof. induction packets as [| [] packets IH]; first [apply no_panic_error | apply no_panic_Ok | apply IH]. Qed.

(** C9: Whatever the arguments, the options and the answers of the crate, none of
    the nine OpenPGP functions panics: each ends in a value or an SQL error.  The
    [unreachable!] arm, the [u32] addition and the indexing of the line-end
    decoder are covered, for malformed messages and keys as for good ones. *)
Theorem pgp_functions_no_panic data key password options w :
  no_panic (fst (pgp_sym_encrypt data password options w))
  /\ no_panic (fst (pgp_sym_encrypt_bytea data password options w))
  /\ no_panic (pgp_sym_decrypt data password options)
  /\ no_panic (pgp_sym_decrypt_bytea data password options)
  /\ no_panic (fst (pgp_pub_encrypt data key options w))
  /\ no_panic (fst (pgp_pub_encrypt_bytea data key options w))
  /\ no_panic (pgp_pub_decrypt data key password options)
  /\ no_panic (pgp_pub_decrypt_bytea data key password options)
  /\ no_panic (pgp_key_id data).
Proof.
  split_and!.
  - apply sym_encrypt_never_panics.
  - apply sym_encrypt_never_panics.
  - apply no_panic_bind; [auto with rust | intros o _].
    apply no_panic_bind; [apply sym_decrypt_no_panic | intros [d f] _; auto with rust].
  - apply no_panic_bind; [auto with rust | intros o _].
    apply no_panic_bind; [apply sym_decrypt_no_panic | intros r _; apply no_panic_Ok].
  - apply pub_encrypt_never_panics.
  - apply pub_encrypt_never_panics.
  - apply no_panic_bind; [auto with rust | intros o _].
    apply no_panic_bind; [apply pub_decrypt_no_panic | intros [d f] _; auto with rust].
  - apply no_panic_bind; [auto with rust | intros o _].
    apply no_panic_bind; [apply pub_decrypt_no_panic | intros r _; apply no_panic_Ok].
  - unfold pgp_key_id. destruct (Cert_from_bytes data) as [cert | e].
    + destruct (head _); [apply no_panic_Ok | apply no_panic_error].
    + apply no_panic_bind; [auto with rust | intros pile _; apply first_session_key_no_panic].
Qed.

End safety.

(** ** Witnesses *)

Definition parsed (options : string) : PgpOptions :=
  match parse_options (lit options) true with Ok o => o | Err _ => default_options true end.

Lemma make_s2k_spec_witness :
  make_s2k (parsed "s2k-mode=0") 5%N = (Ok (Ok (S2K_Simple (s2k_digest (parsed "s2k-mode=0")))), 5%N).
Proof.
  destruct (make_s2k_spec (lit "s2k-mode=0") true (parsed "s2k-mode=0") 5%N) as (H & _);
    [vm_compute; reflexivity | apply H; vm_compute; reflexivity].
Defined.

Lemma helpers_order_witness :
  helper_decrypt [(7%N, SymmetricAlgorithm.AES128, lit "k")] [] None
    (SymmetricAlgorithm.AES128, lit "k", false)
    {| pairs := [4%N : KeyPair; 7%N : KeyPair]; helper_cert := (true, [4%N; 7%N]) |} 0
  = (Ok (Some (true, [4%N; 7%N])), (SymmetricAlgorithm.AES128, lit "k", true),
     {| pairs := [4%N : KeyPair; 7%N : KeyPair]; helper_cert := (true, [4%N; 7%N]) |}, 0).
Proof.
  etransitivity; [apply (proj2 (helpers_order _ _ _ _ _)); intros p kp sym_algo; reflexivity
    | vm_compute; reflexivity].
Defined.

Lemma pub_decrypt_key_first_witness :
  pub_decrypt (lit "rubbish") (toy_cert_bytes true [4%N; 5%N]) (lit "wrong")
    = Err (PgError (lit "could not unlock OpenPGP secret key: bad passphrase"))
  /\ pub_decrypt (lit "rubbish") (toy_cert_bytes false [4%N]) (lit "pw")
    = Err (PgError (lit "OpenPGP secret key contains no usable key material")).
Proof.
  split.
  - destruct (pub_decrypt_key_first (lit "rubbish") (toy_cert_bytes true [4%N; 5%N]) (lit "wrong"))
      as (_ & H & _).
    apply (H (true, [4%N; 5%N])); vm_compute; reflexivity.
  - destruct (pub_decrypt_key_first (lit "rubbish") (toy_cert_bytes false [4%N]) (lit "pw"))
      as (_ & _ & H & _).
    apply (H (false, [4%N]) []); vm_compute; reflexivity.
Defined.

Definition two_keys : Cert := (false, [400%N; 8%N; 9%N]).
Definition unsupported_key : list KeyAmalgamation := [400%N].
Definition first_key : KeyAmalgamation := 8%N.
Definition later_keys : list KeyAmalgamation := [9%N].

Lemma key_id_spec_witness :
  pgp_key_id (toy_cert_bytes false [400%N; 8%N; 9%N]) = Ok (lit "8").
Proof.
  destruct (proj1 (key_id_spec (toy_cert_bytes false [400%N; 8%N; 9%N])) two_keys)
    as [H _]; [vm_compute; reflexivity |].
  apply (H unsupported_key first_key later_keys);
    [reflexivity | constructor; [| constructor] | repeat split].
  intros (_ & Hs & _). discriminate Hs.
Defined.
