(* ===== verification/PgpRoundtrip.v ===== *)
(** * End-to-end correctness of the OpenPGP functions

    The documented behaviour of Sequoia's writer stack, session-key packets and
    decryptor as laws about a ghost description of a message (its layers), and
    the theorems that encryption and decryption compose: what the SQL functions
    encrypt, they decrypt. *)
From stdpp Require Import base tactics list numbers option strings.
From Stdlib Require Import Strings.Byte.
From S2P Require Import Prelude RustStr PgpOptions PgpText PgpMessage PgpHelpers PgpToy.

Local Open Scope N_scope.

(** ** Specification: messages *)

Section specification.
Context `{OpenpgpTypes}.

(** The layers of a message, outermost first: session-key packets, an encryption
    container with the public-key packets before it, a compression container, a
    literal packet. *)
Inductive layer : Type :=
| SkeskLayer (s : SKESK)
| EncryptedLayer (pkesks : list PKESK) (algorithm : SymmetricAlgorithm.t) (key : SessionKey)
| CompressedLayer (algorithm : CompressionAlgorithm.t)
| LiteralLayer (format : DataFormat.t) (data : bytes).

(** The messages the extension writes. *)
Inductive shape : list layer -> list SKESK -> list PKESK -> SymmetricAlgorithm.t -> SessionKey ->
    DataFormat.t -> bytes -> Prop :=
| shape_intro skesks pkesks a k compressed f d :
    (compressed = [] \/ exists c, compressed = [CompressedLayer c]) ->
    shape ((SkeskLayer <$> skesks) ++ EncryptedLayer pkesks a k :: compressed ++ [LiteralLayer f d])
      skesks pkesks a k f d.

(** The formats of the literal packets among the packets inspected. *)
Definition literal_formats (seen : list Packet) : list DataFormat.t :=
  omap (fun pp => match pp with Literal_packet f => Some f | _ => None end) seen.

Section delivers.
Variable right_key : closure -> option SymmetricAlgorithm.t -> SessionKey -> Prop.
Variable unlocked : closure -> Prop.
Variables (pkesks : list PKESK) (skesks : list SKESK) (a : SymmetricAlgorithm.t) (k : SessionKey).

(** A decryptor that, as long as its helper lets every packet and structure
    pass, asks for the session key with the message's packets and, once its
    closure has been unlocked, ends in a result with [Q].  [seen] are the packets
    it has inspected. *)
Inductive delivers {A} (Q : A -> Prop) : protocol A -> list Packet -> Prop :=
| delivers_done r : Q r -> delivers Q (Done (Ok r)) []
| delivers_inspect pp kont seen :
    delivers Q (kont (Ok tt)) seen -> delivers Q (Inspect pp kont) (pp :: seen)
| delivers_certs ids kont seen :
    delivers Q (kont (Ok [])) seen -> delivers Q (GetCerts ids kont) seen
| delivers_check s kont seen :
    delivers Q (kont (Ok tt)) seen -> delivers Q (CheckStructure s kont) seen
| delivers_decrypt c kont seen :
    right_key c (Some a) k ->
    (forall c' cert, unlocked c' -> delivers Q (kont (Ok cert, c')) seen) ->
    delivers Q (AskDecrypt pkesks skesks None c kont) seen.

End delivers.
End specification.

(** ** Laws of the crate

    The session-key packets a message is written with are the version 3 of RFC
    4880, which name their recipient by its key id: the handle such a packet holds
    prints as that id ([content_for_recipients]). *)

Class OpenpgpLaws (W : Type) `{Openpgp W}
    (content : Message -> list layer -> Prop)
    (right_key : closure -> option SymmetricAlgorithm.t -> SessionKey -> Prop)
    (unlocked : closure -> Prop)
    (belongs : KeyPair -> KeyAmalgamation -> Prop) : Prop := {
  (* session-key packets *)
  skesk_new_law c s2k skesk password n key :
    SKESK4_new c s2k None = Ok skesk -> key_size c = Ok n ->
    derive_key s2k password n = Ok key -> skesk_decrypt skesk password = Ok (Some c, key);
  skesk_with_password_law payload esk s2k key password skesk w w' :
    SKESK4_with_password payload esk s2k key password w = (Ok skesk, w') ->
    skesk_decrypt skesk password = Ok (Some payload, key);
  pkesk_keeps_pair p kp sym_algo : snd (pkesk_decrypt p kp sym_algo) = kp;
  (* the writer stack *)
  content_new : content Message_new [];
  content_serialize m ls s m' :
    content m ls -> serialize (SKESK_packet s) m = Ok m' -> content m' (ls ++ [SkeskLayer s]);
  content_with_session_key m ls a k e w m' w' :
    content m ls -> Encryptor_with_session_key m a k = Ok e ->
    Encryptor_build e w = (Ok m', w') -> content m' (ls ++ [EncryptedLayer [] a k]);
  content_for_recipients m ls rs a w m' w' :
    content m ls -> Encryptor_build (symmetric_algo a (Encryptor_for_recipients m rs)) w = (Ok m', w') ->
    exists pkesks k, content m' (ls ++ [EncryptedLayer pkesks a k]) /\ rs <> []
      /\ Forall2 (fun r p =>
           (exists h, pkesk_recipient p = Some h /\ handle_to_hex h = keyid_to_hex (keyid r))
           /\ forall kp, belongs kp r -> fst (pkesk_decrypt p kp None) = Some (Some a, k)) rs pkesks;
  content_compress m ls l a m' :
    content m ls -> Compressor_build (level l (algo a (Compressor_new m))) = Ok m' ->
    content m' (ls ++ [CompressedLayer a]);
  content_literal m ls f m' :
    content m ls -> LiteralWriter_build (literal_set_format f (LiteralWriter_new m)) = Ok m' ->
    content m' (ls ++ [LiteralLayer f []]);
  content_write m ls f d data m' :
    content m (ls ++ [LiteralLayer f d]) -> message_write_all m data = Ok m' ->
    content m' (ls ++ [LiteralLayer f (d ++ data)]);
  (* the decryptor's closure *)
  right_key_accepted c a k :
    right_key c a k -> exists c', call_decrypt c a k = (true, c') /\ unlocked c';
  accepted_unlocked c a k c' : call_decrypt c a k = (true, c') -> unlocked c';
  refused_same c a k c' a' k' :
    call_decrypt c a k = (false, c') -> right_key c a' k' -> right_key c' a' k';
  (* reading a message back *)
  decryptor_law m ls out skesks pkesks a k f d :
    content m ls -> shape ls skesks pkesks a k f d -> message_finalize m = Ok out ->
    exists b seen seen', DecryptorBuilder_from_bytes out = Ok b
      /\ delivers right_key unlocked pkesks skesks a k
           (fun decryptor => delivers right_key unlocked pkesks skesks a k (fun r => r = d)
                               (decryptor_read_to_end decryptor) seen')
           (with_policy b) seen
      /\ literal_formats (seen ++ seen') = [f];
  pile_law m ls out skesks pkesks a k f d :
    content m ls -> shape ls skesks pkesks a k f d -> message_finalize m = Ok out ->
    (exists e, Cert_from_bytes out = Err e)
    /\ exists rest, PacketPile_from_reader out
         = Ok ((SKESK_packet <$> skesks) ++ (PKESK_packet <$> pkesks) ++ rest);
}.

(** ** Lemmas *)

Section lemmas.
Context {W : Type} `{Openpgp W} {content : Message -> list layer -> Prop}
  {right_key : closure -> option SymmetricAlgorithm.t -> SessionKey -> Prop}
  {unlocked : closure -> Prop} {belongs : KeyPair -> KeyAmalgamation -> Prop}
  `{!OpenpgpLaws W content right_key unlocked belongs}.

(** A candidate with the right key is reached and accepted, or an earlier one is. *)
Lemma present_right c candidates a k :
  right_key c a k -> (a, k) ∈ candidates ->
  exists c', present c candidates = (true, c') /\ unlocked c'.
Proof.
  revert c. induction candidates as [| [a' k'] rest IH]; intros c Hr Hin; [by apply elem_of_nil in Hin |].
  cbn [present]. destruct (call_decrypt c a' k') as [[] c'] eqn:E.
  - exists c'. split; [done |]. by eapply accepted_unlocked.
  - apply elem_of_cons in Hin as [[= -> ->] | Hin].
    + destruct (right_key_accepted _ _ _ Hr) as (c1 & E1 & _). congruence.
    + apply IH; [by eapply refused_same | done].
Qed.

(** A helper in a state that lets everything pass and answers the request for the
    session key. *)
Class Answers {T} `{!VerificationHelper T, !DecryptionHelper T} (helper : T)
    (pkesks : list PKESK) (skesks : list SKESK) (a : SymmetricAlgorithm.t) (k : SessionKey)
    : Prop := {
  answers_inspect pp cell :
    inspect pp helper cell = (Ok tt, helper, inspect_literal_format pp cell);
  answers_certs ids cell : get_certs ids helper cell = (Ok [], helper, cell);
  answers_check s cell : check_structure s helper cell = (Ok tt, helper, cell);
  answers_decrypt c cell :
    right_key c (Some a) k -> exists cert c', unlocked c'
      /\ helper_decrypt pkesks skesks None c helper cell = (Ok cert, c', helper, cell);
}.

(** The mark left by the packets inspected. *)
Definition mark_of (seen : list Packet) (cell : N) : N :=
  fold_left (fun cell pp => inspect_literal_format pp cell) seen cell.

Lemma run_delivers {T A} `{!VerificationHelper T, !DecryptionHelper T} (helper : T)
    pkesks skesks a k (Q : A -> Prop) p seen cell :
  Answers helper pkesks skesks a k ->
  delivers right_key unlocked pkesks skesks a k Q p seen ->
  exists r, run_protocol p helper cell = (Ok r, helper, mark_of seen cell) /\ Q r.
Proof.
  intros Ha Hd. revert cell.
  induction Hd as [r Hr | pp kont seen _ IH | ids kont seen _ IH | s kont seen _ IH
    | c kont seen Hc _ IH]; intros cell; cbn [run_protocol].
  - by exists r.
  - rewrite answers_inspect. destruct (IH (inspect_literal_format pp cell)) as (r & -> & Hr).
    by exists r.
  - rewrite answers_certs. apply IH.
  - rewrite answers_check. apply IH.
  - destruct (answers_decrypt c cell Hc) as (cert & c' & Hu & ->). by apply IH.
Qed.

Definition format_mark (f : DataFormat.t) : N := inspect_literal_format (Literal_packet f) 0.

Lemma mark_of_single seen cell f : literal_formats seen = [f] -> mark_of seen cell = format_mark f.
Proof.
  unfold mark_of, format_mark. revert cell.
  assert (Hnone : forall seen cell, literal_formats seen = [] ->
    fold_left (fun cell pp => inspect_literal_format pp cell) seen cell = cell).
  { clear. induction seen as [| [] seen IH]; intros cell Hs; try done; by apply IH. }
  induction seen as [| pp seen IH]; intros cell Hs; [done |]. cbn [fold_left].
  destruct pp as [p | s | f' | o]; try by apply IH.
  injection Hs as -> Hs. by rewrite Hnone.
Qed.

(** The payload of [write_payload]: at most one compression layer and the literal. *)
Lemma write_payload_content m ls data o out :
  content m ls -> write_payload m data o = Ok out ->
  exists m' compressed,
    content m' (ls ++ compressed ++ [LiteralLayer (literal_format_of o) (payload_of data o)])
    /\ (compressed = [] \/ exists c, compressed = [CompressedLayer c])
    /\ message_finalize m' = Ok out.
Proof.
  intros Hm Hw. unfold write_payload in Hw. apply bind_Ok in Hw as (m1 & Hc & Hw).
  apply bind_Ok in Hw as (m2 & Hl & Hw). apply bind_Ok in Hw as (m3 & Hwr & Hf).
  assert (exists compressed, content m1 (ls ++ compressed)
    /\ (compressed = [] \/ exists c, compressed = [CompressedLayer c])) as (compressed & Hm1 & Hcomp).
  { destruct (negb _ && _).
    - apply bind_Ok in Hc as (l & _ & Hc). eexists. split; [by eapply content_compress |]. eauto.
    - injection Hc as <-. exists []. rewrite app_nil_r. auto. }
  exists m3, compressed. split_and!; [| done..]. rewrite app_assoc.
  change (payload_of data o) with ([] ++ payload_of data o).
  eapply content_write; [| done]. by eapply content_literal.
Qed.


(** Running the decryptor of a message to its end. *)
Lemma open_message {T} `{!VerificationHelper T, !DecryptionHelper T} (helper : T)
    m ls out skesks pkesks a k f d :
  content m ls -> shape ls skesks pkesks a k f d -> message_finalize m = Ok out ->
  Answers helper pkesks skesks a k ->
  exists b decryptor cell, DecryptorBuilder_from_bytes out = Ok b
    /\ run_protocol (with_policy b) helper LITERAL_UNKNOWN = (Ok decryptor, helper, cell)
    /\ run_protocol (decryptor_read_to_end decryptor) helper cell = (Ok d, helper, format_mark f).
Proof.
  intros Hm Hs Hf Ha.
  destruct (decryptor_law _ _ _ _ _ _ _ _ _ Hm Hs Hf) as (b & seen & seen' & Hb & Hd & Hl).
  destruct (run_delivers helper _ _ _ _ _ _ _ LITERAL_UNKNOWN Ha Hd) as (decryptor & Hr & Hd').
  destruct (run_delivers helper _ _ _ _ _ _ _ (mark_of seen LITERAL_UNKNOWN) Ha Hd')
    as (r & Hr' & ->).
  exists b, decryptor, (mark_of seen LITERAL_UNKNOWN). split_and!; [done.. |].
  rewrite Hr'. do 2 f_equal. unfold mark_of. rewrite <- fold_left_app. by apply mark_of_single.
Qed.

(** ** Symmetric encryption *)

Lemma lift_Ok {E A} (r : result E A) (w : W) a w' : lift r w = (Ok a, w') -> r = Ok a /\ w' = w.
Proof. unfold lift. by intros [= -> ->]. Qed.

Lemma unwrap_pgp_Ok {A} (r : fallible A) context a :
  unwrap_or_else r (pgp_error context) = Ok a -> r = Ok a.
Proof. by destruct r as [x | e]; [intros [= ->] |]. Qed.

Lemma or_fail_pgp_Ok {A} (t : try W A) context w a w' :
  or_fail t (pgp_error context) w = (Ok a, w') -> t w = (Ok a, w').
Proof. unfold or_fail. destruct (t w) as [[x | e] w1]; [by intros [= -> ->] | done]. Qed.

(** Takes the first step of a run that ends in a value. *)
Ltac next Hrun x Hx :=
  apply stateful_bind_Ok in Hrun as (x & ?w & Hx & Hrun).

Lemma sym_encrypt_content data password options text w out w' :
  sym_encrypt data password options text w = (Ok out, w') ->
  exists o skesk k m ls, parse_options options text = Ok o
    /\ content m ls
    /\ shape ls [skesk] [] (cipher o) k (literal_format_of o) (payload_of data o)
    /\ message_finalize m = Ok out
    /\ skesk_decrypt skesk password = Ok (Some (cipher o), k).
Proof.
  intros Hrun. unfold sym_encrypt in Hrun. next Hrun o Ho. apply lift_Ok in Ho as [Ho ->].
  next Hrun made Hmade. next Hrun s2k Hs2k. apply lift_Ok in Hs2k as [_ ->].
  next Hrun u Hu. apply lift_Ok in Hu as [Hguard ->].
  next Hrun key Hkey. next Hrun skesk Hskesk. next Hrun m1 Hm1.
  apply lift_Ok in Hm1 as [Hm1%unwrap_pgp_Ok ->]. next Hrun m2 Hm2. apply or_fail_pgp_Ok in Hm2.
  apply lift_Ok in Hrun as [Hrun%unwrap_pgp_Ok ->].
  apply stateful_bind_Ok in Hm2 as (e & w5 & [He ->]%lift_Ok & Hb).
  pose proof (content_with_session_key _ _ _ _ _ _ _ _
    (content_serialize _ _ _ _ content_new Hm1) He Hb) as Hc.
  destruct (write_payload_content _ _ _ _ _ Hc Hrun) as (m' & compressed & Hm' & Hcomp & Hf).
  exists o, skesk, key, m', ([SkeskLayer skesk] ++ EncryptedLayer [] (cipher o) key
    :: compressed ++ [LiteralLayer (literal_format_of o) (payload_of data o)]).
  split_and!; [done | | by apply (shape_intro [skesk]) | done |].
  - by rewrite <- app_assoc in Hm'.
  - destruct (use_session_key o).
    + apply or_fail_pgp_Ok in Hskesk. by eapply skesk_with_password_law.
    + next Hkey n Hsize. apply lift_Ok in Hsize as [Hsize%unwrap_pgp_Ok ->].
      apply lift_Ok in Hkey as [Hkey%unwrap_pgp_Ok ->].
      apply lift_Ok in Hskesk as [Hskesk%unwrap_pgp_Ok ->].
      assert (default (cipher o) (s2k_cipher o) = cipher o) as Ec.
      { unfold reject_if in Hguard. by case_bool_decide. }
      rewrite Ec in Hskesk. by eapply skesk_new_law.
Qed.

#[local] Instance password_answers password skesk a k :
  skesk_decrypt skesk password = Ok (Some a, k) ->
  Answers {| helper_password := password |} [] [skesk] a k.
Proof.
  intros Hs. split; try done. intros c cell Hc.
  destruct (present_right c (password_keys password [skesk]) (Some a) k Hc) as (c' & Hp & Hu).
  { unfold password_keys. cbn [omap list_omap]. rewrite Hs. cbn [value]. apply list_elem_of_here. }
  exists None, c'. split; [done |]. unfold helper_decrypt, PasswordHelper_decryption.
  rewrite try_skesks_present. cbn [helper_password]. by rewrite Hp.
Qed.

Lemma sym_decrypt_encrypted data password options text w out w' :
  sym_encrypt data password options text w = (Ok out, w') ->
  exists o, parse_options options text = Ok o
    /\ sym_decrypt out password = Ok (payload_of data o, format_mark (literal_format_of o)).
Proof.
  intros Hrun. destruct (sym_encrypt_content _ _ _ _ _ _ _ Hrun)
    as (o & skesk & k & m & ls & Ho & Hm & Hs & Hf & Hk).
  exists o. split; [done |]. pose proof (password_answers _ _ _ _ Hk) as Ha.
  destruct (open_message _ _ _ _ _ _ _ _ _ _ Hm Hs Hf Ha) as (b & decryptor & cell & Hb & H1 & H2).
  unfold sym_decrypt. rewrite Hb. cbn [unwrap_or_else mbind result_bind]. rewrite H1.
  cbn [unwrap_or_else mbind result_bind]. rewrite H2. done.
Qed.

(** ** Public-key encryption *)

(** The public-key packets give the message's key to the pairs of their
    recipients. *)
Definition packets_for (a : SymmetricAlgorithm.t) (k : SessionKey) : KeyAmalgamation -> PKESK -> Prop :=
  fun r p =>
    (exists h, pkesk_recipient p = Some h /\ handle_to_hex h = keyid_to_hex (keyid r))
    /\ forall kp, belongs kp r -> fst (pkesk_decrypt p kp None) = Some (Some a, k).

Lemma pub_encrypt_content data public_key options text w out w' :
  pub_encrypt data public_key options text w = (Ok out, w') ->
  exists o cert pkesks k m ls, parse_options options text = Ok o
    /\ Cert_from_bytes public_key = Ok cert /\ is_tsk cert = false
    /\ content m ls
    /\ shape ls [] pkesks (cipher o) k (literal_format_of o) (payload_of data o)
    /\ message_finalize m = Ok out
    /\ encryption_keys cert <> [] /\ Forall2 (packets_for (cipher o) k) (encryption_keys cert) pkesks.
Proof.
  intros Hrun. unfold pub_encrypt in Hrun. next Hrun o Ho. apply lift_Ok in Ho as [Ho ->].
  next Hrun cert Hcert. apply lift_Ok in Hcert as [Hcert%unwrap_pgp_Ok ->].
  next Hrun u Hu. apply lift_Ok in Hu as [Hu ->]. next Hrun m1 Hm1.
  apply or_fail_pgp_Ok in Hm1. apply lift_Ok in Hrun as [Hrun%unwrap_pgp_Ok ->].
  destruct (content_for_recipients _ _ _ _ _ _ _ content_new Hm1) as (pkesks & k & Hc & Hne & Hall).
  destruct (write_payload_content _ _ _ _ _ Hc Hrun) as (m' & compressed & Hm' & Hcomp & Hf).
  exists o, cert, pkesks, k, m', (EncryptedLayer pkesks (cipher o) k
    :: compressed ++ [LiteralLayer (literal_format_of o) (payload_of data o)]).
  split_and!; try done.
  - by destruct (is_tsk cert).
  - by apply (shape_intro []).
Qed.

#[local] Instance key_answers ps hc recipients pkesks a k r kp :
  Forall2 (packets_for a k) recipients pkesks -> r ∈ recipients -> kp ∈ ps -> belongs kp r ->
  Answers {| pairs := ps; helper_cert := hc |} pkesks [] a k.
Proof.
  intros Hall Hr Hkp Hb. split; try done. intros c cell Hc.
  destruct (present_right c (pair_keys ps pkesks None) (Some a) k Hc) as (c' & Hp & Hu).
  { unfold pair_keys. apply list_elem_of_lookup in Hr as [i Hi].
    destruct (Forall2_lookup_l _ _ _ _ _ Hall Hi) as (p & Hpi & _ & Hdec).
    apply list_elem_of_bind. exists p. split; [| by eapply list_elem_of_lookup_2].
    apply list_elem_of_omap. exists kp. split; [done | by apply Hdec]. }
  exists (Some hc), c'. split; [done |]. unfold helper_decrypt, KeyHelper_decryption.
  rewrite try_pkesks_present by (intros p kp' sym; apply pkesk_keeps_pair).
  cbn [pairs helper_cert]. by rewrite Hp.
Qed.

(** A secret key, unlocked by a password, that can read what is encrypted to a
    certificate. *)
Definition can_read (secret_key password : bytes) (cert : Cert) : Prop :=
  exists scert (keys : list SecretKey) kp r, Cert_from_bytes secret_key = Ok scert
    /\ mapM (M := result failure) (unlock password) (cert_secret_keys scert) = Ok keys
    /\ kp ∈ omap (fun k => value (into_keypair k)) keys
    /\ r ∈ encryption_keys cert /\ belongs kp r.

Lemma pub_decrypt_encrypted data public_key cert secret_key password options text w out w' :
  pub_encrypt data public_key options text w = (Ok out, w') ->
  Cert_from_bytes public_key = Ok cert -> can_read secret_key password cert ->
  exists o, parse_options options text = Ok o
    /\ pub_decrypt out secret_key password
         = Ok (payload_of data o, format_mark (literal_format_of o)).
Proof.
  intros Hrun Hcert (scert & ks & kp & r & Hsc & Hks & Hkp & Hr & Hb).
  destruct (pub_encrypt_content _ _ _ _ _ _ _ Hrun)
    as (o & cert' & pkesks & k & m & ls & Ho & Hc' & _ & Hm & Hs & Hf & _ & Hall).
  rewrite Hcert in Hc'. injection Hc' as <-. exists o. split; [done |].
  pose proof (key_answers _ scert _ _ _ _ _ _ Hall Hr Hkp Hb) as Ha.
  destruct (open_message _ _ _ _ _ _ _ _ _ _ Hm Hs Hf Ha) as (b & decryptor & cell & Hfb & H1 & H2).
  unfold pub_decrypt. rewrite Hsc. cbn [unwrap_or_else mbind result_bind].
  rewrite unlock_keys_eq, Hks. cbn [mbind result_bind app].
  rewrite bool_decide_false by (intros Hl%nil_length_inv; rewrite Hl in Hkp; by apply elem_of_nil in Hkp).
  cbn [reject_if mbind result_bind]. rewrite Hfb. cbn [unwrap_or_else mbind result_bind].
  rewrite H1. cbn [unwrap_or_else mbind result_bind]. by rewrite H2.
Qed.

(** ** Texts *)

Lemma payload_binary data options o :
  parse_options options false = Ok o ->
  payload_of data o = data /\ format_mark (literal_format_of o) = LITERAL_BINARY.
Proof.
  intros Ho. destruct (parse_options_wf _ _ _ Ho) as [_ Ht].
  unfold payload_of, literal_format_of. by rewrite Ht.
Qed.

Lemma payload_text data options o :
  parse_options options true = Ok o ->
  payload_of data o = (if convert_crlf o then crlf_insert data else data)
  /\ (format_mark (literal_format_of o) = LITERAL_TEXT
      \/ format_mark (literal_format_of o) = LITERAL_UNICODE).
Proof.
  intros Ho. destruct (parse_options_wf _ _ _ Ho) as [_ Ht].
  unfold payload_of, literal_format_of. rewrite Ht. split.
  - destruct (convert_crlf o); [apply crlf_encode_insert | done].
  - destruct (unicode_mode o); [by right | by left].
Qed.

(** A text written with the same conversion it is read with comes back. *)
Lemma decrypted_text_payload data options o dopts :
  parse_options options true = Ok o -> utf8 data -> NUL ∉ data ->
  decrypt_convert_crlf dopts = convert_crlf o ->
  decrypted_text (payload_of data o) (format_mark (literal_format_of o)) dopts = Ok data.
Proof.
  intros Ho Hu Hn Hd. destruct (payload_text data _ _ Ho) as [-> Hm].
  unfold decrypted_text. rewrite Hd.
  assert (((format_mark (literal_format_of o) =? LITERAL_TEXT)
           || (format_mark (literal_format_of o) =? LITERAL_UNICODE)) = true) as ->
    by by destruct Hm as [-> | ->].
  cbn [negb]. assert ((if convert_crlf o
    then crlf_decode (if convert_crlf o then crlf_insert data else data)
    else Ok (if convert_crlf o then crlf_insert data else data)) = Ok data) as ->.
  { destruct (convert_crlf o); [| done]. by rewrite crlf_decode_remove, crlf_remove_insert. }
  cbn [mbind result_bind]. rewrite (proj2 (contains_byte_false _ _)) by done.
  by rewrite (proj2 (from_utf8_Ok data data)).
Qed.

Lemma decrypted_text_binary data dopts :
  decrypted_text data LITERAL_BINARY dopts
    = Err (PgError (lit "decrypted OpenPGP data is not text")).
Proof. done. Qed.

End lemmas.

(** ** Properties *)

Section properties.
Context {W : Type} `{Openpgp W} {content : Message -> list layer -> Prop}
  {right_key : closure -> option SymmetricAlgorithm.t -> SessionKey -> Prop}
  {unlocked : closure -> Prop} {belongs : KeyPair -> KeyAmalgamation -> Prop}
  `{HL : !OpenpgpLaws W content right_key unlocked belongs}.

(** C1: A text encrypted with a password is decrypted with that password, for
    every accepted option string (cipher, compression, S2K mode, separate session
    key, ...), as long as [convert-crlf] is the same on both sides.  The bytea
    decryptor gives the payload as it was written, with the line ends converted
    when that was asked. *)
Theorem sym_text_roundtrip data password options dopts d o w out w' :
  pgp_sym_encrypt data password options w = (Ok out, w') ->
  parse_options options true = Ok o -> utf8 data -> NUL ∉ data ->
  parse_decrypt_options dopts = Ok d ->
  (decrypt_convert_crlf d = convert_crlf o -> pgp_sym_decrypt out password dopts = Ok data)
  /\ pgp_sym_decrypt_bytea out password dopts
       = Ok (if convert_crlf o then crlf_encode data else data).
Proof.
  intros Hrun Ho Hu Hn Hd.
  destruct (sym_decrypt_encrypted _ _ _ _ _ _ _ Hrun) as (o' & Ho' & Hdec).
  assert (o' = o) as -> by congruence. unfold pgp_sym_decrypt, pgp_sym_decrypt_bytea.
  rewrite Hd, Hdec. cbn [mbind result_bind fst]. split.
  - intros He. by eapply decrypted_text_payload.
  - rewrite (proj1 (payload_text data _ _ Ho)). by rewrite crlf_encode_insert.
Qed.

(** C6: Bytes encrypted with a password come back unchanged from the bytea
    decryptor, whatever the options on either side, [convert-crlf] included; the
    text decryptor refuses the message because it is not marked as text. *)
Theorem sym_bytea_roundtrip data password options dopts d w out w' :
  pgp_sym_encrypt_bytea data password options w = (Ok out, w') ->
  parse_decrypt_options dopts = Ok d ->
  pgp_sym_decrypt_bytea out password dopts = Ok data
  /\ pgp_sym_decrypt out password dopts
       = Err (PgError (lit "decrypted OpenPGP data is not text")).
Proof.
  intros Hrun Hd. destruct (sym_decrypt_encrypted _ _ _ _ _ _ _ Hrun) as (o & Ho & Hdec).
  unfold pgp_sym_decrypt, pgp_sym_decrypt_bytea. rewrite Hd, Hdec. cbn [mbind result_bind fst].
  destruct (payload_binary data _ _ Ho) as [-> ->]. by rewrite decrypted_text_binary.
Qed.

(** C2: A text encrypted to a certificate is decrypted by every secret key one of
    whose unlocked pairs belongs to one of the certificate's encryption keys, as
    long as [convert-crlf] is the same on both sides. *)
Theorem pub_text_roundtrip data public_key cert secret_key password options dopts d o w out w' :
  pgp_pub_encrypt data public_key options w = (Ok out, w') ->
  Cert_from_bytes public_key = Ok cert -> can_read (belongs := belongs) secret_key password cert ->
  parse_options options true = Ok o -> utf8 data -> NUL ∉ data ->
  parse_decrypt_options dopts = Ok d ->
  (decrypt_convert_crlf d = convert_crlf o ->
     pgp_pub_decrypt out secret_key password dopts = Ok data)
  /\ pgp_pub_decrypt_bytea out secret_key password dopts
       = Ok (if convert_crlf o then crlf_encode data else data).
Proof.
  intros Hrun Hcert Hread Ho Hu Hn Hd.
  destruct (pub_decrypt_encrypted _ _ _ _ _ _ _ _ _ _ Hrun Hcert Hread) as (o' & Ho' & Hdec).
  assert (o' = o) as -> by congruence. unfold pgp_pub_decrypt, pgp_pub_decrypt_bytea.
  rewrite Hd, Hdec. cbn [mbind result_bind fst]. split.
  - intros He. by eapply decrypted_text_payload.
  - rewrite (proj1 (payload_text data _ _ Ho)). by rewrite crlf_encode_insert.
Qed.

(** C7: Bytes encrypted to a certificate come back unchanged from the bytea
    decryptor of every secret key that can read the message, and are refused by
    the text decryptor. *)
Theorem pub_bytea_roundtrip data public_key cert secret_key password options dopts d w out w' :
  pgp_pub_encrypt_bytea data public_key options w = (Ok out, w') ->
  Cert_from_bytes public_key = Ok cert -> can_read (belongs := belongs) secret_key password cert ->
  parse_decrypt_options dopts = Ok d ->
  pgp_pub_decrypt_bytea out secret_key password dopts = Ok data
  /\ pgp_pub_decrypt out secret_key password dopts
       = Err (PgError (lit "decrypted OpenPGP data is not text")).
Proof.
  intros Hrun Hcert Hread Hd.
  destruct (pub_decrypt_encrypted _ _ _ _ _ _ _ _ _ _ Hrun Hcert Hread) as (o & Ho & Hdec).
  unfold pgp_pub_decrypt, pgp_pub_decrypt_bytea. rewrite Hd, Hdec. cbn [mbind result_bind fst].
  destruct (payload_binary data _ _ Ho) as [-> ->]. by rewrite decrypted_text_binary.
Qed.

(** C17: The key id of a message encrypted with a password is [SYMKEY], and that of
    a message encrypted to a certificate is the key id of the certificate itself.
    A certificate with secret keys is never accepted for encryption. *)
Theorem key_id_of_message data password public_key options text w out w' :
  (sym_encrypt data password options text w = (Ok out, w') -> pgp_key_id out = Ok (lit "SYMKEY"))
  /\ (pub_encrypt data public_key options text w = (Ok out, w') ->
      pgp_key_id out = pgp_key_id public_key
      /\ (exists id, pgp_key_id out = Ok id)
      /\ exists cert, Cert_from_bytes public_key = Ok cert /\ is_tsk cert = false).
Proof.
  split.
  - intros Hrun. destruct (sym_encrypt_content _ _ _ _ _ _ _ Hrun)
      as (o & skesk & k & m & ls & Ho & Hm & Hs & Hf & Hk).
    destruct (pile_law _ _ _ _ _ _ _ _ _ Hm Hs Hf) as ([e He] & rest & Hpile).
    unfold pgp_key_id. by rewrite He, Hpile.
  - intros Hrun. destruct (pub_encrypt_content _ _ _ _ _ _ _ Hrun)
      as (o & cert & pkesks & k & m & ls & Ho & Hcert & Htsk & Hm & Hs & Hf & Hne & Hall).
    destruct (pile_law _ _ _ _ _ _ _ _ _ Hm Hs Hf) as ([e He] & rest & Hpile).
    unfold pgp_key_id. rewrite He, Hpile, Hcert. cbn [unwrap_or_else mbind result_bind].
    destruct (encryption_keys cert) as [| r rs]; [done |].
    apply Forall2_cons_inv_l in Hall as (p & ps & [(h & Hr & Hhex) _] & _ & ->).
    cbn [fmap list_fmap app first_session_key head]. rewrite Hr, Hhex. split_and!; [done | by eexists | by exists cert].
Qed.

End properties.

(** ** The concrete crate meets the laws *)
Module Toy.

Definition to_toy (l : layer) : toy_layer :=
  match l with
  | SkeskLayer s => LSkesk s
  | EncryptedLayer pkesks a k => LEncrypted (pkesks, a, k)
  | CompressedLayer _ => LCompressed
  | LiteralLayer f d => LLiteral f d
  end.
Definition toy_other : Packet := @Other_packet toy_types tt.
Definition toy_content (m : Message) (ls : list layer) : Prop := m = (to_toy <$> ls : toy_message).
Definition toy_right (c : closure) (a : option SymmetricAlgorithm.t) (k : SessionKey) : Prop :=
  a = Some c.1.1 /\ k = c.1.2.
Definition toy_unlocked (c : closure) : Prop := c.2 = true.
Definition toy_belongs (kp : KeyPair) (r : KeyAmalgamation) : Prop := kp = r.

Lemma split_skesks_app skesks e rest :
  split_skesks ((LSkesk <$> skesks) ++ LEncrypted e :: rest) = (skesks, LEncrypted e :: rest).
Proof.
  induction skesks as [| s ss IH]; [done |]. rewrite fmap_cons.
  cbn [app split_skesks]. unfold LSkesk at 1. by rewrite IH.
Qed.

Lemma toy_parse_shape m ls skesks pkesks a k f d :
  toy_content m ls -> shape ls skesks pkesks a k f d ->
  toy_parse ("P"%byte :: pack (m : toy_message)) =
    Some {| toy_skesks := skesks; toy_container := (pkesks, a, k); toy_literal := (f, d) |}.
Proof.
  intros -> Hs. unfold toy_parse. rewrite unpack_pack. cbn [mbind option_bind].
  destruct Hs as [skesks pkesks a k compressed f d Hc].
  rewrite fmap_app, <- list_fmap_compose, fmap_cons.
  change (to_toy ∘ SkeskLayer) with LSkesk.
  change (to_toy (EncryptedLayer pkesks a k)) with (LEncrypted (pkesks, a, k)).
  rewrite split_skesks_app. by destruct Hc as [-> | [c ->]].
Qed.

Lemma write_last m ls f d data m' :
  toy_content m (ls ++ [LiteralLayer f d]) -> message_write_all m data = Ok m' ->
  toy_content m' (ls ++ [LiteralLayer f (d ++ data)]).
Proof.
  unfold toy_content. intros -> Hw. rewrite !fmap_app in *. revert Hw.
  unfold message_write_all, toy_openpgp. cbn [fmap list_fmap to_toy].
  rewrite rev_app_distr. cbn [rev app LLiteral]. rewrite rev_involutive. by intros [= <-].
Qed.

#[export] Instance toy_laws :
  OpenpgpLaws N toy_content toy_right toy_unlocked toy_belongs.
Proof.
  split.
  - by intros c s2k skesk password n key [= <-] _ [= <-].
  - intros payload esk s2k key password skesk w w' [= <- _]. cbn. by rewrite bool_decide_true.
  - done.
  - done.
  - intros m ls s m' -> [= <-]. unfold toy_content. by rewrite fmap_app.
  - intros m ls a k e w m' w' -> [= <-] [= <- _]. unfold toy_content. by rewrite fmap_app.
  - intros m ls [| r rs] a w m' w' -> Hb; [done |]. cbn [Encryptor_build toy_openpgp symmetric_algo
      Encryptor_for_recipients fst snd] in Hb. injection Hb as <- _.
    exists ((fun r => (r, a, lit "k")) <$> r :: rs), (lit "k").
    split; [unfold toy_content; by rewrite fmap_app |]. split; [done |].
    apply Forall2_fmap_r, Forall_Forall2_diag, Forall_forall. intros x _. split; [by eexists |].
    intros kp ->. cbn. by rewrite bool_decide_true.
  - intros m ls l a m' -> [= <-]. unfold toy_content. by rewrite fmap_app.
  - intros m ls f m' -> [= <-]. unfold toy_content. by rewrite fmap_app.
  - apply write_last.
  - intros c a k [-> ->]. exists (c.1, true). cbn. unfold toy_call. by rewrite bool_decide_true.
  - intros c a k c'. cbn. unfold toy_call. case_bool_decide; [by intros [= <-] | done].
  - intros c a k c' a' k'. cbn. unfold toy_call. case_bool_decide; [done | by intros [= <-]].
  - intros m ls out skesks pkesks a k f d Hm Hs [= <-].
    pose proof (toy_parse_shape _ _ _ _ _ _ _ _ Hm Hs) as Hp.
    exists {| toy_skesks := skesks; toy_container := (pkesks, a, k); toy_literal := (f, d) |},
      [toy_other; Literal_packet f], [].
    split; [cbn [DecryptorBuilder_from_bytes toy_openpgp]; by rewrite Hp |]. split; [| done].
    cbn [with_policy toy_openpgp]. unfold toy_with_policy. cbn [toy_container toy_skesks toy_literal].
    apply delivers_inspect, delivers_decrypt; [done |].
    intros [[a' k'] b] cert Hu. unfold toy_unlocked in Hu. cbn in Hu. subst b.
    apply delivers_inspect, delivers_done. cbn [decryptor_read_to_end toy_openpgp fst snd].
    apply delivers_check. by apply delivers_done.
  - intros m ls out skesks pkesks a k f d Hm Hs [= <-].
    pose proof (toy_parse_shape _ _ _ _ _ _ _ _ Hm Hs) as Hp.
    split; [by eexists |]. exists [toy_other].
    cbn [PacketPile_from_reader toy_openpgp]. by rewrite Hp.
Qed.

End Toy.

Import Toy.

(** Messages of the concrete crate. *)
Definition output_of {W} (run : outcome bytes * W) : bytes :=
  match fst run with Ok out => out | Err _ => [] end.
Definition example_options : bytes := lit "cipher-algo=aes256, compress-algo=1,convert-crlf=1, sess-key=1".
Definition example_public : bytes := toy_cert_bytes false [4%N; 8%N].
Definition example_secret : bytes := toy_cert_bytes true [6%N; 8%N].
Definition sym_text : bytes := Eval vm_compute in
  output_of (pgp_sym_encrypt (lit "data") (lit "pw") example_options 5%N).
Definition sym_bytes : bytes := Eval vm_compute in
  output_of (pgp_sym_encrypt_bytea (lit "data") (lit "pw") example_options 5%N).
Definition pub_text : bytes := Eval vm_compute in
  output_of (pgp_pub_encrypt (lit "data") example_public example_options 5%N).
Definition pub_bytes : bytes := Eval vm_compute in
  output_of (pgp_pub_encrypt_bytea (lit "data") example_public example_options 5%N).

Definition example_cert : Cert := (false, [4%N; 8%N]).
Definition example_secret_cert : Cert := (true, [6%N; 8%N]).
Definition example_secret_keys : list SecretKey := [6%N; 8%N].
Definition example_pair : KeyPair := 8%N.
Definition example_recipient : KeyAmalgamation := 8%N.

Lemma example_can_read : can_read (belongs := toy_belongs) example_secret (lit "pw") example_cert.
Proof.
  exists example_secret_cert, example_secret_keys, example_pair, example_recipient.
  split_and!; [by vm_compute | by vm_compute | cbn; find_elem | vm_compute; find_elem | done].
Qed.

Lemma data_utf8 : utf8 (lit "data").
Proof. by apply ascii_utf8. Qed.
Lemma data_no_nul : NUL ∉ lit "data".
Proof. by apply contains_byte_false. Qed.

Definition example_parsed : PgpOptions :=
  match parse_options example_options true with Ok o => o | Err _ => default_options true end.

Lemma sym_text_roundtrip_witness :
  pgp_sym_decrypt sym_text (lit "pw") (lit "convert-crlf=1") = Ok (lit "data").
Proof.
  destruct (sym_text_roundtrip (HL := toy_laws) (lit "data") (lit "pw") example_options
    (lit "convert-crlf=1") {| decrypt_convert_crlf := true |} example_parsed 5%N sym_text 10%N)
    as [H _]; [vm_compute; reflexivity.. | exact data_utf8 | exact data_no_nul | vm_compute; reflexivity |].
  apply H. vm_compute. reflexivity.
Defined.

Lemma sym_bytea_roundtrip_witness :
  pgp_sym_decrypt_bytea sym_bytes (lit "pw") (lit "convert-crlf=1") = Ok (lit "data").
Proof.
  destruct (sym_bytea_roundtrip (HL := toy_laws) (lit "data") (lit "pw") example_options
    (lit "convert-crlf=1") {| decrypt_convert_crlf := true |} 5%N sym_bytes 10%N)
    as [H _]; [vm_compute; reflexivity.. | exact H].
Defined.

Lemma pub_text_roundtrip_witness :
  pgp_pub_decrypt pub_text example_secret (lit "pw") (lit "convert-crlf=1") = Ok (lit "data").
Proof.
  destruct (pub_text_roundtrip (HL := toy_laws) (lit "data") example_public example_cert
    example_secret (lit "pw") example_options (lit "convert-crlf=1")
    {| decrypt_convert_crlf := true |} example_parsed 5%N pub_text 6%N) as [H _];
    [vm_compute; reflexivity.. | exact example_can_read | vm_compute; reflexivity
    | exact data_utf8 | exact data_no_nul | vm_compute; reflexivity |].
  apply H. vm_compute. reflexivity.
Defined.

Lemma pub_bytea_roundtrip_witness :
  pgp_pub_decrypt_bytea pub_bytes example_secret (lit "pw") [] = Ok (lit "data").
Proof.
  destruct (pub_bytea_roundtrip (HL := toy_laws) (lit "data") example_public example_cert
    example_secret (lit "pw") example_options [] {| decrypt_convert_crlf := false |} 5%N pub_bytes 6%N)
    as [H _]; [vm_compute; reflexivity.. | exact example_can_read | vm_compute; reflexivity | exact H].
Defined.

Lemma key_id_of_message_witness :
  pgp_key_id sym_text = Ok (lit "SYMKEY") /\ pgp_key_id pub_text = pgp_key_id example_public.
Proof.
  split.
  - apply (proj1 (key_id_of_message (HL := toy_laws) (lit "data") (lit "pw") [] example_options true
      5%N sym_text 10%N)). vm_compute. reflexivity.
  - apply (proj2 (key_id_of_message (HL := toy_laws) (lit "data") (lit "pw") example_public
      example_options true 5%N pub_text 6%N)). vm_compute. reflexivity.
Defined.
